(* ===== verification/_CoqProject ===== *)
-Q . S2P
Prelude.v
Endian.v
Atomic.v
ConnQueue.v
External.v
World.v
Codec.v
Decoder.v
Wire.v
Delivery.v
ProtoWire.v
RpcPb.v
RpcPbProps.v
RpcPbParse.v
RpcStream.v
RpcStrings.v
RpcStringsProps.v
Pool.v
TcpServer.v
ServerInv.v
ServerRun.v
ServerBoot.v
ServerProps.v
ServerEnd.v
RpcChannel.v
ChannelLemmas.v
RpcCalls.v
RpcInv.v
RpcSteps.v
RpcTrip.v
RpcProps.v
RpcDemo.v
RpcThreads.v
ThreadAlone.v
ThreadInv.v
ThreadSteps.v
ThreadNumbers.v
ThreadProps.v
ThreadRace.v
ThreadDemo.v
RpcServer.v
RpcServerProps.v
TcpClient.v
ClientProps.v
ExampleClient.v
ExampleServer.v
Preproc.v
CompilerInfo.v
CompilerRead.v
CompilerIdC.v
CompilerIdCXX.v
CompilerTyped.v
CompilerProps.v
CompilerAgree.v
CompilerMain.v
CompilerVersions.v
CompilerDemo.v
