(* ===== verification/Prelude.v ===== *)
(** * mRpc: a verification development (root file)

    mRpc is a small RPC library in C++ over libevent, protobuf and zlib.  A
    server ([src/src/tcpServer.{h,cpp}]) accepts connections in one thread and hands
    each to the least loaded of its worker threads; a client
    ([src/src/tcpClient.{h,cpp}]) has one connection and one event loop; both pass what
    they read to a codec ([src/src/codeClite.{h,cpp}]) that cuts the byte stream into
    frames, and a channel ([src/src/rpcChannel.{h,cpp}]) turns frames into calls of
    services and answers of calls, with messages of the generated class
    [RpcMessage] ([src/src/rpc.pb.{h,cc}]).  The repository also holds the two
    programs by which its build identified the compilers
    ([src/src/build/CMakeFiles/3.10.2/]), and an example client and server
    ([src/test/]).

    ** How the code is modelled

    C++ code that reads and writes objects is a computation of the monad [M] of
    this file: it returns, meets a [fault] (null or dangling pointer, double
    free, a failed assertion, a fatal check, overflow, undefined behaviour of
    the library) or throws.  Objects live on explicit heaps with pointers as
    keys; a freed object is absent, so that use after free and double free are
    faults of the model.  Integers are [Z] with the conversions [wrap] and
    [swrap] written where the code converts.  The names of the definitions are
    those of the code; the members of a class are in a Module of its name where
    names would clash.

    The libraries (libevent's buffers, bufferevents and loops, zlib's adler32,
    protobuf's runtime, glibc) and the user's callbacks, services and closures
    are type classes of operations with classes of documented laws
    ([External.v], [ProtoWire.v], [RpcChannel.v], [RpcSteps.v]); each has a
    concrete instance on which the theorems are run.  An event loop is a
    relation whose steps are whole handlers.  Threads that call and receive on
    a channel interleave at the grain of their accesses to shared state.

    ** The files

    - [Prelude.v]: outcomes, the monad and its tactics ([mrun], [minv]),
      fixed-width integers, list lemmas.
    - [Endian.v] ([src/include/ev_endian.h]), [Atomic.v]
      ([src/include/atomic.h]).
    - [ConnQueue.v] ([class Conn], [class ConnQueue] of tcpServer.h): the
      doubly linked list, every pointer assignment a store; insertion and
      deletion refine the operations on lists, destruction frees everything.
    - [External.v], [World.v]: the libraries, and the state of the process that
      handlers share, with the accessors of [Conn].
    - [Codec.v], [Decoder.v], [Wire.v], [Delivery.v] (codeClite.{h,cpp}, google-inl.h):
      encoder and decoder; [decode] is the specification of the decoder on bytes
      and [onMessage] refines it; from it follow the round trip of any sequence
      of messages, the rejection of damaged and oversized frames, and what the
      loop loses (a frame that arrives in two parts).
    - [ProtoWire.v], [RpcPb.v], [RpcPbProps.v], [RpcPbParse.v], [RpcStream.v]
      (rpc.pb.{h,cc}): the message on values, with its accessors, parser and
      serialisers; [RpcStrings.v], [RpcStringsProps.v]: its string objects on a
      heap, which refine the values.
    - [Pool.v], [TcpServer.v], [ServerInv.v], [ServerRun.v], [ServerBoot.v],
      [ServerProps.v], [ServerEnd.v] (tcpServer.{h,cpp}): the server's handlers,
      the invariant that relates heap, queues, bufferevents and callback
      arguments, the safety of every run, and what the destructor leaves.
    - [RpcChannel.v], [ChannelLemmas.v], [RpcCalls.v], [RpcInv.v], [RpcSteps.v],
      [RpcTrip.v], [RpcProps.v], [RpcDemo.v] (rpcChannel.{h,cpp}, rpcCode.{h,cpp}): the
      channel, who owns the response and the closure of an outstanding call, the
      safety of every program of channels, a whole call from client to server
      and back, and the concrete echo service.
    - [RpcThreads.v], [ThreadAlone.v], [ThreadInv.v], [ThreadSteps.v],
      [ThreadNumbers.v], [ThreadProps.v], [ThreadRace.v], [ThreadDemo.v]
      (rpcChannel.cpp): [CallMethod] and [onRpcMessage] cut at their accesses to
      the counter, the map under its mutex, the heap and the output buffer;
      the invariant of every interleaving, its data races and the calls they
      lose.  Alone, the accesses are the functions of [RpcChannel.v].
    - [RpcServer.v], [RpcServerProps.v] (rpcServer.{h,cpp}): the server of channels,
      and the channel that dies before its connection.
    - [TcpClient.v], [ClientProps.v] (tcpClient.{h,cpp}): the life of a client.
    - [ExampleClient.v], [ExampleServer.v] (test/client.cpp, test/server.cpp,
      test/rpc.proto): applications of the library, client and channel composed.
    - [Preproc.v], [CompilerInfo.v], [CompilerIdC.v], [CompilerIdCXX.v]: the part
      of the preprocessor that the compiler identification programs use, what
      they share and each program group by group; [CompilerRead.v],
      [CompilerTyped.v], [CompilerProps.v], [CompilerAgree.v], [CompilerMain.v],
      [CompilerVersions.v], [CompilerDemo.v]: what a reader of the compiled
      programs finds, which compiler is named, that the two programs agree, and
      the run on GCC 7.4 that yields the strings of the committed binaries.

    ** The groups of theorems

    - Wire format: what is sent is delivered, in order and once
      ([Wire.onMessage_delivers_sent]); nothing is delivered that does not carry
      its own checksum; damaged input ends in the error callback.
    - Calls: [RpcProps.rpc_round_trip] composes channel, codec and message on
      both sides; [channels_never_fault] and [outstanding_calls_separate] hold
      of every sequence of operations.
    - Server and client: invariants of all reachable states and absence of
      faults, the choice of the worker, the end of the loops, what the
      destructors free and when they fail.
    - Requests: what a channel with services replies to any request, and the
      request number that aborts the server; that [setServices] gives no channel
      services, so that every program's requests are refused.
    - Threads: no interleaving deadlocks, and none faults but at the overflow of
      [_id] and at the assertion that a peer fails with a response that says
      nothing; no closure runs twice, answers find their calls as long as increments of [_id] do not overlap;
      the counter and the output buffer are the only locations raced on, and
      both are.
    - Message: accessors as a reader sees them, serialisation and parsing, the
      size, termination of the parser, ownership of the strings.
    - Defects: each is a theorem that the code as written reaches the fault or
      loses the data (the dangling channel of [RpcServer], the client freed
      twice, the connections a server leaves behind, the call lost to a race,
      the codec's lost half frames, the dispatch that refuses every request,
      the example client that cannot call), listed as findings.
    - Compiler identification: what a reader gets of every macro, the unreadable
      versions included, agreement, well-typed tables, the sum that [main]
      returns and its bounds.

    ** Fuel

    Three loops have no structural argument.  [onMessage_loop] drains bytes of
    the buffer in every round that goes on: as much fuel as the buffer has bytes
    is enough, and the theorems ask for it.  [parse_loop] consumes at least one
    byte per round: [MergePartialFromCodedStream] takes the length of the input
    plus one, and [RpcPbParse.parse_always_ends] shows that it never runs out.
    [destroy_loop] of the queue frees one object per round: the number of
    objects, sentinels included, is enough.  A thread that runs alone makes 7
    accesses in [CallMethod] and 9 in [onRpcMessage] ([functions_alone]).
    Lack of fuel is the fault [OutOfFuel], so that no theorem holds because a loop was cut off.

    ** Not modelled

    - Threads inside a handler of the server or the client: handlers are atomic
      steps, so that the races of the acceptor, which reads the counts of the
      queues while the workers change them, and of libevent's own writing are
      not seen.  Threads on a channel are modelled at the grain of accesses, and
      the atomic counters at the grain of their builtins; weaker memory orders
      are not, as a program with a data race has no behaviour to describe.
    - The text of log lines, timeouts, and the answers of the operating system,
      which are arguments.
    - protobuf's descriptor registration and reflection tables in rpc.pb.cc.
    - [src/include/util.h]: casts of smart pointers, which are identities here,
      a class that forbids copying, and code in comments.
    - The build files, and the copies of the library's sources and headers that
      the build and install trees hold.
    - Of the compilers, replacement lists of predefined macros of more than one
      token or with a token that is itself a macro, and character constants in
      [#if].
    - After a thread aborts the process: the model lets the other threads go on,
      of which the end of the process shows fewer steps. *)

From coqutil Require Export Byte Word.LittleEndianList.
From stdpp Require Export base gmap strings fin_maps numbers option.
From stdpp Require Export list.

#[global] Open Scope Z_scope.

(** ** Pointers, byte strings and notations

    A [ptr] is the address of a heap object.  Addresses are never reused by the
    allocator of the model, so that a dangling pointer is one whose object is
    absent from the heap.  [NULL] is [None] of type [option ptr]. *)

Abbreviation ptr := positive (only parsing).
Abbreviation bytes := (list Byte.byte) (only parsing).

Declare Scope mrpc_scope.
Delimit Scope mrpc_scope with mrpc.
#[global] Open Scope mrpc_scope.

Abbreviation NULL := (@None positive) (only parsing).

Create HintDb mrpc.
Create Rewrite HintDb mrpc.

(** ** Outcomes of C++ code

    A call either returns, meets a fault (undefined behaviour, a failed
    [assert] or a fatal check) or throws a [NetErr]. *)

Inductive fault : Type :=
  | NullDeref
  | UseAfterFree
  | DoubleFree
  | Uninit
  | OutOfBounds
  | AssertFail
  | FatalCheck
  | SignedOverflow
  | Blocks
  | OutOfFuel.

#[global] Instance fault_eq_dec : EqDecision fault.
Proof. solve_decision. Defined.

Inductive outcome (A : Type) : Type :=
  | Ok (a : A)
  | Fault (f : fault)
  | Throw (what : string).
Arguments Ok {A} _.
Arguments Fault {A} _.
Arguments Throw {A} _.

(** ** The state, fault and exception monad *)

Definition M (S A : Type) : Type := S → outcome (A * S).

#[global] Instance M_ret (S : Type) : MRet (M S) := λ A a s, Ok (a, s).
#[global] Instance M_bind (S : Type) : MBind (M S) := λ A B k m s,
  match m s with
  | Ok (a, s') => k a s'
  | Fault f => Fault f
  | Throw e => Throw e
  end.

Definition get_state {S : Type} : M S S := λ s, Ok (s, s).
Definition put_state {S : Type} (s' : S) : M S unit := λ _, Ok (tt, s').
Definition gets {S A : Type} (f : S → A) : M S A := λ s, Ok (f s, s).
Definition modify {S : Type} (f : S → S) : M S unit := λ s, Ok (tt, f s).
Definition raise {S A : Type} (f : fault) : M S A := λ _, Fault f.
Definition throw {S A : Type} (e : string) : M S A := λ _, Throw e.

(** [assert(b)], compiled with assertions enabled. *)
Definition assert_ {S : Type} (b : bool) : M S unit :=
  if b then mret tt else raise AssertFail.

(** A value that must be there, or the fault that its absence is. *)
Definition expect {S A : Type} (f : fault) (o : option A) : M S A :=
  match o with Some a => mret a | None => raise f end.

(** Run a computation on a part of the state. *)
Definition zoom {S T A : Type} (get : S → T) (put : T → S → S) (m : M T A) : M S A :=
  λ s, match m (get s) with
       | Ok (a, t) => Ok (a, put t s)
       | Fault f => Fault f
       | Throw e => Throw e
       end.

Notation "m @@ s '⇓' r" := (m s = Ok r)
  (at level 70, s at next level, no associativity) : mrpc_scope.
Notation "m @@ s '↯' f" := (m s = Fault f)
  (at level 70, s at next level, no associativity) : mrpc_scope.
Notation "m @@ s '↑' e" := (m s = Throw e)
  (at level 70, s at next level, no associativity) : mrpc_scope.

Section monad_laws.
Context {S : Type}.

Lemma ret_run {A} (a : A) (s : S) : (mret a : M S A) s = Ok (a, s).
Proof. reflexivity. Qed.

Lemma bind_run {A B} (m : M S A) (k : A → M S B) s a s' :
  m s = Ok (a, s') → (m ≫= k) s = k a s'.
Proof. intros H. unfold mbind, M_bind. by rewrite H. Qed.

Lemma bind_fault {A B} (m : M S A) (k : A → M S B) s f :
  m s = Fault f → (m ≫= k) s = Fault f.
Proof. intros H. unfold mbind, M_bind. by rewrite H. Qed.

Lemma bind_inv {A B} (m : M S A) (k : A → M S B) s b s'' :
  (m ≫= k) s = Ok (b, s'') →
  ∃ a s', m s = Ok (a, s') ∧ k a s' = Ok (b, s'').
Proof.
  unfold mbind, M_bind. destruct (m s) as [[a s']|f|e] eqn:E; [|done..].
  intros H. by exists a, s'.
Qed.

Lemma bind_assoc {A B C} (m : M S A) (k : A → M S B) (l : B → M S C) s :
  ((m ≫= k) ≫= l) s = (m ≫= λ a, k a ≫= l) s.
Proof. unfold mbind, M_bind. by destruct (m s) as [[a s']|f|e]. Qed.

Lemma bind_ext_run {A B} (m : M S A) (k k' : A → M S B) s :
  (∀ a s', k a s' = k' a s') → (m ≫= k) s = (m ≫= k') s.
Proof. intros H. unfold mbind, M_bind. by destruct (m s) as [[a s']|f|e]. Qed.

Lemma gets_run {A} (f : S → A) s : gets f s = Ok (f s, s).
Proof. reflexivity. Qed.
Lemma modify_run (f : S → S) s : modify f s = Ok (tt, f s).
Proof. reflexivity. Qed.
Lemma expect_Some {A} f (a : A) (s : S) : expect f (Some a) s = Ok (a, s).
Proof. reflexivity. Qed.
Lemma assert_true (s : S) : assert_ true s = Ok (tt, s).
Proof. reflexivity. Qed.

Lemma ret_run_bind {A B} (a : A) (k : A → M S B) s : (mret a ≫= k) s = k a s.
Proof. reflexivity. Qed.

(** A conditional at the head of a program. *)
Lemma if_true {A} P `{Decision P} (m1 m2 : M S A) s :
  P → (if decide P then m1 else m2) s = m1 s.
Proof. intros HP. by rewrite decide_True. Qed.
Lemma if_false {A} P `{Decision P} (m1 m2 : M S A) s :
  ¬ P → (if decide P then m1 else m2) s = m2 s.
Proof. intros HP. by rewrite decide_False. Qed.
Lemma if_true_bind {A B} P `{Decision P} (m1 m2 : M S A) (k : A → M S B) s :
  P → ((if decide P then m1 else m2) ≫= k) s = (m1 ≫= k) s.
Proof. intros HP. by rewrite decide_True. Qed.
Lemma if_false_bind {A B} P `{Decision P} (m1 m2 : M S A) (k : A → M S B) s :
  ¬ P → ((if decide P then m1 else m2) ≫= k) s = (m2 ≫= k) s.
Proof. intros HP. by rewrite decide_False. Qed.

Lemma zoom_run {T A} (get : S → T) (put : T → S → S) (m : M T A) s a t :
  m (get s) = Ok (a, t) → zoom get put m s = Ok (a, put t s).
Proof. intros H. unfold zoom. by rewrite H. Qed.
Lemma zoom_fault {T A} (get : S → T) (put : T → S → S) (m : M T A) s f :
  m (get s) = Fault f → zoom get put m s = Fault f.
Proof. intros H. unfold zoom. by rewrite H. Qed.
End monad_laws.

#[export] Hint Rewrite @ret_run @gets_run @modify_run @expect_Some @assert_true : mrpc.

(** [mrun] executes the first command of a bind whose result the context or the
    rewrite database knows; [mrun H] does it with the equation [H]. *)
Tactic Notation "mrun" :=
  (erewrite bind_run; [|first [eassumption | reflexivity]]); cbn beta.
Tactic Notation "mrun" uconstr(H) := (erewrite bind_run; [|eapply H]); cbn beta.
(** [if_yes] and [if_no] take a branch of the conditional at the head. *)
Ltac if_yes := first [rewrite if_true_bind | rewrite if_true].
Ltac if_no := first [rewrite if_false_bind | rewrite if_false].
Ltac mruns := repeat (mrun); try reflexivity.

(** [minv H] splits a successful run of a bind into the runs of its parts. *)
Ltac minv H :=
  let a := fresh "a" in let s := fresh "s" in let H1 := fresh H in let H2 := fresh H in
  apply bind_inv in H as (a & s & H1 & H2).

(** ** Fixed-width integers

    C's conversions: [wrap w] to an unsigned type of [w] bits and [swrap w] to
    the two's complement type of [w] bits. *)

Definition wrap (w z : Z) : Z := z `mod` 2 ^ w.
Definition swrap (w z : Z) : Z := (z + 2 ^ (w - 1)) `mod` 2 ^ w - 2 ^ (w - 1).

Abbreviation u16 := (wrap 16).
Abbreviation u32 := (wrap 32).
Abbreviation u64 := (wrap 64).
Abbreviation i32 := (swrap 32).
Abbreviation i64 := (swrap 64).

Definition INT_MAX : Z := 2 ^ 31 - 1.

Section widths.
Context (w : Z) (Hw : 0 < w).

Lemma pow_width_pos : 0 < 2 ^ w.
Proof using Hw. apply Z.pow_pos_nonneg; lia. Qed.

Lemma pow_width_half : 2 ^ w = 2 * 2 ^ (w - 1).
Proof using Hw. rewrite <- Z.pow_succ_r by lia. f_equal. lia. Qed.

Lemma wrap_range z : 0 ≤ wrap w z < 2 ^ w.
Proof using Hw. apply Z.mod_pos_bound, pow_width_pos. Qed.

Lemma wrap_small z : 0 ≤ z < 2 ^ w → wrap w z = z.
Proof using. apply Z.mod_small. Qed.

Lemma swrap_range z : - 2 ^ (w - 1) ≤ swrap w z < 2 ^ (w - 1).
Proof using Hw.
  unfold swrap. pose proof pow_width_half. pose proof pow_width_pos.
  pose proof (Z.mod_pos_bound (z + 2 ^ (w - 1)) (2 ^ w)). lia.
Qed.

Lemma swrap_small z : - 2 ^ (w - 1) ≤ z < 2 ^ (w - 1) → swrap w z = z.
Proof using Hw.
  intros Hz. unfold swrap. pose proof pow_width_half.
  rewrite Z.mod_small; lia.
Qed.

Lemma wrap_wrap z : wrap w (wrap w z) = wrap w z.
Proof using Hw. apply wrap_small, wrap_range. Qed.

Lemma wrap_swrap z : wrap w (swrap w z) = wrap w z.
Proof using Hw.
  unfold wrap, swrap. pose proof pow_width_pos.
  rewrite Zminus_mod_idemp_l. f_equal. lia.
Qed.

Lemma swrap_wrap z : swrap w (wrap w z) = swrap w z.
Proof using Hw.
  unfold wrap, swrap. pose proof pow_width_pos.
  by rewrite Zplus_mod_idemp_l.
Qed.

Lemma wrap_add_l a b : wrap w (wrap w a + b) = wrap w (a + b).
Proof using. apply Zplus_mod_idemp_l. Qed.
Lemma wrap_add_r a b : wrap w (a + wrap w b) = wrap w (a + b).
Proof using. apply Zplus_mod_idemp_r. Qed.

Lemma swrap_inj_wrap a b : wrap w a = wrap w b → swrap w a = swrap w b.
Proof using Hw. intros H. by rewrite <- (swrap_wrap a), H, swrap_wrap. Qed.
End widths.

(** [lia] with the powers of two of the integer types as numbers, and with the
    range of the conversions to [uint32_t] and [int32_t] that occur. *)
Ltac pow_widths :=
  try change (2 ^ 16) with 65536 in *; try change (2 ^ 31) with 2147483648 in *;
  try change (2 ^ 32) with 4294967296 in *; try change (2 ^ 63) with 9223372036854775808 in *;
  try change (2 ^ 64) with 18446744073709551616 in *;
  try change (2 ^ (32 - 1)) with 2147483648 in *;
  try change (2 ^ (64 - 1)) with 9223372036854775808 in *.
Ltac pose_ranges :=
  repeat match goal with
  | |- context [wrap 32 ?z] =>
      lazymatch goal with
      | _ : 0 ≤ wrap 32 z < _ |- _ => fail
      | _ => pose proof (wrap_range 32 eq_refl z)
      end
  | H : context [wrap 32 ?z] |- _ =>
      lazymatch goal with
      | _ : 0 ≤ wrap 32 z < _ |- _ => fail
      | _ => pose proof (wrap_range 32 eq_refl z)
      end
  | |- context [swrap 32 ?z] =>
      lazymatch goal with
      | _ : _ ≤ swrap 32 z < _ |- _ => fail
      | _ => pose proof (swrap_range 32 eq_refl z)
      end
  end.
Ltac int_lia := pose_ranges; pow_widths; lia.

(** ** Lists *)

Lemma take_app_exact {A} (l k : list A) n : n = length l → take n (l ++ k) = l.
Proof. intros ->. apply take_app_length. Qed.
Lemma drop_app_exact {A} (l k : list A) n : n = length l → drop n (l ++ k) = k.
Proof. intros ->. apply drop_app_length. Qed.

(** [lenZ l] is a [size_t] length as the arithmetic of the code sees it. *)
Abbreviation lenZ l := (Z.of_nat (length l)).

Lemma take_lenZ_app {A} (l k : list A) z : z = lenZ l → take (Z.to_nat z) (l ++ k) = l.
Proof. intros ->. apply take_app_exact. lia. Qed.
Lemma drop_lenZ_app {A} (l k : list A) z : z = lenZ l → drop (Z.to_nat z) (l ++ k) = k.
Proof. intros ->. apply drop_app_exact. lia. Qed.

(** The bytes of a C string literal. *)
Definition bytes_of_string (s : string) : bytes := String.list_byte_of_string s.

#[global] Instance byte_eq_decision : EqDecision Byte.byte := Byte.byte_eq_dec.
