(* ===== verification/Endian.v ===== *)
(** * Byte order: [include/ev_endian.h]

    The memory image of an integer depends on the byte order of the host, and so
    do glibc's [htobe*]/[be*toh].  Both are modelled for either host; what goes
    on the wire does not depend on it. *)

From S2P Require Import Prelude.

Inductive endian := LittleEndian | BigEndian.

#[global] Instance endian_eq_dec : EqDecision endian.
Proof. solve_decision. Defined.

(** The [n] bytes an [n]-byte object with value [z] occupies, lowest address
    first, and the unsigned value of such an object ([memcpy] into it). *)
Definition mem_of (host : endian) (n : nat) (z : Z) : bytes :=
  match host with LittleEndian => le_split n z | BigEndian => rev (le_split n z) end.
Definition of_mem (host : endian) (bs : bytes) : Z :=
  match host with LittleEndian => le_combine bs | BigEndian => le_combine (rev bs) end.

(** Network order: the most significant byte first. *)
Definition be_bytes (n : nat) (z : Z) : bytes := rev (le_split n z).
Definition be_value (bs : bytes) : Z := le_combine (rev bs).

(** glibc's [<endian.h>]: [htobe] and [betoh] swap the bytes on a little-endian
    host and do nothing on a big-endian one. *)
Definition bswap (n : nat) (z : Z) : Z := le_combine (rev (le_split n z)).
Definition htobe (host : endian) (n : nat) (z : Z) : Z :=
  match host with LittleEndian => bswap n z | BigEndian => wrap (Z.of_nat n * 8) z end.
Definition betoh (host : endian) (n : nat) (z : Z) : Z :=
  match host with LittleEndian => bswap n z | BigEndian => wrap (Z.of_nat n * 8) z end.

Module sockets.
Section host.
Context (host : endian).

Definition hostToNetwork64 (host64 : Z) : Z := htobe host 8 host64.
Definition hostToNetwork32 (host32 : Z) : Z := htobe host 4 host32.
Definition hostToNetwork16 (host16 : Z) : Z := htobe host 2 host16.
Definition networkToHost64 (net64 : Z) : Z := betoh host 8 net64.
Definition networkToHost32 (net32 : Z) : Z := betoh host 4 net32.
Definition networkToHost16 (net16 : Z) : Z := betoh host 2 net16.
End host.
End sockets.
Import sockets.

(** ** Lemmas *)

Lemma length_mem_of host n z : length (mem_of host n z) = n.
Proof. destruct host; simpl; by rewrite ?length_rev, length_le_split. Qed.
Lemma length_be_bytes n z : length (be_bytes n z) = n.
Proof. unfold be_bytes. by rewrite length_rev, length_le_split. Qed.
#[export] Hint Rewrite length_mem_of length_be_bytes : mrpc.

Lemma be_value_bytes n z : be_value (be_bytes n z) = wrap (Z.of_nat n * 8) z.
Proof. unfold be_value, be_bytes. by rewrite rev_involutive, le_combine_split. Qed.

Lemma be_bytes_value bs : be_bytes (length bs) (be_value bs) = bs.
Proof.
  unfold be_value, be_bytes. rewrite <- length_rev, split_le_combine.
  apply rev_involutive.
Qed.

Lemma be_bytes_wrap n z : be_bytes n (wrap (Z.of_nat n * 8) z) = be_bytes n z.
Proof. unfold be_bytes, wrap. by rewrite <- le_split_mod. Qed.

Lemma be_value_range bs : 0 ≤ be_value bs < 2 ^ (8 * lenZ bs).
Proof. unfold be_value. rewrite <- length_rev. apply le_combine_bound. Qed.

Lemma be_bytes_inj n a b :
  be_bytes n a = be_bytes n b → wrap (Z.of_nat n * 8) a = wrap (Z.of_nat n * 8) b.
Proof. intros H. by rewrite <- !be_value_bytes, H. Qed.

Lemma of_mem_mem_of host n z : of_mem host (mem_of host n z) = wrap (Z.of_nat n * 8) z.
Proof. destruct host; simpl; by rewrite ?rev_involutive, le_combine_split. Qed.

Lemma le_split_bswap n z : le_split n (bswap n z) = rev (le_split n z).
Proof.
  unfold bswap. apply split_le_combine'. by rewrite length_rev, length_le_split.
Qed.

(** What a [htobe] value looks like in memory is its big-endian image. *)
Lemma mem_of_htobe host n z : mem_of host n (htobe host n z) = be_bytes n z.
Proof.
  destruct host; simpl.
  - apply le_split_bswap.
  - by apply be_bytes_wrap.
Qed.

Lemma betoh_of_mem host n bs :
  length bs = n → betoh host n (of_mem host bs) = be_value bs.
Proof.
  intros <-. destruct host; simpl.
  - unfold bswap. by rewrite split_le_combine.
  - apply wrap_small. unfold be_value.
    rewrite <- (length_rev bs), Z.mul_comm. apply le_combine_bound.
Qed.

Lemma betoh_htobe host n z : betoh host n (htobe host n z) = wrap (Z.of_nat n * 8) z.
Proof.
  destruct host; simpl.
  - unfold bswap at 1. by rewrite le_split_bswap, rev_involutive, le_combine_split.
  - apply Zmod_mod.
Qed.

Lemma htobe_range host n z : 0 ≤ htobe host n z < 2 ^ (Z.of_nat n * 8).
Proof.
  destruct host; simpl.
  - unfold bswap. pose proof (le_combine_bound (rev (le_split n z))) as H.
    rewrite length_rev, length_le_split, Z.mul_comm in H. exact H.
  - apply Z.mod_pos_bound, Z.pow_pos_nonneg; lia.
Qed.
Lemma betoh_wrap host n z : betoh host n (wrap (Z.of_nat n * 8) z) = betoh host n z.
Proof.
  destruct host; simpl.
  - unfold bswap, wrap. by rewrite <- le_split_mod.
  - apply Zmod_mod.
Qed.

Lemma mem_of_wrap host n z : mem_of host n (wrap (Z.of_nat n * 8) z) = mem_of host n z.
Proof. destruct host; simpl; unfold wrap; by rewrite <- le_split_mod. Qed.

(** The [int32_t] variables that hold network-order values on their way. *)
Lemma mem_of_network32 host z :
  mem_of host 4 (i32 (hostToNetwork32 host (u32 z))) = be_bytes 4 z.
Proof.
  rewrite <- (mem_of_wrap host 4 (i32 _)). change (Z.of_nat 4 * 8) with 32.
  rewrite wrap_swrap by lia. rewrite (mem_of_wrap host 4).
  unfold hostToNetwork32. rewrite mem_of_htobe. apply (be_bytes_wrap 4).
Qed.

(** ** Properties *)

(** Whatever the byte order of the host, the four bytes that the sender
    copies from [hostToNetwork32(v)] are [v] with its most significant byte
    first, and [networkToHost32] of four received bytes reads them so. *)
Theorem wire_order_host_independent (host : endian) (v : Z) (bs : bytes) :
  length bs = 4%nat →
  mem_of host 4 (hostToNetwork32 host v) = be_bytes 4 v ∧
  networkToHost32 host (of_mem host bs) = be_value bs.
Proof. intros Hbs. split; [apply mem_of_htobe | by apply betoh_of_mem]. Qed.

Lemma wire_order_host_independent_witness :
  let bs := be_bytes 4 0x6d527063 in
  length bs = 4%nat ∧
  (mem_of LittleEndian 4 (hostToNetwork32 LittleEndian 12) = be_bytes 4 12 ∧
   networkToHost32 LittleEndian (of_mem LittleEndian bs) = be_value bs).
Proof. split; [reflexivity | by apply wire_order_host_independent]. Defined.

(** The conversions to network order and back are inverse on every value of
    their width, for 16, 32 and 64 bits and for either host. *)
Theorem network_order_roundtrip (host : endian) (v : Z) :
  networkToHost16 host (hostToNetwork16 host v) = u16 v ∧
  networkToHost32 host (hostToNetwork32 host v) = u32 v ∧
  networkToHost64 host (hostToNetwork64 host v) = u64 v.
Proof. repeat split; apply betoh_htobe. Qed.
