(* ===== verification/Atomic.v ===== *)
(** * Atomic counters: [include/atomic.h]

    [AtomicIntegerT<T>] for a [w]-bit signed [T].  The GCC builtins are atomic
    read-modify-write operations, so a call of a method performs exactly one
    transition of the shared value, and threads interleave at that grain. *)

From S2P Require Import Prelude.

Section AtomicIntegerT.
Context (w : Z).

(** [volatile T value_] *)
Definition value_ := Z.

Definition AtomicIntegerT_init : value_ := 0.

(** [__sync_val_compare_and_swap(&value_, o, n)]: the previous value. *)
Definition sync_val_compare_and_swap (o n : Z) : M value_ Z := λ v,
  Ok (v, if decide (v = o) then n else v).
(** [__sync_fetch_and_add]: wraps around (GCC's two's complement guarantee). *)
Definition sync_fetch_and_add (x : Z) : M value_ Z := λ v, Ok (v, swrap w (v + x)).
Definition sync_lock_test_and_set (x : Z) : M value_ Z := λ v, Ok (v, x).

Definition get : M value_ Z := sync_val_compare_and_swap 0 0.
Definition getAndAdd (x : Z) : M value_ Z := sync_fetch_and_add x.
(** [return getAndAdd(x) + x]: the sum in [T] is a plain one; it overflows,
    which is undefined, when it leaves the range of [T]. *)
Definition checked_add (a b : Z) : M value_ Z :=
  if decide (swrap w (a + b) = a + b) then mret (a + b) else raise SignedOverflow.
Definition addAndGet (x : Z) : M value_ Z := v ← getAndAdd x; checked_add v x.
Definition incrementAndGet : M value_ Z := addAndGet 1.
Definition decrementAndGet : M value_ Z := addAndGet (-1).
Definition add (x : Z) : M value_ unit := _ ← getAndAdd x; mret tt.
Definition increment : M value_ unit := _ ← incrementAndGet; mret tt.
Definition decrement : M value_ unit := _ ← decrementAndGet; mret tt.
Definition getAndSet (newValue : Z) : M value_ Z := sync_lock_test_and_set newValue.

(** ** Concurrent use: every thread has a list of increments left to do; a
    step lets one thread perform its next [addAndGet], and the log collects
    what the calls returned, the latest first. *)

Record shared := mkShared { sh_value : value_; sh_todo : list (list Z); sh_log : list Z }.

Inductive astep : shared → shared → Prop :=
  | astep_add (i : nat) x rest v v' r todo log :
      todo !! i = Some (x :: rest) →
      addAndGet x v = Ok (r, v') →
      astep (mkShared v todo log) (mkShared v' (<[i := rest]> todo) (r :: log)).

Definition sumZ (l : list Z) : Z := foldr Z.add 0 l.
Definition pending (s : shared) : Z := sumZ (concat (sh_todo s)).
End AtomicIntegerT.

Lemma sumZ_app l k : sumZ (l ++ k) = sumZ l + sumZ k.
Proof. induction l as [|a l IH]; simpl; [done | rewrite IH; lia]. Qed.

Lemma sumZ_concat_insert (todo : list (list Z)) (i : nat) l l' :
  todo !! i = Some l →
  sumZ (concat (<[i := l']> todo)) = sumZ (concat todo) - sumZ l + sumZ l'.
Proof.
  revert i. induction todo as [|a todo IH]; intros [|i] Hi; simplify_eq/=.
  - rewrite !sumZ_app. lia.
  - rewrite !sumZ_app, (IH i Hi). lia.
Qed.

Section laws.
Context (w : Z) (Hw : 1 < w).

Lemma addAndGet_run x v :
  - 2 ^ (w - 1) ≤ v + x < 2 ^ (w - 1) →
  addAndGet w x v = Ok (v + x, v + x).
Proof using Hw.
  intros Hr. unfold addAndGet, getAndAdd, sync_fetch_and_add, mbind, M_bind.
  unfold checked_add. rewrite swrap_small by lia. by rewrite decide_True.
Qed.

Lemma addAndGet_inv x v r v' :
  addAndGet w x v = Ok (r, v') → r = v + x ∧ v' = v + x.
Proof using.
  unfold addAndGet, getAndAdd, sync_fetch_and_add, mbind, M_bind, checked_add.
  case_decide as Hd; [|done]. rewrite Hd. intros [= <- <-]. done.
Qed.

Lemma astep_pending s s' :
  astep w s s' → sh_value s' + pending s' = sh_value s + pending s.
Proof using.
  intros Hs. destruct Hs as [i x rest v v' r todo log Hi Hr].
  apply addAndGet_inv in Hr as [-> ->]. unfold pending; simpl.
  rewrite (sumZ_concat_insert _ _ _ _ Hi). simpl. lia.
Qed.

(** All increments are positive and the log is strictly decreasing below the
    current value: the invariant behind the uniqueness of the results. *)
Definition log_ok (s : shared) : Prop :=
  Forall (Forall (λ x, 0 < x)) (sh_todo s) ∧
  Forall (λ r, r ≤ sh_value s) (sh_log s) ∧ NoDup (sh_log s).

Lemma astep_log_ok s s' : log_ok s → astep w s s' → log_ok s'.
Proof using.
  intros (Hpos & Hlog & Hnd) Hs.
  destruct Hs as [i x rest v v' r todo log Hi Hr]; simpl in *.
  apply addAndGet_inv in Hr as [-> ->].
  pose proof (Forall_lookup_1 _ _ _ _ Hpos Hi) as Hx.
  inversion_clear Hx as [|? ? Hx0 Hrest].
  repeat split; simpl.
  - by apply Forall_insert.
  - constructor; [done|]. eapply Forall_impl; [exact Hlog|]; intros y Hy; simpl in Hy; unfold value_ in *; lia.
  - constructor; [|done]. intros Hin.
    rewrite Forall_forall in Hlog. apply Hlog in Hin. lia.
Qed.

(** However the threads interleave, a counter started at [v] holds, when
    every requested addition is done, [v] plus the sum of all of them: no
    update is lost. *)
Theorem interleaving_sum v todo s :
  rtc (astep w) (mkShared v todo []) s →
  Forall (λ l, l = []) (sh_todo s) →
  sh_value s = v + sumZ (concat todo).
Proof using.
  intros Hr Hdone.
  assert (Hinv : sh_value s + pending s = v + sumZ (concat todo)).
  { change (v + sumZ (concat todo)) with
      (sh_value (mkShared v todo []) + pending (mkShared v todo [])).
    induction Hr as [|s1 s2 s3 H1 H2 IH]; [done|].
    rewrite (IH Hdone). by apply astep_pending. }
  enough (pending s = 0) by lia.
  unfold pending. clear -Hdone. induction Hdone as [|l ls -> _ IH]; [done | exact IH].
Qed.

(** As long as no addition overflows, the values that [addAndGet] returns
    to the threads for positive increments ([incrementAndGet] among them) are
    pairwise distinct, in every interleaving. *)
Theorem interleaving_unique v todo s :
  Forall (Forall (λ x, 0 < x)) todo →
  rtc (astep w) (mkShared v todo []) s →
  NoDup (sh_log s).
Proof using.
  intros Hpos Hr.
  assert (H0 : log_ok (mkShared v todo [])) by (repeat split; [done|constructor..]).
  enough (log_ok s) by (by destruct H as (_ & _ & ?)).
  clear Hpos. revert H0. induction Hr; [done|]. eauto using astep_log_ok.
Qed.
End laws.

(** Two threads of a 32-bit counter that increment it three times in all. *)
Definition demo_todo : list (list Z) := [[1; 1]; [1]].
Lemma demo_run :
  rtc (astep 32) (mkShared 0 demo_todo []) (mkShared 3 [[]; []] [3; 2; 1]).
Proof.
  eapply rtc_l; [apply (astep_add 32 0 1 [1] 0 1 1 demo_todo []); reflexivity|].
  eapply rtc_l; [eapply (astep_add 32 1 1 []); reflexivity|].
  eapply rtc_l; [eapply (astep_add 32 0 1 []); reflexivity|].
  apply rtc_refl.
Defined.

Lemma interleaving_sum_witness : 3 = 0 + sumZ (concat demo_todo).
Proof.
  apply (interleaving_sum 32 0 demo_todo _ demo_run). repeat constructor.
Defined.

Lemma interleaving_unique_witness : NoDup [3; 2; 1].
Proof.
  apply (interleaving_unique 32 0 demo_todo (mkShared 3 [[]; []] [3; 2; 1]));
    [repeat constructor | apply demo_run].
Defined.
