(* ===== verification/ConnQueue.v ===== *)
(** * Connections and the per-thread connection list

    [class Conn] and [class ConnQueue] of [src/tcpServer.h].  A queue is a
    doubly linked list of [Conn] objects between two sentinels; the objects live
    in a heap, every pointer assignment of the code is a store, and a freed
    object is absent from the heap, so that a dangling access is a fault. *)

From S2P Require Import Prelude.

(** ** Connection objects *)

(** [evbuffer*] members point to the input or the output buffer of a bufferevent. *)
Inductive side := Input | Output.
Record bufref := mkBufref { br_bev : ptr; br_side : side }.

#[global] Instance side_eq_dec : EqDecision side.
Proof. solve_decision. Defined.
#[global] Instance bufref_eq_dec : EqDecision bufref.
Proof. solve_decision. Defined.

(** [LibeventThread*] is an index into the array of threads. *)
Record Conn := mkConn {
  fd : Z;
  thread : option nat;
  bev : option ptr;
  readBuf : option bufref;
  writeBuf : option bufref;
  pre : option ptr;
  next : option ptr
}.

(** [Conn(int fd=0)] *)
Definition Conn_init (fd0 : Z) : Conn := mkConn fd0 None NULL None None NULL NULL.

Definition set_fd v c := mkConn v (thread c) (bev c) (readBuf c) (writeBuf c) (pre c) (next c).
Definition set_thread v c := mkConn (fd c) v (bev c) (readBuf c) (writeBuf c) (pre c) (next c).
Definition set_bev v c := mkConn (fd c) (thread c) v (readBuf c) (writeBuf c) (pre c) (next c).
Definition set_readBuf v c := mkConn (fd c) (thread c) (bev c) v (writeBuf c) (pre c) (next c).
Definition set_writeBuf v c := mkConn (fd c) (thread c) (bev c) (readBuf c) v (pre c) (next c).
Definition set_pre v c := mkConn (fd c) (thread c) (bev c) (readBuf c) (writeBuf c) v (next c).
Definition set_next v c := mkConn (fd c) (thread c) (bev c) (readBuf c) (writeBuf c) (pre c) v.

(** Everything but the links. *)
Definition payload (c : Conn) := (fd c, thread c, bev c, readBuf c, writeBuf c).

(** ** The heap of connections *)

Record ConnHeap := mkHeap { brk : ptr; cells : gmap ptr Conn }.

Definition heap_wf (h : ConnHeap) : Prop := ∀ p, is_Some (cells h !! p) → (p < brk h)%positive.

(** [new Conn(fd)] *)
Definition new_Conn (fd0 : Z) : M ConnHeap ptr := λ h,
  Ok (brk h, mkHeap (Pos.succ (brk h)) (<[brk h := Conn_init fd0]> (cells h))).

Definition load (p : option ptr) : M ConnHeap Conn := λ h,
  match p with
  | None => Fault NullDeref
  | Some p => match cells h !! p with
              | None => Fault UseAfterFree
              | Some c => Ok (c, h)
              end
  end.

(** [p->field = v] *)
Definition store (p : option ptr) (f : Conn → Conn) : M ConnHeap unit := λ h,
  match p with
  | None => Fault NullDeref
  | Some p => match cells h !! p with
              | None => Fault UseAfterFree
              | Some c => Ok (tt, mkHeap (brk h) (<[p := f c]> (cells h)))
              end
  end.

(** [delete p]: nothing for [NULL]. *)
Definition delete_Conn (p : option ptr) : M ConnHeap unit := λ h,
  match p with
  | None => Ok (tt, h)
  | Some p => match cells h !! p with
              | None => Fault DoubleFree
              | Some _ => Ok (tt, mkHeap (brk h) (delete p (cells h)))
              end
  end.

(** ** The queue *)

Record ConnQueue := mkQueue { total : Z; head : ptr; tail : ptr }.

Definition ConnQueue_init : M ConnHeap ConnQueue :=
  head ← new_Conn 0;
  tail ← new_Conn 0;
  _ ← store (Some tail) (set_next NULL);
  _ ← store (Some head) (set_pre NULL);
  _ ← store (Some head) (set_next (Some tail));
  _ ← store (Some tail) (set_pre (Some head));
  mret (mkQueue 0 head tail).

(** The loop of [~ConnQueue]; it needs one unit of fuel per object. *)
Fixpoint destroy_loop (fuel : nat) (tcur : option ptr) : M ConnHeap unit :=
  match tcur with
  | None => mret tt
  | Some _ =>
      match fuel with
      | O => raise OutOfFuel
      | S fuel =>
          c ← load tcur;
          _ ← delete_Conn tcur;
          destroy_loop fuel (next c)
      end
  end.
Definition ConnQueue_destroy (fuel : nat) (q : ConnQueue) : M ConnHeap unit :=
  destroy_loop fuel (Some (head q)).

Definition getCount (q : ConnQueue) : Z := total q.

Definition insertConn (q : ConnQueue) (fd0 : Z) (t : option nat) : M ConnHeap (ptr * ConnQueue) :=
  c ← new_Conn fd0;
  _ ← store (Some c) (set_thread t);
  hd ← load (Some (head q));
  let nxt := next hd in
  _ ← store (Some c) (set_pre (Some (head q)));
  hd' ← load (Some (head q));
  _ ← store (Some c) (set_next (next hd'));
  _ ← store (Some (head q)) (set_next (Some c));
  _ ← store nxt (set_pre (Some c));
  mret (c, mkQueue (u64 (total q + 1)) (head q) (tail q)).

Definition deleteConn (q : ConnQueue) (conn : option ptr) : M ConnHeap ConnQueue :=
  c ← load conn;
  _ ← store (pre c) (set_next (next c));
  c' ← load conn;
  _ ← store (next c') (set_pre (pre c'));
  _ ← delete_Conn conn;
  mret (mkQueue (u64 (total q - 1)) (head q) (tail q)).

(** ** The representation invariant *)

Definition first_or (l : list ptr) (after : option ptr) : option ptr :=
  match l with [] => after | p :: _ => Some p end.
Definition last_or (l : list ptr) (before : option ptr) : option ptr :=
  match last l with None => before | Some p => Some p end.

(** [l] is a doubly linked segment between the pointers [before] and [after]. *)
Fixpoint dseg (h : gmap ptr Conn) (before : option ptr) (l : list ptr) (after : option ptr) : Prop :=
  match l with
  | [] => True
  | p :: l' =>
      (∃ c, h !! p = Some c ∧ pre c = before ∧ next c = first_or l' after) ∧
      dseg h (Some p) l' after
  end.

Definition chain (q : ConnQueue) (l : list ptr) : list ptr := head q :: l ++ [tail q].

(** The queue [q] holds the connections [l], the most recent first. *)
Record queue_ok (h : ConnHeap) (q : ConnQueue) (l : list ptr) : Prop := {
  queue_heap : heap_wf h;
  queue_nodup : NoDup (chain q l);
  queue_links : dseg (cells h) NULL (chain q l) NULL;
  queue_total : total q = u64 (lenZ l)
}.

(** ** Heap lemmas *)

Section heap_lemmas.
Implicit Types (h : ConnHeap) (m : gmap ptr Conn).

Lemma load_run h p c : cells h !! p = Some c → load (Some p) h = Ok (c, h).
Proof. intros H. unfold load. by rewrite H. Qed.

Lemma store_run h p f c :
  cells h !! p = Some c →
  store (Some p) f h = Ok (tt, mkHeap (brk h) (<[p := f c]> (cells h))).
Proof. intros H. unfold store. by rewrite H. Qed.

Lemma delete_Conn_run h p :
  is_Some (cells h !! p) →
  delete_Conn (Some p) h = Ok (tt, mkHeap (brk h) (delete p (cells h))).
Proof. intros [c H]. unfold delete_Conn. by rewrite H. Qed.

Lemma heap_wf_brk h : heap_wf h → cells h !! brk h = None.
Proof.
  intros Hwf. destruct (cells h !! brk h) eqn:E; [|done].
  assert (is_Some (cells h !! brk h)) as Hs%Hwf by eauto. lia.
Qed.

Lemma heap_wf_new h c :
  heap_wf h → heap_wf (mkHeap (Pos.succ (brk h)) (<[brk h := c]> (cells h))).
Proof.
  intros Hwf p. simpl. destruct (decide (p = brk h)) as [->|Hne]; [lia|].
  rewrite lookup_insert_ne by done. intros Hp%Hwf. lia.
Qed.

Lemma heap_wf_insert b m p c :
  heap_wf (mkHeap b m) → is_Some (m !! p) → heap_wf (mkHeap b (<[p := c]> m)).
Proof.
  intros Hwf Hp q. simpl. destruct (decide (q = p)) as [->|Hne]; [by intros _; apply (Hwf p)|].
  rewrite lookup_insert_ne by done. apply Hwf.
Qed.

Lemma heap_wf_delete b m p : heap_wf (mkHeap b m) → heap_wf (mkHeap b (delete p m)).
Proof.
  intros Hwf q [c Hq]. simpl in Hq. apply lookup_delete_Some in Hq as [_ Hq].
  apply Hwf. by exists c.
Qed.
End heap_lemmas.

#[export] Hint Resolve heap_wf_new heap_wf_insert heap_wf_delete : mrpc.

(** Solve [cells h !! p = Some ?c] through the stores made so far. *)
Ltac lookup_tac :=
  cbn [cells brk];
  first [ eassumption
        | apply lookup_insert_eq
        | rewrite lookup_insert_ne by congruence; lookup_tac ].

(** Execute the next command of a heap program. *)
Ltac hstep :=
  erewrite bind_run;
  [|first [ reflexivity | eassumption
          | eapply load_run; lookup_tac
          | eapply store_run; lookup_tac
          | eapply delete_Conn_run; eexists; lookup_tac ]];
  cbn beta; cbn [cells brk].

(** Two maps built by inserts and deletes agree when their lookups do. *)
Ltac map_tac :=
  apply map_eq; intros ?;
  rewrite ?lookup_delete, ?lookup_insert, ?lookup_delete, ?lookup_insert;
  repeat (case_decide; subst; rewrite ?lookup_insert, ?lookup_delete);
  congruence || done.

(** ** Segment lemmas *)

Section dseg_lemmas.
Implicit Types (m : gmap ptr Conn) (l : list ptr) (b a : option ptr).

Lemma first_or_app l1 l2 a : first_or (l1 ++ l2) a = first_or l1 (first_or l2 a).
Proof. by destruct l1. Qed.
Lemma last_or_cons p l b : last_or (p :: l) b = last_or l (Some p).
Proof. unfold last_or. rewrite last_cons. by destruct (last l). Qed.
Lemma last_or_snoc l p b : last_or (l ++ [p]) b = Some p.
Proof. unfold last_or. by rewrite last_snoc. Qed.

Lemma dseg_app m b l1 l2 a :
  dseg m b (l1 ++ l2) a ↔ dseg m b l1 (first_or l2 a) ∧ dseg m (last_or l1 b) l2 a.
Proof.
  revert b. induction l1 as [|p l1 IH]; intros b; simpl; [tauto|].
  rewrite IH, first_or_app, last_or_cons. tauto.
Qed.

Lemma dseg_frame m m' b l a :
  (∀ p, p ∈ l → m' !! p = m !! p) → dseg m b l a → dseg m' b l a.
Proof.
  revert b. induction l as [|p l IH]; intros b Hfr; [done|].
  intros [(c & Hc & Hlinks) Hl]. split.
  - exists c. split; [|done]. rewrite Hfr by set_solver. done.
  - apply IH; [|done]. intros q Hq. apply Hfr. set_solver.
Qed.

Lemma dseg_alive m b l a p : dseg m b l a → p ∈ l → is_Some (m !! p).
Proof.
  revert b. induction l as [|q l IH]; intros b Hl Hp; [set_solver|].
  destruct Hl as [(c & Hc & _) Hl]. apply elem_of_cons in Hp as [->|Hp]; eauto.
Qed.

Lemma dseg_insert_out m b l a p c :
  p ∉ l → dseg m b l a → dseg (<[p := c]> m) b l a.
Proof.
  intros Hp. apply dseg_frame. intros q Hq. apply lookup_insert_ne. by intros ->.
Qed.
Lemma dseg_delete_out m b l a p : p ∉ l → dseg m b l a → dseg (delete p m) b l a.
Proof.
  intros Hp. apply dseg_frame. intros q Hq. apply lookup_delete_ne. by intros ->.
Qed.

Lemma dseg_set_pre m b b' p l a c :
  p ∉ l → m !! p = Some c → dseg m b (p :: l) a →
  dseg (<[p := set_pre b' c]> m) b' (p :: l) a.
Proof.
  intros Hp Hc [(c' & Hc' & _ & Hn) Hl]. simplify_eq. split.
  - eexists. rewrite lookup_insert_eq. done.
  - by apply dseg_insert_out.
Qed.

Lemma dseg_set_next m b l p a a' c :
  p ∉ l → m !! p = Some c → dseg m b (l ++ [p]) a →
  dseg (<[p := set_next a' c]> m) b (l ++ [p]) a'.
Proof.
  intros Hp Hc. rewrite !dseg_app. intros [Hl [(c' & Hc' & Hpr & _) _]]. simplify_eq.
  split.
  - by apply dseg_insert_out.
  - split; [|done]. eexists. rewrite lookup_insert_eq. done.
Qed.

(** Linking the last node of one segment to the first of another. *)
Lemma dseg_relink m b x y l1 p n l2 a cp cn :
  NoDup ((l1 ++ [p]) ++ n :: l2) →
  m !! p = Some cp → m !! n = Some cn →
  dseg m b (l1 ++ [p]) x → dseg m y (n :: l2) a →
  dseg (<[n := set_pre (Some p) cn]> (<[p := set_next (Some n) cp]> m))
    b ((l1 ++ [p]) ++ n :: l2) a.
Proof.
  intros Hnd Hp Hn H1 H2.
  apply NoDup_app in Hnd as ((_ & Hp1 & _)%NoDup_app & Hdisj & [Hn2 _]%NoDup_cons).
  assert (Hpn : p ≠ n) by (intros ->; apply (Hdisj n); set_solver).
  apply dseg_app. rewrite last_or_snoc. simpl first_or. split.
  - apply dseg_insert_out; [intros Hin; apply (Hdisj n); set_solver|].
    eapply dseg_set_next; eauto. intros Hin. apply (Hp1 p Hin). set_solver.
  - eapply dseg_set_pre; [done | by rewrite lookup_insert_ne|].
    apply dseg_insert_out; [|done]. intros Hin. apply (Hdisj p); set_solver.
Qed.
End dseg_lemmas.

(** ** Operations on a well-formed queue *)

(** [h'] keeps the payload of every object of [h] but those in [X]. *)
Definition same_payload (X : ptr → Prop) (h h' : ConnHeap) : Prop :=
  ∀ p, ¬ X p → payload <$> cells h' !! p = payload <$> cells h !! p.
(** [h'] has the very objects of [h] outside [X]. *)
Definition same_outside (X : ptr → Prop) (h h' : ConnHeap) : Prop :=
  ∀ p, ¬ X p → cells h' !! p = cells h !! p.

Section queue_lemmas.
Implicit Types (h : ConnHeap) (q : ConnQueue) (l : list ptr).

Lemma queue_alive h q l p :
  queue_ok h q l → p ∈ chain q l → is_Some (cells h !! p).
Proof. intros Hq Hp. eapply dseg_alive; [apply Hq | exact Hp]. Qed.

(** An object that other parts of the program change, links apart, or a new
    one, leaves the queue as it is. *)
Lemma queue_ok_payload h h' q l :
  heap_wf h' →
  (∀ p, p ∈ chain q l → ∃ c c', cells h !! p = Some c ∧ cells h' !! p = Some c' ∧
                                 pre c' = pre c ∧ next c' = next c) →
  queue_ok h q l → queue_ok h' q l.
Proof.
  intros Hwf Hsame [_ Hnd Hlinks Htot]. split; [done..| |done].
  revert Hsame Hlinks. generalize NULL at 1 3. generalize (chain q l).
  clear. intros l. induction l as [|p l IH]; intros b Hsame; [done|].
  intros [(c & Hc & Hpre & Hnext) Hl]. split.
  - destruct (Hsame p) as (c0 & c' & H0 & H1 & H2 & H3); [set_solver|]. simplify_eq.
    exists c'. by rewrite H2, H3.
  - apply IH; [|done]. intros r Hr. apply Hsame. set_solver.
Qed.

Lemma insertConn_spec h q l fd0 t :
  queue_ok h q l →
  ∃ h', insertConn q fd0 t h = Ok ((brk h, mkQueue (u64 (total q + 1)) (head q) (tail q)), h') ∧
    queue_ok h' (mkQueue (u64 (total q + 1)) (head q) (tail q)) (brk h :: l) ∧
    brk h' = Pos.succ (brk h) ∧
    payload <$> cells h' !! brk h = Some (payload (set_thread t (Conn_init fd0))) ∧
    same_payload (λ p, p = brk h) h h' ∧
    same_outside (λ p, p = brk h ∨ p ∈ chain q l) h h'.
Proof.
  intros Hq. destruct Hq as [Hwf Hnd Hlinks Htot] eqn:Eq; clear Eq.
  pose proof (heap_wf_brk _ Hwf) as Hfresh.
  assert (Hnew : brk h ∉ chain q l).
  { intros Hin. destruct (queue_alive _ _ _ _ Hq Hin) as [c Hc]. congruence. }
  destruct (l ++ [tail q]) as [|n rest] eqn:El; [by destruct l|].
  assert (Hch : chain q l = [head q] ++ n :: rest) by (unfold chain; by rewrite El).
  rewrite Hch in *. clear Hq.
  apply dseg_app in Hlinks as [Hhd Hrest]. simpl in Hrest.
  destruct Hhd as [(ch & Hch0 & Hchp & Hchn) _]. simpl in Hchn.
  destruct Hrest as [(cn & Hcn & Hcnp & Hcnn) Hrest].
  apply NoDup_app in Hnd as (_ & Hhn & Hnd).
  assert (Hne1 : head q ≠ brk h) by set_solver.
  assert (Hne2 : n ≠ brk h) by set_solver.
  assert (Hne3 : head q ≠ n) by set_solver.
  set (cc := set_next (Some n) (set_pre (Some (head q)) (set_thread t (Conn_init fd0)))).
  set (m' := <[n := set_pre (Some (brk h)) cn]>
    (<[head q := set_next (Some (brk h)) ch]> (<[brk h := cc]> (cells h)))).
  exists (mkHeap (Pos.succ (brk h)) m'). split.
  { unfold insertConn. repeat hstep. rewrite Hchn. repeat hstep.
    unfold m'. rewrite !insert_insert_eq. reflexivity. }
  assert (Hseg : dseg m' NULL ([head q] ++ brk h :: n :: rest) NULL).
  { split; [|split].
    - exists (set_next (Some (brk h)) ch). unfold m'.
      by rewrite lookup_insert_ne, lookup_insert_eq.
    - exists cc. unfold m'. rewrite !lookup_insert_ne, lookup_insert_eq by done. done.
    - eapply dseg_set_pre; [by apply NoDup_cons in Hnd as []| | ].
      + by rewrite !lookup_insert_ne.
      + apply dseg_insert_out; [set_solver|]. apply dseg_insert_out; [set_solver|].
        split; [by exists cn | done]. }
  split; [split|split; [done|split; [|split]]].
  - apply heap_wf_insert; [apply heap_wf_insert|].
    + by apply heap_wf_new.
    + exists ch. by rewrite lookup_insert_ne.
    + exists cn. by rewrite !lookup_insert_ne.
  - unfold chain. simpl. rewrite El. constructor; [set_solver|].
    constructor; [set_solver | done].
  - unfold chain. simpl head. simpl. rewrite El. exact Hseg.
  - simpl. rewrite Htot, wrap_add_l. f_equal. lia.
  - simpl. unfold m'. rewrite 2!lookup_insert_ne by done. by rewrite lookup_insert_eq.
  - intros p Hp. simpl. unfold m'. rewrite !lookup_insert.
    repeat case_decide; simplify_eq; by rewrite ?Hch0, ?Hcn.
  - intros p Hp. simpl. unfold m'. rewrite !lookup_insert_ne; set_solver.
Qed.

Lemma deleteConn_spec h q l1 c l2 :
  queue_ok h q (l1 ++ c :: l2) →
  ∃ h', deleteConn q (Some c) h = Ok (mkQueue (u64 (total q - 1)) (head q) (tail q), h') ∧
    queue_ok h' (mkQueue (u64 (total q - 1)) (head q) (tail q)) (l1 ++ l2) ∧
    brk h' = brk h ∧ cells h' !! c = None ∧
    same_payload (λ p, p = c) h h' ∧
    same_outside (λ p, p ∈ chain q (l1 ++ c :: l2)) h h'.
Proof.
  intros [Hwf Hnd Hlinks Htot].
  assert (∃ l0 p, head q :: l1 = l0 ++ [p]) as (l0 & p & Hl0).
  { destruct (exists_last (l := head q :: l1)) as (l0 & p & Hl0); [done|]. by exists l0, p. }
  assert (∃ n k, l2 ++ [tail q] = n :: k) as (n & k & Hk) by (destruct l2; eauto).
  assert (Hch : chain q (l1 ++ c :: l2) = (l0 ++ [p]) ++ [c] ++ n :: k).
  { unfold chain. rewrite <- app_assoc. simpl. rewrite Hk, <- Hl0. done. }
  rewrite Hch in *.
  apply dseg_app in Hlinks as [Hs1 [[(cc & Hcc & Hccp & Hccn) _] Hs2]%dseg_app].
  simpl in Hs1, Hccp, Hccn. rewrite last_or_snoc in Hccp, Hs2.
  change (dseg (cells h) (Some c) (n :: k) NULL) in Hs2.
  destruct (dseg_alive _ _ _ _ p Hs1) as [cp Hcp]; [set_solver|].
  destruct (dseg_alive _ _ _ _ n Hs2) as [cn Hcn]; [set_solver|].
  assert (Hnd' : NoDup ((l0 ++ [p]) ++ n :: k)).
  { eapply sublist_NoDup; [exact Hnd|]. apply sublist_app; [done|]. by constructor. }
  apply NoDup_app in Hnd as (Hnd1 & Hd1 & [Hc Hnd2]%NoDup_cons).
  assert (Hpc : p ≠ c) by (intros ->; apply (Hd1 c); set_solver).
  assert (Hnc : n ≠ c) by set_solver.
  assert (Hpn : p ≠ n) by (intros ->; apply (Hd1 n); set_solver).
  assert (Hcs : c ∉ (l0 ++ [p]) ++ n :: k).
  { intros [Hi|Hi]%elem_of_app; [by apply (Hd1 c Hi); set_solver | done]. }
  assert (Hch' : chain (mkQueue (u64 (total q - 1)) (head q) (tail q)) (l1 ++ l2) =
                  (l0 ++ [p]) ++ n :: k).
  { unfold chain. simpl. by rewrite <- app_assoc, Hk, app_comm_cons, Hl0. }
  exists (mkHeap (brk h) (delete c (<[n := set_pre (Some p) cn]>
            (<[p := set_next (Some n) cp]> (cells h))))).
  split.
  { unfold deleteConn. hstep. rewrite Hccp. repeat hstep. rewrite Hccp, Hccn.
    repeat hstep. done. }
  split; [split|split; [done|split; [|split]]].
  - apply heap_wf_delete, heap_wf_insert; [by apply heap_wf_insert; eauto|].
    exists cn. by rewrite lookup_insert_ne.
  - by rewrite Hch'.
  - rewrite Hch'. simpl cells. apply dseg_delete_out; [done|]. eapply dseg_relink; eauto.
  - simpl. rewrite Htot. unfold u64, wrap. rewrite Zminus_mod_idemp_l. f_equal.
    rewrite !length_app. simpl. lia.
  - apply lookup_delete_eq.
  - intros r Hr. simpl. rewrite lookup_delete_ne by done. rewrite !lookup_insert.
    repeat case_decide; simplify_eq; by rewrite ?Hcp, ?Hcn.
  - intros r Hr. simpl. rewrite lookup_delete_ne by set_solver.
    rewrite !lookup_insert_ne; set_solver.
Qed.

Lemma ConnQueue_init_spec h :
  heap_wf h →
  ∃ q h', ConnQueue_init h = Ok (q, h') ∧ queue_ok h' q [] ∧
    head q = brk h ∧ tail q = Pos.succ (brk h) ∧
    brk h' = Pos.succ (Pos.succ (brk h)) ∧
    same_outside (λ p, p ∈ chain q []) h h'.
Proof.
  intros Hwf. set (hp := brk h). set (tp := Pos.succ hp).
  assert (Hne : tp ≠ hp) by lia.
  exists (mkQueue 0 hp tp).
  exists (mkHeap (Pos.succ tp)
            (<[tp := set_pre (Some hp) (Conn_init 0)]>
               (<[hp := set_next (Some tp) (Conn_init 0)]> (cells h)))).
  split.
  { unfold ConnQueue_init. do 2 hstep. fold hp tp. repeat hstep. unfold mret, M_ret.
    do 3 f_equal. apply map_eq. intros i. rewrite !lookup_insert.
    repeat case_decide; simplify_eq; done. }
  split; [split|split; [done|split; [done|split; [done|]]]].
  - apply (heap_wf_new (mkHeap tp _)), (heap_wf_new h), Hwf.
  - unfold chain. simpl. constructor; [set_solver|]. constructor; [set_solver|]. constructor.
  - split; [|split; [|done]].
    + eexists. simpl. rewrite lookup_insert_ne, lookup_insert_eq by done. done.
    + eexists. simpl. rewrite lookup_insert_eq. done.
  - done.
  - intros p Hp. unfold chain in Hp. simpl in Hp. simpl.
    rewrite !lookup_insert_ne; set_solver.
Qed.

(** Two well-formed heaps with the same list and payloads are equal there. *)
Lemma dseg_determined (m m' : gmap ptr Conn) b l a :
  dseg m b l a → dseg m' b l a →
  (∀ p, p ∈ l → payload <$> m' !! p = payload <$> m !! p) →
  ∀ p, p ∈ l → m' !! p = m !! p.
Proof.
  revert b. induction l as [|r l IH]; intros b; [set_solver|].
  intros [(c & Hc & Hcp & Hcn) Hl] [(c' & Hc' & Hcp' & Hcn') Hl'] Hpay p
    [->|Hp]%elem_of_cons.
  - specialize (Hpay r ltac:(set_solver)). rewrite Hc, Hc' in *.
    injection Hpay. intros. f_equal. destruct c, c'; simpl in *; congruence.
  - eapply IH; eauto. intros q' Hq'. apply Hpay. set_solver.
Qed.

Lemma destroy_loop_spec fuel k (m : gmap ptr Conn) b l :
  dseg m b l NULL → NoDup l → (length l ≤ fuel)%nat →
  destroy_loop fuel (first_or l NULL) (mkHeap k m) =
    Ok (tt, mkHeap k (foldl (λ m p, delete p m) m l)).
Proof.
  revert fuel m b. induction l as [|p l IH]; intros fuel m b; [by destruct fuel|].
  intros [(c & Hc & _ & Hn) Hl] [Hp Hnd]%NoDup_cons Hf.
  destruct fuel as [|fuel]; [simpl in Hf; lia|]. simpl first_or. cbn [destroy_loop].
  repeat hstep. rewrite Hn. simpl foldl.
  eapply IH; [by apply dseg_delete_out | done | simpl in Hf; lia].
Qed.

Lemma foldl_delete_lookup (m : gmap ptr Conn) l p :
  foldl (λ m p, delete p m) m l !! p = if decide (p ∈ l) then None else m !! p.
Proof.
  revert m. induction l as [|q' l IH]; intros m.
  { case_decide; [set_solver | done]. }
  cbn [foldl]. rewrite IH, lookup_delete.
  repeat case_decide; try done; set_solver.
Qed.
End queue_lemmas.

(** ** The abstract contract

    What the rest of the program may rely on: a list of connections, each with
    its descriptor, thread and buffers. *)

Definition info : Type := Z * option nat * option ptr * option bufref * option bufref.
Abbreviation conn_list := (list (ptr * info)).

Definition spec_insert (p : ptr) (fd0 : Z) (t : option nat) (L : conn_list) : conn_list :=
  (p, (fd0, t, NULL, None, None)) :: L.
Definition spec_delete (p : ptr) (L : conn_list) : conn_list :=
  filter (λ x, x.1 ≠ p) L.

Definition represents (h : ConnHeap) (q : ConnQueue) (L : conn_list) : Prop :=
  queue_ok h q L.*1 ∧ Forall (λ x, payload <$> cells h !! x.1 = Some x.2) L.

Lemma spec_delete_fst p L : (spec_delete p L).*1 = filter (λ x, x ≠ p) L.*1.
Proof.
  unfold spec_delete. induction L as [|[r i] L IH]; [done|].
  rewrite fmap_cons. destruct (decide (r = p)) as [->|Hne].
  - do 2 (rewrite filter_cons_False; [|by intros Hp; apply Hp]). exact IH.
  - do 2 (rewrite filter_cons_True; [|done]). rewrite fmap_cons. by f_equal.
Qed.

Lemma filter_ne_id (l : list ptr) p : p ∉ l → filter (λ x, x ≠ p) l = l.
Proof.
  induction l as [|q l IH]; [done|]. intros [Hq Hl]%not_elem_of_cons.
  rewrite filter_cons_True by done. by rewrite IH.
Qed.

Lemma filter_ne_split (l1 l2 : list ptr) p :
  p ∉ l1 → p ∉ l2 → filter (λ x, x ≠ p) (l1 ++ p :: l2) = l1 ++ l2.
Proof.
  intros H1 H2. rewrite filter_app, filter_cons_False by (intros Hp; by apply Hp).
  by rewrite !filter_ne_id.
Qed.

Lemma queue_members_NoDup h q l : queue_ok h q l → NoDup l.
Proof. intros [_ [_ (? & _ & _)%NoDup_app]%NoDup_cons _ _]. done. Qed.

Lemma delete_member h q l p :
  queue_ok h q l → p ∈ l →
  ∃ h', deleteConn q (Some p) h = Ok (mkQueue (u64 (total q - 1)) (head q) (tail q), h') ∧
    queue_ok h' (mkQueue (u64 (total q - 1)) (head q) (tail q)) (filter (λ x, x ≠ p) l) ∧
    brk h' = brk h ∧ cells h' !! p = None ∧
    same_payload (λ r, r = p) h h' ∧ same_outside (λ r, r ∈ chain q l) h h'.
Proof.
  intros Hq Hp. pose proof (queue_members_NoDup _ _ _ Hq) as Hnd.
  apply list_elem_of_split in Hp as (l1 & l2 & ->).
  apply NoDup_app in Hnd as (_ & Hd & [Hp2 _]%NoDup_cons).
  rewrite filter_ne_split; [|intros Hi; apply (Hd p Hi); set_solver|done].
  by apply deleteConn_spec.
Qed.

Lemma represents_fresh h q L : represents h q L → brk h ∉ L.*1.
Proof.
  intros [Hq _] Hin. pose proof (heap_wf_brk h (queue_heap _ _ _ Hq)) as Hn.
  destruct (queue_alive h q L.*1 (brk h) Hq) as [c Hc]; [|congruence].
  unfold chain. set_solver.
Qed.

(** ** Properties *)

(** C21: [insertConn] implements insertion at the front of the abstract list: on
    a queue that represents [L] it does not fault, returns a connection that was
    not in use, represents [L] with that connection in front, and changes no
    object outside the queue. *)
Theorem insertConn_refines (h : ConnHeap) (q : ConnQueue) (L : conn_list) (fd0 : Z)
    (t : option nat) :
  represents h q L →
  ∃ c q' h', insertConn q fd0 t h = Ok ((c, q'), h') ∧ cells h !! c = None ∧
    represents h' q' (spec_insert c fd0 t L) ∧
    same_outside (λ r, r = c ∨ r ∈ chain q L.*1) h h'.
Proof.
  intros HL. pose proof (represents_fresh _ _ _ HL) as Hfresh. destruct HL as [Hq Hpay].
  destruct (insertConn_spec h q L.*1 fd0 t Hq) as (h' & Hrun & Hq' & _ & Hnew & Hsame & Hout).
  exists (brk h), (mkQueue (u64 (total q + 1)) (head q) (tail q)), h'.
  split_and!; [done|by apply heap_wf_brk; apply Hq| |done].
  split; [exact Hq'|]. constructor; [exact Hnew|].
  rewrite Forall_forall in *. intros x Hx. rewrite Hsame; [by apply Hpay|].
  intros Heq. apply Hfresh. rewrite <- Heq. by apply list_elem_of_fmap_2.
Qed.

(** C22: [deleteConn] on a member implements removal from the abstract list: it
    does not fault, frees that connection and no other, represents the list
    without it, and changes no object outside the queue. *)
Theorem deleteConn_refines (h : ConnHeap) (q : ConnQueue) (L : conn_list) (p : ptr) :
  represents h q L → p ∈ L.*1 →
  ∃ q' h', deleteConn q (Some p) h = Ok (q', h') ∧ cells h' !! p = None ∧
    represents h' q' (spec_delete p L) ∧
    same_outside (λ r, r ∈ chain q L.*1) h h'.
Proof.
  intros [Hq Hpay] Hp.
  destruct (delete_member h q L.*1 p Hq Hp) as (h' & Hrun & Hq' & _ & Hdel & Hsame & Hout).
  exists (mkQueue (u64 (total q - 1)) (head q) (tail q)), h'.
  split_and!; [done|done| |done]. split; [by rewrite spec_delete_fst|].
  rewrite Forall_forall in *. intros x [Hne Hx]%list_elem_of_filter.
  rewrite Hsame by done. by apply Hpay.
Qed.

Lemma queue_destroy_run (h : ConnHeap) (q : ConnQueue) (l : list ptr) (fuel : nat) :
  queue_ok h q l → (length l + 2 ≤ fuel)%nat →
  ∃ m, ConnQueue_destroy fuel q h = Ok (tt, mkHeap (brk h) m) ∧
    ∀ p, m !! p = if decide (p ∈ chain q l) then None else cells h !! p.
Proof.
  intros [_ Hnd Hlinks _] Hf. exists (foldl (λ m p, delete p m) (cells h) (chain q l)).
  split; [|intros p; apply foldl_delete_lookup].
  unfold ConnQueue_destroy. change (Some (head q)) with (first_or (chain q l) NULL).
  replace h with (mkHeap (brk h) (cells h)) at 1 by (by destruct h).
  eapply destroy_loop_spec; [exact Hlinks | exact Hnd|].
  unfold chain. simpl. rewrite length_app. simpl. lia.
Qed.

Lemma queue_destroy_frees (h : ConnHeap) (q : ConnQueue) (l : list ptr) (fuel : nat) :
  queue_ok h q l → (length l + 2 ≤ fuel)%nat →
  ∃ h', ConnQueue_destroy fuel q h = Ok (tt, h') ∧
    (∀ p, cells h' !! p = if decide (p ∈ chain q l) then None else cells h !! p).
Proof. intros Hq Hf. destruct (queue_destroy_run h q l fuel Hq Hf) as (m & H & Hm). eauto. Qed.

(** A new queue is well formed and empty; [~ConnQueue] then, or on any
    well-formed queue, frees exactly the objects of the queue, sentinels
    included, each of them once, and terminates with fuel for each object. *)
Theorem queue_destroy_frees_all (h : ConnHeap) (q : ConnQueue) (l : list ptr) (fuel : nat) :
  queue_ok h q l → (length l + 2 ≤ fuel)%nat →
  ∃ h', ConnQueue_destroy fuel q h = Ok (tt, h') ∧
    (∀ p, cells h' !! p = if decide (p ∈ chain q l) then None else cells h !! p).
Proof. apply queue_destroy_frees. Qed.

(** Removing the connection just inserted restores the queue, its count and
    every object of the heap. *)
Theorem insert_delete_roundtrip (h : ConnHeap) (q : ConnQueue) (l : list ptr) (fd0 : Z)
    (t : option nat) :
  queue_ok h q l →
  ∃ c q1 h1 h2, insertConn q fd0 t h = Ok ((c, q1), h1) ∧
    deleteConn q1 (Some c) h1 = Ok (q, h2) ∧ cells h2 = cells h.
Proof.
  intros Hq. pose proof Hq as [Hwf Hnd Hlinks Htot].
  pose proof (heap_wf_brk _ Hwf) as Hfresh.
  destruct (insertConn_spec h q l fd0 t Hq) as (h1 & Hrun1 & Hq1 & _ & Hnew & Hs1 & Ho1).
  set (q1 := mkQueue (u64 (total q + 1)) (head q) (tail q)) in *.
  destruct (deleteConn_spec h1 q1 [] (brk h) l Hq1) as (h2 & Hrun2 & Hq2 & _ & Hdel & Hs2 & Ho2).
  exists (brk h), q1, h1, h2. split; [done|].
  assert (Hqe : mkQueue (u64 (total q1 - 1)) (head q1) (tail q1) = q).
  { destruct q as [tot hd tl]. simpl in *. f_equal. rewrite Htot. unfold wrap.
    rewrite Zminus_mod_idemp_l, Z.add_simpl_r, Zmod_mod. done. }
  rewrite Hqe in *. split; [done|]. apply map_eq. intros p.
  destruct (decide (p = brk h)) as [->|Hp]; [congruence|].
  destruct (decide (p ∈ chain q l)) as [Hin|Hout].
  - eapply dseg_determined; [exact Hlinks | exact (queue_links _ _ _ Hq2) | | done].
    intros r Hr. destruct (decide (r = brk h)) as [->|Hr'].
    + destruct (dseg_alive _ _ _ _ _ Hlinks Hr) as [c Hc]. congruence.
    + rewrite Hs2, Hs1 by done. done.
  - rewrite Ho2; [apply Ho1; tauto|].
    intros Hin. apply Hout. unfold chain in *. simpl in Hin. set_solver.
Qed.

(** ** A concrete queue: a new one with two connections inserted *)

Definition demo_prog : M ConnHeap (ptr * ConnQueue) :=
  q ← ConnQueue_init; r ← insertConn q 7 (Some 0%nat); insertConn r.2 8 (Some 0%nat).
Definition demo_heap : ConnHeap :=
  match demo_prog (mkHeap 1 ∅) with Ok (_, h) => h | _ => mkHeap 1 ∅ end.
Definition demo_queue : ConnQueue :=
  match demo_prog (mkHeap 1 ∅) with Ok ((_, q), _) => q | _ => mkQueue 0 1 1 end.
Definition demo_list : conn_list :=
  [(4%positive, (8, Some 0%nat, NULL, None, None));
   (3%positive, (7, Some 0%nat, NULL, None, None))].

Lemma demo_represents : represents demo_heap demo_queue demo_list.
Proof.
  assert (H0 : heap_wf (mkHeap 1 ∅)) by (intros p [c Hc]; simpl in Hc; set_solver).
  destruct (ConnQueue_init_spec _ H0) as (q0 & h0 & E0 & Hq0 & _).
  assert (R0 : represents h0 q0 []) by (split; [exact Hq0 | constructor]).
  destruct (insertConn_refines _ _ _ 7 (Some 0%nat) R0) as (c1 & q1 & h1 & E1 & _ & R1 & _).
  destruct (insertConn_refines _ _ _ 8 (Some 0%nat) R1) as (c2 & q2 & h2 & E2 & _ & R2 & _).
  vm_compute in E0. injection E0 as <- <-.
  vm_compute in E1. injection E1 as <- <- <-.
  vm_compute in E2. injection E2 as <- <- <-. exact R2.
Qed.

Lemma insertConn_refines_witness :
  ∃ c q' h', insertConn demo_queue 9 (Some 1%nat) demo_heap = Ok ((c, q'), h') ∧
    cells demo_heap !! c = None ∧
    represents h' q' (spec_insert c 9 (Some 1%nat) demo_list) ∧
    same_outside (λ r, r = c ∨ r ∈ chain demo_queue demo_list.*1) demo_heap h'.
Proof. apply insertConn_refines, demo_represents. Defined.

Lemma deleteConn_refines_witness :
  ∃ q' h', deleteConn demo_queue (Some 3%positive) demo_heap = Ok (q', h') ∧
    cells h' !! 3%positive = None ∧
    represents h' q' (spec_delete 3 demo_list) ∧
    same_outside (λ r, r ∈ chain demo_queue demo_list.*1) demo_heap h'.
Proof. apply deleteConn_refines; [apply demo_represents | set_solver]. Defined.

Lemma queue_destroy_frees_all_witness :
  ∃ h', ConnQueue_destroy 4 demo_queue demo_heap = Ok (tt, h') ∧
    (∀ p, cells h' !! p =
       if decide (p ∈ chain demo_queue demo_list.*1) then None else cells demo_heap !! p).
Proof. apply queue_destroy_frees_all; [apply demo_represents | simpl; lia]. Defined.

Lemma insert_delete_roundtrip_witness :
  ∃ c q1 h1 h2, insertConn demo_queue 9 (Some 1%nat) demo_heap = Ok ((c, q1), h1) ∧
    deleteConn q1 (Some c) h1 = Ok (demo_queue, h2) ∧ cells h2 = cells demo_heap.
Proof. apply (insert_delete_roundtrip _ _ demo_list.*1), demo_represents. Defined.
