(* ===== verification/External.v ===== *)
(** * What the program relies on: libevent, zlib and protobuf

    The interfaces of the libraries the sources call, as type classes of
    operations, each with a class of the laws their manuals document.  The
    definitions of the development take the operations as arguments; theorems
    name the laws they need.  Concrete instances at the end of the file serve to
    run the program on examples. *)

From S2P Require Import Prelude.

(** ** libevent's [struct evbuffer] (event2/buffer.h) *)

Class EvbufferOps := {
  evbuffer : Type;
  evbuffer_new : evbuffer;
  evbuffer_get_length : evbuffer → Z;
  (** 0 or -1, and the buffer afterwards *)
  evbuffer_add : evbuffer → bytes → Z * evbuffer;
  evbuffer_prepend : evbuffer → bytes → Z * evbuffer;
  evbuffer_drain : evbuffer → Z → Z * evbuffer;
  (** number of bytes removed (copied), the bytes, and the buffer *)
  evbuffer_remove : evbuffer → Z → Z * bytes * evbuffer;
  evbuffer_copyout : evbuffer → Z → Z * bytes;
  (** the linearised prefix, or [NULL] *)
  evbuffer_pullup : evbuffer → Z → option bytes * evbuffer;
  (** the extents that cover at least the given number of bytes *)
  evbuffer_peek : evbuffer → Z → list bytes;
  (** one extent of the given size: how many were provided, or -1 *)
  evbuffer_reserve_space : evbuffer → Z → Z * evbuffer;
  (** commit the reserved extent, filled with the given bytes *)
  evbuffer_commit_space : evbuffer → bytes → Z * evbuffer;
  (** result, destination, source *)
  evbuffer_add_buffer : evbuffer → evbuffer → Z * evbuffer * evbuffer
}.

Class EvbufferLaws (EB : EvbufferOps) := {
  contents : evbuffer → bytes;
  contents_new : contents evbuffer_new = [];
  get_length_law b : evbuffer_get_length b = lenZ (contents b);
  add_law b bs r b' : evbuffer_add b bs = (r, b') →
    (r = 0 ∧ contents b' = contents b ++ bs) ∨ (r = -1 ∧ contents b' = contents b);
  prepend_law b bs r b' : evbuffer_prepend b bs = (r, b') →
    (r = 0 ∧ contents b' = bs ++ contents b) ∨ (r = -1 ∧ contents b' = contents b);
  drain_law b n r b' : evbuffer_drain b n = (r, b') → 0 ≤ n →
    contents b' = drop (Z.to_nat n) (contents b);
  remove_law b n r bs b' : evbuffer_remove b n = (r, bs, b') → 0 ≤ n →
    r = lenZ bs ∧ bs = take (Z.to_nat n) (contents b) ∧
    contents b' = drop (Z.to_nat n) (contents b);
  copyout_law b n r bs : evbuffer_copyout b n = (r, bs) → 0 ≤ n →
    r = lenZ bs ∧ bs = take (Z.to_nat n) (contents b);
  pullup_law b n d b' : evbuffer_pullup b n = (d, b') → 0 ≤ n →
    contents b' = contents b ∧
    d = if decide (n ≤ lenZ (contents b)) then Some (take (Z.to_nat n) (contents b)) else None;
  peek_law b n : 0 ≤ n ≤ lenZ (contents b) →
    ∃ rest, concat (evbuffer_peek b n) ++ rest = contents b ∧
            n ≤ lenZ (concat (evbuffer_peek b n));
  reserve_law b n r b' : evbuffer_reserve_space b n = (r, b') →
    (r = 1 ∨ r = -1) ∧ contents b' = contents b;
  commit_law b n b' bs r b'' : evbuffer_reserve_space b n = (1, b') → lenZ bs ≤ n →
    evbuffer_commit_space b' bs = (r, b'') → r = 0 ∧ contents b'' = contents b ++ bs;
  add_buffer_law d s r d' s' : evbuffer_add_buffer d s = (r, d', s') →
    (r = 0 ∧ contents d' = contents d ++ contents s ∧ contents s' = []) ∨
    (r = -1 ∧ contents d' = contents d ∧ contents s' = contents s)
}.

(** Memory never runs out: the operations that allocate succeed. *)
Class EvbufferNoOOM (EB : EvbufferOps) : Prop := {
  add_ok b bs : (evbuffer_add b bs).1 = 0;
  prepend_ok b bs : (evbuffer_prepend b bs).1 = 0;
  reserve_ok b n : 0 ≤ n → (evbuffer_reserve_space b n).1 = 1;
  add_buffer_ok d s : (evbuffer_add_buffer d s).1.1 = 0
}.

Section evbuffer_lemmas.
Context {EB : EvbufferOps} {EBL : EvbufferLaws EB} {EBN : EvbufferNoOOM EB}.

Lemma add_success b bs :
  ∃ b', evbuffer_add b bs = (0, b') ∧ contents b' = contents b ++ bs.
Proof using EBN.
  pose proof (add_ok b bs) as H. destruct (evbuffer_add b bs) as [r b'] eqn:E.
  simpl in H. subst. exists b'. by destruct (add_law _ _ _ _ E) as [[_ ?]|[? _]].
Qed.
Lemma prepend_success b bs :
  ∃ b', evbuffer_prepend b bs = (0, b') ∧ contents b' = bs ++ contents b.
Proof using EBN.
  pose proof (prepend_ok b bs) as H. destruct (evbuffer_prepend b bs) as [r b'] eqn:E.
  simpl in H. subst. exists b'. by destruct (prepend_law _ _ _ _ E) as [[_ ?]|[? _]].
Qed.
Lemma add_buffer_success d s :
  ∃ d' s', evbuffer_add_buffer d s = (0, d', s') ∧
    contents d' = contents d ++ contents s ∧ contents s' = [].
Proof using EBN.
  pose proof (add_buffer_ok d s) as H.
  destruct (evbuffer_add_buffer d s) as [[r d'] s'] eqn:E.
  simpl in H. subst. exists d', s'.
  by destruct (add_buffer_law _ _ _ _ _ E) as [(_ & ? & ?)|(? & _)].
Qed.
Lemma reserve_commit_success b n bs :
  0 ≤ n → lenZ bs ≤ n →
  ∃ b' b'', evbuffer_reserve_space b n = (1, b') ∧
    evbuffer_commit_space b' bs = (0, b'') ∧ contents b'' = contents b ++ bs.
Proof using EBN EBL.
  intros Hn Hb. pose proof (reserve_ok b n Hn) as H.
  destruct (evbuffer_reserve_space b n) as [r b'] eqn:E. simpl in H. subst.
  destruct (evbuffer_commit_space b' bs) as [r b''] eqn:E'.
  destruct (commit_law _ _ _ _ _ _ E Hb E') as [-> Hc]. by exists b', b''.
Qed.
Lemma peek_all b : concat (evbuffer_peek b (lenZ (contents b))) = contents b.
Proof using EBL.
  destruct (peek_law b (lenZ (contents b))) as (rest & Hr & Hl); [lia|].
  assert (rest = []) as ->; [|by rewrite app_nil_r in Hr].
  destruct rest; [done|]. apply (f_equal length) in Hr.
  rewrite length_app in Hr. simpl in Hr. lia.
Qed.
End evbuffer_lemmas.

(** ** zlib's [adler32] (zlib.h) *)

Class ZlibOps := {
  (** [adler32(1L, Z_NULL, 0)]: "the required initial value" *)
  adler32_init : Z;
  adler32 : Z → bytes → Z
}.
Class ZlibLaws (ZL : ZlibOps) : Prop := {
  adler32_app a x y : adler32 (adler32 a x) y = adler32 a (x ++ y);
  adler32_nil a : adler32 a [] = a
}.

(** Feeding the extents of a buffer one by one is feeding their concatenation. *)
Lemma adler32_concat {ZL : ZlibOps} {ZLL : ZlibLaws ZL} a (l : list bytes) :
  foldl adler32 a l = adler32 a (concat l).
Proof.
  revert a. induction l as [|x l IH]; intros a; simpl; [by rewrite adler32_nil|].
  by rewrite IH, adler32_app.
Qed.

(** ** protobuf's [Message] interface (message.h, message_lite.h) *)

Class ProtoOps (Msg : Type) := {
  (** [prototype->New()] *)
  New : Msg;
  IsInitialized : Msg → bool;
  ByteSize : Msg → Z;
  SerializeWithCachedSizesToArray : Msg → bytes;
  (** whether the bytes were well formed, and the message afterwards *)
  ParseFromArray : Msg → bytes → bool * Msg
}.
(** [message_ok] holds of the messages that the interface of their class builds
    and whose serialisation [ParseFromArray] reads back; what it reads is the
    same message for every reader of its fields. *)
Class ProtoLaws (Msg : Type) (PB : ProtoOps Msg) := {
  message_ok : Msg → Prop;
  same_message : Msg → Msg → Prop;
  byte_size_law m : message_ok m → lenZ (SerializeWithCachedSizesToArray m) < 2 ^ 31 →
    ByteSize m = lenZ (SerializeWithCachedSizesToArray m);
  parse_law m : message_ok m → IsInitialized m = true →
    lenZ (SerializeWithCachedSizesToArray m) < 2 ^ 31 →
    ∃ m', ParseFromArray New (SerializeWithCachedSizesToArray m) = (true, m') ∧ same_message m m'
}.

(** ** Concrete instances

    A buffer as a list of extents, Adler-32 as RFC 1950 defines it. *)

Module chunked.
Fixpoint peek_chunks (b : list bytes) (n : Z) : list bytes :=
  match b with
  | [] => []
  | c :: b' => if decide (n ≤ 0) then [] else c :: peek_chunks b' (n - lenZ c)
  end.

#[export] Instance ops : EvbufferOps := {
  evbuffer := list bytes;
  evbuffer_new := [];
  evbuffer_get_length := λ b : list bytes, lenZ (concat b);
  evbuffer_add := λ (b : list bytes) bs, (0, b ++ [bs]);
  evbuffer_prepend := λ (b : list bytes) bs, (0, bs :: b);
  evbuffer_drain := λ (b : list bytes) n, (0, [drop (Z.to_nat n) (concat b)]);
  evbuffer_remove := λ (b : list bytes) n,
    (lenZ (take (Z.to_nat n) (concat b)), take (Z.to_nat n) (concat b),
     [drop (Z.to_nat n) (concat b)]);
  evbuffer_copyout := λ (b : list bytes) n,
    (lenZ (take (Z.to_nat n) (concat b)), take (Z.to_nat n) (concat b));
  evbuffer_pullup := λ (b : list bytes) n,
    (if decide (n ≤ lenZ (concat b)) then Some (take (Z.to_nat n) (concat b)) else None,
     [concat b]);
  evbuffer_peek := peek_chunks;
  evbuffer_reserve_space := λ (b : list bytes) _, (1, b);
  evbuffer_commit_space := λ (b : list bytes) bs, (0, b ++ [bs]);
  evbuffer_add_buffer := λ d s : list bytes, (0, d ++ s, [])
}.

Lemma peek_chunks_spec b n :
  n ≤ lenZ (concat b) →
  ∃ rest, concat (peek_chunks b n) ++ rest = concat b ∧ n ≤ lenZ (concat (peek_chunks b n)).
Proof.
  revert n. induction b as [|c b IH]; intros n Hn; [by exists []|].
  cbn [peek_chunks]. case_decide as Hd.
  - exists (concat (c :: b)). simpl. split; [done | lia].
  - destruct (IH (n - lenZ c)) as (rest & Hr & Hl).
    { simpl in Hn. rewrite length_app in Hn. lia. }
    exists rest. simpl. rewrite <- app_assoc, Hr. split; [done|]. rewrite length_app. lia.
Qed.

#[export] Instance laws : EvbufferLaws ops.
Proof.
  refine (Build_EvbufferLaws ops (λ b : list bytes, concat b) _ _ _ _ _ _ _ _ _ _ _ _); simpl; try done.
  - intros b bs r b' [= <- <-]. left. rewrite concat_app. simpl. by rewrite app_nil_r.
  - intros b bs r b' [= <- <-]. by left.
  - intros b n r b' [= <- <-] _. simpl. by rewrite app_nil_r.
  - intros b n r bs b' [= <- <- <-] _. simpl. by rewrite app_nil_r.
  - intros b n r bs [= <- <-] _. done.
  - intros b n d b' [= <- <-] _. simpl. by rewrite app_nil_r.
  - intros b n [_ Hn]. by apply peek_chunks_spec.
  - intros b n r b' [= <- <-]. split; [by left | done].
  - intros b n b' bs r b'' [= <-] _ [= <- <-]. rewrite concat_app. simpl. by rewrite app_nil_r.
  - intros d s r d' s' [= <- <- <-]. left. by rewrite concat_app.
Defined.

#[export] Instance no_oom : EvbufferNoOOM ops.
Proof. by split. Qed.
End chunked.

Module rfc1950.
Definition adler_byte (s : Z) (b : Byte.byte) : Z :=
  let a := (Z.land s 0xffff + byte.unsigned b) `mod` 65521 in
  let c := (Z.shiftr s 16 + a) `mod` 65521 in
  Z.lor (Z.shiftl c 16) a.

#[export] Instance zlib : ZlibOps := {
  adler32_init := 1;
  adler32 a bs := fold_left adler_byte bs a
}.
#[export] Instance zlib_laws : ZlibLaws zlib.
Proof. split; [|done]. intros a x y. simpl. by rewrite fold_left_app. Qed.
End rfc1950.

(** The checksum of the string "mRpc". *)
Example adler32_mRpc :
  adler32 (ZlibOps := rfc1950.zlib) 1 (bytes_of_string "mRpc") = 0x03f10193.
Proof. reflexivity. Qed.
