(* ===== verification/World.v ===== *)
(** * The shared state of the process

    The heap of connections, the bufferevents of libevent, the event threads
    with their connection queues, and a component [w_ext] for the state of the
    layer above (the server, the client or the RPC channels).  The accessors of
    [class Conn] (src/tcpServer.h) are operations on this state. *)

From S2P Require Import Prelude ConnQueue External.

(** [struct event_base]: has its loop been told to stop? *)
Record event_base := mkBase { loop_stopped : bool }.

(** [struct LibeventThread]; [notify_pipe] is what the pipe between
    [notify_send_fd] and [notify_recv_fd] holds, the oldest value first. *)
Record LibeventThread := mkThread {
  thread_id : Z;
  base : option event_base;
  notify_registered : bool;
  notify_send_fd : Z;
  notify_recv_fd : Z;
  notify_pipe : list Z;
  connect_queue : ConnQueue
}.

Definition set_base b t := mkThread (thread_id t) b (notify_registered t)
  (notify_send_fd t) (notify_recv_fd t) (notify_pipe t) (connect_queue t).
Definition set_pipe p t := mkThread (thread_id t) (base t) (notify_registered t)
  (notify_send_fd t) (notify_recv_fd t) p (connect_queue t).
Definition set_thread_id v t := mkThread v (base t) (notify_registered t)
  (notify_send_fd t) (notify_recv_fd t) (notify_pipe t) (connect_queue t).
Definition set_registered v t := mkThread (thread_id t) (base t) v
  (notify_send_fd t) (notify_recv_fd t) (notify_pipe t) (connect_queue t).
Definition set_notify_fds s r t := mkThread (thread_id t) (base t) (notify_registered t)
  s r (notify_pipe t) (connect_queue t).
Definition set_queue q t := mkThread (thread_id t) (base t) (notify_registered t)
  (notify_send_fd t) (notify_recv_fd t) (notify_pipe t) q.

(** [LibeventThread()]: [base] is not initialised by it. *)
Definition LibeventThread_init : M ConnHeap LibeventThread :=
  q ← ConnQueue_init; mret (mkThread 0 None false 0 0 [] q).

(** A live [struct bufferevent]: its socket, the argument its callbacks get
    ([None] as long as none are set) and its two buffers. *)
Record Bufferevent {EB : EvbufferOps} := mkBev {
  bev_fd : Z;
  bev_data : option ptr;
  bev_input : evbuffer;
  bev_output : evbuffer
}.
Arguments Bufferevent EB : clear implicits.

Definition bev_side {EB : EvbufferOps} (s : side) (b : Bufferevent EB) : evbuffer :=
  match s with Input => bev_input b | Output => bev_output b end.
Definition set_side {EB : EvbufferOps} (s : side) (e : evbuffer) (b : Bufferevent EB) :=
  match s with
  | Input => mkBev EB (bev_fd b) (bev_data b) e (bev_output b)
  | Output => mkBev EB (bev_fd b) (bev_data b) (bev_input b) e
  end.

Definition set_data {EB : EvbufferOps} (c : option ptr) (b : Bufferevent EB) :=
  mkBev EB (bev_fd b) c (bev_input b) (bev_output b).

Record World {EB : EvbufferOps} {E : Type} := mkWorld {
  w_heap : ConnHeap;
  w_bev_brk : ptr;
  w_bevs : gmap ptr (Bufferevent EB);
  w_threads : list LibeventThread;
  w_ext : E
}.
Arguments World EB E : clear implicits.
Arguments mkWorld {EB E} _ _ _ _ _.

Section world.
Context {EB : EvbufferOps} {E : Type}.
Abbreviation W := (World EB E).
Abbreviation MW := (M (World EB E)).

Definition set_heap (h : ConnHeap) (w : W) : W :=
  mkWorld h (w_bev_brk w) (w_bevs w) (w_threads w) (w_ext w).
Definition set_bevs (m : gmap ptr (Bufferevent EB)) (w : W) : W :=
  mkWorld (w_heap w) (w_bev_brk w) m (w_threads w) (w_ext w).
Definition set_threads (ts : list LibeventThread) (w : W) : W :=
  mkWorld (w_heap w) (w_bev_brk w) (w_bevs w) ts (w_ext w).
Definition set_ext (e : E) (w : W) : W :=
  mkWorld (w_heap w) (w_bev_brk w) (w_bevs w) (w_threads w) e.

Definition on_heap {A} (m : M ConnHeap A) : MW A := zoom w_heap set_heap m.
Definition on_ext {A} (m : M E A) : MW A := zoom w_ext set_ext m.

(** *** bufferevents *)

Definition bev_at (p : option ptr) : MW (Bufferevent EB) := λ w,
  match p with
  | None => Fault NullDeref
  | Some p => expect UseAfterFree (w_bevs w !! p) w
  end.

(** [bufferevent_socket_new]: a fresh bufferevent, or [NULL] when the
    environment refuses it. *)
Definition bufferevent_socket_new (available : bool) (sock : Z) : MW (option ptr) := λ w,
  if available then
    Ok (Some (w_bev_brk w),
        mkWorld (w_heap w) (Pos.succ (w_bev_brk w))
          (<[w_bev_brk w := mkBev EB sock None evbuffer_new evbuffer_new]> (w_bevs w))
          (w_threads w) (w_ext w))
  else Ok (NULL, w).

Definition bufferevent_free (p : option ptr) : MW unit := λ w,
  match p with
  | None => Fault NullDeref
  | Some p =>
      match w_bevs w !! p with
      | None => Fault DoubleFree
      | Some _ => Ok (tt, set_bevs (delete p (w_bevs w)) w)
      end
  end.

(** [bufferevent_setcb(p, ..., conn)] *)
Definition bufferevent_setcb (p : option ptr) (conn : ptr) : MW unit :=
  b ← bev_at p;
  match p with
  | None => mret tt
  | Some p => modify (λ w, set_bevs (<[p := set_data (Some conn) b]> (w_bevs w)) w)
  end.

Definition bufferevent_get_input (p : option ptr) : MW bufref :=
  match p with
  | None => raise NullDeref
  | Some p => _ ← bev_at (Some p); mret (mkBufref p Input)
  end.
Definition bufferevent_get_output (p : option ptr) : MW bufref :=
  match p with
  | None => raise NullDeref
  | Some p => _ ← bev_at (Some p); mret (mkBufref p Output)
  end.

(** *** evbuffers behind a pointer *)

Definition buf_load (r : option bufref) : MW evbuffer :=
  match r with
  | None => raise NullDeref
  | Some r => b ← bev_at (Some (br_bev r)); mret (bev_side (br_side r) b)
  end.
Definition buf_store (r : option bufref) (e : evbuffer) : MW unit :=
  match r with
  | None => raise NullDeref
  | Some r =>
      b ← bev_at (Some (br_bev r));
      modify (λ w, set_bevs (<[br_bev r := set_side (br_side r) e b]> (w_bevs w)) w)
  end.
Definition buf_drain (r : option bufref) (len : Z) : MW Z :=
  e ← buf_load r;
  let '(res, e') := evbuffer_drain e len in
  _ ← buf_store r e'; mret res.
Definition buf_pullup (r : option bufref) (len : Z) : MW (option bytes) :=
  e ← buf_load r;
  let '(data, e') := evbuffer_pullup e len in
  _ ← buf_store r e'; mret data.

(** *** [class Conn] *)

Definition conn_at (c : ptr) : MW Conn := on_heap (load (Some c)).
Definition conn_update (c : ptr) (f : Conn → Conn) : MW unit := on_heap (store (Some c) f).

Definition getThread (c : ptr) : MW (option nat) := o ← conn_at c; mret (thread o).
Definition getFd (c : ptr) : MW Z := o ← conn_at c; mret (fd o).
Definition getBufferevent (c : ptr) : MW (option ptr) := o ← conn_at c; mret (bev o).
(** [uint32_t]: the [size_t] length is truncated. *)
Definition getReadBufferLen (c : ptr) : MW Z :=
  o ← conn_at c; e ← buf_load (readBuf o); mret (u32 (evbuffer_get_length e)).
Definition getReadBuffer (c : ptr) : MW (option bufref) := o ← conn_at c; mret (readBuf o).
Definition readBuffer (c : ptr) (len : Z) : MW (Z * bytes) :=
  o ← conn_at c;
  e ← buf_load (readBuf o);
  let '(res, bs, e') := evbuffer_remove e len in
  _ ← buf_store (readBuf o) e'; mret (res, bs).
Definition copyBuffer (c : ptr) (len : Z) : MW (Z * bytes) :=
  o ← conn_at c; e ← buf_load (readBuf o); mret (evbuffer_copyout e len).
Definition getWriteBufferLen (c : ptr) : MW Z :=
  o ← conn_at c; e ← buf_load (writeBuf o); mret (u32 (evbuffer_get_length e)).
Definition addToWriteBuffer (c : ptr) (data : bytes) : MW Z :=
  o ← conn_at c;
  e ← buf_load (writeBuf o);
  let '(res, e') := evbuffer_add e data in
  _ ← buf_store (writeBuf o) e'; mret res.
Definition addBufToWriteBuffer (c : ptr) (src : evbuffer) : MW (Z * evbuffer) :=
  o ← conn_at c;
  e ← buf_load (writeBuf o);
  let '(res, e', src') := evbuffer_add_buffer e src in
  _ ← buf_store (writeBuf o) e'; mret (res, src').
Definition moveBufferReadToWrite (c : ptr) : MW unit :=
  o ← conn_at c;
  src ← buf_load (readBuf o);
  e ← buf_load (writeBuf o);
  let '(_, e', src') := evbuffer_add_buffer e src in
  _ ← buf_store (writeBuf o) e'; buf_store (readBuf o) src'.

(** *** Threads *)

Definition thread_at (t : option nat) : MW LibeventThread := λ w,
  match t with
  | None => Fault NullDeref
  | Some i => expect OutOfBounds (w_threads w !! i) w
  end.
Definition thread_update (i : nat) (f : LibeventThread → LibeventThread) : MW unit :=
  modify (λ w, set_threads (alter f i (w_threads w)) w).

(** [thread->connect_queue.insertConn(fd, thread)] *)
Definition thread_insertConn (i : nat) (fd0 : Z) : MW ptr :=
  th ← thread_at (Some i);
  r ← on_heap (insertConn (connect_queue th) fd0 (Some i));
  _ ← thread_update i (set_queue r.2);
  mret r.1.

(** [conn->getThread()->connect_queue.deleteConn(conn)] *)
Definition thread_deleteConn (c : ptr) : MW unit :=
  t ← getThread c;
  th ← thread_at t;
  q ← on_heap (deleteConn (connect_queue th) (Some c));
  match t with
  | Some i => thread_update i (set_queue q)
  | None => mret tt
  end.
End world.

#[global] Arguments buf_load : simpl never.
#[global] Arguments buf_store : simpl never.

(** ** Lemmas *)

Section world_lemmas.
Context {EB : EvbufferOps} {E : Type}.
Implicit Types (w : World EB E) (c p : ptr).

Lemma set_heap_id w : set_heap (w_heap w) w = w.
Proof. by destruct w. Qed.
Lemma set_bevs_id w : set_bevs (w_bevs w) w = w.
Proof. by destruct w. Qed.

Lemma on_heap_run {A} (m : M ConnHeap A) w a h :
  m (w_heap w) = Ok (a, h) → on_heap m w = Ok (a, set_heap h w).
Proof. apply zoom_run. Qed.

Lemma conn_at_run w c o : cells (w_heap w) !! c = Some o → conn_at c w = Ok (o, w).
Proof.
  intros H. unfold conn_at. rewrite (on_heap_run _ _ _ _ (load_run _ _ _ H)).
  by rewrite set_heap_id.
Qed.
Lemma conn_update_run w c f o :
  cells (w_heap w) !! c = Some o →
  conn_update c f w =
    Ok (tt, set_heap (mkHeap (brk (w_heap w)) (<[c := f o]> (cells (w_heap w)))) w).
Proof.
  intros H. unfold conn_update. by rewrite (on_heap_run _ _ _ _ (store_run _ _ f _ H)).
Qed.

Lemma bev_at_run w p b : w_bevs w !! p = Some b → bev_at (Some p) w = Ok (b, w).
Proof. intros H. unfold bev_at. by rewrite H. Qed.
Lemma bufferevent_free_run w p :
  is_Some (w_bevs w !! p) →
  bufferevent_free (Some p) w = Ok (tt, set_bevs (delete p (w_bevs w)) w).
Proof. intros [b H]. unfold bufferevent_free. by rewrite H. Qed.

Lemma buf_load_run w p s b :
  w_bevs w !! p = Some b → buf_load (Some (mkBufref p s)) w = Ok (bev_side s b, w).
Proof. intros H. unfold buf_load. cbn [br_bev br_side]. by rewrite (bind_run _ _ _ _ _ (bev_at_run _ _ _ H)). Qed.
Lemma buf_store_run w p s b e :
  w_bevs w !! p = Some b →
  buf_store (Some (mkBufref p s)) e w =
    Ok (tt, set_bevs (<[p := set_side s e b]> (w_bevs w)) w).
Proof. intros H. unfold buf_store. cbn [br_bev br_side]. by rewrite (bind_run _ _ _ _ _ (bev_at_run _ _ _ H)). Qed.

Lemma thread_at_run w i th :
  w_threads w !! i = Some th → thread_at (Some i) w = Ok (th, w).
Proof. intros H. unfold thread_at. by rewrite H. Qed.
End world_lemmas.

(** Execute the next command of a program on the world. *)
Ltac wstep :=
  erewrite bind_run;
  [|first [ reflexivity | eassumption
          | eapply conn_at_run; eassumption
          | eapply buf_load_run; eassumption
          | eapply buf_store_run; eassumption
          | eapply bev_at_run; eassumption
          | eapply thread_at_run; eassumption ]];
  cbn beta.
