(* ===== verification/Codec.v ===== *)
(** * The wire format: [ProtobufCodecLite] (src/codeClite.h, src/codeClite.cpp)

    A frame is a 4-byte length, the tag, the serialised message and a 4-byte
    Adler-32 of tag and message, both integers in network order.  The encoder
    works on an evbuffer, the decoder on the read buffer of a connection; its
    callbacks are arbitrary computations on the state of the process. *)

From S2P Require Import Prelude Endian ConnQueue External World.
Import sockets.

(** [enum ErrorCode] *)
Inductive ErrorCode :=
  | noError
  | invalidLength
  | checkSumError
  | invalidNameLen
  | unknownMessageType
  | parseError.

#[global] Instance ErrorCode_eq_dec : EqDecision ErrorCode.
Proof. solve_decision. Defined.

Definition ErrorCode_value (e : ErrorCode) : Z :=
  match e with
  | noError => 0
  | invalidLength => 1
  | checkSumError => 2
  | invalidNameLen => 3
  | unknownMessageType => 4
  | parseError => 5
  end.

Definition headerLen : Z := 4.
Definition checksumLen : Z := 4.
Definition maxMessageLen : Z := 64 * 1024 * 1024.

(** The [switch] is on the integer value: a value out of the enumeration falls
    to the default. *)
Definition errorCodeToString (errorCode : Z) : string :=
  if decide (errorCode = ErrorCode_value noError) then "NoError"
  else if decide (errorCode = ErrorCode_value invalidLength) then "InvalidLength"
  else if decide (errorCode = ErrorCode_value checkSumError) then "CheckSumError"
  else if decide (errorCode = ErrorCode_value invalidNameLen) then "InvalidNameLen"
  else if decide (errorCode = ErrorCode_value unknownMessageType) then "UnknownMessageType"
  else if decide (errorCode = ErrorCode_value parseError) then "ParseError"
  else "UnknownError".

(** ** google-inl.h *)

(** [ByteSizeConsistencyError]: two [GOOGLE_CHECK_EQ], then a fatal log. *)
Definition ByteSizeConsistencyError {S : Type} (byte_size_before_serialization
    byte_size_after_serialization bytes_produced_by_serialization : Z) : M S unit :=
  _ ← (if decide (byte_size_before_serialization = byte_size_after_serialization)
       then mret tt else raise FatalCheck);
  _ ← (if decide (bytes_produced_by_serialization = byte_size_before_serialization)
       then mret tt else raise FatalCheck);
  raise FatalCheck.

Definition dquote : string := String (Ascii.ascii_of_nat 34) EmptyString.
Definition InitializationErrorMessage (action type_name missing : string) : string :=
  "Can't " +:+ action +:+ " message of type " +:+ dquote +:+ type_name +:+ dquote
  +:+ " because it is missing required fields: " +:+ missing.

Section Codec.
Context {EB : EvbufferOps} {ZL : ZlibOps} {Msg : Type} {PB : ProtoOps Msg} {E : Type}.
Context (host : endian).
Abbreviation W := (World EB E).
Abbreviation MW := (M (World EB E)).

(** [rawMessageCallback] may be empty, the other two are always set. *)
Record ProtobufCodecLite := mkCodec {
  _tag : bytes;
  messageCallback : ptr → Msg → MW unit;
  rawCb : option (ptr → Z → MW bool);
  _errorCallback : ptr → ErrorCode → MW unit;
  minMessageLen : Z
}.

(** The constructor: [minMessageLen] is a [uint32_t]. *)
Definition ProtobufCodecLite_init (tagArg : bytes) (messageCb : ptr → Msg → MW unit)
    (rawCb0 : option (ptr → Z → MW bool)) (errorCb : ptr → ErrorCode → MW unit) :=
  mkCodec tagArg messageCb rawCb0 errorCb (u32 (lenZ tagArg + checksumLen)).

(** *** Encoding *)

Definition evb {A} (f : evbuffer → A * evbuffer) : M evbuffer A := λ b, Ok (f b).

Definition serializeToBuffer (message : Msg) : M evbuffer Z :=
  _ ← (if IsInitialized message then mret tt else raise FatalCheck);
  let byte_size := u32 (ByteSize message) in
  n ← evb (λ b, evbuffer_reserve_space b (u32 (byte_size + checksumLen)));
  if decide (n = 1) then
    let out := SerializeWithCachedSizesToArray message in
    let iov_len := lenZ out in
    _ ← (if decide (iov_len ≤ u32 (byte_size + checksumLen)) then mret tt else raise OutOfBounds);
    _ ← (if decide (iov_len ≠ byte_size)
         then ByteSizeConsistencyError (i32 byte_size) (ByteSize message) (i32 iov_len)
         else mret tt);
    _ ← evb (λ b, evbuffer_commit_space b out);
    mret (i32 iov_len)
  else raise Uninit.

(** The two peeks are of the same buffer: [res == n]. *)
Definition checksum (len : Z) : M evbuffer Z :=
  n ← gets (λ b, lenZ (evbuffer_peek b len));
  vec ← gets (λ b, evbuffer_peek b len);
  _ ← assert_ (bool_decide (lenZ vec = n));
  mret (i32 (foldl adler32 adler32_init vec)).

Definition fillEmptyBuffer (cd : ProtobufCodecLite) (message : Msg) : M evbuffer Z :=
  let tag_size := lenZ (_tag cd) in
  res ← evb (λ b, evbuffer_add b (_tag cd));
  if decide (res < 0) then mret res else
  byte_size ← serializeToBuffer message;
  checkSum ← checksum (i32 (u64 (byte_size + tag_size)));
  let len := i32 (hostToNetwork32 host (u32 checkSum)) in
  res ← evb (λ b, evbuffer_add b (mem_of host 4 len));
  if decide (res < 0) then mret res else
  let len := i32 (hostToNetwork32 host (u32 (i32 (u64 (tag_size + byte_size + checksumLen))))) in
  res ← evb (λ b, evbuffer_prepend b (mem_of host 4 len));
  if decide (res < 0) then mret res else
  mret 0.

(** A computation on a local buffer. *)
Definition run_local {T A} (m : M T A) (t : T) : MW (A * T) := λ w,
  match m t with
  | Ok (a, t') => Ok ((a, t'), w)
  | Fault f => Fault f
  | Throw e => Throw e
  end.

(** Failures are only logged; the buffer is moved in any case and freed. *)
Definition send (cd : ProtobufCodecLite) (conn : ptr) (message : Msg) : MW unit :=
  r ← run_local (fillEmptyBuffer cd message) evbuffer_new;
  _ ← addBufToWriteBuffer conn r.2;
  mret tt.

(** *** Decoding *)

Definition asInt32 (buf : bytes) : Z :=
  i32 (networkToHost32 host (of_mem host (take 4 buf))).

Definition validateChecksum (buf : bytes) (len : Z) : bool :=
  let expectedCheckSum := asInt32 (drop (Z.to_nat (len - checksumLen)) buf) in
  let adler := adler32 adler32_init (take (Z.to_nat (len - checksumLen)) buf) in
  bool_decide (i32 adler = expectedCheckSum).

Definition parseFromBuffer (buf : bytes) (len : Z) (message : Msg) : bool * Msg :=
  ParseFromArray message (take (Z.to_nat len) buf).

(** The decision of [parse], once the data is there: [error] starts as
    [noError] and a payload that does not parse leaves it so. *)
Definition parse_data (cd : ProtobufCodecLite) (data : bytes) (len : Z) (message : Msg)
    : ErrorCode * Msg :=
  let tag_size := lenZ (_tag cd) in
  if validateChecksum data len then
    if decide (take (length (_tag cd)) data = _tag cd) then
      let dataLen := len - checksumLen - tag_size in
      let '(ok, message') := parseFromBuffer (drop (length (_tag cd)) data) dataLen message in
      (noError, message')
    else (parseError, message)
  else (unknownMessageType, message).

(** [data == NULL] is not handled: the checksum then reads through it. *)
Definition parse (cd : ProtobufCodecLite) (conn : ptr) (len : Z) (message : Msg)
    : MW (ErrorCode * Msg) :=
  readBuffer ← getReadBuffer conn;
  data ← buf_pullup readBuffer len;
  match data with
  | None => raise NullDeref
  | Some data => mret (parse_data cd data len message)
  end.

(** One round of the loop of [onMessage], once its condition holds; the result
    says whether the loop goes on ([continue]) or is left ([break]). *)
Definition onMessage_round (cd : ProtobufCodecLite) (conn : ptr) : MW bool :=
  r ← readBuffer conn 4;
  let len := asInt32 r.2 in
  if decide (len > maxMessageLen ∨ u32 len < minMessageLen cd) then
    _ ← _errorCallback cd conn invalidLength; mret false
  else
    n ← getReadBufferLen conn;
    if decide (u32 len ≤ n) then
      keep ← match rawCb cd with None => mret true | Some f => f conn len end;
      if negb keep then
        b ← getReadBuffer conn; _ ← buf_drain b len; mret true
      else
        res ← parse cd conn len New;
        let '(errorCode, message) := res in
        if decide (errorCode = noError) then
          _ ← messageCallback cd conn message;
          b ← getReadBuffer conn; _ ← buf_drain b len; mret true
        else
          _ ← _errorCallback cd conn errorCode; mret false
    else mret false.

Fixpoint onMessage_loop (fuel : nat) (cd : ProtobufCodecLite) (conn : ptr) : MW unit :=
  n ← getReadBufferLen conn;
  if decide (u32 (minMessageLen cd + headerLen) ≤ n) then
    match fuel with
    | O => raise OutOfFuel
    | S fuel =>
        continue ← onMessage_round cd conn;
        if (continue : bool) then onMessage_loop fuel cd conn else mret tt
    end
  else mret tt.

Definition onMessage (fuel : nat) (cd : ProtobufCodecLite) (conn : ptr) : MW unit :=
  _ ← getReadBufferLen conn;
  onMessage_loop fuel cd conn.

(** [defaultErrorCallback] closes the connection. *)
Definition defaultErrorCallback (conn : option ptr) (errorCode : ErrorCode) : MW unit :=
  match conn with
  | None => mret tt
  | Some conn =>
      b ← getBufferevent conn;
      _ ← bufferevent_free b;
      thread_deleteConn conn
  end.
End Codec.

Arguments ProtobufCodecLite EB Msg E : clear implicits.

(** ** The frame of a message *)

Section frame.
Context {ZL : ZlibOps} {Msg : Type} {PB : ProtoOps Msg}.

Definition frame_body (tag : bytes) (m : Msg) : bytes :=
  tag ++ SerializeWithCachedSizesToArray m.
Definition frame (tag : bytes) (m : Msg) : bytes :=
  be_bytes 4 (lenZ (frame_body tag m) + checksumLen) ++ frame_body tag m ++
  be_bytes 4 (adler32 adler32_init (frame_body tag m)).

Lemma length_frame tag m :
  lenZ (frame tag m) = lenZ (frame_body tag m) + checksumLen + headerLen.
Proof.
  unfold frame, checksumLen, headerLen. rewrite !length_app, !length_be_bytes. lia.
Qed.
End frame.

Section encoding.
Context {EB : EvbufferOps} {EBL : EvbufferLaws EB} {EBN : EvbufferNoOOM EB}.
Context {ZL : ZlibOps} {ZLL : ZlibLaws ZL}.
Context {Msg : Type} {PB : ProtoOps Msg} {PBL : ProtoLaws Msg PB} {E : Type}.
Context (host : endian).
Implicit Types (cd : ProtobufCodecLite EB Msg E) (m : Msg) (b : evbuffer).

Lemma serializeToBuffer_run m b :
  message_ok m → IsInitialized m = true → lenZ (SerializeWithCachedSizesToArray m) + checksumLen < 2 ^ 31 →
  ∃ b', serializeToBuffer m b = Ok (lenZ (SerializeWithCachedSizesToArray m), b') ∧
    contents b' = contents b ++ SerializeWithCachedSizesToArray m.
Proof using EBL EBN PBL.
  intros Hok Hi Hs. unfold serializeToBuffer, checksumLen in *. rewrite Hi. mrun.
  rewrite byte_size_law by (done || int_lia). set (out := SerializeWithCachedSizesToArray m) in *.
  rewrite (wrap_small _ (lenZ out)), wrap_small by int_lia.
  destruct (reserve_commit_success b (lenZ out + 4) out) as (b1 & b2 & H1 & H2 & Hc); [lia..|].
  unfold evb. erewrite bind_run by (by rewrite H1). cbn beta.
  if_yes; [|done]. if_yes; [|lia]. mrun. if_no; [|tauto]. mrun.
  erewrite bind_run by (by rewrite H2). cbn beta.
  exists b2. rewrite swrap_small by int_lia. done.
Qed.

Lemma checksum_run b :
  checksum (lenZ (contents b)) b = Ok (i32 (adler32 adler32_init (contents b)), b).
Proof using EBL ZLL.
  unfold checksum. do 2 mrun. rewrite bool_decide_true by done. mrun.
  by rewrite adler32_concat, peek_all.
Qed.

Lemma fillEmptyBuffer_run cd m b :
  message_ok m → IsInitialized m = true → lenZ (frame_body (_tag cd) m) + checksumLen < 2 ^ 31 →
  contents b = [] →
  ∃ b', fillEmptyBuffer host cd m b = Ok (0, b') ∧ contents b' = frame (_tag cd) m.
Proof using EBL EBN ZLL PBL.
  intros Hok Hi Hs Hb. unfold fillEmptyBuffer.
  set (tag := _tag cd) in *. set (ser := SerializeWithCachedSizesToArray m).
  assert (Hlen : lenZ (frame_body tag m) = lenZ tag + lenZ ser)
    by (unfold frame_body; rewrite length_app; fold ser; lia).
  unfold checksumLen in *.
  destruct (add_success b tag) as (b1 & H1 & Hc1). rewrite Hb in Hc1. simpl in Hc1.
  destruct (serializeToBuffer_run m b1 Hok Hi) as (b2 & H2 & Hc2); [unfold checksumLen; fold ser; lia|].
  rewrite Hc1 in Hc2. fold ser in H2, Hc2.
  change (tag ++ ser) with (frame_body tag m) in Hc2.
  destruct (add_success b2 (be_bytes 4 (adler32 adler32_init (frame_body tag m))))
    as (b3 & H3 & Hc3).
  destruct (prepend_success b3 (be_bytes 4 (lenZ (frame_body tag m) + checksumLen)))
    as (b4 & H4 & Hc4).
  exists b4. split; [|by rewrite Hc4, Hc3, Hc2].
  unfold evb. erewrite bind_run by (by rewrite H1). cbn beta. if_no; [|lia]. mrun.
  rewrite (wrap_small 64 (lenZ ser + lenZ tag)) by int_lia.
  rewrite (swrap_small 32 eq_refl (lenZ ser + lenZ tag)) by int_lia.
  replace (lenZ ser + lenZ tag) with (lenZ (contents b2)) by (rewrite Hc2; lia).
  erewrite bind_run by apply checksum_run. cbn beta. rewrite Hc2.
  rewrite (wrap_swrap 32 eq_refl (adler32 _ _)), (mem_of_network32 host (adler32 _ _)).
  erewrite bind_run by (by rewrite H3). cbn beta. if_no; [|lia].
  rewrite (wrap_small 64), (wrap_swrap 32 eq_refl (_ + _ + _)) by int_lia.
  rewrite mem_of_network32, <- Hlen. change 4 with checksumLen.
  erewrite bind_run by (by rewrite H4). cbn beta. by if_no; [|lia].
Qed.
End encoding.
