(* ===== verification/Decoder.v ===== *)
(** * The decoder of [ProtobufCodecLite] against its specification

    [decode] says, as a function of the bytes alone, which messages the loop of
    [onMessage] delivers, with which error it stops and what it leaves in the
    buffer.  [onMessage] implements it for every client that keeps the contract
    [CodecClient]; the properties of the wire format are proved of [decode]. *)

From S2P Require Import Prelude Endian ConnQueue External World Codec.
Import sockets.

(** ** The specification *)

Section decode.
Context {ZL : ZlibOps} {Msg : Type} {PB : ProtoOps Msg}.
Context (tag : bytes).

Inductive round :=
  | RMessage (m : Msg) (rest : bytes)
  | RError (e : ErrorCode) (rest : bytes)
  | RIncomplete (rest : bytes).

(** The data of a frame: tag, payload and trailing checksum. *)
Definition data_body (data : bytes) : bytes := take (length data - 4) data.
Definition data_checksum (data : bytes) : bytes := drop (length data - 4) data.
Definition data_intact (data : bytes) : Prop :=
  be_bytes 4 (adler32 adler32_init (data_body data)) = data_checksum data.

#[global] Instance data_intact_dec data : Decision (data_intact data).
Proof. unfold data_intact. apply _. Defined.

Definition decode_data (data : bytes) : ErrorCode * Msg :=
  if decide (data_intact data) then
    if decide (take (length tag) data = tag) then
      (noError, (ParseFromArray New (drop (length tag) (data_body data))).2)
    else (parseError, New)
  else (unknownMessageType, New).

Definition decode_round (bs : bytes) : round :=
  let len := be_value (take 4 bs) in
  let rest := drop 4 bs in
  if decide (maxMessageLen < i32 len ∨ len < lenZ tag + checksumLen) then
    RError invalidLength rest
  else if decide (len ≤ lenZ rest) then
    match decode_data (take (Z.to_nat len) rest) with
    | (noError, m) => RMessage m (drop (Z.to_nat len) rest)
    | (e, _) => RError e rest
    end
  else RIncomplete rest.

Fixpoint decode (fuel : nat) (bs : bytes) : list Msg * option ErrorCode * bytes :=
  if decide (lenZ bs < lenZ tag + checksumLen + headerLen) then ([], None, bs) else
  match fuel with
  | O => ([], None, bs)
  | S fuel =>
      match decode_round bs with
      | RMessage m rest => let '(ms, e, rest') := decode fuel rest in (m :: ms, e, rest')
      | RError e rest => ([], Some e, rest)
      | RIncomplete rest => ([], None, rest)
      end
  end.
End decode.

Section decode_lemmas.
Context {ZL : ZlibOps} {Msg : Type} {PB : ProtoOps Msg} (tag : bytes).
Implicit Types (bs : bytes) (m : Msg).

Lemma decode_round_shorter bs m rest :
  decode_round tag bs = RMessage m rest → 4 ≤ lenZ bs →
  (length rest ≤ length bs - 4)%nat.
Proof.
  unfold decode_round. case_decide; [done|]. case_decide; [|done].
  destruct (decode_data _ _) as [[] ?]; try done. intros [= _ <-] _.
  rewrite !length_drop. lia.
Qed.

(** Any fuel that is not smaller than the input is enough. *)
Lemma decode_fuel n n' bs :
  (length bs ≤ n)%nat → (length bs ≤ n')%nat → decode tag n bs = decode tag n' bs.
Proof.
  revert n' bs. induction n as [|n IH]; intros [|n'] bs Hn Hn'; cbn [decode];
    unfold checksumLen, headerLen; destruct (decide _) as [Hs|Hs]; try done; try lia.
  destruct (decode_round tag bs) as [m rest|e rest|rest] eqn:Hd; [|done..].
  apply decode_round_shorter in Hd; [|lia].
  by rewrite (IH n' rest) by lia.
Qed.
End decode_lemmas.

(** ** The contract of the decoder's client *)

Section contract.
Context {EB : EvbufferOps} {EBL : EvbufferLaws EB} {Msg : Type} {E : Type}.
Abbreviation W := (World EB E).

(** The read buffer of [conn] is the input buffer of the live bufferevent [p]
    and holds [bs]. *)
Definition reads (w : W) (conn p : ptr) (bs : bytes) : Prop :=
  ∃ o b, cells (w_heap w) !! conn = Some o ∧ readBuf o = Some (mkBufref p Input) ∧
         w_bevs w !! p = Some b ∧ contents (bev_input b) = bs.

Definition set_input (p : ptr) (b : Bufferevent EB) (e : evbuffer) (w : W) : W :=
  set_bevs (<[p := set_side Input e b]> (w_bevs w)) w.

(** What the owner of the callbacks promises: they return, leave the unread
    input alone, and act on what is observed of the state as [on_message] and
    [on_error] say. *)
Class CodecClient (cd : ProtobufCodecLite EB Msg E) (conn : ptr) (X : Type) := {
  observe : W → X;
  client_inv : W → Prop;
  on_message : Msg → X → X;
  on_error : ErrorCode → X → X;
  no_raw : rawCb cd = None;
  input_irrelevant w p b e :
    w_bevs w !! p = Some b → client_inv w →
    client_inv (set_input p b e w) ∧ observe (set_input p b e w) = observe w;
  message_handled w p bs m :
    client_inv w → reads w conn p bs →
    ∃ w', messageCallback cd conn m w = Ok (tt, w') ∧ client_inv w' ∧
          reads w' conn p bs ∧ observe w' = on_message m (observe w);
  error_handled w p bs e :
    client_inv w → reads w conn p bs →
    ∃ w', _errorCallback cd conn e w = Ok (tt, w') ∧ observe w' = on_error e (observe w)
}.

(** What the tag and the minimal length of a constructed codec are. *)
Definition codec_wf (cd : ProtobufCodecLite EB Msg E) : Prop :=
  minMessageLen cd = lenZ (_tag cd) + checksumLen ∧ lenZ (_tag cd) < 2 ^ 30.

Definition replay {cd conn X} {C : CodecClient cd conn X} (ms : list Msg)
    (e : option ErrorCode) (x : X) : X :=
  let x' := foldl (λ x m, on_message m x) x ms in
  match e with None => x' | Some e => on_error e x' end.
End contract.

(** ** Accesses to the read buffer *)

Section reads_lemmas.
Context {EB : EvbufferOps} {EBL : EvbufferLaws EB} {E : Type}.
Implicit Types (w : World EB E) (c p : ptr) (bs : bytes).

Lemma reads_length w c p bs :
  reads w c p bs → lenZ bs < 2 ^ 32 → getReadBufferLen c w = Ok (lenZ bs, w).
Proof.
  intros (o & b & Ho & Hr & Hb & <-) Hl. unfold getReadBufferLen.
  wstep. rewrite Hr. wstep. simpl. rewrite get_length_law, wrap_small by lia. done.
Qed.

Lemma reads_set_input w c p bs b e bs' :
  reads w c p bs → w_bevs w !! p = Some b → contents e = bs' →
  reads (set_input p b e w) c p bs'.
Proof.
  intros (o & b' & Ho & Hr & Hb & _) Hp He. exists o, (set_side Input e b).
  split_and!; [done|done| |done]. apply lookup_insert_eq.
Qed.

Lemma reads_readBuffer w c p bs n :
  reads w c p bs → 0 ≤ n →
  ∃ b e k, w_bevs w !! p = Some b ∧
    readBuffer c n w = Ok ((k, take (Z.to_nat n) bs), set_input p b e w) ∧
    reads (set_input p b e w) c p (drop (Z.to_nat n) bs).
Proof.
  intros Hw Hn. pose proof Hw as (o & b & Ho & Hr & Hb & <-).
  destruct (evbuffer_remove (bev_input b) n) as [[k out] e] eqn:He.
  destruct (remove_law _ _ _ _ _ He Hn) as (_ & -> & Hc).
  exists b, e, k. split; [done|]. split; [|by eapply reads_set_input].
  unfold readBuffer. wstep. rewrite Hr. wstep. simpl. rewrite He. cbn beta iota. by wstep.
Qed.

Lemma reads_drain w c p bs n :
  reads w c p bs → 0 ≤ n →
  ∃ b e k, w_bevs w !! p = Some b ∧
    (r ← getReadBuffer c; buf_drain r n) w = Ok (k, set_input p b e w) ∧
    reads (set_input p b e w) c p (drop (Z.to_nat n) bs).
Proof.
  intros Hw Hn. pose proof Hw as (o & b & Ho & Hr & Hb & <-).
  destruct (evbuffer_drain (bev_input b) n) as [k e] eqn:He.
  pose proof (drain_law _ _ _ _ He Hn) as Hc.
  exists b, e, k. split; [done|]. split; [|by eapply reads_set_input].
  unfold getReadBuffer. rewrite bind_assoc. wstep. rewrite ret_run_bind, Hr.
  unfold buf_drain. wstep. simpl. rewrite He. cbn beta iota. by wstep.
Qed.

Lemma reads_pullup w c p bs n :
  reads w c p bs → 0 ≤ n ≤ lenZ bs →
  ∃ b e, w_bevs w !! p = Some b ∧
    (r ← getReadBuffer c; buf_pullup r n) w =
      Ok (Some (take (Z.to_nat n) bs), set_input p b e w) ∧
    reads (set_input p b e w) c p bs.
Proof.
  intros Hw [Hn Hl]. pose proof Hw as (o & b & Ho & Hr & Hb & <-).
  destruct (evbuffer_pullup (bev_input b) n) as [d e] eqn:He.
  destruct (pullup_law _ _ _ _ He Hn) as [Hc ->]. rewrite decide_True in He by done.
  exists b, e. split; [done|]. split; [|by eapply reads_set_input].
  unfold getReadBuffer. rewrite bind_assoc. wstep. rewrite ret_run_bind, Hr.
  unfold buf_pullup. wstep. simpl. rewrite He. cbn beta iota. by wstep.
Qed.
End reads_lemmas.

(** ** One round *)

Section parse_lemmas.
Context {EB : EvbufferOps} {ZL : ZlibOps} {Msg : Type} {PB : ProtoOps Msg} {E : Type}.
Context (host : endian).

Lemma asInt32_be x : (4 ≤ length x)%nat → asInt32 host x = i32 (be_value (take 4 x)).
Proof.
  intros Hx. unfold asInt32, networkToHost32. rewrite betoh_of_mem; [done|].
  rewrite length_take. lia.
Qed.

Lemma be_value_range4 x : length x = 4%nat → 0 ≤ be_value x < 2 ^ 32.
Proof. intros Hx. pose proof (be_value_range x) as H. by rewrite Hx in H. Qed.

(** Comparing two 32-bit values is comparing their big-endian images. *)
Lemma i32_eq_be a x : length x = 4%nat → i32 a = i32 (be_value x) ↔ be_bytes 4 a = x.
Proof.
  intros Hx. pose proof (be_value_range4 x Hx) as Hr. split.
  - intros H. rewrite <- (be_bytes_value x), Hx, <- (be_bytes_wrap 4 a).
    change (Z.of_nat 4 * 8) with 32. f_equal.
    rewrite <- (wrap_swrap 32 eq_refl a), H, wrap_swrap by lia. by apply wrap_small.
  - intros <-. rewrite be_value_bytes. change (Z.of_nat 4 * 8) with 32.
    by rewrite swrap_wrap by lia.
Qed.

Lemma validateChecksum_intact data :
  (4 ≤ length data)%nat →
  validateChecksum host data (lenZ data) = bool_decide (data_intact data).
Proof.
  intros Hl. unfold validateChecksum, data_intact, data_body, data_checksum, checksumLen.
  replace (Z.to_nat (lenZ data - 4)) with (length data - 4)%nat by lia.
  rewrite asInt32_be by (rewrite length_drop; lia).
  rewrite (take_ge (drop _ data)) by (rewrite length_drop; lia).
  apply bool_decide_ext, i32_eq_be. rewrite length_drop. lia.
Qed.

Lemma parse_data_decode (cd : ProtobufCodecLite EB Msg E) data :
  lenZ (_tag cd) + checksumLen ≤ lenZ data →
  parse_data host cd data (lenZ data) New = decode_data (_tag cd) data.
Proof.
  unfold checksumLen. intros Hl. unfold parse_data, decode_data.
  rewrite validateChecksum_intact by lia.
  destruct (decide (data_intact data)) as [Hi|Hi];
    [rewrite bool_decide_true by done | by rewrite bool_decide_false by done].
  destruct (decide (take _ _ = _)); [|done]. unfold parseFromBuffer, data_body, checksumLen.
  rewrite skipn_firstn_comm.
  replace (Z.to_nat (lenZ data - 4 - lenZ (_tag cd)))
    with (length data - 4 - length (_tag cd))%nat by lia.
  by destruct (ParseFromArray _ _).
Qed.
End parse_lemmas.

Section refinement.
Context {EB : EvbufferOps} {EBL : EvbufferLaws EB} {ZL : ZlibOps}.
Context {Msg : Type} {PB : ProtoOps Msg} {E X : Type} (host : endian).
Context (cd : ProtobufCodecLite EB Msg E) (conn p : ptr) {C : CodecClient cd conn X}.
Context (Hwf : codec_wf cd).
Implicit Types (w : World EB E) (bs : bytes).

Lemma set_input_ok w b e :
  w_bevs w !! p = Some b → client_inv w →
  client_inv (set_input p b e w) ∧ observe (set_input p b e w) = observe w.
Proof using. apply input_irrelevant. Qed.

(** The tail of a round that keeps the message: parse, deliver, drain. *)
Lemma round_parse w bs len :
  client_inv w → reads w conn p bs →
  lenZ (_tag cd) + checksumLen ≤ len ≤ lenZ bs →
  ∃ w', parse host cd conn len New w =
          Ok (decode_data (_tag cd) (take (Z.to_nat len) bs), w') ∧
        client_inv w' ∧ reads w' conn p bs ∧ observe w' = observe w.
Proof using.
  intros Hi Hr Hl. unfold checksumLen in Hl.
  destruct (reads_pullup w conn p bs len Hr) as (b & e & Hb & Hrun & Hr'); [lia|].
  destruct (set_input_ok w b e Hb Hi) as [Hi' Ho].
  exists (set_input p b e w). split; [|done].
  assert (Hlen : lenZ (take (Z.to_nat len) bs) = len) by (rewrite length_take; lia).
  unfold parse. rewrite <- bind_assoc, (bind_run _ _ _ _ _ Hrun). cbn beta iota.
  rewrite <- (parse_data_decode host cd) by (unfold checksumLen; lia). by rewrite Hlen.
Qed.

Definition round_outcome (w : World EB E) (r : @round Msg) : Prop :=
  match r with
  | RMessage m rest =>
      ∃ w', onMessage_round host cd conn w = Ok (true, w') ∧ client_inv w' ∧
            reads w' conn p rest ∧ observe w' = on_message m (observe w)
  | RError e rest =>
      ∃ w', onMessage_round host cd conn w = Ok (false, w') ∧
            observe w' = on_error e (observe w)
  | RIncomplete rest =>
      ∃ w', onMessage_round host cd conn w = Ok (false, w') ∧ client_inv w' ∧
            reads w' conn p rest ∧ observe w' = observe w
  end.

(** A round after the header [len] has been taken from the buffer. *)
Definition round_tail (len : Z) : M (World EB E) bool :=
  if decide (i32 len > maxMessageLen ∨ len < minMessageLen cd) then
    _ ← _errorCallback cd conn invalidLength; mret false
  else
    n ← getReadBufferLen conn;
    if decide (len ≤ n) then
      res ← parse host cd conn (i32 len) New;
      let '(errorCode, message) := res in
      if decide (errorCode = noError) then
        _ ← messageCallback cd conn message;
        b ← getReadBuffer conn; _ ← buf_drain b (i32 len); mret true
      else _ ← _errorCallback cd conn errorCode; mret false
    else mret false.

Lemma header_range bs :
  4 ≤ lenZ bs → 0 ≤ be_value (take 4 bs) < 2 ^ 32.
Proof using. intros Hl. apply be_value_range4. rewrite length_take. lia. Qed.

Lemma round_header w bs :
  client_inv w → reads w conn p bs → 4 ≤ lenZ bs →
  ∃ w1, onMessage_round host cd conn w = round_tail (be_value (take 4 bs)) w1 ∧
        client_inv w1 ∧ reads w1 conn p (drop 4 bs) ∧ observe w1 = observe w.
Proof using.
  intros Hi Hr Hl.
  destruct (reads_readBuffer w conn p bs 4 Hr) as (b & e & k & Hb & Hrun & Hr1); [lia|].
  destruct (set_input_ok w b e Hb Hi) as [Hi1 Ho1].
  change (Z.to_nat 4) with 4%nat in *. exists (set_input p b e w). split; [|done].
  pose proof (header_range bs Hl) as Hrange.
  assert (H4 : length (take 4 bs) = 4%nat) by (rewrite length_take; lia).
  assert (Has : asInt32 host (take 4 bs) = i32 (be_value (take 4 bs))).
  { rewrite asInt32_be, take_ge; [done|lia..]. }
  set (len := be_value (take 4 bs)) in *.
  assert (Hu : u32 (i32 len) = len) by (rewrite wrap_swrap, wrap_small; [done|lia|done]).
  unfold onMessage_round, round_tail. rewrite (bind_run _ _ _ _ _ Hrun).
  cbn beta zeta. cbn [snd]. rewrite Has, Hu. case_decide; [done|].
  apply bind_ext_run. intros n. case_decide; [|done]. by rewrite no_raw.
Qed.

Lemma round_deliver w bs len m :
  client_inv w → reads w conn p bs → 0 ≤ len →
  ∃ w', (_ ← messageCallback cd conn m;
         b ← getReadBuffer conn; _ ← buf_drain b len; mret true) w = Ok (true, w') ∧
        client_inv w' ∧ reads w' conn p (drop (Z.to_nat len) bs) ∧
        observe w' = on_message m (observe w).
Proof using.
  intros Hi Hr Hl.
  destruct (message_handled w p bs m Hi Hr) as (w1 & Hrun & Hi1 & Hr1 & Ho1).
  destruct (reads_drain w1 conn p bs len Hr1 Hl) as (b & e & k & Hb & Hrun2 & Hr2).
  destruct (set_input_ok w1 b e Hb Hi1) as [Hi2 Ho2].
  exists (set_input p b e w1). split_and!; [|done|done|congruence].
  rewrite (bind_run _ _ _ _ _ Hrun).
  rewrite <- (bind_assoc (getReadBuffer conn) (λ b, buf_drain b len) (λ _, mret true)).
  by rewrite (bind_run _ _ _ _ _ Hrun2).
Qed.

Lemma round_refines w bs :
  client_inv w → reads w conn p bs →
  lenZ (_tag cd) + checksumLen + headerLen ≤ lenZ bs < 2 ^ 31 →
  round_outcome w (decode_round (_tag cd) bs).
Proof using Hwf.
  intros Hi Hr Hl. destruct Hwf as [Hmin Htag]. unfold headerLen in Hl.
  destruct (round_header w bs Hi Hr) as (w1 & Hrun & Hi1 & Hr1 & Ho1);
    [unfold checksumLen in Hl; lia|].
  pose proof (header_range bs ltac:(unfold checksumLen in Hl; lia)) as Hrange.
  unfold decode_round. set (len := be_value (take 4 bs)) in *.
  set (rest := drop 4 bs) in *.
  assert (Hrest : lenZ rest = lenZ bs - 4)
    by (unfold rest; rewrite length_drop; unfold checksumLen in Hl; lia).
  unfold round_tail in Hrun. rewrite Hmin in Hrun.
  destruct (decide (maxMessageLen < i32 len ∨ len < lenZ (_tag cd) + checksumLen)) as [Hbad|Hok].
  { rewrite if_true in Hrun by lia.
    destruct (error_handled w1 p rest invalidLength Hi1 Hr1) as (w2 & Herr & Ho2).
    exists w2. rewrite Hrun, (bind_run _ _ _ _ _ Herr). split; [done | congruence]. }
  rewrite if_false in Hrun by lia.
  rewrite (bind_run _ _ _ _ _ (reads_length _ _ _ _ Hr1 ltac:(int_lia))) in Hrun.
  destruct (decide (len ≤ lenZ rest)) as [Hle|Hgt].
  2: { exists w1. rewrite Hrun. done. }
  assert (Hi32 : i32 len = len) by (apply swrap_small; int_lia). rewrite Hi32 in Hrun.
  destruct (round_parse w1 rest len Hi1 Hr1) as (w2 & Hparse & Hi2 & Hr2 & Ho2); [lia|].
  rewrite (bind_run _ _ _ _ _ Hparse) in Hrun. cbn beta in Hrun.
  destruct (decode_data (_tag cd) (take (Z.to_nat len) rest)) as [e m].
  cbn iota in Hrun. destruct (decide (e = noError)) as [->|Hne].
  - destruct (round_deliver w2 rest len m Hi2 Hr2) as (w3 & Hdel & Hi3 & Hr3 & Ho3); [lia|].
    exists w3. rewrite Hrun, Hdel. split_and!; [done|done|done|congruence].
  - destruct (error_handled w2 p rest e Hi2 Hr2) as (w3 & Herr & Ho3).
    rewrite (bind_run _ _ _ _ _ Herr) in Hrun.
    destruct e; try done; exists w3; rewrite Hrun; (split; [done | congruence]).
Qed.

Lemma loop_refines fuel w bs :
  client_inv w → reads w conn p bs → lenZ bs < 2 ^ 31 → (length bs ≤ fuel)%nat →
  let '(ms, e, rest) := decode (_tag cd) fuel bs in
  ∃ w', onMessage_loop host fuel cd conn w = Ok (tt, w') ∧
        observe w' = replay ms e (observe w) ∧
        (e = None → client_inv w' ∧ reads w' conn p rest).
Proof using Hwf.
  pose proof Hwf as [Hmin Htag].
  revert w bs. induction fuel as [|fuel IH]; intros w bs Hi Hr Hl Hf.
  all: cbn [decode onMessage_loop].
  all: rewrite (bind_run _ _ _ _ _ (reads_length _ _ _ _ Hr ltac:(int_lia))).
  all: rewrite Hmin; unfold headerLen, checksumLen;
    rewrite (wrap_small 32 (lenZ (_tag cd) + 4 + 4))
      by (change (2 ^ 30) with 1073741824 in Htag; int_lia).
  all: destruct (decide (lenZ bs < lenZ (_tag cd) + 4 + 4)) as [Hs|Hs];
    [exists w; rewrite if_false by lia; split_and!; done | rewrite if_true by lia].
  { lia. }
  pose proof (round_refines w bs Hi Hr) as Hround. unfold checksumLen, headerLen in Hround.
  specialize (Hround ltac:(lia)). unfold round_outcome in Hround.
  destruct (decode_round (_tag cd) bs) as [m rest|e rest|rest] eqn:Hd.
  - destruct Hround as (w1 & Hrun & Hi1 & Hr1 & Ho1).
    apply decode_round_shorter in Hd; [|lia].
    specialize (IH w1 rest Hi1 Hr1 ltac:(lia) ltac:(lia)).
    destruct (decode (_tag cd) fuel rest) as [[ms e] rest'].
    destruct IH as (w' & Hrun' & Ho' & Hok). exists w'.
    rewrite (bind_run _ _ _ _ _ Hrun). split_and!; [done| |done].
    rewrite Ho', Ho1. unfold replay. simpl. by destruct e.
  - destruct Hround as (w1 & Hrun & Ho1). exists w1.
    rewrite (bind_run _ _ _ _ _ Hrun). split_and!; [done| |done].
    rewrite Ho1. done.
  - destruct Hround as (w1 & Hrun & Hi1 & Hr1 & Ho1). exists w1.
    rewrite (bind_run _ _ _ _ _ Hrun). done.
Qed.

Lemma onMessage_refines_decode fuel w bs :
  client_inv w → reads w conn p bs → lenZ bs < 2 ^ 31 → (length bs ≤ fuel)%nat →
  let '(ms, e, rest) := decode (_tag cd) (length bs) bs in
  ∃ w', onMessage host fuel cd conn w = Ok (tt, w') ∧
        observe w' = replay ms e (observe w) ∧
        (e = None → client_inv w' ∧ reads w' conn p rest).
Proof using Hwf.
  intros Hi Hr Hl Hf. rewrite (decode_fuel (_tag cd) (length bs) fuel) by lia.
  pose proof (loop_refines fuel w bs Hi Hr Hl Hf) as H.
  destruct (decode (_tag cd) fuel bs) as [[ms e] rest].
  destruct H as (w' & Hrun & H). exists w'. split; [|done].
  unfold onMessage. by rewrite (bind_run _ _ _ _ _ (reads_length _ _ _ _ Hr ltac:(int_lia))).
Qed.
End refinement.
