(* ===== verification/Wire.v ===== *)
(** * Properties of the wire format

    What a receiver running [onMessage] does with the bytes a sender produced
    with [fillEmptyBuffer], with damaged or malformed bytes, and with a frame
    that arrives in two parts. *)

From S2P Require Import Prelude Endian ConnQueue External World Codec Decoder.

(** ** What [decode] does with one frame *)

Section frames.
Context {ZL : ZlibOps} {Msg : Type} {PB : ProtoOps Msg}.
Context (tag : bytes).
Implicit Types (data rest bs : bytes) (m : Msg).

(** The bytes of a frame around arbitrary data. *)
Definition framed (data : bytes) : bytes := be_bytes 4 (lenZ data) ++ data.

Definition round_of_data (data rest : bytes) : round :=
  match decode_data tag data with
  | (noError, m) => RMessage m rest
  | (e, _) => RError e (data ++ rest)
  end.

Lemma header_of_framed len bs :
  0 ≤ len < 2 ^ 32 → be_value (take 4 (be_bytes 4 len ++ bs)) = len.
Proof using.
  intros Hl. rewrite take_app_exact by (by rewrite length_be_bytes).
  rewrite be_value_bytes. by apply wrap_small.
Qed.
Lemma rest_of_framed len bs : drop 4 (be_bytes 4 len ++ bs) = bs.
Proof using. apply drop_app_exact. by rewrite length_be_bytes. Qed.

Lemma decode_round_framed data rest :
  lenZ tag + checksumLen ≤ lenZ data ≤ maxMessageLen →
  decode_round tag (framed data ++ rest) = round_of_data data rest.
Proof using.
  intros Hl. unfold framed, decode_round, round_of_data, maxMessageLen in *.
  rewrite <- app_assoc, header_of_framed, rest_of_framed by int_lia.
  rewrite swrap_small by int_lia. rewrite decide_False by lia.
  rewrite decide_True by (rewrite length_app; lia).
  rewrite take_lenZ_app, drop_lenZ_app by done. done.
Qed.

Lemma decode_framed n data rest :
  lenZ tag + checksumLen ≤ lenZ data ≤ maxMessageLen →
  decode tag (S n) (framed data ++ rest) =
    match decode_data tag data with
    | (noError, m) => let '(ms, e, r) := decode tag n rest in (m :: ms, e, r)
    | (e, _) => ([], Some e, data ++ rest)
    end.
Proof using.
  intros Hl. cbn [decode]. rewrite decide_False, decode_round_framed by
    (try done; unfold framed, headerLen; rewrite !length_app, length_be_bytes; lia).
  unfold round_of_data. by destruct (decode_data tag data) as [[] m].
Qed.

Lemma data_body_app body c : data_body (body ++ be_bytes 4 c) = body.
Proof using.
  unfold data_body. rewrite length_app, length_be_bytes.
  apply take_app_exact. lia.
Qed.
Lemma data_checksum_app body c : data_checksum (body ++ be_bytes 4 c) = be_bytes 4 c.
Proof using.
  unfold data_checksum. rewrite length_app, length_be_bytes.
  apply drop_app_exact. lia.
Qed.

Lemma decode_data_app body c :
  decode_data tag (body ++ be_bytes 4 c) =
    if decide (u32 (adler32 adler32_init body) = u32 c) then
      if decide (take (length tag) (body ++ be_bytes 4 c) = tag) then
        (noError, (ParseFromArray New (drop (length tag) body)).2)
      else (parseError, New)
    else (unknownMessageType, New).
Proof using.
  unfold decode_data. rewrite data_body_app.
  assert (Hiff : data_intact (body ++ be_bytes 4 c) ↔ u32 (adler32 adler32_init body) = u32 c).
  { unfold data_intact. rewrite data_body_app, data_checksum_app. split.
    - apply (be_bytes_inj 4).
    - intros H. rewrite <- (be_bytes_wrap 4 (adler32 _ _)), <- (be_bytes_wrap 4 c).
      change (Z.of_nat 4 * 8) with 32. by rewrite H. }
  destruct (decide (data_intact _)) as [Hd|Hd];
    [rewrite (decide_True (P := u32 _ = _)) by tauto | rewrite (decide_False (P := u32 _ = _)) by tauto];
    done.
Qed.

Lemma frame_framed m :
  frame tag m = framed (frame_body tag m ++ be_bytes 4 (adler32 adler32_init (frame_body tag m))).
Proof using.
  unfold frame, framed, checksumLen. do 2 f_equal. rewrite length_app, length_be_bytes. lia.
Qed.

Lemma decode_data_frame {PBL : ProtoLaws Msg PB} m :
  message_ok m → IsInitialized m = true → lenZ (SerializeWithCachedSizesToArray m) < 2 ^ 31 →
  ∃ m', same_message m m' ∧
    decode_data tag (frame_body tag m ++ be_bytes 4 (adler32 adler32_init (frame_body tag m))) =
      (noError, m').
Proof using.
  intros Hok Hi Hl. destruct (parse_law m Hok Hi Hl) as (m' & Hp & Hs).
  exists m'. split; [done|]. rewrite decode_data_app, decide_True by done.
  unfold frame_body. rewrite <- app_assoc, take_app_exact, decide_True by done.
  by rewrite drop_app_exact, Hp.
Qed.

(** A message that can be sent: initialised, and not beyond the size limit. *)
Definition sendable {PBL : ProtoLaws Msg PB} (m : Msg) : Prop :=
  (message_ok m ∧ IsInitialized m = true) ∧ lenZ (frame_body tag m) + checksumLen ≤ maxMessageLen.

Lemma decode_frames {PBL : ProtoLaws Msg PB} n ms rest :
  Forall sendable ms → lenZ rest < lenZ tag + checksumLen + headerLen →
  (length ms ≤ n)%nat →
  ∃ ms', Forall2 same_message ms ms' ∧
    decode tag n (concat (frame tag <$> ms) ++ rest) = (ms', None, rest).
Proof using.
  intros Hs Hr. revert n. induction Hs as [|m ms [[Hok Hi] Hl] _ IH]; intros n Hn.
  - exists []. split; [constructor|]. simpl. destruct n; cbn [decode]; by rewrite decide_True.
  - destruct n as [|n]; [simpl in Hn; lia|].
    destruct (IH n) as (ms' & Hsame & Hd); [simpl in Hn; lia|].
    unfold maxMessageLen, checksumLen in Hl. unfold frame_body in Hl. rewrite length_app in Hl.
    destruct (decode_data_frame m Hok Hi) as (m' & Hm & Hdm); [int_lia|].
    exists (m' :: ms'). split; [by constructor|].
    change (concat (frame tag <$> m :: ms)) with (frame tag m ++ concat (frame tag <$> ms)).
    rewrite <- app_assoc, frame_framed.
    rewrite decode_framed, Hdm, Hd; [done|].
    unfold checksumLen, maxMessageLen, frame_body. rewrite !length_app, length_be_bytes. lia.
Qed.
End frames.

Section more_frames.
Context {ZL : ZlibOps} {Msg : Type} {PB : ProtoOps Msg}.
Context (tag : bytes).
Implicit Types (data rest bs : bytes) (m : Msg).

(** A header whose frame is not all there: the four bytes are gone. *)
Lemma decode_short n bs :
  lenZ bs < lenZ tag + checksumLen + headerLen → decode tag n bs = ([], None, bs).
Proof using. intros H. destruct n; cbn [decode]; by rewrite decide_True. Qed.

Lemma decode_incomplete n len rest :
  lenZ tag + checksumLen ≤ len < 2 ^ 32 → i32 len ≤ maxMessageLen →
  lenZ tag + checksumLen ≤ lenZ rest < len →
  decode tag (S n) (be_bytes 4 len ++ rest) = ([], None, rest).
Proof using.
  unfold checksumLen. intros Hl Hm Hr. cbn [decode]. unfold headerLen, checksumLen.
  rewrite decide_False by (rewrite length_app, length_be_bytes; lia).
  unfold decode_round, checksumLen. rewrite header_of_framed, rest_of_framed by lia.
  rewrite decide_False, decide_False by lia. done.
Qed.

Lemma decode_bad_length n len rest :
  0 ≤ len < 2 ^ 32 → maxMessageLen < i32 len ∨ len < lenZ tag + checksumLen →
  lenZ tag + checksumLen ≤ lenZ rest →
  decode tag (S n) (be_bytes 4 len ++ rest) = ([], Some invalidLength, rest).
Proof using.
  unfold checksumLen. intros Hl Hm Hr. cbn [decode]. unfold headerLen, checksumLen.
  rewrite decide_False by (rewrite length_app, length_be_bytes; lia).
  unfold decode_round, checksumLen. rewrite header_of_framed, rest_of_framed by lia.
  rewrite decide_True by lia. done.
Qed.

Lemma split_be_header bs : (4 ≤ length bs)%nat → bs = be_bytes 4 (be_value (take 4 bs)) ++ drop 4 bs.
Proof using.
  intros Hl. rewrite <- (take_drop 4 bs) at 1. f_equal.
  rewrite <- (be_bytes_value (take 4 bs)) at 1. f_equal. rewrite length_take. lia.
Qed.

(** Where a delivered message comes from. *)
Definition comes_from (bs : bytes) (m : Msg) : Prop :=
  ∃ before data after, bs = before ++ framed data ++ after ∧
    data_intact data ∧ take (length tag) data = tag ∧ lenZ data ≤ maxMessageLen ∧
    m = (ParseFromArray New (drop (length tag) (data_body data))).2.

Lemma decode_round_message bs m rest :
  decode_round tag bs = RMessage m rest → 4 ≤ lenZ bs < 2 ^ 31 →
  ∃ data, bs = framed data ++ rest ∧ data_intact data ∧ take (length tag) data = tag ∧
    lenZ data ≤ maxMessageLen ∧
    m = (ParseFromArray New (drop (length tag) (data_body data))).2.
Proof using.
  intros Hd [H4 Hlt]. pose proof (split_be_header bs ltac:(lia)) as Hbs.
  revert Hd. unfold decode_round.
  set (len := be_value (take 4 bs)) in *. set (r := drop 4 bs) in *.
  pose proof (header_range bs ltac:(lia)) as Hrange. fold len in Hrange.
  case_decide as Hbad; [done|]. case_decide as Hle; [|done].
  assert (Hlen : lenZ (take (Z.to_nat len) r) = len) by (rewrite length_take; lia).
  unfold decode_data. destruct (decide (data_intact _)) as [Hi|]; [|done].
  destruct (decide (take _ _ = tag)) as [Ht|]; [|done]. intros [= <- <-].
  exists (take (Z.to_nat len) r). split_and!; [|done|done| |done].
  - unfold framed. by rewrite Hlen, <- app_assoc, take_drop.
  - rewrite Hlen. assert (lenZ r ≤ lenZ bs) by (unfold r; rewrite length_drop; lia).
    rewrite swrap_small in Hbad by int_lia. lia.
Qed.

Lemma decode_messages n bs ms e rest :
  decode tag n bs = (ms, e, rest) → lenZ bs < 2 ^ 31 → Forall (comes_from bs) ms.
Proof using.
  revert bs ms. induction n as [|n IH]; intros bs ms; cbn [decode];
    (case_decide as Hs; [intros [= <- _ _] _; constructor|]); [intros [= <- _ _]; constructor|].
  unfold headerLen, checksumLen in Hs.
  destruct (decode_round tag bs) as [m r|e' r|r] eqn:Hd.
  2-3: intros [= <- _ _] _; constructor.
  destruct (decode tag n r) as [[ms' e''] r'] eqn:Hr. intros [= <- <- <-] Hl.
  apply decode_round_message in Hd as (data & -> & Hi & Ht & Hm & ->); [|lia].
  constructor; [by exists [], data, r|].
  eapply Forall_impl; [apply (IH _ _ Hr); rewrite !length_app in Hl; lia|].
  intros m (bf & d & af & -> & Hrest). exists (framed data ++ bf), d, af.
  by rewrite <- !app_assoc.
Qed.
End more_frames.

(** ** Properties *)

Section sender.
Context {EB : EvbufferOps} {EBL : EvbufferLaws EB} {EBN : EvbufferNoOOM EB}.
Context {ZL : ZlibOps} {ZLL : ZlibLaws ZL}.
Context {Msg : Type} {PB : ProtoOps Msg} {PBL : ProtoLaws Msg PB} {E : Type}.

(** C4: [fillEmptyBuffer] turns an empty buffer into the documented frame: the
    4-byte big-endian size of what follows, the tag, the serialised message
    and the big-endian Adler-32 of tag and message, in whatever extents
    libevent keeps the bytes and whatever the byte order of the host. *)
Theorem fillEmptyBuffer_writes_frame (host : endian) (cd : ProtobufCodecLite EB Msg E)
    (m : Msg) (b : evbuffer) :
  message_ok m → IsInitialized m = true → lenZ (frame_body (_tag cd) m) + checksumLen < 2 ^ 31 →
  contents b = [] →
  ∃ b', fillEmptyBuffer host cd m b = Ok (0, b') ∧
    let body := _tag cd ++ SerializeWithCachedSizesToArray m in
    contents b' = be_bytes 4 (lenZ body + 4) ++ body ++ be_bytes 4 (adler32 adler32_init body).
Proof. intros. by apply fillEmptyBuffer_run. Qed.

(** The buffers the sender fills for the messages [ms]. *)
Definition sent (host : endian) (cd : ProtobufCodecLite EB Msg E) (m : Msg) (b : evbuffer) : Prop :=
  ∃ b0, contents b0 = [] ∧ fillEmptyBuffer host cd m b0 = Ok (0, b).

Lemma sent_frame host cd m b :
  sendable (_tag cd) m → sent host cd m b → contents b = frame (_tag cd) m.
Proof.
  intros [[Hok Hi] Hl] (b0 & H0 & Hrun).
  destruct (fillEmptyBuffer_run host cd m b0 Hok Hi) as (b' & Hrun' & Hc); [|done|].
  - unfold maxMessageLen in Hl. int_lia.
  - congruence.
Qed.
End sender.

Section receiver.
Context {EB : EvbufferOps} {EBL : EvbufferLaws EB} {EBN : EvbufferNoOOM EB}.
Context {ZL : ZlibOps} {ZLL : ZlibLaws ZL}.
Context {Msg : Type} {PB : ProtoOps Msg} {PBL : ProtoLaws Msg PB} {E X : Type}.
Context (host : endian) (cd : ProtobufCodecLite EB Msg E) (conn p : ptr).
Context {C : CodecClient cd conn X}.
Implicit Types (w : World EB E) (bs data : bytes) (m : Msg).

(** The decoder on a buffer whose decoding is known. *)
Lemma onMessage_decodes fuel w bs ms e rest :
  codec_wf cd → client_inv w → reads w conn p bs → lenZ bs < 2 ^ 31 →
  (length bs ≤ fuel)%nat → decode (_tag cd) (length bs) bs = (ms, e, rest) →
  ∃ w', onMessage host fuel cd conn w = Ok (tt, w') ∧
    observe w' = replay ms e (observe w) ∧
    (e = None → client_inv w' ∧ reads w' conn p rest).
Proof using.
  intros Hwf Hi Hr Hl Hf Hd.
  pose proof (onMessage_refines_decode host cd conn p Hwf fuel w bs Hi Hr Hl Hf) as H.
  by rewrite Hd in H.
Qed.

Lemma decode_length_S bs :
  ∃ n, decode (Msg := Msg) (_tag cd) (length bs) bs = decode (_tag cd) (S n) bs.
Proof using. exists (length bs). apply decode_fuel; lia. Qed.

(** C3: the loop of [onMessage] refines [decode], the specification of the
    wire format as a function of the bytes: for any client of the codec and
    any input shorter than 2^31 bytes it terminates without a fault (one unit
    of fuel per byte is enough), calls the callbacks for exactly the decoded
    messages, in order, then for the decoded error if there is one, and
    otherwise leaves the decoded rest in the buffer. *)
Theorem onMessage_refines (fuel : nat) w bs :
  codec_wf cd → client_inv w → reads w conn p bs → lenZ bs < 2 ^ 31 →
  (length bs ≤ fuel)%nat →
  let '(ms, e, rest) := decode (_tag cd) (length bs) bs in
  ∃ w', onMessage host fuel cd conn w = Ok (tt, w') ∧
    observe w' = replay ms e (observe w) ∧
    (e = None → client_inv w' ∧ reads w' conn p rest).
Proof using. intros Hwf Hi Hr Hl Hf. by apply onMessage_refines_decode. Qed.

(** C1: what a sender (of either byte order) encodes with [fillEmptyBuffer],
    the receiver delivers: if its read buffer holds the frames of the messages
    [ms] followed by less than a minimal frame, [onMessage] hands over exactly
    these messages, in order (each the same message for every reader of its
    fields), and leaves the rest. *)
Theorem onMessage_delivers_sent (hostS : endian) (cdS : ProtobufCodecLite EB Msg E)
    (fuel : nat) w (ms : list Msg) (bufs : list evbuffer) (rest : bytes) :
  codec_wf cd → _tag cdS = _tag cd →
  Forall (sendable (_tag cd)) ms → Forall2 (sent hostS cdS) ms bufs →
  lenZ rest < lenZ (_tag cd) + checksumLen + headerLen →
  client_inv w → reads w conn p (concat (contents <$> bufs) ++ rest) →
  lenZ (concat (contents <$> bufs) ++ rest) < 2 ^ 31 →
  (length (concat (contents <$> bufs) ++ rest) ≤ fuel)%nat →
  ∃ ms' w', Forall2 same_message ms ms' ∧ onMessage host fuel cd conn w = Ok (tt, w') ∧
    observe w' = foldl (λ x m, on_message m x) (observe w) ms' ∧
    client_inv w' ∧ reads w' conn p rest.
Proof using EBN ZLL PBL.
  intros Hwf Htag Hs Hsent Hrest Hi Hr Hl Hf.
  assert (Hc : contents <$> bufs = frame (_tag cd) <$> ms).
  { clear -Hsent Hs Htag ZLL EBN PBL.
    induction Hsent as [|m b ms bufs Hb _ IH]; [done|].
    inversion_clear Hs as [|? ? Hm Hms]. rewrite !fmap_cons, IH by done. f_equal.
    rewrite <- Htag in *. eapply sent_frame; [exact Hm | exact Hb]. }
  rewrite Hc in *.
  destruct (decode_frames (_tag cd) (length (concat (frame (_tag cd) <$> ms) ++ rest)) ms rest)
    as (ms' & Hsame & Hd); [done|done| |].
  - clear. rewrite length_app.
    induction ms as [|m ms IH]; [simpl; lia|]. rewrite fmap_cons.
    change (concat (?a :: ?b)) with (a ++ concat b). rewrite length_app.
    pose proof (length_frame (_tag cd) m) as Hm. unfold headerLen, checksumLen in Hm.
    simpl length at 1. lia.
  - edestruct onMessage_decodes as (w' & Hrun & Ho & Hok); try done.
    exists ms', w'. by destruct (Hok eq_refl).
Qed.

(** C5: only intact frames are delivered: every message that [onMessage] hands
    over was read from a stretch of the input that is a length header, data
    of that length (at most 64 MB) which starts with the tag and ends with the
    Adler-32 of what precedes it, and the message is the parsed payload. *)
Theorem onMessage_delivers_only_intact (fuel : nat) w bs :
  codec_wf cd → client_inv w → reads w conn p bs → lenZ bs < 2 ^ 31 →
  (length bs ≤ fuel)%nat →
  ∃ ms e w', onMessage host fuel cd conn w = Ok (tt, w') ∧
    observe w' = replay ms e (observe w) ∧
    Forall (comes_from (_tag cd) bs) ms.
Proof using.
  intros Hwf Hi Hr Hl Hf.
  destruct (decode (_tag cd) (length bs) bs) as [[ms e] rest] eqn:Hd.
  edestruct onMessage_decodes as (w' & Hrun & Ho & _); try done.
  exists ms, e, w'. split_and!; [done|done|]. by eapply decode_messages.
Qed.

(** C6: damage is detected.  When the checksum of the first frame does not fit
    its data, or its data does not start with the tag, nothing is delivered and
    the error callback is called once: with [unknownMessageType] when the
    checksum is wrong (whatever the tag), with [parseError] when the checksum is
    good and the tag is wrong.  [checkSumError] is never used. *)
Theorem onMessage_rejects_damaged (fuel : nat) w (body rest : bytes) (c : Z) :
  codec_wf cd → client_inv w →
  reads w conn p (framed (body ++ be_bytes 4 c) ++ rest) →
  lenZ (framed (body ++ be_bytes 4 c) ++ rest) < 2 ^ 31 →
  (length (framed (body ++ be_bytes 4 c) ++ rest) ≤ fuel)%nat →
  lenZ (_tag cd) ≤ lenZ body → lenZ body + checksumLen ≤ maxMessageLen →
  u32 c ≠ u32 (adler32 adler32_init body) ∨ take (length (_tag cd)) body ≠ _tag cd →
  ∃ w', onMessage host fuel cd conn w = Ok (tt, w') ∧
    observe w' = on_error (if decide (u32 c = u32 (adler32 adler32_init body))
                           then parseError else unknownMessageType) (observe w).
Proof using.
  intros Hwf Hi Hr Hl Hf Ht Hm Hbad.
  set (data := body ++ be_bytes 4 c) in *.
  assert (Hdata : lenZ data = lenZ body + 4)
    by (unfold data; rewrite length_app, length_be_bytes; lia).
  destruct (decode_length_S (framed data ++ rest)) as [n Hn].
  rewrite decode_framed in Hn by (unfold checksumLen in *; lia).
  assert (Htk : take (length (_tag cd)) data = take (length (_tag cd)) body)
    by (unfold data; apply take_app_le; lia).
  rewrite (decode_data_app (_tag cd) body c) in Hn. fold data in Hn. rewrite Htk in Hn.
  destruct (decide (u32 c = u32 (adler32 adler32_init body))) as [Hc|Hc].
  - rewrite decide_True, decide_False in Hn by (by destruct Hbad || done).
    edestruct onMessage_decodes as (w' & Hrun & Ho & _); try done. by exists w'.
  - rewrite decide_False in Hn by congruence.
    edestruct onMessage_decodes as (w' & Hrun & Ho & _); try done. by exists w'.
Qed.

(** A payload that protobuf cannot parse is not reported: with a good tag
    and checksum the message is delivered as it is after the failed parse, and
    the error callback is not called. *)
Theorem onMessage_hides_parse_failure (fuel : nat) w (payload : bytes) (m' : Msg) :
  let body := _tag cd ++ payload in
  let bs := framed (body ++ be_bytes 4 (adler32 adler32_init body)) in
  codec_wf cd → client_inv w → reads w conn p bs → (length bs ≤ fuel)%nat →
  lenZ body + checksumLen ≤ maxMessageLen →
  ParseFromArray New payload = (false, m') →
  ∃ w', onMessage host fuel cd conn w = Ok (tt, w') ∧
    observe w' = on_message m' (observe w) ∧ reads w' conn p [].
Proof using.
  intros body bs Hwf Hi Hr Hf Hm Hparse.
  set (data := body ++ be_bytes 4 (adler32 adler32_init body)) in *.
  assert (Hdata : lenZ data = lenZ body + 4)
    by (unfold data; rewrite length_app, length_be_bytes; lia).
  assert (Hbody : lenZ (_tag cd) ≤ lenZ body) by (unfold body; rewrite length_app; lia).
  assert (Hbs : lenZ bs = lenZ data + 4)
    by (unfold bs, framed; rewrite length_app, length_be_bytes; lia).
  destruct (decode_length_S bs) as [n Hn].
  assert (Hnil0 : bs = framed data ++ []) by (by rewrite app_nil_r).
  rewrite Hnil0 in Hn at 3. rewrite decode_framed in Hn by (unfold checksumLen in *; lia).
  unfold data in Hn. rewrite decode_data_app in Hn. unfold body in Hn.
  rewrite <- app_assoc, decide_True, take_app_exact, decide_True in Hn by done.
  rewrite drop_app_exact, Hparse in Hn by done. cbn [snd] in Hn.
  assert (Hnil : decode (Msg := Msg) (_tag cd) n [] = ([], None, [])).
  { destruct n; cbn [decode]; rewrite decide_True; try done;
      unfold checksumLen, headerLen; simpl; lia. }
  rewrite Hnil in Hn.
  edestruct onMessage_decodes as (w' & Hrun & Ho & Hok); try done.
  { unfold maxMessageLen, checksumLen in Hm. int_lia. }
  exists w'. by destruct (Hok eq_refl).
Qed.

Lemma frame_parts m :
  frame (_tag cd) m = be_bytes 4 (lenZ (frame_body (_tag cd) m) + 4) ++ drop 4 (frame (_tag cd) m).
Proof using. unfold frame, checksumLen. by rewrite drop_app_exact by (by rewrite length_be_bytes). Qed.

Lemma frame_data m :
  drop 4 (frame (_tag cd) m) =
    frame_body (_tag cd) m ++ be_bytes 4 (adler32 adler32_init (frame_body (_tag cd) m)).
Proof using. unfold frame. apply drop_app_exact. by rewrite length_be_bytes. Qed.

(** The first [k] bytes of a frame, the header included, and the rest; the tag
    comes after the header. *)
Lemma split_frame_header (k : nat) m : (4 ≤ k)%nat → (k ≤ length (frame (_tag cd) m))%nat →
  take k (frame (_tag cd) m) =
    be_bytes 4 (lenZ (frame_body (_tag cd) m) + 4) ++ drop 4 (take k (frame (_tag cd) m)) ∧
  drop 4 (take k (frame (_tag cd) m)) ++ drop k (frame (_tag cd) m) = drop 4 (frame (_tag cd) m).
Proof using.
  intros Hk4 Hk. pose proof (frame_parts m) as Hparts. set (f := frame (_tag cd) m) in *. split.
  - rewrite <- (take_drop 4 (take k f)) at 1. f_equal.
    rewrite take_take, Nat.min_l by lia. rewrite Hparts. apply take_app_exact.
    by rewrite length_be_bytes.
  - rewrite <- (take_drop k f) at 3. rewrite drop_app_le; [done|]. rewrite length_take. lia.
Qed.
Lemma frame_tag m : (4 ≤ length (_tag cd))%nat → take 4 (drop 4 (frame (_tag cd) m)) = take 4 (_tag cd).
Proof using.
  intros Htag. rewrite frame_data. unfold frame_body. rewrite <- app_assoc. apply take_app_le. lia.
Qed.

(** C39: what happens to a frame that arrives in two parts, the first of [k]
    bytes, with a tag of four bytes or more that read as a length are too large
    (as ["mRpc"] is).  While the first part is shorter than header, tag and
    checksum together, [onMessage] leaves it in the buffer.  From there on the
    frame is lost: the run on the first part takes the length header out of the
    buffer and returns; when the other bytes have arrived, the next run finds
    the tag where it expects a length.  If the serialised message has four bytes
    or more, it reports [invalidLength]; a shorter one stays in the buffer, in
    front of what comes next, without its header.  The message is never
    delivered. *)
Theorem onMessage_loses_split_frame (fuel k : nat) w (m : Msg) :
  let f := frame (_tag cd) m in
  codec_wf cd → sendable (_tag cd) m →
  (4 ≤ length (_tag cd))%nat → maxMessageLen < i32 (be_value (take 4 (_tag cd))) →
  (k < length f)%nat → (length f ≤ fuel)%nat → client_inv w → reads w conn p (take k f) →
  ∃ w1, onMessage host fuel cd conn w = Ok (tt, w1) ∧ observe w1 = observe w ∧ client_inv w1 ∧
    if decide (Z.of_nat k < lenZ (_tag cd) + checksumLen + headerLen) then reads w1 conn p (take k f)
    else
      reads w1 conn p (drop 4 (take k f)) ∧
      ∀ w2, client_inv w2 → reads w2 conn p (drop 4 (take k f) ++ drop k f) →
        ∃ w3, onMessage host fuel cd conn w2 = Ok (tt, w3) ∧
          if decide (4 ≤ lenZ (SerializeWithCachedSizesToArray m))
          then observe w3 = on_error invalidLength (observe w2)
          else observe w3 = observe w2 ∧ reads w3 conn p (drop 4 f).
Proof using.
  intros f Hwf [_ Hm] Htag Hmagic Hk Hf Hi Hr. pose proof (length_frame (_tag cd) m) as Hlen. fold f in Hlen.
  assert (Hbody : lenZ (frame_body (_tag cd) m) =
    lenZ (_tag cd) + lenZ (SerializeWithCachedSizesToArray m))
    by (unfold frame_body; rewrite length_app; lia).
  assert (Hlk : length (take k f) = k) by (rewrite length_take; lia).
  case_decide as Hshort; unfold checksumLen, headerLen, maxMessageLen in *.
  { edestruct (onMessage_decodes fuel w) as (w1 & Hrun & Ho & Hok); try done; [int_lia|lia|
      apply decode_short; unfold checksumLen, headerLen; lia|].
    destruct (Hok eq_refl) as [Hi1 Hr1]. by exists w1. }
  destruct (split_frame_header k m) as [Htk Hk4]; [fold f; lia..|]. fold f in Htk, Hk4.
  destruct (decode_length_S (take k f)) as [n Hn]. rewrite Htk in Hn at 3.
  rewrite decode_incomplete in Hn by
    (unfold checksumLen, maxMessageLen; rewrite ?swrap_small, ?length_drop, ?Hlk; int_lia).
  edestruct (onMessage_decodes fuel w) as (w1 & Hrun & Ho & Hok); try done; [int_lia|lia|].
  destruct (Hok eq_refl) as [Hi1 Hr1]. exists w1. split_and!; [done..|].
  intros w2 Hi2 Hr2. rewrite Hk4 in Hr2. assert (Hd4 : length (drop 4 f) = (length f - 4)%nat) by apply length_drop.
  case_decide as Hser.
  - destruct (decode_length_S (drop 4 f)) as [n2 Hn2].
    pose proof (frame_tag m Htag) as Htg. fold f in Htg.
    rewrite (split_be_header (drop 4 f)) in Hn2 at 3 by lia. rewrite Htg in Hn2.
    rewrite decode_bad_length in Hn2;
      [|apply header_range; lia | by left | unfold checksumLen; rewrite length_drop; lia].
    edestruct (onMessage_decodes fuel w2) as (w3 & Hrun3 & Ho3 & _); try done; [int_lia|lia|].
    by exists w3.
  - edestruct (onMessage_decodes fuel w2) as (w3 & Hrun3 & Ho3 & Hok3); try done; [int_lia|lia|
      apply decode_short; unfold checksumLen, headerLen; lia|].
    destruct (Hok3 eq_refl) as [_ Hr3]. by exists w3.
Qed.

(** A negative length is not an error to the decoder: four header bytes of
    value 2^31 or more are taken from the buffer, nothing is delivered and no
    error is reported. *)
Theorem onMessage_ignores_negative_length (fuel : nat) w (len : Z) (rest : bytes) :
  codec_wf cd → 2 ^ 31 ≤ len < 2 ^ 32 →
  lenZ (_tag cd) + checksumLen ≤ lenZ rest → lenZ (be_bytes 4 len ++ rest) < 2 ^ 31 →
  (length (be_bytes 4 len ++ rest) ≤ fuel)%nat →
  client_inv w → reads w conn p (be_bytes 4 len ++ rest) →
  i32 len < 0 ∧
  ∃ w', onMessage host fuel cd conn w = Ok (tt, w') ∧ observe w' = observe w ∧
    reads w' conn p rest.
Proof using.
  intros Hwf Hlen Hrest Hl Hf Hi Hr. pose proof Hwf as [_ Htag].
  assert (Hneg : i32 len = len - 2 ^ 32).
  { unfold swrap. rewrite <- (Z_mod_plus_full _ (-1)), Z.mod_small; int_lia. }
  split; [int_lia|].
  destruct (decode_length_S (be_bytes 4 len ++ rest)) as [n Hn].
  rewrite length_app, length_be_bytes in Hl.
  rewrite (decode_incomplete _ n len rest) in Hn by
    (unfold checksumLen, maxMessageLen in *; rewrite ?Hneg;
     change (2 ^ 30) with 1073741824 in Htag; int_lia).
  edestruct (onMessage_decodes fuel w) as (w' & Hrun & Ho & Hok); try done.
  exists w'. by destruct (Hok eq_refl).
Qed.

(** The size limit is enforced by the receiver only: a message whose frame
    data exceed 64 MB is encoded without complaint, and every receiver answers
    its frame with [invalidLength]. *)
Theorem oversized_frame_rejected (hostS : endian) (fuel : nat) w (m : Msg) (b b' : evbuffer) :
  codec_wf cd → message_ok m → IsInitialized m = true →
  maxMessageLen < lenZ (frame_body (_tag cd) m) + checksumLen < 2 ^ 31 - 4 →
  contents b = [] → fillEmptyBuffer hostS cd m b = Ok (0, b') →
  (length (contents b') ≤ fuel)%nat →
  client_inv w → reads w conn p (contents b') →
  ∃ w', onMessage host fuel cd conn w = Ok (tt, w') ∧
    observe w' = on_error invalidLength (observe w).
Proof using EBN ZLL PBL.
  intros Hwf Hmok Hin Hbig Hb Hfill Hf Hi Hr. pose proof Hwf as [_ Htag].
  change (2 ^ 30) with 1073741824 in Htag.
  destruct (fillEmptyBuffer_run hostS cd m b Hmok Hin) as (b1 & Hrun1 & Hc); [lia|done|].
  assert (b1 = b') as -> by congruence. rewrite Hc in *.
  pose proof (length_frame (_tag cd) m) as Hlen.
  unfold checksumLen, headerLen, maxMessageLen in *.
  destruct (decode_length_S (frame (_tag cd) m)) as [n Hn].
  rewrite (frame_parts m) in Hn at 3.
  rewrite decode_bad_length in Hn.
  - edestruct onMessage_decodes as (w' & Hrun & Ho & _); try done; [int_lia|]. by exists w'.
  - int_lia.
  - left. unfold maxMessageLen. rewrite swrap_small; int_lia.
  - unfold checksumLen. rewrite length_drop.
    assert (lenZ (_tag cd) ≤ lenZ (frame_body (_tag cd) m))
      by (unfold frame_body; rewrite length_app; lia). lia.
Qed.
End receiver.

(** ** A concrete receiver: it logs what it is given

    Messages are byte strings that serialise to themselves; a payload that
    starts with the byte 0xff is malformed. *)

Module demo.
#[local] Existing Instances chunked.ops chunked.laws chunked.no_oom rfc1950.zlib rfc1950.zlib_laws.

Definition well_formed (m : bytes) : bool :=
  match m with b :: _ => negb (Byte.eqb b Byte.xff) | [] => true end.

#[export] Instance proto : ProtoOps bytes := {
  New := [];
  IsInitialized := well_formed;
  ByteSize m := lenZ m;
  SerializeWithCachedSizesToArray m := m;
  ParseFromArray _ bs := (well_formed bs, bs)
}.
#[export] Instance proto_laws : ProtoLaws bytes proto.
Proof.
  refine {| message_ok := λ _, True; same_message := eq |}; [done|].
  intros m _ Hm _. exists m. simpl in *. by rewrite Hm.
Defined.

Abbreviation log := (list (bytes + ErrorCode)).
Definition codec : ProtobufCodecLite chunked.ops bytes log :=
  ProtobufCodecLite_init (bytes_of_string "mRpc")
    (λ _ m, on_ext (modify (λ l, l ++ [inl m]))) None
    (λ _ e, on_ext (modify (λ l, l ++ [inr e]))).

(** A connection whose read buffer holds [bs], in two extents. *)
Definition world (bs : bytes) : World chunked.ops log :=
  mkWorld (mkHeap 2 {[ 1%positive := set_readBuf (Some (mkBufref 1 Input)) (Conn_init 5) ]})
    2 {[ 1%positive := mkBev chunked.ops 5 (Some 1%positive) [take 5 bs; drop 5 bs] [] ]} [] [].

#[export] Instance client : CodecClient codec 1 log.
Proof.
  refine {| observe := w_ext; client_inv := λ _, True;
            on_message := λ m l, l ++ [inl m]; on_error := λ e l, l ++ [inr e] |}; try done.
  - intros w p bs m _ (o & b & ? & ? & ? & ?). eexists. split_and!; try done.
    by exists o, b.
  - intros w p bs e _ _. by eexists.
Defined.

Lemma codec_ok : codec_wf codec.
Proof. done. Qed.
Lemma world_reads bs : reads (world bs) 1 1 bs.
Proof.
  do 2 eexists. split_and!; try done. simpl. by rewrite app_nil_r, take_drop.
Qed.

Definition ping : bytes := bytes_of_string "ping".
Definition pong : bytes := bytes_of_string "a pong".
Definition buf_of (m : bytes) : evbuffer :=
  match fillEmptyBuffer BigEndian codec m evbuffer_new with Ok (_, b) => b | _ => [] end.
Definition messages : list bytes := [ping; pong].
End demo.
Export (hints) demo.

Section witnesses.
Import demo.
Existing Instances chunked.ops chunked.laws chunked.no_oom rfc1950.zlib rfc1950.zlib_laws.

Lemma fillEmptyBuffer_writes_frame_witness :
  ∃ b', fillEmptyBuffer LittleEndian codec ping [] = Ok (0, b') ∧
    let body := _tag codec ++ SerializeWithCachedSizesToArray ping in
    contents b' = be_bytes 4 (lenZ body + 4) ++ body ++ be_bytes 4 (adler32 adler32_init body).
Proof. by apply (fillEmptyBuffer_writes_frame LittleEndian codec ping []). Defined.

Lemma onMessage_refines_witness :
  let bs := frame (_tag codec) ping ++ be_bytes 4 7 in
  let '(ms, e, rest) := decode (Msg := bytes) (_tag codec) (length bs) bs in
  ∃ w', onMessage LittleEndian 20 codec 1 (world bs) = Ok (tt, w') ∧
    observe w' = replay ms e (observe (world bs)) ∧
    (e = None → client_inv w' ∧ reads w' 1 1 rest).
Proof.
  intros bs. apply (onMessage_refines LittleEndian codec 1 1 20 (world bs) bs);
    [apply codec_ok | exact I | apply world_reads | reflexivity | vm_compute; lia].
Defined.

Lemma onMessage_delivers_sent_witness :
  let bs := concat (contents <$> (buf_of <$> messages)) ++ [] in
  ∃ ms' w', Forall2 same_message messages ms' ∧
    onMessage LittleEndian 40 codec 1 (world bs) = Ok (tt, w') ∧
    observe w' = foldl (λ x m, on_message m x) (observe (world bs)) ms' ∧
    client_inv w' ∧ reads w' 1 1 [].
Proof.
  intros bs. apply (onMessage_delivers_sent LittleEndian codec 1 1 BigEndian codec 40
    (world bs) messages (buf_of <$> messages) []);
    [apply codec_ok | reflexivity | | | reflexivity | exact I | apply world_reads
    | reflexivity | vm_compute; lia].
  - repeat constructor; vm_compute; congruence.
  - repeat constructor; exists []; split; reflexivity.
Defined.

Lemma onMessage_delivers_only_intact_witness :
  let bs := frame (_tag codec) ping ++ be_bytes 4 7 in
  ∃ ms e w', onMessage LittleEndian 20 codec 1 (world bs) = Ok (tt, w') ∧
    observe w' = replay ms e (observe (world bs)) ∧
    Forall (comes_from (_tag codec) bs) ms.
Proof.
  intros bs. apply (onMessage_delivers_only_intact LittleEndian codec 1 1 20 (world bs) bs);
    [apply codec_ok | exact I | apply world_reads | reflexivity | vm_compute; lia].
Defined.

Lemma onMessage_rejects_damaged_witness :
  let bs := framed (frame_body (_tag codec) ping ++ be_bytes 4 7) ++ [] in
  ∃ w', onMessage LittleEndian 20 codec 1 (world bs) = Ok (tt, w') ∧
    observe w' = on_error (if decide (u32 7 = u32 (adler32 adler32_init (frame_body (_tag codec) ping)))
                           then parseError else unknownMessageType) (observe (world bs)).
Proof.
  intros bs. apply (onMessage_rejects_damaged LittleEndian codec 1 1 20 (world bs)
    (frame_body (_tag codec) ping) [] 7);
    [apply codec_ok | exact I | apply world_reads | reflexivity | vm_compute; lia
    | vm_compute; congruence | vm_compute; congruence | left; vm_compute; congruence].
Defined.

Lemma onMessage_hides_parse_failure_witness :
  let body := _tag codec ++ [Byte.xff] in
  let bs := framed (body ++ be_bytes 4 (adler32 adler32_init body)) in
  ∃ w', onMessage LittleEndian 20 codec 1 (world bs) = Ok (tt, w') ∧
    observe w' = on_message [Byte.xff] (observe (world bs)) ∧ reads w' 1 1 [].
Proof.
  intros body bs. apply (onMessage_hides_parse_failure LittleEndian codec 1 1 20 (world bs)
    [Byte.xff] [Byte.xff]);
    [apply codec_ok | exact I | apply world_reads | vm_compute; lia
    | vm_compute; congruence | reflexivity].
Defined.

Lemma ping_split (k : nat) : (k < length (frame (_tag codec) ping))%nat →
  (4 ≤ length (_tag codec))%nat ∧ maxMessageLen < i32 (be_value (take 4 (_tag codec))) ∧
  sendable (_tag codec) ping.
Proof. intros _. split_and!; [vm_compute; lia|reflexivity|]. split; [by split|vm_compute; congruence]. Qed.

Lemma onMessage_loses_split_frame_witness :
  let f := frame (_tag codec) ping in
  (∃ w1, onMessage LittleEndian 20 codec 1 (world (take 9 f)) = Ok (tt, w1) ∧ reads w1 1 1 (take 9 f)) ∧
  ∃ w1, onMessage LittleEndian 20 codec 1 (world (take 13 f)) = Ok (tt, w1) ∧
    observe w1 = observe (world (take 13 f)) ∧ reads w1 1 1 (drop 4 (take 13 f)) ∧
    ∀ w2, client_inv w2 → reads w2 1 1 (drop 4 (take 13 f) ++ drop 13 f) →
      ∃ w3, onMessage LittleEndian 20 codec 1 w2 = Ok (tt, w3) ∧
        observe w3 = on_error invalidLength (observe w2).
Proof.
  intros f. split.
  - destruct (ping_split 9) as (H1 & H2 & H3); [vm_compute; lia|].
    destruct (onMessage_loses_split_frame LittleEndian codec 1 1 20 9 (world (take 9 f)) ping)
      as (w1 & Hrun & _ & _ & Hr); [apply codec_ok|exact H3|exact H1|exact H2|vm_compute; lia..|exact I|apply world_reads|].
    rewrite decide_True in Hr by (vm_compute; congruence). by exists w1.
  - destruct (ping_split 13) as (H1 & H2 & H3); [vm_compute; lia|].
    destruct (onMessage_loses_split_frame LittleEndian codec 1 1 20 13 (world (take 13 f)) ping)
      as (w1 & Hrun & Ho & _ & Hr); [apply codec_ok|exact H3|exact H1|exact H2|vm_compute; lia..|exact I|apply world_reads|].
    rewrite decide_False in Hr by (vm_compute; congruence). destruct Hr as [Hr Hnext].
    exists w1. split_and!; [done..|]. intros w2 Hi Hr2. destruct (Hnext w2 Hi Hr2) as (w3 & Hrun3 & H).
    rewrite decide_True in H by (vm_compute; congruence). by exists w3.
Defined.

Lemma onMessage_ignores_negative_length_witness :
  i32 (2 ^ 32 - 1) < 0 ∧
  ∃ w', onMessage LittleEndian 20 codec 1 (world (be_bytes 4 (2 ^ 32 - 1) ++ bytes_of_string "mRpc1234"))
          = Ok (tt, w') ∧
    observe w' = observe (world (be_bytes 4 (2 ^ 32 - 1) ++ bytes_of_string "mRpc1234")) ∧
    reads w' 1 1 (bytes_of_string "mRpc1234").
Proof.
  apply (onMessage_ignores_negative_length LittleEndian codec 1 1 20);
    [apply codec_ok | lia | vm_compute; congruence | reflexivity | vm_compute; lia
    | exact I | apply world_reads].
Defined.

Lemma oversized_frame_rejected_witness :
  ∃ n b' w', Z.of_nat n = maxMessageLen ∧
    fillEmptyBuffer LittleEndian codec (replicate n Byte.x00) [] = Ok (0, b') ∧
    onMessage LittleEndian (length (contents b')) codec 1 (world (contents b')) = Ok (tt, w') ∧
    observe w' = on_error invalidLength (observe (world (contents b'))).
Proof.
  assert (∃ n, Z.of_nat n = maxMessageLen) as [n Hn].
  { exists (Z.to_nat maxMessageLen). apply Z2Nat.id. unfold maxMessageLen. lia. }
  assert (Hi : IsInitialized (replicate n Byte.x00) = true) by (by destruct n).
  assert (Hmok : message_ok (replicate n Byte.x00)) by exact I.
  assert (Hl : maxMessageLen < lenZ (frame_body (_tag codec) (replicate n Byte.x00)) + checksumLen
    < 2 ^ 31 - 4).
  { unfold frame_body. rewrite length_app.
    change (SerializeWithCachedSizesToArray (replicate n Byte.x00)) with (replicate n Byte.x00).
    rewrite length_replicate. change (length (_tag codec)) with 4%nat.
    unfold checksumLen, maxMessageLen in *. int_lia. }
  destruct (fillEmptyBuffer_run LittleEndian codec (replicate n Byte.x00) [] Hmok Hi)
    as (b' & Hrun & _); [lia | reflexivity|].
  destruct (oversized_frame_rejected LittleEndian codec 1 1 LittleEndian
    (length (contents b')) (world (contents b')) (replicate n Byte.x00) [] b')
    as (w' & Hw & Ho);
    [apply codec_ok | exact Hmok | exact Hi | exact Hl | reflexivity | exact Hrun | lia | exact I
    | apply world_reads|].
  exists n, b', w'. repeat split; assumption.
Defined.
End witnesses.
