(* ===== verification/Delivery.v ===== *)
(** * Delivery of a single frame

    What the loop of [onMessage] does when its input starts with a whole frame,
    whatever the callback then does: it hands the message over with the frame's
    data still in the buffer, drains the data and goes on.  The contract
    [CodecClient] of Decoder.v asks for a callback that handles every message;
    these lemmas serve clients that do not. *)

From S2P Require Import Prelude Endian ConnQueue External World Codec Decoder Wire.

Section delivery.
Context {EB : EvbufferOps} {EBL : EvbufferLaws EB} {ZL : ZlibOps}.
Context {Msg : Type} {PB : ProtoOps Msg} {E : Type} (host : endian).
Context (cd : ProtobufCodecLite EB Msg E) (conn p : ptr).
Context (Hwf : codec_wf cd) (Hraw : rawCb cd = None).
Implicit Types (w : World EB E) (bs data rest : bytes).

(** [w'] is [w] but for the input buffer of [p]. *)
Definition input_only w w' : Prop :=
  ∃ b e, w_bevs w !! p = Some b ∧ w' = set_input p b e w.

Lemma input_only_twice w w1 w2 : input_only w w1 → input_only w1 w2 → input_only w w2.
Proof using.
  intros (b & e & Hb & ->) (b1 & e1 & Hb1 & ->). exists b, e1. split; [done|].
  cbn [set_input w_bevs set_bevs] in Hb1. rewrite lookup_insert_eq in Hb1. injection Hb1 as <-.
  unfold set_input, set_bevs. simpl. by rewrite insert_insert_eq.
Qed.

(** The rest of a round, once the message is there. *)
Definition hand_over (m : Msg) (len : Z) (next : M (World EB E) unit) : M (World EB E) unit :=
  _ ← messageCallback cd conn m;
  b ← getReadBuffer conn; _ ← buf_drain b len; next.

Lemma round_framed w data rest :
  reads w conn p (framed data ++ rest) → lenZ (framed data ++ rest) < 2 ^ 31 →
  lenZ (_tag cd) + checksumLen ≤ lenZ data ≤ maxMessageLen →
  ∃ w', input_only w w' ∧ reads w' conn p (data ++ rest) ∧
    onMessage_round host cd conn w =
      (if decide ((decode_data (_tag cd) data).1 = noError)
       then _ ← messageCallback cd conn (decode_data (_tag cd) data).2;
            b ← getReadBuffer conn; _ ← buf_drain b (lenZ data); mret true
       else _ ← _errorCallback cd conn (decode_data (_tag cd) data).1; mret false) w'.
Proof using EBL Hraw Hwf.
  intros Hr Hl Hd. destruct Hwf as [Hmin _]. unfold maxMessageLen, checksumLen in *.
  unfold framed in Hl. rewrite <- app_assoc, length_app, length_be_bytes, length_app in Hl.
  destruct (reads_readBuffer w conn p _ 4 Hr) as (b & e & k & Hb & Hrun & Hr1); [lia|].
  unfold framed in Hrun, Hr1. rewrite <- app_assoc in Hrun, Hr1.
  change (Z.to_nat 4) with 4%nat in *. rewrite rest_of_framed in Hr1.
  set (w1 := set_input p b e w) in *.
  destruct (reads_pullup w1 conn p (data ++ rest) (lenZ data) Hr1) as (b2 & e2 & Hb2 & Hrun2 & Hr2);
    [rewrite length_app; lia|].
  rewrite take_lenZ_app in Hrun2 by done. set (w2 := set_input p b2 e2 w1) in *.
  exists w2. split; [eapply input_only_twice; [by exists b, e|by exists b2, e2]|]. split; [exact Hr2|].
  assert (Hi : lenZ data < 2 ^ 31) by int_lia.
  unfold onMessage_round. mrun Hrun. cbn [snd]. cbn zeta.
  rewrite asInt32_be by (rewrite length_take, length_app, length_be_bytes; lia).
  rewrite take_take, (Nat.min_l 4 4) by lia. rewrite header_of_framed by int_lia.
  rewrite (swrap_small 32 eq_refl (lenZ data)), (wrap_small 32 (lenZ data)) by int_lia.
  rewrite if_false by (unfold maxMessageLen, checksumLen in *; lia).
  erewrite bind_run by (apply (reads_length _ _ _ _ Hr1); rewrite length_app; int_lia). cbn beta.
  if_yes; [|rewrite length_app; lia]. rewrite Hraw. mrun. cbn [negb].
  erewrite bind_run.
  2: { unfold parse. rewrite <- bind_assoc, (bind_run _ _ _ _ _ Hrun2). cbn beta iota.
       rewrite parse_data_decode by (unfold checksumLen; lia). reflexivity. }
  cbn beta. by destruct (decode_data (_tag cd) data).
Qed.

(** The loop, when a whole valid frame is at the front. *)
Lemma loop_framed fuel w data rest m :
  reads w conn p (framed data ++ rest) → lenZ (framed data ++ rest) < 2 ^ 31 →
  lenZ (_tag cd) + checksumLen ≤ lenZ data ≤ maxMessageLen →
  decode_data (_tag cd) data = (noError, m) →
  ∃ w', input_only w w' ∧ reads w' conn p (data ++ rest) ∧
    onMessage_loop host (S fuel) cd conn w =
      hand_over m (lenZ data) (onMessage_loop host fuel cd conn) w'.
Proof using EBL Hraw Hwf.
  intros Hr Hl Hd Hm. destruct (round_framed w data rest Hr Hl Hd) as (w' & Hio & Hr' & Hrun).
  exists w'. split_and!; [done|done|]. rewrite Hm in Hrun. cbn [fst snd] in Hrun.
  rewrite if_true in Hrun by done.
  pose proof Hwf as [Hmin Htag]. cbn [onMessage_loop].
  rewrite (bind_run _ _ _ _ _ (reads_length _ _ _ _ Hr ltac:(int_lia))).
  unfold checksumLen, headerLen in *. rewrite Hmin.
  rewrite (wrap_small 32) by (change (2 ^ 30) with 1073741824 in Htag; int_lia).
  rewrite if_true by (unfold framed; rewrite !length_app, length_be_bytes; lia).
  unfold hand_over, mbind, M_bind in *. rewrite Hrun.
  destruct (messageCallback cd conn m w') as [[[] w2]|f|e]; [|done..].
  destruct (getReadBuffer conn w2) as [[r w3]|f|e]; [|done..].
  destruct (buf_drain r (lenZ data) w3) as [[k w4]|f|e]; [|done..]. done.
Qed.

(** The drain after a callback that left the input alone. *)
Lemma hand_over_run m data rest next w w1 :
  messageCallback cd conn m w = Ok (tt, w1) → reads w1 conn p (data ++ rest) →
  ∃ w2, input_only w1 w2 ∧ reads w2 conn p rest ∧ hand_over m (lenZ data) next w = next w2.
Proof using EBL.
  intros Hm Hr. destruct (reads_drain w1 conn p (data ++ rest) (lenZ data) Hr) as (b & e & k & Hb & Hrun & Hr2);
    [lia|].
  rewrite drop_lenZ_app in Hr2 by done.
  exists (set_input p b e w1). split; [by exists b, e|]. split; [done|].
  unfold hand_over. mrun Hm. by rewrite <- bind_assoc, (bind_run _ _ _ _ _ Hrun).
Qed.

Lemma loop_idle fuel w bs :
  reads w conn p bs → lenZ bs < lenZ (_tag cd) + checksumLen + headerLen →
  onMessage_loop host fuel cd conn w = Ok (tt, w).
Proof using EBL Hwf.
  intros Hr Hs. destruct Hwf as [Hmin Htag]. unfold checksumLen, headerLen in *.
  change (2 ^ 30) with 1073741824 in Htag.
  assert (H32 : lenZ bs < 2 ^ 32).
  { int_lia. }
  destruct fuel; cbn [onMessage_loop];
    rewrite (bind_run _ _ _ _ _ (reads_length _ _ _ _ Hr H32)), Hmin;
    unfold checksumLen, headerLen; (rewrite (wrap_small 32 (lenZ (_tag cd) + 4 + 4)) by int_lia); by rewrite if_false by lia.
Qed.

Context {PBL : ProtoLaws Msg PB}.

(** A frame of a message at the front of the input. *)
Lemma onMessage_frame fuel w m0 rest :
  sendable (_tag cd) m0 → reads w conn p (frame (_tag cd) m0 ++ rest) →
  lenZ (frame (_tag cd) m0 ++ rest) < 2 ^ 31 →
  ∃ m data w', same_message m0 m ∧ input_only w w' ∧ reads w' conn p (data ++ rest) ∧
    onMessage host (S fuel) cd conn w = hand_over m (lenZ data) (onMessage_loop host fuel cd conn) w'.
Proof using EBL Hraw Hwf.
  intros [[Hok Hi] Hs] Hr Hl. rewrite frame_framed in Hr, Hl.
  destruct (decode_data_frame (_tag cd) m0 Hok Hi) as (m & Hsame & Hm).
  { unfold maxMessageLen, checksumLen, frame_body in Hs. rewrite length_app in Hs. int_lia. }
  set (data := frame_body (_tag cd) m0 ++ _) in *.
  assert (Hd : lenZ (_tag cd) + checksumLen ≤ lenZ data ≤ maxMessageLen).
  { unfold data. rewrite length_app, length_be_bytes. unfold checksumLen in *.
    unfold frame_body in *. rewrite length_app in *. lia. }
  destruct (loop_framed fuel w data rest m Hr Hl Hd Hm) as (w' & Hio & Hr' & Hrun).
  exists m, data, w'. split_and!; [done|done|done|]. unfold onMessage.
  assert (H32 : lenZ (framed data ++ rest) < 2 ^ 32) by (clear -Hl; int_lia).
  by rewrite (bind_run _ _ _ _ _ (reads_length _ _ _ _ Hr H32)), Hrun.
Qed.
End delivery.
