(* ===== verification/ProtoWire.v ===== *)
(** * protobuf's runtime: wire_format_lite.h, coded_stream.h, unknown_field_set.h

    The functions of the protobuf library that the generated class [RpcMessage]
    calls, as a class of operations with a class of the laws their headers and
    the encoding guide document, and a concrete instance to run examples on.
    An input stream is the list of the bytes that are still to be read; a
    reading function returns whether it succeeded, the value, and the rest. *)

From S2P Require Import Prelude.

Class WireOps := {
  UnknownFieldSet : Type;
  ufs_new : UnknownFieldSet;
  ufs_empty : UnknownFieldSet → bool;
  ufs_AddVarint : Z → Z → UnknownFieldSet → UnknownFieldSet;
  (** destination, source *)
  ufs_MergeFrom : UnknownFieldSet → UnknownFieldSet → UnknownFieldSet;

  GetTagFieldNumber : Z → Z;
  GetTagWireType : Z → Z;

  WriteEnumToArray : Z → Z → bytes;
  EnumSize : Z → Z;
  WriteFixed64ToArray : Z → Z → bytes;
  WriteStringToArray : Z → bytes → bytes;
  StringSize : bytes → Z;
  WriteBytesToArray : Z → bytes → bytes;
  BytesSize : bytes → Z;
  SerializeUnknownFieldsToArray : UnknownFieldSet → bytes;
  ComputeUnknownFieldsSize : UnknownFieldSet → Z;

  (** the tag, and whether it is at most the cutoff *)
  ReadTagWithCutoff : Z → bytes → Z * bool * bytes;
  ExpectTag : Z → bytes → bool * bytes;
  ExpectAtEnd : bytes → bool * bytes;
  ReadEnum : bytes → bool * Z * bytes;
  (** these overwrite the value they are given, maybe in part when they fail *)
  ReadFixed64 : Z → bytes → bool * Z * bytes;
  ReadString : bytes → bytes → bool * bytes * bytes;
  ReadBytes : bytes → bytes → bool * bytes * bytes;
  SkipField : Z → UnknownFieldSet → bytes → bool * UnknownFieldSet * bytes
}.

Definition WIRETYPE_END_GROUP : Z := 4.

Class WireLaws (WO : WireOps) : Prop := {
  ufs_new_empty : ufs_empty ufs_new = true;
  tag_field f t : 0 ≤ f → 0 ≤ t < 8 → GetTagFieldNumber (8 * f + t) = f;

  (** sizes: one byte of tag for the field numbers up to 15 *)
  enum_size f v : 1 ≤ f < 16 → 0 ≤ v < 2 ^ 31 → lenZ (WriteEnumToArray f v) = 1 + EnumSize v;
  fixed64_size f v : 1 ≤ f < 16 → lenZ (WriteFixed64ToArray f v) = 1 + 8;
  string_size f s : 1 ≤ f < 16 → lenZ s < 2 ^ 31 → lenZ (WriteStringToArray f s) = 1 + StringSize s;
  bytes_size f s : 1 ≤ f < 16 → lenZ s < 2 ^ 31 → lenZ (WriteBytesToArray f s) = 1 + BytesSize s;
  string_longer f s : lenZ s ≤ lenZ (WriteStringToArray f s);
  bytes_longer f s : lenZ s ≤ lenZ (WriteBytesToArray f s);
  (** an [int] that is not negative takes at most five groups of seven bits *)
  enum_short v : 0 ≤ v < 2 ^ 31 → EnumSize v ≤ 5;
  unknown_size u : lenZ (SerializeUnknownFieldsToArray u) = ComputeUnknownFieldsSize u;

  (** what is written is read back *)
  enum_law f v k : 1 ≤ f < 16 → 0 ≤ v < 2 ^ 31 → ∃ s,
    ReadTagWithCutoff 127 (WriteEnumToArray f v ++ k) = (8 * f, true, s) ∧ ReadEnum s = (true, v, k);
  fixed64_law f v old k : 1 ≤ f < 16 → 0 ≤ v < 2 ^ 64 → ∃ s,
    ReadTagWithCutoff 127 (WriteFixed64ToArray f v ++ k) = (8 * f + 1, true, s) ∧
    ReadFixed64 old s = (true, v, k);
  string_law f v old k : 1 ≤ f < 16 → lenZ v < 2 ^ 31 → ∃ s,
    ReadTagWithCutoff 127 (WriteStringToArray f v ++ k) = (8 * f + 2, true, s) ∧
    ReadString old s = (true, v, k);
  bytes_law f v old k : 1 ≤ f < 16 → lenZ v < 2 ^ 31 → ∃ s,
    ReadTagWithCutoff 127 (WriteBytesToArray f v ++ k) = (8 * f + 2, true, s) ∧
    ReadBytes old s = (true, v, k);

  (** "If ExpectTag() returns true, it also advances past the varint", and it
      never returns true when ReadTag would not return the tag *)
  expect_tag_true t s s' : ExpectTag t s = (true, s') → ReadTagWithCutoff 127 s = (t, true, s');
  expect_tag_false t s s' : ExpectTag t s = (false, s') → s' = s;
  expect_end_true s s' : ExpectAtEnd s = (true, s') → s = [] ∧ s' = [];
  expect_end_false s s' : ExpectAtEnd s = (false, s') → s' = s;
  read_tag_end c : ReadTagWithCutoff c [] = (0, false, []);

  (** reading consumes: a tag has at least one byte, nothing puts bytes back *)
  read_tag_consumes c s t b s' : ReadTagWithCutoff c s = (t, b, s') →
    (length s' ≤ length s)%nat ∧ (t ≠ 0 → (length s' < length s)%nat);
  read_enum_consumes s b v s' : ReadEnum s = (b, v, s') → (length s' ≤ length s)%nat ∧ - 2 ^ 31 ≤ v < 2 ^ 31;
  read_fixed64_consumes o s b v s' : ReadFixed64 o s = (b, v, s') →
    (length s' ≤ length s)%nat ∧ (0 ≤ o < 2 ^ 64 → 0 ≤ v < 2 ^ 64);
  read_string_consumes o s b v s' : ReadString o s = (b, v, s') → (length s' ≤ length s)%nat;
  read_bytes_consumes o s b v s' : ReadBytes o s = (b, v, s') → (length s' ≤ length s)%nat;
  skip_consumes t u s b u' s' : SkipField t u s = (b, u', s') → (length s' ≤ length s)%nat
}.

(** ** The encoding of protobuf, to run examples *)

Module base128.
(** Base-128 integers of at most [fuel] bytes, the least significant group first. *)
Fixpoint varint (fuel : nat) (z : Z) : bytes :=
  match fuel with
  | O => []
  | S fuel => if decide (z < 128) then [byte.of_Z z]
              else byte.of_Z (128 + z `mod` 128) :: varint fuel (z `div` 128)
  end.
Fixpoint read_varint (fuel : nat) (bs : bytes) : option (Z * bytes) :=
  match fuel, bs with
  | S fuel, b :: bs =>
      let v := byte.unsigned b in
      if decide (v < 128) then Some (v, bs)
      else match read_varint fuel bs with
           | Some (z, bs') => Some (v - 128 + 128 * z, bs')
           | None => None
           end
  | _, _ => None
  end.

Lemma unsigned_of_Z z : 0 ≤ z < 256 → byte.unsigned (byte.of_Z z) = z.
Proof. intros Hz. rewrite byte.unsigned_of_Z. apply Z.mod_small. lia. Qed.

Lemma varint_read fuel z k :
  0 ≤ z < 128 ^ Z.of_nat (S fuel) →
  read_varint (S fuel) (varint (S fuel) z ++ k) = Some (z, k).
Proof.
  revert z. induction fuel as [|fuel IH]; intros z Hz;
    rewrite Nat2Z.inj_succ, Z.pow_succ_r in Hz by lia;
    remember (S fuel) as f eqn:Hf || remember O as f eqn:Hf;
    cbn [varint read_varint]; case_decide as Hd.
  - cbn [app]. rewrite unsigned_of_Z by lia. by rewrite decide_True.
  - subst f. change (128 ^ Z.of_nat 0) with 1 in Hz. lia.
  - cbn [app]. rewrite unsigned_of_Z by lia. by rewrite decide_True.
  - pose proof (Z.mod_pos_bound z 128 eq_refl). cbn [app].
    rewrite unsigned_of_Z, decide_False by lia. rewrite IH.
    + pose proof (Z.div_mod z 128 ltac:(done)).
      replace (128 + z `mod` 128 - 128 + 128 * (z `div` 128)) with z by lia. done.
    + split; [apply Z.div_pos; lia | apply Z.div_lt_upper_bound; lia].
Qed.

Lemma varint_length fuel z : (length (varint fuel z) ≤ fuel)%nat.
Proof.
  revert z. induction fuel as [|fuel IH]; intros z; cbn [varint]; [done|].
  case_decide; simpl; [lia|]. specialize (IH (z `div` 128)). lia.
Qed.

(** A number below [128 ^ n] takes at most [n] groups. *)
Lemma varint_short fuel n z : 0 ≤ z < 128 ^ Z.of_nat (S n) → (length (varint fuel z) ≤ S n)%nat.
Proof.
  revert n z. induction fuel as [|fuel IH]; intros n z Hz; cbn [varint]; [simpl; lia|].
  case_decide as Hd; [simpl; lia|]. destruct n as [|n].
  - change (128 ^ Z.of_nat 1) with 128 in Hz. lia.
  - rewrite Nat2Z.inj_succ, Z.pow_succ_r in Hz by lia. cbn [length].
    apply le_n_S, IH. split; [apply Z.div_pos; lia|apply Z.div_lt_upper_bound; lia].
Qed.

Lemma read_varint_consumes fuel bs z bs' :
  read_varint fuel bs = Some (z, bs') → (length bs' < length bs)%nat.
Proof.
  revert bs z. induction fuel as [|fuel IH]; intros [|b bs] z; cbn [read_varint]; try done.
  case_decide; [intros [= _ <-]; simpl; lia|].
  destruct (read_varint fuel bs) as [[z' k]|] eqn:E; [|done]. intros [= _ <-].
  apply IH in E. simpl. lia.
Qed.

Definition read_delimited (old bs : bytes) : bool * bytes * bytes :=
  match read_varint 10 bs with
  | Some (n, bs') => if decide (0 ≤ n ≤ lenZ bs')
                     then (true, take (Z.to_nat n) bs', drop (Z.to_nat n) bs')
                     else (false, old, bs')
  | None => (false, old, [])
  end.
Definition read_fixed (n : nat) (bs : bytes) : option (Z * bytes) :=
  if decide (n ≤ length bs)%nat then Some (le_combine (take n bs), drop n bs) else None.
Definition read_tag (c : Z) (bs : bytes) : Z * bool * bytes :=
  match read_varint 10 bs with
  | Some (t, bs') => (u32 t, bool_decide (0 < u32 t ≤ c), bs')
  | None => (0, false, [])
  end.

Lemma read_varint_small b s :
  byte.unsigned b < 128 → read_varint 10 (b :: s) = Some (byte.unsigned b, s).
Proof. intros Hb. cbn [read_varint]. by rewrite decide_True. Qed.

Lemma read_delimited_law v old k :
  lenZ v < 2 ^ 31 → read_delimited old (varint 10 (lenZ v) ++ v ++ k) = (true, v, k).
Proof.
  intros Hv. unfold read_delimited. rewrite varint_read.
  - rewrite decide_True by (rewrite length_app; lia).
    by rewrite take_lenZ_app, drop_lenZ_app.
  - change (128 ^ Z.of_nat 10) with (2 ^ 70). change (2 ^ 31) with 2147483648 in Hv. lia.
Qed.
Lemma read_tag_law f t k : 1 ≤ f < 16 → 0 ≤ t < 8 →
  read_tag 127 (byte.of_Z (8 * f + t) :: k) = (8 * f + t, true, k).
Proof.
  intros Hf Ht. unfold read_tag. cbn [read_varint]. rewrite unsigned_of_Z by lia.
  rewrite decide_True by lia. rewrite (wrap_small 32) by lia.
  by rewrite bool_decide_true by lia.
Qed.

(** Unknown fields are kept as they are encoded. *)
Definition skip_field (tag : Z) (u bs : bytes) : bool * bytes * bytes :=
  let keep n := if decide (n ≤ length bs)%nat
                then (true, u ++ varint 5 tag ++ take n bs, drop n bs) else (false, u, bs) in
  match tag `mod` 8 with
  | 0 => match read_varint 10 bs with
         | Some (_, bs') => keep (length bs - length bs')%nat
         | None => (false, u, bs)
         end
  | 1 => keep 8%nat
  | 2 => match read_varint 10 bs with
         | Some (n, bs') => keep (length bs - length bs' + Z.to_nat n)%nat
         | None => (false, u, bs)
         end
  | 5 => keep 4%nat
  | _ => (false, u, bs)
  end.

#[export] Instance wire : WireOps := {
  UnknownFieldSet := bytes;
  ufs_new := [];
  ufs_empty := λ u : bytes, bool_decide (u = []);
  ufs_AddVarint := λ f v (u : bytes), u ++ varint 5 (8 * f) ++ varint 10 (u64 v);
  ufs_MergeFrom := λ d s : bytes, d ++ s;
  GetTagFieldNumber := λ t, t `div` 8;
  GetTagWireType := λ t, t `mod` 8;
  WriteEnumToArray := λ f v, byte.of_Z (8 * f) :: varint 10 (u64 v);
  EnumSize := λ v, lenZ (varint 10 (u64 v));
  WriteFixed64ToArray := λ f v, byte.of_Z (8 * f + 1) :: le_split 8 v;
  WriteStringToArray := λ f s, byte.of_Z (8 * f + 2) :: varint 10 (lenZ s) ++ s;
  StringSize := λ s, lenZ (varint 10 (lenZ s) ++ s);
  WriteBytesToArray := λ f s, byte.of_Z (8 * f + 2) :: varint 10 (lenZ s) ++ s;
  BytesSize := λ s, lenZ (varint 10 (lenZ s) ++ s);
  SerializeUnknownFieldsToArray := λ u : bytes, u;
  ComputeUnknownFieldsSize := λ u : bytes, lenZ u;
  ReadTagWithCutoff := read_tag;
  ExpectTag := λ t bs, match bs with
                       | b :: bs' => if decide (0 < t < 128 ∧ byte.unsigned b = t)
                                     then (true, bs') else (false, bs)
                       | [] => (false, bs)
                       end;
  ExpectAtEnd := λ bs, (bool_decide (bs = []), bs);
  ReadEnum := λ bs, match read_varint 10 bs with
                    | Some (v, bs') => (true, i32 v, bs')
                    | None => (false, 0, [])
                    end;
  ReadFixed64 := λ old bs, match read_fixed 8 bs with
                           | Some (v, bs') => (true, v, bs')
                           | None => (false, old, [])
                           end;
  ReadString := read_delimited;
  ReadBytes := read_delimited;
  SkipField := skip_field
}.

Lemma read_delimited_consumes o s b v s' :
  read_delimited o s = (b, v, s') → (length s' ≤ length s)%nat.
Proof.
  unfold read_delimited. destruct (read_varint 10 s) as [[n k]|] eqn:E.
  - apply read_varint_consumes in E. case_decide; intros [= <- <- <-]; rewrite ?length_drop; lia.
  - intros [= <- <- <-]. simpl. lia.
Qed.
Lemma skip_field_consumes t u s b u' s' :
  skip_field t u s = (b, u', s') → (length s' ≤ length s)%nat.
Proof.
  unfold skip_field. intros H.
  repeat match type of H with
  | context [match ?x with _ => _ end] => destruct x eqn:?
  end; injection H as <- <- <-; rewrite ?length_drop; lia.
Qed.

#[local] Arguments le_split : simpl never.
#[local] Arguments varint : simpl never.
#[local] Arguments read_varint : simpl never.

#[export] Instance wire_laws : WireLaws wire.
Proof.
  split; simpl.
  - done.
  - intros f t Hf Ht. rewrite Z.add_comm, Z.mul_comm, Z.div_add, Z.div_small by lia. lia.
  - intros; lia.
  - intros. lia.
  - intros; lia.
  - intros; lia.
  - intros. rewrite length_app. lia.
  - intros. rewrite length_app. lia.
  - intros v Hv. rewrite (wrap_small 64) by int_lia. pose proof (varint_short 10 4 v) as Hs.
    change (128 ^ Z.of_nat 5) with (2 ^ 35) in Hs. change (2 ^ 31) with 2147483648 in Hv. lia.
  - done.
  - intros f v k Hf Hv. exists (varint 10 (u64 v) ++ k). split.
    + rewrite <- (Z.add_0_r (8 * f)) at 1. rewrite read_tag_law by lia. by rewrite Z.add_0_r.
    + rewrite (wrap_small 64), varint_read by int_lia. by rewrite swrap_small by int_lia.
  - intros f v old k Hf Hv. exists (le_split 8 v ++ k). split; [by apply read_tag_law|].
    unfold read_fixed. rewrite decide_True by (rewrite length_app, length_le_split; lia).
    rewrite take_app_exact, drop_app_exact by (by rewrite length_le_split).
    rewrite le_combine_split. do 2 f_equal. apply Z.mod_small. exact Hv.
  - intros f v old k Hf Hv. exists (varint 10 (lenZ v) ++ v ++ k).
    rewrite <- app_assoc. split; [by apply read_tag_law|by apply read_delimited_law].
  - intros f v old k Hf Hv. exists (varint 10 (lenZ v) ++ v ++ k).
    rewrite <- app_assoc. split; [by apply read_tag_law|by apply read_delimited_law].
  - intros t [|b s] s'; [done|]. case_decide as Hd; [|done]. intros [= <-]. destruct Hd as [Ht <-].
    unfold read_tag. rewrite read_varint_small by lia.
    rewrite (wrap_small 32), bool_decide_true by lia. done.
  - intros t [|b s] s'; [by intros [= <-]|]. case_decide; [done|]. by intros [= <-].
  - intros s s' [= Hs <-]. apply bool_decide_eq_true in Hs. done.
  - by intros s s' [= _ <-].
  - done.
  - intros c s t b s'. unfold read_tag. destruct (read_varint 10 s) as [[z k]|] eqn:E.
    + apply read_varint_consumes in E. intros [= <- <- <-]. lia.
    + intros [= <- <- <-]. simpl. lia.
  - intros s b v s'. destruct (read_varint 10 s) as [[z k]|] eqn:E.
    + apply read_varint_consumes in E. intros [= <- <- <-]. split; [lia|].
      pose proof (swrap_range 32 eq_refl z). int_lia.
    + intros [= <- <- <-]. simpl. split; lia.
  - intros o s b v s'. unfold read_fixed. case_decide as Hd.
    + intros [= <- <- <-]. rewrite length_drop. split; [lia|]. intros _.
      pose proof (le_combine_bound (take 8 s)) as Hb. rewrite length_take in Hb.
      rewrite Nat.min_l in Hb by done. exact Hb.
    + intros [= <- <- <-]. simpl. split; [lia|done].
  - apply read_delimited_consumes.
  - apply read_delimited_consumes.
  - apply skip_field_consumes.
Qed.
End base128.
