(* ===== verification/RpcPb.v ===== *)
(** * The message of the RPC protocol: [class RpcMessage] (src/rpc.pb.h, src/rpc.pb.cc)

    The generated class with its bit field of present members, its accessors,
    [Clear], [MergeFrom], [CopyFrom], [Swap], and the parser and the serialiser
    with their control flow ([goto parse_...], [handle_unusual]).  A string
    member is [None] while it points to the shared empty string. *)

From S2P Require Import Prelude ProtoWire.

(** [enum MessageType] *)
Definition UNKNOW : Z := 0.
Definition REQUEST : Z := 1.
Definition RESPONSE : Z := 2.
Definition ERROR : Z := 3.
Definition MessageType_IsValid (value : Z) : bool :=
  match value with 0 | 1 | 2 | 3 => true | _ => false end.

(** [enum ErrorCode] of the protocol *)
Definition NO_ERROR : Z := 0.
Definition WRONG_PROTO : Z := 1.
Definition NO_SERVICE : Z := 2.
Definition NO_METHOD : Z := 3.
Definition INVALID_REQUEST : Z := 4.
Definition INVALID_RESPONSE : Z := 5.
Definition TIMEOUT : Z := 6.
Definition ErrorCode_IsValid (value : Z) : bool :=
  match value with 0 | 1 | 2 | 3 | 4 | 5 | 6 => true | _ => false end.

(** ** Members *)

(** A [std::string*] member. *)
Abbreviation slot := (option bytes).
Definition slot_value (s : slot) : bytes := default [] s.
(** [if (p != &empty) p->clear();] *)
Definition slot_clear (s : slot) : slot := match s with None => None | Some _ => Some [] end.
(** [if (p == &empty) p = new string; return p;] *)
Definition slot_mutable (s : slot) : bytes := match s with None => [] | Some v => v end.

Module RpcMessage.
Section RpcMessage.
Context {WO : WireOps}.

Record t := mk {
  _unknown_fields_ : UnknownFieldSet;
  _has_bits_ : Z;
  _cached_size_ : Z;
  id_ : Z;
  service_ : slot;
  method_ : slot;
  type_ : Z;
  error_ : Z;
  request_ : slot;
  response_ : slot
}.

Definition with_unknown u m := mk u (_has_bits_ m) (_cached_size_ m) (id_ m) (service_ m)
  (method_ m) (type_ m) (error_ m) (request_ m) (response_ m).
Definition with_bits b m := mk (_unknown_fields_ m) b (_cached_size_ m) (id_ m) (service_ m)
  (method_ m) (type_ m) (error_ m) (request_ m) (response_ m).
Definition with_cached_size c m := mk (_unknown_fields_ m) (_has_bits_ m) c (id_ m) (service_ m)
  (method_ m) (type_ m) (error_ m) (request_ m) (response_ m).
Definition with_id v m := mk (_unknown_fields_ m) (_has_bits_ m) (_cached_size_ m) v (service_ m)
  (method_ m) (type_ m) (error_ m) (request_ m) (response_ m).
Definition with_service v m := mk (_unknown_fields_ m) (_has_bits_ m) (_cached_size_ m) (id_ m) v
  (method_ m) (type_ m) (error_ m) (request_ m) (response_ m).
Definition with_method v m := mk (_unknown_fields_ m) (_has_bits_ m) (_cached_size_ m) (id_ m)
  (service_ m) v (type_ m) (error_ m) (request_ m) (response_ m).
Definition with_type v m := mk (_unknown_fields_ m) (_has_bits_ m) (_cached_size_ m) (id_ m)
  (service_ m) (method_ m) v (error_ m) (request_ m) (response_ m).
Definition with_error v m := mk (_unknown_fields_ m) (_has_bits_ m) (_cached_size_ m) (id_ m)
  (service_ m) (method_ m) (type_ m) v (request_ m) (response_ m).
Definition with_request v m := mk (_unknown_fields_ m) (_has_bits_ m) (_cached_size_ m) (id_ m)
  (service_ m) (method_ m) (type_ m) (error_ m) v (response_ m).
Definition with_response v m := mk (_unknown_fields_ m) (_has_bits_ m) (_cached_size_ m) (id_ m)
  (service_ m) (method_ m) (type_ m) (error_ m) (request_ m) v.

(** [(_has_bits_[0] & mask) != 0], [|= mask] and [&= ~mask] on a [uint32]. *)
Definition has_bit (mask : Z) (m : t) : bool := negb (Z.land (_has_bits_ m) mask =? 0).
Definition set_bit (mask : Z) (m : t) : t := with_bits (Z.lor (_has_bits_ m) mask) m.
Definition clear_bit (mask : Z) (m : t) : t :=
  with_bits (Z.land (_has_bits_ m) (Z.lxor 0xffffffff mask)) m.

(** *** [type] *)
Definition has_type := has_bit 0x00000001.
Definition set_has_type := set_bit 0x00000001.
Definition clear_has_type := clear_bit 0x00000001.
Definition clear_type (m : t) : t := clear_has_type (with_type 0 m).
Definition type (m : t) : Z := type_ m.
(** [set_type] after its assertion *)
Definition put_type (value : Z) (m : t) : t := with_type value (set_has_type m).
Definition set_type (value : Z) : M t unit :=
  _ ← assert_ (MessageType_IsValid value); modify (put_type value).

(** *** [id] *)
Definition has_id := has_bit 0x00000002.
Definition set_has_id := set_bit 0x00000002.
Definition clear_has_id := clear_bit 0x00000002.
Definition clear_id (m : t) : t := clear_has_id (with_id 0 m).
Definition id (m : t) : Z := id_ m.
(** the parameter is a [uint64] *)
Definition set_id (value : Z) (m : t) : t := with_id (u64 value) (set_has_id m).

(** *** [service] *)
Definition has_service := has_bit 0x00000004.
Definition set_has_service := set_bit 0x00000004.
Definition clear_has_service := clear_bit 0x00000004.
Definition clear_service (m : t) : t := clear_has_service (with_service (slot_clear (service_ m)) m).
Definition service (m : t) : bytes := slot_value (service_ m).
Definition set_service (value : bytes) (m : t) : t := with_service (Some value) (set_has_service m).
(** the pointer [mutable_service] returns is used to apply [f] to the string *)
Definition mutable_service (f : bytes → bytes) (m : t) : t :=
  with_service (Some (f (slot_mutable (service_ m)))) (set_has_service m).
Definition release_service (m : t) : slot * t :=
  let m := clear_has_service m in
  match service_ m with None => (None, m) | Some temp => (Some temp, with_service None m) end.
Definition set_allocated_service (s : slot) (m : t) : t :=
  match s with
  | Some v => with_service (Some v) (set_has_service m)
  | None => with_service None (clear_has_service m)
  end.

(** *** [method] *)
Definition has_method := has_bit 0x00000008.
Definition set_has_method := set_bit 0x00000008.
Definition clear_has_method := clear_bit 0x00000008.
Definition clear_method (m : t) : t := clear_has_method (with_method (slot_clear (method_ m)) m).
Definition method (m : t) : bytes := slot_value (method_ m).
Definition set_method (value : bytes) (m : t) : t := with_method (Some value) (set_has_method m).
Definition mutable_method (f : bytes → bytes) (m : t) : t :=
  with_method (Some (f (slot_mutable (method_ m)))) (set_has_method m).
Definition release_method (m : t) : slot * t :=
  let m := clear_has_method m in
  match method_ m with None => (None, m) | Some temp => (Some temp, with_method None m) end.
Definition set_allocated_method (s : slot) (m : t) : t :=
  match s with
  | Some v => with_method (Some v) (set_has_method m)
  | None => with_method None (clear_has_method m)
  end.

(** *** [request] *)
Definition has_request := has_bit 0x00000010.
Definition set_has_request := set_bit 0x00000010.
Definition clear_has_request := clear_bit 0x00000010.
Definition clear_request (m : t) : t := clear_has_request (with_request (slot_clear (request_ m)) m).
Definition request (m : t) : bytes := slot_value (request_ m).
Definition set_request (value : bytes) (m : t) : t := with_request (Some value) (set_has_request m).
Definition mutable_request (f : bytes → bytes) (m : t) : t :=
  with_request (Some (f (slot_mutable (request_ m)))) (set_has_request m).
Definition release_request (m : t) : slot * t :=
  let m := clear_has_request m in
  match request_ m with None => (None, m) | Some temp => (Some temp, with_request None m) end.
Definition set_allocated_request (s : slot) (m : t) : t :=
  match s with
  | Some v => with_request (Some v) (set_has_request m)
  | None => with_request None (clear_has_request m)
  end.

(** *** [response] *)
Definition has_response := has_bit 0x00000020.
Definition set_has_response := set_bit 0x00000020.
Definition clear_has_response := clear_bit 0x00000020.
Definition clear_response (m : t) : t :=
  clear_has_response (with_response (slot_clear (response_ m)) m).
Definition response (m : t) : bytes := slot_value (response_ m).
Definition set_response (value : bytes) (m : t) : t := with_response (Some value) (set_has_response m).
Definition mutable_response (f : bytes → bytes) (m : t) : t :=
  with_response (Some (f (slot_mutable (response_ m)))) (set_has_response m).
Definition release_response (m : t) : slot * t :=
  let m := clear_has_response m in
  match response_ m with None => (None, m) | Some temp => (Some temp, with_response None m) end.
Definition set_allocated_response (s : slot) (m : t) : t :=
  match s with
  | Some v => with_response (Some v) (set_has_response m)
  | None => with_response None (clear_has_response m)
  end.

(** *** [error] *)
Definition has_error := has_bit 0x00000040.
Definition set_has_error := set_bit 0x00000040.
Definition clear_has_error := clear_bit 0x00000040.
Definition clear_error (m : t) : t := clear_has_error (with_error 0 m).
Definition error (m : t) : Z := error_ m.
Definition put_error (value : Z) (m : t) : t := with_error value (set_has_error m).
Definition set_error (value : Z) : M t unit :=
  _ ← assert_ (ErrorCode_IsValid value); modify (put_error value).

(** ** Construction, [Clear], merging *)

(** [RpcMessage()] with [SharedCtor] *)
Definition init : t := mk ufs_new 0 0 0 None None 0 0 None None.

(** [memset] from [type_] to [error_] covers these two members. *)
Definition Clear (m : t) : t :=
  let m :=
    if negb (Z.land (_has_bits_ m) 127 =? 0) then
      let m := with_id 0 (with_error 0 (with_type 0 m)) in
      let m := if has_service m then with_service (slot_clear (service_ m)) m else m in
      let m := if has_method m then with_method (slot_clear (method_ m)) m else m in
      let m := if has_request m then with_request (slot_clear (request_ m)) m else m in
      if has_response m then with_response (slot_clear (response_ m)) m else m
    else m in
  with_unknown ufs_new (with_bits 0 m).

Definition when (b : bool) (c : M t unit) : M t unit := if b then c else mret tt.

(** [same]: is [from] the object itself? *)
Definition MergeFrom (same : bool) (from : t) : M t unit :=
  _ ← (if same then raise FatalCheck else mret tt);
  _ ← when (negb (Z.land (_has_bits_ from) 0xff =? 0))
       (_ ← when (has_type from) (set_type (type from));
        _ ← when (has_id from) (modify (set_id (id from)));
        _ ← when (has_service from) (modify (set_service (service from)));
        _ ← when (has_method from) (modify (set_method (method from)));
        _ ← when (has_request from) (modify (set_request (request from)));
        _ ← when (has_response from) (modify (set_response (response from)));
        when (has_error from) (set_error (error from)));
  modify (λ m, with_unknown (ufs_MergeFrom (_unknown_fields_ m) (_unknown_fields_ from)) m).

Definition CopyFrom (same : bool) (from : t) : M t unit :=
  if same then mret tt else
  _ ← modify Clear;
  MergeFrom false from.

Definition IsInitialized (m : t) : bool := true.

(** Of two distinct objects. *)
Definition Swap (m other : t) : t * t :=
  (mk (_unknown_fields_ other) (_has_bits_ other) (_cached_size_ other) (id_ other)
     (service_ other) (method_ other) (type_ other) (error_ other) (request_ other)
     (response_ other),
   mk (_unknown_fields_ m) (_has_bits_ m) (_cached_size_ m) (id_ m)
     (service_ m) (method_ m) (type_ m) (error_ m) (request_ m) (response_ m)).

(** ** Serialisation *)

Definition SerializeWithCachedSizesToArray (m : t) : bytes :=
  (if has_type m then WriteEnumToArray 1 (type m) else []) ++
  (if has_id m then WriteFixed64ToArray 2 (id m) else []) ++
  (if has_service m then WriteStringToArray 3 (service m) else []) ++
  (if has_method m then WriteStringToArray 4 (method m) else []) ++
  (if has_request m then WriteBytesToArray 5 (request m) else []) ++
  (if has_response m then WriteBytesToArray 6 (response m) else []) ++
  (if has_error m then WriteEnumToArray 7 (error m) else []) ++
  (if negb (ufs_empty (_unknown_fields_ m))
   then SerializeUnknownFieldsToArray (_unknown_fields_ m) else []).

(** The result is an [int]; it is also stored in [_cached_size_]. *)
Definition ByteSize (m : t) : Z * t :=
  let total_size :=
    if negb (Z.land (_has_bits_ m) 0xff =? 0) then
      (if has_type m then 1 + EnumSize (type m) else 0) +
      (if has_id m then 1 + 8 else 0) +
      (if has_service m then 1 + StringSize (service m) else 0) +
      (if has_method m then 1 + StringSize (method m) else 0) +
      (if has_request m then 1 + BytesSize (request m) else 0) +
      (if has_response m then 1 + BytesSize (response m) else 0) +
      (if has_error m then 1 + EnumSize (error m) else 0)
    else 0 in
  let total_size := i32 (total_size +
    if negb (ufs_empty (_unknown_fields_ m))
    then ComputeUnknownFieldsSize (_unknown_fields_ m) else 0) in
  (total_size, with_cached_size total_size m).

(** ** Parsing *)

(** Where the code goes next: back to the loop, or to [success] or [failure]. *)
Inductive next :=
  | Continue (m : t) (input : bytes)
  | Done (ok : bool) (m : t) (input : bytes).

(** [if (input->ExpectTag(tag)) goto label; break;] *)
Definition expect (tag : Z) (label : t → bytes → next) (m : t) (input : bytes) : next :=
  let '(b, input) := ExpectTag tag input in
  if b : bool then label m input else Continue m input.

(** The code after the labels, the last one first. *)
Definition parse_error (m : t) (input : bytes) : next :=
  let '(ok, value, input) := ReadEnum input in
  if negb ok then Done false m input else
  let m := if ErrorCode_IsValid value then put_error value m
           else with_unknown (ufs_AddVarint 7 value (_unknown_fields_ m)) m in
  let '(b, input) := ExpectAtEnd input in
  if b : bool then Done true m input else Continue m input.

Definition parse_response (m : t) (input : bytes) : next :=
  let '(ok, value, input) := ReadBytes (slot_mutable (response_ m)) input in
  let m := mutable_response (λ _, value) m in
  if negb ok then Done false m input else expect 56 parse_error m input.

Definition parse_request (m : t) (input : bytes) : next :=
  let '(ok, value, input) := ReadBytes (slot_mutable (request_ m)) input in
  let m := mutable_request (λ _, value) m in
  if negb ok then Done false m input else expect 50 parse_response m input.

Definition parse_method (m : t) (input : bytes) : next :=
  let '(ok, value, input) := ReadString (slot_mutable (method_ m)) input in
  let m := mutable_method (λ _, value) m in
  if negb ok then Done false m input else expect 42 parse_request m input.

Definition parse_service (m : t) (input : bytes) : next :=
  let '(ok, value, input) := ReadString (slot_mutable (service_ m)) input in
  let m := mutable_service (λ _, value) m in
  if negb ok then Done false m input else expect 34 parse_method m input.

Definition parse_id (m : t) (input : bytes) : next :=
  let '(ok, value, input) := ReadFixed64 (id_ m) input in
  let m := with_id value m in
  if negb ok then Done false m input else expect 26 parse_service (set_has_id m) input.

Definition parse_type (m : t) (input : bytes) : next :=
  let '(ok, value, input) := ReadEnum input in
  if negb ok then Done false m input else
  let m := if MessageType_IsValid value then put_type value m
           else with_unknown (ufs_AddVarint 1 value (_unknown_fields_ m)) m in
  expect 17 parse_id m input.

Definition handle_unusual (tag : Z) (m : t) (input : bytes) : next :=
  if decide (tag = 0 ∨ GetTagWireType tag = WIRETYPE_END_GROUP) then Done true m input else
  let '(ok, u, input) := SkipField tag (_unknown_fields_ m) input in
  let m := with_unknown u m in
  if negb ok then Done false m input else Continue m input.

(** One iteration of the loop. *)
Definition parse_switch (m : t) (input : bytes) : next :=
  let '(tag, in_range, input) := ReadTagWithCutoff 127 input in
  if negb in_range then handle_unusual tag m input else
  match GetTagFieldNumber tag with
  | 1 => if decide (tag = 8) then parse_type m input else handle_unusual tag m input
  | 2 => if decide (tag = 17) then parse_id m input else handle_unusual tag m input
  | 3 => if decide (tag = 26) then parse_service m input else handle_unusual tag m input
  | 4 => if decide (tag = 34) then parse_method m input else handle_unusual tag m input
  | 5 => if decide (tag = 42) then parse_request m input else handle_unusual tag m input
  | 6 => if decide (tag = 50) then parse_response m input else handle_unusual tag m input
  | 7 => if decide (tag = 56) then parse_error m input else handle_unusual tag m input
  | _ => handle_unusual tag m input
  end.

Fixpoint parse_loop (fuel : nat) (m : t) (input : bytes) : option (bool * t * bytes) :=
  match fuel with
  | O => None
  | S fuel =>
      match parse_switch m input with
      | Continue m input => parse_loop fuel m input
      | Done ok m input => Some (ok, m, input)
      end
  end.

(** One iteration per byte is enough ([parse_total] below). *)
Definition MergePartialFromCodedStream (m : t) (input : bytes) : option (bool * t * bytes) :=
  parse_loop (S (length input)) m input.
End RpcMessage.
End RpcMessage.
