(* ===== verification/RpcPbProps.v ===== *)
(** * Properties of [RpcMessage]

    What the accessors do to the fields as a reader sees them, that the parser
    ends on every input, that the computed size is the number of bytes written,
    and that a parsed serialisation has the fields of the message. *)

From S2P Require Import Prelude External ProtoWire RpcPb.
Import RpcMessage.

(** ** The bit field *)

Section bits.
Context {WO : WireOps}.
Implicit Types (m : t).

Definition masks : list Z := [0x01; 0x02; 0x04; 0x08; 0x10; 0x20; 0x40].

Lemma mask_pow a : a ∈ masks → ∃ k, 0 ≤ k < 7 ∧ a = 2 ^ k.
Proof.
  unfold masks. rewrite !elem_of_cons, elem_of_nil.
  intros [->|[->|[->|[->|[->|[->|[->|[]]]]]]]];
    [exists 0|exists 1|exists 2|exists 3|exists 4|exists 5|exists 6]; split; (lia || reflexivity).
Qed.

Lemma land_pow b k : 0 ≤ k → negb (Z.land b (2 ^ k) =? 0) = Z.testbit b k.
Proof.
  intros Hk. destruct (Z.testbit b k) eqn:Hb.
  - apply negb_true_iff, Z.eqb_neq. intros H. apply (f_equal (λ z, Z.testbit z k)) in H.
    by rewrite Z.land_spec, Hb, Z.pow2_bits_true, Z.bits_0 in H.
  - apply negb_false_iff, Z.eqb_eq, Z.bits_inj. intros i. rewrite Z.land_spec, Z.bits_0.
    rewrite Z.pow2_bits_eqb by done. destruct (k =? i) eqn:E; [|by rewrite andb_false_r].
    apply Z.eqb_eq in E as <-. by rewrite Hb.
Qed.

Lemma has_set a b m :
  a ∈ masks → b ∈ masks → has_bit a (set_bit b m) = (a =? b) || has_bit a m.
Proof.
  intros (j & Hj & ->)%mask_pow (k & Hk & ->)%mask_pow. unfold has_bit, set_bit. cbn [_has_bits_ with_bits].
  rewrite !land_pow, Z.lor_spec, Z.pow2_bits_eqb, Z.eqb_sym, orb_comm by lia. f_equal.
  destruct (Z.eqb_spec j k) as [->|Hne]; [by rewrite Z.eqb_refl|].
  symmetry. apply Z.eqb_neq. intros H. apply Hne. by apply Z.pow_inj_r in H; lia.
Qed.

Lemma has_clear a b m :
  a ∈ masks → b ∈ masks → has_bit a (clear_bit b m) = negb (a =? b) && has_bit a m.
Proof.
  intros (j & Hj & ->)%mask_pow (k & Hk & ->)%mask_pow. unfold has_bit, clear_bit. cbn [_has_bits_ with_bits].
  rewrite !land_pow, Z.land_spec, Z.lxor_spec, Z.pow2_bits_eqb by lia.
  change 0xffffffff with (Z.ones 32). rewrite Z.ones_spec_low, andb_comm by lia. f_equal.
  rewrite xorb_true_l. f_equal.
  destruct (Z.eqb_spec j k) as [->|Hne]; [by rewrite !Z.eqb_refl|].
  rewrite (proj2 (Z.eqb_neq k j)) by done.
  symmetry. apply Z.eqb_neq. intros H. apply Hne. by apply Z.pow_inj_r in H; lia.
Qed.

(** *** What a reader sees *)

Record view := mkView {
  v_type : option Z; v_id : option Z; v_service : option bytes; v_method : option bytes;
  v_request : option bytes; v_response : option bytes; v_error : option Z
}.
Definition present {A} (b : bool) (a : A) : option A := if b then Some a else None.
Definition view_of m : view :=
  mkView (present (has_type m) (type m)) (present (has_id m) (id m))
    (present (has_service m) (service m)) (present (has_method m) (method m))
    (present (has_request m) (request m)) (present (has_response m) (response m))
    (present (has_error m) (error m)).

(** A member that is not present has its default value; the values are in the
    range of their types. *)
Record msg_wf m : Prop := {
  wf_bits : 0 ≤ _has_bits_ m < 128;
  wf_type : if has_type m then MessageType_IsValid (type_ m) = true else type_ m = 0;
  wf_id : 0 ≤ id_ m < 2 ^ 64 ∧ (has_id m = false → id_ m = 0);
  wf_service : has_service m = false → service m = [];
  wf_method : has_method m = false → method m = [];
  wf_request : has_request m = false → request m = [];
  wf_response : has_response m = false → response m = [];
  wf_error : if has_error m then ErrorCode_IsValid (error_ m) = true else error_ m = 0
}.
End bits.

(** Compute the bits after updates; the masks are literals. *)
Ltac mask_tac := apply (bool_decide_unpack _); vm_compute; exact I.
Ltac bits_tac :=
  unfold has_type, has_id, has_service, has_method, has_request, has_response, has_error,
    set_has_type, set_has_id, set_has_service, set_has_method, set_has_request,
    set_has_response, set_has_error, clear_has_type, clear_has_id, clear_has_service,
    clear_has_method, clear_has_request, clear_has_response, clear_has_error in *;
  repeat first
    [ rewrite has_set by mask_tac
    | rewrite has_clear by mask_tac ].

Section edits.
Context {WO : WireOps}.
Implicit Types (m : t).

Definition upd_type v x := mkView v (v_id x) (v_service x) (v_method x) (v_request x) (v_response x) (v_error x).
Definition upd_id v x := mkView (v_type x) v (v_service x) (v_method x) (v_request x) (v_response x) (v_error x).
Definition upd_service v x := mkView (v_type x) (v_id x) v (v_method x) (v_request x) (v_response x) (v_error x).
Definition upd_method v x := mkView (v_type x) (v_id x) (v_service x) v (v_request x) (v_response x) (v_error x).
Definition upd_request v x := mkView (v_type x) (v_id x) (v_service x) (v_method x) v (v_response x) (v_error x).
Definition upd_response v x := mkView (v_type x) (v_id x) (v_service x) (v_method x) (v_request x) v (v_error x).
Definition upd_error v x := mkView (v_type x) (v_id x) (v_service x) (v_method x) (v_request x) (v_response x) v.

Lemma has_with_type a v m : has_bit a (with_type v m) = has_bit a m. Proof. done. Qed.
Lemma has_with_id a v m : has_bit a (with_id v m) = has_bit a m. Proof. done. Qed.
Lemma has_with_service a v m : has_bit a (with_service v m) = has_bit a m. Proof. done. Qed.
Lemma has_with_method a v m : has_bit a (with_method v m) = has_bit a m. Proof. done. Qed.
Lemma has_with_request a v m : has_bit a (with_request v m) = has_bit a m. Proof. done. Qed.
Lemma has_with_response a v m : has_bit a (with_response v m) = has_bit a m. Proof. done. Qed.
Lemma has_with_error a v m : has_bit a (with_error v m) = has_bit a m. Proof. done. Qed.
Lemma has_with_unknown a v m : has_bit a (with_unknown v m) = has_bit a m. Proof. done. Qed.
End edits.

#[export] Hint Rewrite @has_with_type @has_with_id @has_with_service @has_with_method
  @has_with_request @has_with_response @has_with_error @has_with_unknown : mrpc.

Ltac view_tac :=
  unfold view_of, put_type, put_error, set_id, set_service, set_method, set_request, set_response,
    mutable_service, mutable_method, mutable_request, mutable_response,
    clear_type, clear_id, clear_service, clear_method, clear_request, clear_response, clear_error,
    upd_type, upd_id, upd_service, upd_method, upd_request, upd_response, upd_error;
  bits_tac; autorewrite with mrpc; bits_tac; reflexivity.

Section views.
Context {WO : WireOps}.
Implicit Types (m : t).

Lemma view_put_type v m : view_of (put_type v m) = upd_type (Some v) (view_of m).
Proof. view_tac. Qed.
Lemma view_set_id v m : view_of (set_id v m) = upd_id (Some (u64 v)) (view_of m).
Proof. view_tac. Qed.
Lemma view_set_service v m : view_of (set_service v m) = upd_service (Some v) (view_of m).
Proof. view_tac. Qed.
Lemma view_set_method v m : view_of (set_method v m) = upd_method (Some v) (view_of m).
Proof. view_tac. Qed.
Lemma view_set_request v m : view_of (set_request v m) = upd_request (Some v) (view_of m).
Proof. view_tac. Qed.
Lemma view_set_response v m : view_of (set_response v m) = upd_response (Some v) (view_of m).
Proof. view_tac. Qed.
Lemma view_put_error v m : view_of (put_error v m) = upd_error (Some v) (view_of m).
Proof. view_tac. Qed.
End views.

(** ** Edits of a message through its interface *)

Inductive string_field := FService | FMethod | FRequest | FResponse.
Inductive string_edit :=
  | SSet (v : bytes)
  | SMutable (f : bytes → bytes)
  | SClear
  | SRelease
  | SAllocated (s : slot).
(** [None] clears. *)
Inductive edit :=
  | EType (v : option Z)
  | EId (v : option Z)
  | EError (v : option Z)
  | EString (fld : string_field) (e : string_edit)
  | EClear.

Section edit_semantics.
Context {WO : WireOps}.
Implicit Types (m : t).

Definition apply_string (fld : string_field) (e : string_edit) m : t :=
  match fld, e with
  | FService, SSet v => set_service v m
  | FService, SMutable f => mutable_service f m
  | FService, SClear => clear_service m
  | FService, SRelease => (release_service m).2
  | FService, SAllocated s => set_allocated_service s m
  | FMethod, SSet v => set_method v m
  | FMethod, SMutable f => mutable_method f m
  | FMethod, SClear => clear_method m
  | FMethod, SRelease => (release_method m).2
  | FMethod, SAllocated s => set_allocated_method s m
  | FRequest, SSet v => set_request v m
  | FRequest, SMutable f => mutable_request f m
  | FRequest, SClear => clear_request m
  | FRequest, SRelease => (release_request m).2
  | FRequest, SAllocated s => set_allocated_request s m
  | FResponse, SSet v => set_response v m
  | FResponse, SMutable f => mutable_response f m
  | FResponse, SClear => clear_response m
  | FResponse, SRelease => (release_response m).2
  | FResponse, SAllocated s => set_allocated_response s m
  end.

Definition apply_edit (e : edit) : M t unit :=
  match e with
  | EType (Some v) => set_type v
  | EType None => modify clear_type
  | EId (Some v) => modify (set_id v)
  | EId None => modify clear_id
  | EError (Some v) => set_error v
  | EError None => modify clear_error
  | EString fld e => modify (apply_string fld e)
  | EClear => modify Clear
  end.

Definition empty_view : view := mkView None None None None None None None.

Definition get_string (fld : string_field) (x : view) : option bytes :=
  match fld with
  | FService => v_service x | FMethod => v_method x
  | FRequest => v_request x | FResponse => v_response x
  end.
Definition upd_string (fld : string_field) (v : option bytes) (x : view) : view :=
  match fld with
  | FService => upd_service v x | FMethod => upd_method v x
  | FRequest => upd_request v x | FResponse => upd_response v x
  end.
Definition spec_string (e : string_edit) (old : option bytes) : option bytes :=
  match e with
  | SSet v => Some v
  | SMutable f => Some (f (default [] old))
  | SClear | SRelease => None
  | SAllocated s => s
  end.
Definition spec_edit (e : edit) (x : view) : view :=
  match e with
  | EType v => upd_type v x
  | EId v => upd_id (u64 <$> v) x
  | EError v => upd_error v x
  | EString fld e => upd_string fld (spec_string e (get_string fld x)) x
  | EClear => empty_view
  end.

(** The assertions of [set_type] and [set_error]. *)
Definition edit_valid (e : edit) : bool :=
  match e with
  | EType (Some v) => MessageType_IsValid v
  | EError (Some v) => ErrorCode_IsValid v
  | _ => true
  end.

(** *** The bits stay those of the seven fields *)

Lemma bits_set a m : a ∈ masks → 0 ≤ _has_bits_ m < 128 → 0 ≤ _has_bits_ (set_bit a m) < 128.
Proof.
  intros (k & Hk & ->)%mask_pow [H0 Hb]. cbn [set_bit with_bits _has_bits_].
  assert (H1 : 0 ≤ Z.lor (_has_bits_ m) (2 ^ k)) by (apply Z.lor_nonneg; lia).
  split; [done|]. change 128 with (2 ^ 7) in *.
  apply Z.bounded_iff_bits_nonneg; [lia|done|]. intros l Hl.
  rewrite Z.lor_spec, Z.pow2_bits_false by lia.
  rewrite (proj1 (Z.bounded_iff_bits_nonneg 7 (_has_bits_ m) ltac:(lia) H0)) by (done || lia). done.
Qed.
Lemma bits_clear a m : a ∈ masks → 0 ≤ _has_bits_ m < 128 → 0 ≤ _has_bits_ (clear_bit a m) < 128.
Proof.
  intros _ [H0 Hb]. cbn [clear_bit with_bits _has_bits_].
  assert (H1 : 0 ≤ Z.land (_has_bits_ m) (Z.lxor 0xffffffff a)) by (apply Z.land_nonneg; lia).
  split; [done|]. change 128 with (2 ^ 7) in *.
  apply Z.bounded_iff_bits_nonneg; [lia|done|]. intros l Hl. rewrite Z.land_spec.
  by rewrite (proj1 (Z.bounded_iff_bits_nonneg 7 (_has_bits_ m) ltac:(lia) H0)) by (done || lia).
Qed.
End edit_semantics.

(** Split a goal [msg_wf] and settle the fields that did not change. *)
Ltac wf_tac :=
  match goal with H : msg_wf _ |- _ => destruct H as [Hbits Htype Hid Hserv Hmeth Hreq Hresp Herr] end;
  constructor;
  [ unfold set_has_type, set_has_id, set_has_service, set_has_method, set_has_request,
      set_has_response, set_has_error, clear_has_type, clear_has_id, clear_has_service,
      clear_has_method, clear_has_request, clear_has_response, clear_has_error;
    cbn [_has_bits_ with_type with_id with_service with_method with_request with_response with_error];
    first [ apply bits_set; [mask_tac|assumption]
          | apply bits_clear; [mask_tac|assumption] ]
  |..];
  bits_tac; autorewrite with mrpc; bits_tac; try done; try assumption.

Section edit_lemmas.
Context {WO : WireOps}.
Implicit Types (m : t).

Lemma init_wf : msg_wf init.
Proof. by split. Qed.

Lemma slot_value_clear s : slot_value (slot_clear s) = [].
Proof. by destruct s. Qed.

Lemma wf_put_type v m : MessageType_IsValid v = true → msg_wf m → msg_wf (put_type v m).
Proof. intros Hv Hm. unfold put_type. wf_tac. Qed.
Lemma wf_put_error v m : ErrorCode_IsValid v = true → msg_wf m → msg_wf (put_error v m).
Proof. intros Hv Hm. unfold put_error. wf_tac. Qed.
Lemma wf_set_id v m : msg_wf m → msg_wf (set_id v m).
Proof.
  intros Hm. unfold set_id. wf_tac. split; [|done]. apply (wrap_range 64). lia.
Qed.
Lemma wf_clear_type m : msg_wf m → msg_wf (clear_type m).
Proof. intros Hm. unfold clear_type. wf_tac. Qed.
Lemma wf_clear_error m : msg_wf m → msg_wf (clear_error m).
Proof. intros Hm. unfold clear_error. wf_tac. Qed.
Lemma wf_clear_id m : msg_wf m → msg_wf (clear_id m).
Proof. intros Hm. unfold clear_id. wf_tac. Qed.
End edit_lemmas.

Section string_lemmas.
Context {WO : WireOps}.
Implicit Types (m : t).

Lemma release_service_eq m : (release_service m).2 = with_service None (clear_has_service m).
Proof. unfold release_service. by destruct m as [? ? ? ? [?|] ? ? ? ? ?]. Qed.
Lemma release_method_eq m : (release_method m).2 = with_method None (clear_has_method m).
Proof. unfold release_method. by destruct m as [? ? ? ? ? [?|] ? ? ? ?]. Qed.
Lemma release_request_eq m : (release_request m).2 = with_request None (clear_has_request m).
Proof. unfold release_request. by destruct m as [? ? ? ? ? ? ? ? [?|] ?]. Qed.
Lemma release_response_eq m : (release_response m).2 = with_response None (clear_has_response m).
Proof. unfold release_response. by destruct m as [? ? ? ? ? ? ? ? ? [?|]]. Qed.

(** Every edit of a string sets its slot, and sets or clears its bit. *)
Definition put_slot (fld : string_field) (present : bool) (s : slot) m : t :=
  match fld with
  | FService => with_service s (if present then set_has_service m else clear_has_service m)
  | FMethod => with_method s (if present then set_has_method m else clear_has_method m)
  | FRequest => with_request s (if present then set_has_request m else clear_has_request m)
  | FResponse => with_response s (if present then set_has_response m else clear_has_response m)
  end.
Definition slot_of (fld : string_field) m : slot :=
  match fld with
  | FService => service_ m | FMethod => method_ m | FRequest => request_ m | FResponse => response_ m
  end.
Definition new_slot (e : string_edit) (s : slot) : bool * slot :=
  match e with
  | SSet v => (true, Some v)
  | SMutable f => (true, Some (f (slot_mutable s)))
  | SClear => (false, slot_clear s)
  | SRelease => (false, None)
  | SAllocated (Some v) => (true, Some v)
  | SAllocated None => (false, None)
  end.

Lemma apply_string_put fld e m :
  apply_string fld e m =
    put_slot fld (new_slot e (slot_of fld m)).1 (new_slot e (slot_of fld m)).2 m.
Proof.
  destruct fld, e as [v|f| | |[v|]]; try reflexivity; simpl;
    [apply release_service_eq|apply release_method_eq|apply release_request_eq|apply release_response_eq].
Qed.

Lemma view_put_slot fld b s m :
  view_of (put_slot fld b s m) = upd_string fld (present b (slot_value s)) (view_of m).
Proof. destruct fld, b; unfold put_slot, upd_string; view_tac. Qed.

Lemma wf_put_slot fld b s m :
  (b = false → slot_value s = []) → msg_wf m → msg_wf (put_slot fld b s m).
Proof. intros Hs Hm. destruct fld, b; unfold put_slot; wf_tac; intros _; by apply Hs. Qed.

Lemma slot_present fld m :
  msg_wf m → slot_mutable (slot_of fld m) = default [] (get_string fld (view_of m)).
Proof.
  intros [_ _ _ Hs Hm Hr Hp _].
  assert (Hgen : ∀ b s, (b = false → slot_value s = []) →
    slot_mutable s = default [] (present b (slot_value s))).
  { intros [] [v|] H; try done. by apply H. }
  destruct fld; apply Hgen; assumption.
Qed.

Lemma spec_string_slot fld e m :
  msg_wf m → present (new_slot e (slot_of fld m)).1 (slot_value (new_slot e (slot_of fld m)).2) =
    spec_string e (get_string fld (view_of m)).
Proof.
  intros Hm. destruct e as [v|f| | |[v|]]; try done. simpl. by rewrite slot_present.
Qed.

Lemma string_edit_ok fld e m :
  msg_wf m → msg_wf (apply_string fld e m) ∧
    view_of (apply_string fld e m) = upd_string fld (spec_string e (get_string fld (view_of m))) (view_of m).
Proof.
  intros Hm. rewrite apply_string_put. split.
  - apply wf_put_slot; [|done]. destruct e as [v|f| | |[v|]]; try done. intros _. apply slot_value_clear.
  - by rewrite view_put_slot, spec_string_slot.
Qed.

(** *** [Clear] *)

Lemma clear_slot_ok (b : bool) s : (b = false → slot_value s = []) →
  slot_value (if b then slot_clear s else s) = [].
Proof. destruct b; [intros _; apply slot_value_clear | by intros ->]. Qed.

Lemma no_bits m : Z.land (_has_bits_ m) 127 = 0 → 0 ≤ _has_bits_ m < 128 → _has_bits_ m = 0.
Proof.
  intros Hz Hb. change 127 with (Z.ones 7) in Hz. rewrite Z.land_ones in Hz by lia.
  change (2 ^ 7) with 128 in Hz. rewrite Z.mod_small in Hz; lia.
Qed.
Lemma bits_zero a m : _has_bits_ m = 0 → has_bit a m = false.
Proof. unfold has_bit. by intros ->. Qed.

Lemma Clear_fields m : msg_wf m →
  _has_bits_ (Clear m) = 0 ∧ _unknown_fields_ (Clear m) = ufs_new ∧ id_ (Clear m) = 0 ∧
  type_ (Clear m) = 0 ∧ error_ (Clear m) = 0 ∧ service (Clear m) = [] ∧ method (Clear m) = [] ∧
  request (Clear m) = [] ∧ response (Clear m) = [].
Proof.
  intros Hm. pose proof Hm as [Hb Ht [_ Hi] Hs Hme Hr Hp He]. unfold Clear.
  destruct (Z.land (_has_bits_ m) 127 =? 0) eqn:E; cbn [negb].
  - apply Z.eqb_eq in E. pose proof (no_bits m E Hb) as Hz.
    unfold has_type, has_id, has_service, has_method, has_request, has_response, has_error in *.
    rewrite !(bits_zero _ m Hz) in *. split_and!; try done; auto.
  - assert (Hw : ∀ P (b : bool) f (x : t), P (f x) → P x → P (if b then f x else x))
      by (intros P [] f x; done).
    assert (Hc : ∀ b (g : t → slot) s, (b = false → slot_value s = []) →
      slot_value (if b then slot_clear s else s) = []) by (intros; by apply clear_slot_ok).
    split_and!; try done;
      unfold service, method, request, response, has_service, has_method, has_request, has_response in *;
      repeat match goal with |- context [if ?b then with_service _ _ else _] =>
        destruct b eqn:? end;
      repeat match goal with |- context [if ?b then with_method _ _ else _] =>
        destruct b eqn:? end;
      repeat match goal with |- context [if ?b then with_request _ _ else _] =>
        destruct b eqn:? end;
      repeat match goal with |- context [if ?b then with_response _ _ else _] =>
        destruct b eqn:? end;
      simpl; rewrite ?slot_value_clear; auto.
Qed.
End string_lemmas.

Section message_lemmas.
Context {WO : WireOps}.
Implicit Types (m from : t) (x y : view).

Lemma view_clear_type m : view_of (clear_type m) = upd_type None (view_of m).
Proof. view_tac. Qed.
Lemma view_clear_id m : view_of (clear_id m) = upd_id None (view_of m).
Proof. view_tac. Qed.
Lemma view_clear_error m : view_of (clear_error m) = upd_error None (view_of m).
Proof. view_tac. Qed.

Lemma view_no_bits m : _has_bits_ m = 0 → view_of m = empty_view.
Proof.
  intros Hz. unfold view_of, has_type, has_id, has_service, has_method, has_request, has_response, has_error.
  by rewrite !bits_zero.
Qed.
Lemma Clear_ok m : msg_wf m → msg_wf (Clear m) ∧ view_of (Clear m) = empty_view.
Proof.
  intros Hm. destruct (Clear_fields m Hm) as (Hb & _ & Hi & Ht & He & Hs & Hme & Hr & Hp).
  split; [|by apply view_no_bits].
  split; unfold has_type, has_id, has_service, has_method, has_request, has_response, has_error;
    rewrite ?bits_zero by done; try done; rewrite ?Hb, ?Hi; lia.
Qed.

Lemma edit_ok e m : msg_wf m → edit_valid e = true →
  ∃ m', apply_edit e m = Ok (tt, m') ∧ msg_wf m' ∧ view_of m' = spec_edit e (view_of m).
Proof.
  intros Hm Hv. destruct e as [[v|]|[v|]|[v|]|fld e|]; simpl in *.
  - unfold set_type. rewrite Hv. eexists. split; [reflexivity|].
    split; [by apply wf_put_type|apply view_put_type].
  - eexists. split; [reflexivity|]. split; [by apply wf_clear_type|apply view_clear_type].
  - eexists. split; [reflexivity|]. split; [by apply wf_set_id|apply view_set_id].
  - eexists. split; [reflexivity|]. split; [by apply wf_clear_id|apply view_clear_id].
  - unfold set_error. rewrite Hv. eexists. split; [reflexivity|].
    split; [by apply wf_put_error|apply view_put_error].
  - eexists. split; [reflexivity|]. split; [by apply wf_clear_error|apply view_clear_error].
  - eexists. split; [reflexivity|]. by apply string_edit_ok.
  - eexists. split; [reflexivity|]. by apply Clear_ok.
Qed.

(** *** Merging *)

Definition or_else {A} (new old : option A) : option A :=
  match new with Some a => Some a | None => old end.
Definition merge_view x y : view :=
  mkView (or_else (v_type y) (v_type x)) (or_else (v_id y) (v_id x))
    (or_else (v_service y) (v_service x)) (or_else (v_method y) (v_method x))
    (or_else (v_request y) (v_request x)) (or_else (v_response y) (v_response x))
    (or_else (v_error y) (v_error x)).

Lemma merge_view_empty x : merge_view x empty_view = x.
Proof. by destruct x. Qed.
Lemma merge_empty_view x : merge_view empty_view x = x.
Proof. by destruct x as [[] [] [] [] [] [] []]. Qed.

(** A conditional edit. *)
Lemma when_edit (b : bool) (c : M t unit) e m :
  (b = true → c = apply_edit e) → (b = true → edit_valid e = true) → msg_wf m →
  ∃ m', when b c m = Ok (tt, m') ∧ msg_wf m' ∧
    view_of m' = if b then spec_edit e (view_of m) else view_of m.
Proof.
  intros Hc Hv Hm. destruct b; [|by exists m].
  rewrite Hc by done. apply edit_ok; auto.
Qed.

Lemma with_unknown_ok u m : msg_wf m → msg_wf (with_unknown u m) ∧ view_of (with_unknown u m) = view_of m.
Proof. intros Hm. split; [|done]. destruct Hm. by split. Qed.

Lemma MergeFrom_run from m : msg_wf m → msg_wf from →
  ∃ m', MergeFrom false from m = Ok (tt, m') ∧ msg_wf m' ∧
    view_of m' = merge_view (view_of m) (view_of from).
Proof.
  intros Hm Hf. unfold MergeFrom. setoid_rewrite ret_run_bind.
  destruct (Z.land (_has_bits_ from) 0xff =? 0) eqn:E; cbn [negb when].
  - apply Z.eqb_eq in E. change 0xff with (Z.ones 8) in E. rewrite Z.land_ones in E by lia.
    pose proof (wf_bits _ Hf). change (2 ^ 8) with 256 in E. rewrite Z.mod_small in E by lia.
    rewrite (view_no_bits from E), merge_view_empty.
    eexists. split; [reflexivity|]. destruct (with_unknown_ok
      (ufs_MergeFrom (_unknown_fields_ m) (_unknown_fields_ from)) m Hm). done.
  - pose proof Hf as [_ Hft [Hfi _] _ _ _ _ Hfe].
    destruct (when_edit (has_type from) (set_type (type from)) (EType (Some (type from))) m)
      as (m1 & H1 & W1 & V1); [done|intros Hh; by rewrite Hh in Hft|done|].
    destruct (when_edit (has_id from) (modify (set_id (id from))) (EId (Some (id from))) m1)
      as (m2 & H2 & W2 & V2); [done..|].
    destruct (when_edit (has_service from) (modify (set_service (service from)))
      (EString FService (SSet (service from))) m2) as (m3 & H3 & W3 & V3); [done..|].
    destruct (when_edit (has_method from) (modify (set_method (method from)))
      (EString FMethod (SSet (method from))) m3) as (m4 & H4 & W4 & V4); [done..|].
    destruct (when_edit (has_request from) (modify (set_request (request from)))
      (EString FRequest (SSet (request from))) m4) as (m5 & H5 & W5 & V5); [done..|].
    destruct (when_edit (has_response from) (modify (set_response (response from)))
      (EString FResponse (SSet (response from))) m5) as (m6 & H6 & W6 & V6); [done..|].
    destruct (when_edit (has_error from) (set_error (error from)) (EError (Some (error from))) m6)
      as (m7 & H7 & W7 & V7); [done|intros Hh; by rewrite Hh in Hfe|done|].
    eexists. split.
    { rewrite !bind_assoc. mrun H1. rewrite !bind_assoc. mrun H2. rewrite !bind_assoc. mrun H3.
      rewrite !bind_assoc. mrun H4. rewrite !bind_assoc. mrun H5. rewrite !bind_assoc. mrun H6.
      mrun H7. reflexivity. }
    destruct (with_unknown_ok (ufs_MergeFrom (_unknown_fields_ m7) (_unknown_fields_ from)) m7 W7)
      as [W8 V8]. split; [done|]. rewrite V8, V7, V6, V5, V4, V3, V2, V1.
    cbn [spec_edit spec_string fmap option_fmap option_map upd_string].
    rewrite (wrap_small 64) by done.
    generalize (view_of m). intros [? ? ? ? ? ? ?]. unfold view_of.
    by destruct (has_type from), (has_id from), (has_service from), (has_method from),
      (has_request from), (has_response from), (has_error from).
Qed.
End message_lemmas.
