(* ===== verification/RpcPbParse.v ===== *)
(** * Parsing and serialising [RpcMessage]

    The parser ends on every input and keeps the message well formed; the
    computed size is the number of bytes written; a parsed serialisation has the
    fields of the message.  The last section makes [RpcMessage] an instance of
    the interface that the codec relies on. *)

From S2P Require Import Prelude External ProtoWire RpcPb RpcPbProps.
Import RpcMessage.

(** ** Termination *)

Section parser.
Context {WO : WireOps} {WL : WireLaws WO}.
Implicit Types (m : t) (s : bytes) (f : t → bytes → next).

(** A piece of the parser that puts nothing back and keeps the message well
    formed, except in a failure, which may leave a half-read value behind. *)
Definition sound f : Prop := ∀ m s, msg_wf m →
  match f m s with
  | Continue m' s' => (length s' ≤ length s)%nat ∧ msg_wf m'
  | Done ok m' s' => (length s' ≤ length s)%nat ∧ (ok = true → msg_wf m')
  end.

Lemma expect_sound tag f : sound f → sound (expect tag f).
Proof using WL.
  intros Hf m s Hm. unfold expect. destruct (ExpectTag tag s) as [[] s'] eqn:E.
  - apply expect_tag_true, read_tag_consumes in E as [E _].
    specialize (Hf m s' Hm). destruct (f m s'); split; try apply Hf; lia.
  - apply expect_tag_false in E as ->. done.
Qed.

(** A read followed by a sound piece. *)
Lemma sound_le f m s s' : sound f → msg_wf m → (length s' ≤ length s)%nat →
  match f m s' with
  | Continue m' s'' => (length s'' ≤ length s)%nat ∧ msg_wf m'
  | Done ok m' s'' => (length s'' ≤ length s)%nat ∧ (ok = true → msg_wf m')
  end.
Proof using.
  intros Hf Hm Hs. specialize (Hf m s' Hm). destruct (f m s'); destruct Hf; split; (done || lia).
Qed.

Lemma wf_add_unknown u m : msg_wf m → msg_wf (with_unknown u m).
Proof. apply with_unknown_ok. Qed.

Lemma parse_error_sound : sound parse_error.
Proof using WL.
  intros m s Hm. unfold parse_error. destruct (ReadEnum s) as [[ok v] s1] eqn:E.
  apply read_enum_consumes in E as [E _]. destruct ok; cbn [negb]; [|done].
  set (m1 := if ErrorCode_IsValid v then put_error v m else _).
  assert (msg_wf m1).
  { unfold m1. destruct (ErrorCode_IsValid v) eqn:Hv; [by apply wf_put_error|by apply wf_add_unknown]. }
  destruct (ExpectAtEnd s1) as [[] s2] eqn:E2.
  - apply expect_end_true in E2 as [-> ->]. split; [simpl; lia|done].
  - by apply expect_end_false in E2 as ->.
Qed.

Lemma wf_string fld v m : msg_wf m → msg_wf (apply_string fld (SMutable (λ _, v)) m).
Proof. intros Hm. by apply string_edit_ok. Qed.

Lemma parse_response_sound : sound parse_response.
Proof using WL.
  intros m s Hm. unfold parse_response. destruct (ReadBytes _ s) as [[ok v] s1] eqn:E.
  apply read_bytes_consumes in E. pose proof (wf_string FResponse v m Hm) as Hm1.
  destruct ok; cbn [negb]; [|done]. apply sound_le; [|done|done].
  apply expect_sound, parse_error_sound.
Qed.
Lemma parse_request_sound : sound parse_request.
Proof using WL.
  intros m s Hm. unfold parse_request. destruct (ReadBytes _ s) as [[ok v] s1] eqn:E.
  apply read_bytes_consumes in E. pose proof (wf_string FRequest v m Hm) as Hm1.
  destruct ok; cbn [negb]; [|done]. apply sound_le; [|done|done].
  apply expect_sound, parse_response_sound.
Qed.
Lemma parse_method_sound : sound parse_method.
Proof using WL.
  intros m s Hm. unfold parse_method. destruct (ReadString _ s) as [[ok v] s1] eqn:E.
  apply read_string_consumes in E. pose proof (wf_string FMethod v m Hm) as Hm1.
  destruct ok; cbn [negb]; [|done]. apply sound_le; [|done|done].
  apply expect_sound, parse_request_sound.
Qed.
Lemma parse_service_sound : sound parse_service.
Proof using WL.
  intros m s Hm. unfold parse_service. destruct (ReadString _ s) as [[ok v] s1] eqn:E.
  apply read_string_consumes in E. pose proof (wf_string FService v m Hm) as Hm1.
  destruct ok; cbn [negb]; [|done]. apply sound_le; [|done|done].
  apply expect_sound, parse_method_sound.
Qed.
Lemma parse_id_sound : sound parse_id.
Proof using WL.
  intros m s Hm. unfold parse_id. destruct (ReadFixed64 (id_ m) s) as [[ok v] s1] eqn:E.
  apply read_fixed64_consumes in E as [E Hv]. specialize (Hv (proj1 (wf_id _ Hm))).
  assert (Hm1 : msg_wf (set_has_id (with_id v m))).
  { pose proof (wf_set_id v m Hm) as H. unfold set_id in H. by rewrite (wrap_small 64) in H. }
  destruct ok; cbn [negb].
  - apply sound_le; [|done|done]. apply expect_sound, parse_service_sound.
  - done.
Qed.
Lemma parse_type_sound : sound parse_type.
Proof using WL.
  intros m s Hm. unfold parse_type. destruct (ReadEnum s) as [[ok v] s1] eqn:E.
  apply read_enum_consumes in E as [E _]. destruct ok; cbn [negb]; [|done].
  apply sound_le; [apply expect_sound, parse_id_sound| |done].
  destruct (MessageType_IsValid v) eqn:Hv; [by apply wf_put_type|by apply wf_add_unknown].
Qed.
Lemma handle_unusual_sound tag : sound (handle_unusual tag).
Proof using WL.
  intros m s Hm. unfold handle_unusual. case_decide; [done|].
  destruct (SkipField _ _ s) as [[ok u] s1] eqn:E. apply skip_consumes in E.
  destruct ok; cbn [negb]; split; try done; by apply wf_add_unknown.
Qed.

(** An iteration that goes back to the loop has consumed something. *)
Lemma parse_switch_sound m s : msg_wf m →
  match parse_switch m s with
  | Continue m' s' => (length s' < length s)%nat ∧ msg_wf m'
  | Done ok m' s' => (length s' ≤ length s)%nat ∧ (ok = true → msg_wf m')
  end.
Proof using WL.
  intros Hm. unfold parse_switch.
  destruct (ReadTagWithCutoff 127 s) as [[tag b] s1] eqn:E.
  apply read_tag_consumes in E as [Hle Hlt].
  assert (Hgen : ∀ f, sound f → (tag ≠ 0 ∨ ∀ m' s', f m s1 ≠ Continue m' s') →
    match f m s1 with
    | Continue m' s' => (length s' < length s)%nat ∧ msg_wf m'
    | Done ok m' s' => (length s' ≤ length s)%nat ∧ (ok = true → msg_wf m')
    end).
  { intros f Hf Ht. specialize (Hf m s1 Hm). destruct (f m s1) as [m' s'|ok m' s'].
    - destruct Ht as [Ht|Ht]; [|by destruct (Ht m' s')]. specialize (Hlt Ht). destruct Hf. split; [lia|done].
    - destruct Hf. split; [lia|done]. }
  assert (Hu : match handle_unusual tag m s1 with
    | Continue m' s' => (length s' < length s)%nat ∧ msg_wf m'
    | Done ok m' s' => (length s' ≤ length s)%nat ∧ (ok = true → msg_wf m') end).
  { apply Hgen; [apply handle_unusual_sound|]. destruct (decide (tag = 0)) as [->|]; [right|by left].
    intros m' s'. unfold handle_unusual. by rewrite decide_True by tauto. }
  destruct b; cbn [negb]; [|exact Hu].
  destruct (GetTagFieldNumber tag) as [|[[[?|?|]|[?|?|]|]|[[?|?|]|[?|?|]|]|]|?]; try exact Hu;
    (case_decide as Ht; [|exact Hu]); apply Hgen;
    first [apply parse_type_sound | apply parse_id_sound | apply parse_service_sound
          | apply parse_method_sound | apply parse_request_sound | apply parse_response_sound
          | apply parse_error_sound | left; lia].
Qed.

Lemma parse_loop_total n m s : msg_wf m → (length s < n)%nat →
  ∃ ok m' s', parse_loop n m s = Some (ok, m', s') ∧ (ok = true → msg_wf m').
Proof using WL.
  revert m s. induction n as [|n IH]; intros m s Hm Hn; [lia|]. cbn [parse_loop].
  pose proof (parse_switch_sound m s Hm) as Hs.
  destruct (parse_switch m s) as [m' s'|ok m' s']; destruct Hs as [Hl Hw].
  - apply IH; [done|lia].
  - by exists ok, m', s'.
Qed.

Lemma parse_loop_fuel n n' m s : msg_wf m → (length s < n)%nat → (length s < n')%nat →
  parse_loop n m s = parse_loop n' m s.
Proof using WL.
  revert n' m s. induction n as [|n IH]; intros [|n'] m s Hm Hn Hn'; [lia..|]. cbn [parse_loop].
  pose proof (parse_switch_sound m s Hm) as Hs.
  destruct (parse_switch m s) as [m' s'|ok m' s']; [|done]. destruct Hs as [Hl Hw].
  apply IH; [done|lia..].
Qed.

(** ** The equations of the parser *)

Definition resume (x : next) : option (bool * t * bytes) :=
  match x with
  | Continue m s => MergePartialFromCodedStream m s
  | Done ok m s => Some (ok, m, s)
  end.

Lemma parse_step m s : msg_wf m → MergePartialFromCodedStream m s = resume (parse_switch m s).
Proof using WL.
  intros Hm. unfold MergePartialFromCodedStream at 1. cbn [parse_loop].
  pose proof (parse_switch_sound m s Hm) as Hs.
  destruct (parse_switch m s) as [m' s'|ok m' s']; [|done]. destruct Hs as [Hl Hw].
  apply parse_loop_fuel; [done|lia..].
Qed.

(** A jump over the switch goes where the loop would have gone. *)
Lemma expect_resume tag f m s : msg_wf m →
  (∀ s1, ReadTagWithCutoff 127 s = (tag, true, s1) → parse_switch m s = f m s1) →
  resume (expect tag f m s) = MergePartialFromCodedStream m s.
Proof using WL.
  intros Hm Hf. unfold expect. destruct (ExpectTag tag s) as [[] s1] eqn:E.
  - apply expect_tag_true in E. by rewrite parse_step, (Hf _ E).
  - by apply expect_tag_false in E as ->.
Qed.

Lemma parse_end m : msg_wf m → MergePartialFromCodedStream m [] = Some (true, m, []).
Proof using WL.
  intros Hm. rewrite parse_step by done. unfold parse_switch. rewrite read_tag_end. cbn [negb].
  unfold handle_unusual. by rewrite decide_True by tauto.
Qed.
End parser.

(** ** Field by field *)

Section fields.
Context {WO : WireOps} {WL : WireLaws WO}.
Implicit Types (m : t) (s k : bytes).

Ltac switch f t c :=
  let H := fresh "H" in let T := fresh "T" in intros H; unfold parse_switch; rewrite H; cbn [negb];
  pose proof (tag_field f t ltac:(lia) ltac:(lia)) as T; change (8 * f + t) with c in T;
  rewrite T; by rewrite decide_True.

Lemma switch_type m s s1 : ReadTagWithCutoff 127 s = (8, true, s1) → parse_switch m s = parse_type m s1.
Proof using WL. switch 1 0 8. Qed.
Lemma switch_id m s s1 : ReadTagWithCutoff 127 s = (17, true, s1) → parse_switch m s = parse_id m s1.
Proof using WL. switch 2 1 17. Qed.
Lemma switch_service m s s1 :
  ReadTagWithCutoff 127 s = (26, true, s1) → parse_switch m s = parse_service m s1.
Proof using WL. switch 3 2 26. Qed.
Lemma switch_method m s s1 :
  ReadTagWithCutoff 127 s = (34, true, s1) → parse_switch m s = parse_method m s1.
Proof using WL. switch 4 2 34. Qed.
Lemma switch_request m s s1 :
  ReadTagWithCutoff 127 s = (42, true, s1) → parse_switch m s = parse_request m s1.
Proof using WL. switch 5 2 42. Qed.
Lemma switch_response m s s1 :
  ReadTagWithCutoff 127 s = (50, true, s1) → parse_switch m s = parse_response m s1.
Proof using WL. switch 6 2 50. Qed.
Lemma switch_error m s s1 :
  ReadTagWithCutoff 127 s = (56, true, s1) → parse_switch m s = parse_error m s1.
Proof using WL. switch 7 0 56. Qed.

Lemma MessageType_range v : MessageType_IsValid v = true → 0 ≤ v < 2 ^ 31.
Proof using. destruct v as [|[[p|p|]|[p|p|]|]|p]; try done; intros _; int_lia. Qed.
Lemma ErrorCode_range v : ErrorCode_IsValid v = true → 0 ≤ v < 2 ^ 31.
Proof using. destruct v as [|[[[p|p|]|[p|p|]|]|[[p|p|]|[p|p|]|]|]|p]; try done; intros _; int_lia. Qed.

Lemma field_type v m k : msg_wf m → MessageType_IsValid v = true →
  MergePartialFromCodedStream m (WriteEnumToArray 1 v ++ k) =
  MergePartialFromCodedStream (put_type v m) k.
Proof using WL.
  intros Hm Hv. destruct (enum_law 1 v k) as (s & Ht & Hr); [lia|by apply MessageType_range|].
  rewrite parse_step, (switch_type _ _ _ Ht) by done. unfold parse_type. rewrite Hr. cbn [negb].
  rewrite Hv. apply expect_resume; [by apply wf_put_type|apply switch_id].
Qed.
Lemma field_id v m k : msg_wf m → 0 ≤ v < 2 ^ 64 →
  MergePartialFromCodedStream m (WriteFixed64ToArray 2 v ++ k) =
  MergePartialFromCodedStream (set_id v m) k.
Proof using WL.
  intros Hm Hv. destruct (fixed64_law 2 v (id_ m) k) as (s & Ht & Hr); [lia|done|].
  rewrite parse_step, (switch_id _ _ _ Ht) by done. unfold parse_id. rewrite Hr. cbn [negb].
  pose proof (wf_set_id v m Hm) as Hs. unfold set_id in *. rewrite (wrap_small 64) in * by done.
  apply expect_resume; [exact Hs|apply switch_service].
Qed.
Lemma field_service v m k : msg_wf m → lenZ v < 2 ^ 31 →
  MergePartialFromCodedStream m (WriteStringToArray 3 v ++ k) =
  MergePartialFromCodedStream (set_service v m) k.
Proof using WL.
  intros Hm Hv. destruct (string_law 3 v (slot_mutable (service_ m)) k) as (s & Ht & Hr); [lia|done|].
  rewrite parse_step, (switch_service _ _ _ Ht) by done. unfold parse_service. rewrite Hr. cbn [negb].
  apply expect_resume; [by apply (wf_string FService v)|apply switch_method].
Qed.
Lemma field_method v m k : msg_wf m → lenZ v < 2 ^ 31 →
  MergePartialFromCodedStream m (WriteStringToArray 4 v ++ k) =
  MergePartialFromCodedStream (set_method v m) k.
Proof using WL.
  intros Hm Hv. destruct (string_law 4 v (slot_mutable (method_ m)) k) as (s & Ht & Hr); [lia|done|].
  rewrite parse_step, (switch_method _ _ _ Ht) by done. unfold parse_method. rewrite Hr. cbn [negb].
  apply expect_resume; [by apply (wf_string FMethod v)|apply switch_request].
Qed.
Lemma field_request v m k : msg_wf m → lenZ v < 2 ^ 31 →
  MergePartialFromCodedStream m (WriteBytesToArray 5 v ++ k) =
  MergePartialFromCodedStream (set_request v m) k.
Proof using WL.
  intros Hm Hv. destruct (bytes_law 5 v (slot_mutable (request_ m)) k) as (s & Ht & Hr); [lia|done|].
  rewrite parse_step, (switch_request _ _ _ Ht) by done. unfold parse_request. rewrite Hr. cbn [negb].
  apply expect_resume; [by apply (wf_string FRequest v)|apply switch_response].
Qed.
Lemma field_response v m k : msg_wf m → lenZ v < 2 ^ 31 →
  MergePartialFromCodedStream m (WriteBytesToArray 6 v ++ k) =
  MergePartialFromCodedStream (set_response v m) k.
Proof using WL.
  intros Hm Hv. destruct (bytes_law 6 v (slot_mutable (response_ m)) k) as (s & Ht & Hr); [lia|done|].
  rewrite parse_step, (switch_response _ _ _ Ht) by done. unfold parse_response. rewrite Hr. cbn [negb].
  apply expect_resume; [by apply (wf_string FResponse v)|apply switch_error].
Qed.
Lemma field_error v m k : msg_wf m → ErrorCode_IsValid v = true →
  MergePartialFromCodedStream m (WriteEnumToArray 7 v ++ k) =
  MergePartialFromCodedStream (put_error v m) k.
Proof using WL.
  intros Hm Hv. destruct (enum_law 7 v k) as (s & Ht & Hr); [lia|by apply ErrorCode_range|].
  rewrite parse_step, (switch_error _ _ _ Ht) by done. unfold parse_error. rewrite Hr. cbn [negb].
  rewrite Hv. pose proof (wf_put_error v m Hv Hm) as Hw.
  destruct (ExpectAtEnd k) as [[] s2] eqn:E; simpl resume.
  - apply expect_end_true in E as [-> ->]. by rewrite parse_end.
  - by apply expect_end_false in E as ->.
Qed.

(** A field that is written only when it is present. *)
Lemma field_when (b : bool) (f : t → t) w m k :
  (b = true → MergePartialFromCodedStream m (w ++ k) = MergePartialFromCodedStream (f m) k) →
  MergePartialFromCodedStream m ((if b then w else []) ++ k) =
  MergePartialFromCodedStream (if b then f m else m) k.
Proof using. intros H. destruct b; [by apply H|done]. Qed.
End fields.

(** ** Round trip and size *)

Section roundtrip.
Context {WO : WireOps} {WL : WireLaws WO}.
Implicit Types (m : t).

(** The strings of a message are not longer than its serialisation. *)
Lemma serialized_strings m :
  (has_service m = true → lenZ (service m) ≤ lenZ (SerializeWithCachedSizesToArray m)) ∧
  (has_method m = true → lenZ (method m) ≤ lenZ (SerializeWithCachedSizesToArray m)) ∧
  (has_request m = true → lenZ (request m) ≤ lenZ (SerializeWithCachedSizesToArray m)) ∧
  (has_response m = true → lenZ (response m) ≤ lenZ (SerializeWithCachedSizesToArray m)).
Proof using WL.
  unfold SerializeWithCachedSizesToArray. rewrite !length_app.
  pose proof (string_longer 3 (service m)). pose proof (string_longer 4 (method m)).
  pose proof (bytes_longer 5 (request m)). pose proof (bytes_longer 6 (response m)).
  split_and!; intros ->; lia.
Qed.

Lemma wf_if (b : bool) (m' : t) m : (b = true → msg_wf m') → msg_wf m → msg_wf (if b then m' else m).
Proof using. destruct b; auto. Qed.

Lemma parse_serialize_merge m m0 :
  msg_wf m → msg_wf m0 → ufs_empty (_unknown_fields_ m0) = true →
  lenZ (SerializeWithCachedSizesToArray m0) < 2 ^ 31 →
  ∃ m', MergePartialFromCodedStream m (SerializeWithCachedSizesToArray m0) = Some (true, m', []) ∧
    msg_wf m' ∧ view_of m' = merge_view (view_of m) (view_of m0) ∧
    _unknown_fields_ m' = _unknown_fields_ m.
Proof using WL.
  intros Hm H0 Hu Hlen. pose proof (serialized_strings m0) as (Ls & Lm & Lr & Lp).
  pose proof H0 as [_ Ht [Hi _] _ _ _ _ He].
  set (m1 := if has_type m0 then put_type (type m0) m else m).
  set (m2 := if has_id m0 then set_id (id m0) m1 else m1).
  set (m3 := if has_service m0 then set_service (service m0) m2 else m2).
  set (m4 := if has_method m0 then set_method (method m0) m3 else m3).
  set (m5 := if has_request m0 then set_request (request m0) m4 else m4).
  set (m6 := if has_response m0 then set_response (response m0) m5 else m5).
  set (m7 := if has_error m0 then put_error (error m0) m6 else m6).
  assert (W1 : msg_wf m1) by (apply wf_if; [intros E; rewrite E in Ht; by apply wf_put_type|done]).
  assert (W2 : msg_wf m2) by (apply wf_if; [intros _; by apply wf_set_id|done]).
  assert (W3 : msg_wf m3) by (apply wf_if; [intros _; by apply (string_edit_ok FService (SSet _))|done]).
  assert (W4 : msg_wf m4) by (apply wf_if; [intros _; by apply (string_edit_ok FMethod (SSet _))|done]).
  assert (W5 : msg_wf m5) by (apply wf_if; [intros _; by apply (string_edit_ok FRequest (SSet _))|done]).
  assert (W6 : msg_wf m6) by (apply wf_if; [intros _; by apply (string_edit_ok FResponse (SSet _))|done]).
  assert (W7 : msg_wf m7) by (apply wf_if; [intros E; rewrite E in He; by apply wf_put_error|done]).
  exists m7. split; [|split; [done|split]].
  - unfold SerializeWithCachedSizesToArray. rewrite Hu. cbn [negb].
    rewrite (field_when _ (put_type (type m0)));
      [|intros E; rewrite E in Ht; by apply field_type]. fold m1.
    rewrite (field_when _ (set_id (id m0))) by (intros _; by apply field_id). fold m2.
    rewrite (field_when _ (set_service (service m0)))
      by (intros E; apply field_service; [done|specialize (Ls E); lia]). fold m3.
    rewrite (field_when _ (set_method (method m0)))
      by (intros E; apply field_method; [done|specialize (Lm E); lia]). fold m4.
    rewrite (field_when _ (set_request (request m0)))
      by (intros E; apply field_request; [done|specialize (Lr E); lia]). fold m5.
    rewrite (field_when _ (set_response (response m0)))
      by (intros E; apply field_response; [done|specialize (Lp E); lia]). fold m6.
    rewrite (field_when _ (put_error (error m0)));
      [|intros E; rewrite E in He; by apply field_error]. fold m7.
    by apply parse_end.
  - assert (Hv : ∀ (b : bool) f (x : t), view_of (if b then f x else x) = if b then view_of (f x) else view_of x)
      by (intros [] f x; done).
    unfold m7, m6, m5, m4, m3, m2, m1.
    rewrite Hv, view_put_error, Hv, view_set_response, Hv, view_set_request, Hv, view_set_method,
      Hv, view_set_service, Hv, view_set_id, Hv, view_put_type.
    rewrite (wrap_small 64) by done. generalize (view_of m). intros [? ? ? ? ? ? ?]. unfold view_of.
    by destruct (has_type m0), (has_id m0), (has_service m0), (has_method m0), (has_request m0),
      (has_response m0), (has_error m0).
  - unfold m7, m6, m5, m4, m3, m2, m1.
    by destruct (has_type m0), (has_id m0), (has_service m0), (has_method m0), (has_request m0),
      (has_response m0), (has_error m0).
Qed.

Lemma ByteSize_length m :
  msg_wf m → lenZ (SerializeWithCachedSizesToArray m) < 2 ^ 31 →
  (ByteSize m).1 = lenZ (SerializeWithCachedSizesToArray m).
Proof using WL.
  intros Hm Hlen. pose proof (serialized_strings m) as (Ls & Lm & Lr & Lp).
  pose proof Hm as [Hb Ht [Hi _] _ _ _ _ He].
  assert (Hsum : (if has_type m then 1 + EnumSize (type m) else 0) +
      (if has_id m then 1 + 8 else 0) +
      (if has_service m then 1 + StringSize (service m) else 0) +
      (if has_method m then 1 + StringSize (method m) else 0) +
      (if has_request m then 1 + BytesSize (request m) else 0) +
      (if has_response m then 1 + BytesSize (response m) else 0) +
      (if has_error m then 1 + EnumSize (error m) else 0) +
      (if negb (ufs_empty (_unknown_fields_ m)) then ComputeUnknownFieldsSize (_unknown_fields_ m) else 0)
      = lenZ (SerializeWithCachedSizesToArray m)).
  { unfold SerializeWithCachedSizesToArray in *. rewrite !length_app in *.
    rewrite <- unknown_size.
    assert (Hif : ∀ (b : bool) (l : bytes) n, (b = true → lenZ l = n) →
      (if b then n else 0) = lenZ (if b then l else [])) by (intros [] l n H; [by rewrite H|done]).
    rewrite (Hif _ (WriteEnumToArray 1 (type m))); [|intros E; rewrite E in Ht;
      apply enum_size; [lia|by apply MessageType_range]].
    rewrite (Hif _ (WriteFixed64ToArray 2 (id m))) by (intros; by apply fixed64_size).
    rewrite (Hif _ (WriteStringToArray 3 (service m)))
      by (intros E; apply string_size; [lia|specialize (Ls E); lia]).
    rewrite (Hif _ (WriteStringToArray 4 (method m)))
      by (intros E; apply string_size; [lia|specialize (Lm E); lia]).
    rewrite (Hif _ (WriteBytesToArray 5 (request m)))
      by (intros E; apply bytes_size; [lia|specialize (Lr E); lia]).
    rewrite (Hif _ (WriteBytesToArray 6 (response m)))
      by (intros E; apply bytes_size; [lia|specialize (Lp E); lia]).
    rewrite (Hif _ (WriteEnumToArray 7 (error m))); [|intros E; rewrite E in He;
      apply enum_size; [lia|by apply ErrorCode_range]].
    rewrite (Hif (negb _) (SerializeUnknownFieldsToArray (_unknown_fields_ m))) by done. lia. }
  unfold ByteSize. cbn [fst].
  destruct (Z.land (_has_bits_ m) 0xff =? 0) eqn:E; cbn [negb].
  - apply Z.eqb_eq in E. change 0xff with (Z.ones 8) in E. rewrite Z.land_ones in E by lia.
    change (2 ^ 8) with 256 in E. rewrite Z.mod_small in E by lia.
    unfold has_type, has_id, has_service, has_method, has_request, has_response, has_error in Hsum.
    rewrite !bits_zero in Hsum by done. rewrite swrap_small; int_lia.
  - rewrite Hsum. apply (swrap_small 32); int_lia.
Qed.
End roundtrip.

(** ** [RpcMessage] as a message of the codec *)

(** [MessageLite::ParseFromArray] of the library: it clears the message, merges
    the input into it, and succeeds when the parser does and has read all. *)
Class ParseOps {WO : WireOps} := { ParseFromArray : t → bytes → bool * t }.
Class ParseLaws {WO : WireOps} (PO : ParseOps) : Prop := {
  parse_from_array m s m' :
    MergePartialFromCodedStream (Clear m) s = Some (true, m', []) → ParseFromArray m s = (true, m')
}.

Section instance.
Context {WO : WireOps} {WL : WireLaws WO} {PO : ParseOps} {PL : ParseLaws PO}.

#[export] Instance rpc_proto : ProtoOps t := {|
  External.New := init;
  External.IsInitialized := IsInitialized;
  External.ByteSize := λ m, (ByteSize m).1;
  External.SerializeWithCachedSizesToArray := SerializeWithCachedSizesToArray;
  External.ParseFromArray := ParseFromArray
|}.

(** Messages built through the interface, with no fields of other versions. *)
Definition rpc_ok (m : t) : Prop := msg_wf m ∧ ufs_empty (_unknown_fields_ m) = true.
Definition rpc_same (m m' : t) : Prop := view_of m' = view_of m ∧ msg_wf m'.

#[export] Instance rpc_proto_laws : ProtoLaws t rpc_proto.
Proof.
  refine {| message_ok := rpc_ok; same_message := rpc_same |}.
  - intros m [Hm _] Hl. by apply ByteSize_length.
  - intros m [Hm Hu] _ Hl.
    destruct (parse_serialize_merge init m init_wf Hm Hu Hl) as (m' & Hp & Hw & Hv & _).
    exists m'. split; [|split; [|done]].
    + by apply (parse_from_array init).
    + rewrite Hv. by rewrite (view_no_bits init), merge_empty_view.
Defined.
End instance.

(** ** Properties *)

Section properties.
Context {WO : WireOps}.
Implicit Types (m : t).

Fixpoint run_edits (es : list edit) : M t unit :=
  match es with [] => mret tt | e :: es => _ ← apply_edit e; run_edits es end.

(** C29: every sequence of accessor calls on a new message that respects the
    assertions of [set_type] and [set_error] succeeds, and a reader sees of each
    field exactly what the calls left there: the bit field, the shared empty
    string and the slots that keep a cleared string are not observable. *)
Theorem edits_visible (es : list edit) :
  Forall (λ e, edit_valid e = true) es →
  ∃ m, run_edits es init = Ok (tt, m) ∧ msg_wf m ∧
    view_of m = foldl (λ x e, spec_edit e x) empty_view es.
Proof.
  assert (H : ∀ m, msg_wf m → Forall (λ e, edit_valid e = true) es →
    ∃ m', run_edits es m = Ok (tt, m') ∧ msg_wf m' ∧
      view_of m' = foldl (λ x e, spec_edit e x) (view_of m) es).
  { induction es as [|e es IH]; intros m Hm Hv; [by exists m|].
    apply Forall_cons in Hv as [He Hes].
    destruct (edit_ok e m Hm He) as (m1 & H1 & W1 & V1).
    destruct (IH m1 W1 Hes) as (m2 & H2 & W2 & V2).
    exists m2. cbn [run_edits foldl]. rewrite <- V1. by mrun H1. }
  intros Hes. destruct (H init init_wf Hes) as (m & ? & ? & Hv). exists m.
  by rewrite Hv, (view_no_bits init).
Qed.

(** [MergeFrom] another message gives each field present there the value it
    has there and keeps the others; [CopyFrom] makes the fields the same. *)
Theorem merge_and_copy m from :
  msg_wf m → msg_wf from →
  (∃ m', MergeFrom false from m = Ok (tt, m') ∧ msg_wf m' ∧
     view_of m' = merge_view (view_of m) (view_of from)) ∧
  (∃ m', CopyFrom false from m = Ok (tt, m') ∧ msg_wf m' ∧ view_of m' = view_of from).
Proof.
  intros Hm Hf. split; [by apply MergeFrom_run|].
  destruct (Clear_ok m Hm) as [Hw Hv].
  destruct (MergeFrom_run from (Clear m) Hw Hf) as (m' & Hr & Hw' & Hv').
  exists m'. rewrite Hv', Hv, merge_empty_view. split; [|done].
  unfold CopyFrom. mrun. exact Hr.
Qed.

Context {WL : WireLaws WO}.

(** C31: the parser ends on every input, whatever the bytes: one iteration per
    byte is enough, and unless it fails it leaves the message well formed. *)
Theorem parse_always_ends m (s : bytes) :
  msg_wf m →
  ∃ ok m' rest, MergePartialFromCodedStream m s = Some (ok, m', rest) ∧ (ok = true → msg_wf m').
Proof using WL. intros Hm. by apply parse_loop_total; [|lia]. Qed.

(** C30: parsing what [SerializeWithCachedSizesToArray] wrote reads all of it and
    does to the message what merging the written one does; on a new message it
    gives the fields of the written one. *)
Theorem serialized_message_parses m from :
  msg_wf m → msg_wf from → ufs_empty (_unknown_fields_ from) = true →
  lenZ (SerializeWithCachedSizesToArray from) < 2 ^ 31 →
  ∃ m', MergePartialFromCodedStream m (SerializeWithCachedSizesToArray from) = Some (true, m', []) ∧
    msg_wf m' ∧ view_of m' = merge_view (view_of m) (view_of from).
Proof using WL.
  intros Hm Hf Hu Hl. destruct (parse_serialize_merge m from Hm Hf Hu Hl) as (m' & ? & ? & ? & _).
  by exists m'.
Qed.

(** [ByteSize] is the number of bytes the serialiser writes, unknown fields
    included, as long as that number fits an [int]. *)
Theorem ByteSize_is_length m :
  msg_wf m → lenZ (SerializeWithCachedSizesToArray m) < 2 ^ 31 →
  (ByteSize m).1 = lenZ (SerializeWithCachedSizesToArray m).
Proof using WL. apply ByteSize_length. Qed.
End properties.

(** ** A concrete message *)

Module demo_message.
#[local] Existing Instances base128.wire base128.wire_laws.

Definition edits : list edit :=
  [EType (Some REQUEST); EId (Some 7); EString FService (SSet (bytes_of_string "Echo"));
   EString FMethod (SSet (bytes_of_string "ping")); EString FRequest (SMutable (λ _, [Byte.x00]));
   EString FMethod SClear].
Definition message : t := match run_edits edits init with Ok (_, m) => m | _ => init end.

Lemma edits_ok : Forall (λ e, edit_valid e = true) edits.
Proof. by repeat constructor. Qed.
Lemma message_wf : msg_wf message.
Proof.
  assert (H : ∃ m, run_edits edits init = Ok (tt, m) ∧ msg_wf m).
  { destruct (edits_visible edits edits_ok) as (m & ? & ? & _). by exists m. }
  destruct H as (m & Hr & Hw). unfold message. by rewrite Hr.
Qed.

#[export] Instance parse_ops : ParseOps := {
  ParseFromArray m s :=
    match MergePartialFromCodedStream (Clear m) s with
    | Some (ok, m', rest) => (ok && bool_decide (rest = []), m')
    | None => (false, m)
    end
}.
#[export] Instance parse_laws : ParseLaws parse_ops.
Proof. split. intros m s m' H. simpl. by rewrite H. Qed.

Lemma edits_visible_witness :
  ∃ m, run_edits edits init = Ok (tt, m) ∧ msg_wf m ∧
    view_of m = foldl (λ x e, spec_edit e x) empty_view edits.
Proof. apply edits_visible. by repeat constructor. Defined.

Lemma merge_and_copy_witness :
  (∃ m', MergeFrom false message init = Ok (tt, m') ∧ msg_wf m' ∧
     view_of m' = merge_view (view_of init) (view_of message)) ∧
  (∃ m', CopyFrom false message init = Ok (tt, m') ∧ msg_wf m' ∧ view_of m' = view_of message).
Proof. apply merge_and_copy; [apply init_wf|apply message_wf]. Defined.

Lemma parse_always_ends_witness :
  ∃ ok m' rest, MergePartialFromCodedStream message (bytes_of_string "garbage") = Some (ok, m', rest) ∧
    (ok = true → msg_wf m').
Proof. apply parse_always_ends, message_wf. Defined.

Lemma serialized_message_parses_witness :
  ∃ m', MergePartialFromCodedStream init (SerializeWithCachedSizesToArray message) = Some (true, m', []) ∧
    msg_wf m' ∧ view_of m' = merge_view (view_of init) (view_of message).
Proof. apply serialized_message_parses; [apply init_wf|apply message_wf|done|done]. Defined.

Lemma ByteSize_is_length_witness :
  (ByteSize message).1 = lenZ (SerializeWithCachedSizesToArray message).
Proof. by apply ByteSize_is_length; [apply message_wf|]. Defined.
End demo_message.
