(* ===== verification/RpcStream.v ===== *)
(** * The other entry points of [class RpcMessage] (src/rpc.pb.cc)

    The serialiser to a stream, and merging and copying from a message whose type
    is only known at run time. *)

From S2P Require Import Prelude ProtoWire RpcPb.

(** The output side of the protobuf runtime: writing a field to a
    [CodedOutputStream] appends the encoding that the array functions produce. *)
Class StreamOps (Out : Type) := {
  WriteEnum : Z → Z → Out → Out;
  WriteFixed64 : Z → Z → Out → Out;
  WriteStringMaybeAliased : Z → bytes → Out → Out;
  WriteBytesMaybeAliased : Z → bytes → Out → Out;
  SerializeUnknownFields : ∀ {WO : WireOps}, UnknownFieldSet → Out → Out;
  written : Out → bytes
}.

Class StreamLaws (Out : Type) {SO : StreamOps Out} {WO : WireOps} : Prop := {
  WriteEnum_appends n v o : written (WriteEnum n v o) = written o ++ WriteEnumToArray n v;
  WriteFixed64_appends n v o :
    written (WriteFixed64 n v o) = written o ++ WriteFixed64ToArray n v;
  WriteString_appends n v o :
    written (WriteStringMaybeAliased n v o) = written o ++ WriteStringToArray n v;
  WriteBytes_appends n v o :
    written (WriteBytesMaybeAliased n v o) = written o ++ WriteBytesToArray n v;
  SerializeUnknown_appends u o :
    written (SerializeUnknownFields u o) = written o ++ SerializeUnknownFieldsToArray u
}.

Module RpcStream.
Import RpcMessage.

Section stream.
Context {WO : WireOps} {Out : Type} {SO : StreamOps Out}.

(** [if (has) output = w(output);] *)
Definition write_if (has : bool) (w : Out → Out) (output : Out) : Out :=
  if has then w output else output.

Definition SerializeWithCachedSizes (m : t) (output : Out) : Out :=
  let output := write_if (has_type m) (WriteEnum 1 (type m)) output in
  let output := write_if (has_id m) (WriteFixed64 2 (id m)) output in
  let output := write_if (has_service m) (WriteStringMaybeAliased 3 (service m)) output in
  let output := write_if (has_method m) (WriteStringMaybeAliased 4 (method m)) output in
  let output := write_if (has_request m) (WriteBytesMaybeAliased 5 (request m)) output in
  let output := write_if (has_response m) (WriteBytesMaybeAliased 6 (response m)) output in
  let output := write_if (has_error m) (WriteEnum 7 (error m)) output in
  write_if (negb (ufs_empty (_unknown_fields_ m)))
    (SerializeUnknownFields (_unknown_fields_ m)) output.

(** A [const Message&]: an [RpcMessage] or a message of another type [X]. *)
Context {X : Type} (ReflectionOps_Merge : X → M t unit).

Definition MergeFrom_Message (same : bool) (from : t + X) : M t unit :=
  _ ← (if same then raise FatalCheck else mret tt);
  match from with
  | inl source => MergeFrom same source
  | inr other => ReflectionOps_Merge other
  end.

Definition CopyFrom_Message (same : bool) (from : t + X) : M t unit :=
  if same then mret tt else
  _ ← modify Clear;
  MergeFrom_Message same from.

Lemma write_if_appends has w output (enc : bytes) :
  (has = true → written (w output) = written output ++ enc) →
  written (write_if has w output) = written output ++ (if has then enc else []).
Proof. destruct has; cbn; [auto|]. by rewrite app_nil_r. Qed.

(** A message written to a stream and a message written to an array are the
    same bytes: the stream holds what it held before and then the array's. *)
Theorem serializers_agree (SL : StreamLaws Out) m output :
  written (SerializeWithCachedSizes m output) =
  written output ++ SerializeWithCachedSizesToArray m.
Proof.
  unfold SerializeWithCachedSizes, SerializeWithCachedSizesToArray. cbn zeta.
  do 8 (erewrite write_if_appends;
    [|intros _; first [apply WriteEnum_appends | apply WriteFixed64_appends
        | apply WriteString_appends | apply WriteBytes_appends | apply SerializeUnknown_appends]]).
  by rewrite <- !app_assoc.
Qed.

(** From a message of the class itself, the general functions are the special
    ones. *)
Lemma merge_from_message same from m :
  MergeFrom_Message same (inl from) m = MergeFrom same from m.
Proof. by destruct same. Qed.

Lemma copy_from_message same from m :
  CopyFrom_Message same (inl from) m = CopyFrom same from m.
Proof. by destruct same. Qed.
End stream.

(** A stream that is the list of the bytes written so far. *)
#[local] Existing Instances base128.wire base128.wire_laws.
#[local] Instance list_stream : StreamOps bytes := {
  WriteEnum n v o := o ++ WriteEnumToArray n v;
  WriteFixed64 n v o := o ++ WriteFixed64ToArray n v;
  WriteStringMaybeAliased n v o := o ++ WriteStringToArray n v;
  WriteBytesMaybeAliased n v o := o ++ WriteBytesToArray n v;
  SerializeUnknownFields _ u o := o ++ SerializeUnknownFieldsToArray u;
  written o := o
}.
#[local] Instance list_stream_laws : StreamLaws bytes.
Proof. by constructor. Qed.

Lemma serializers_agree_witness :
  written (SerializeWithCachedSizes (set_id 7 init) [Byte.x00]) =
  [Byte.x00] ++ SerializeWithCachedSizesToArray (set_id 7 init) ∧
  length (SerializeWithCachedSizes (set_id 7 init) [Byte.x00]) = 10%nat.
Proof. split; [|reflexivity]. exact (serializers_agree list_stream_laws (set_id 7 init) [Byte.x00]). Defined.
End RpcStream.
