(* ===== verification/RpcStringsProps.v ===== *)
(** * Ownership of the strings of a message, proved

    The heap of [RpcStrings.v] refines the values of [RpcPb.v]: related states
    stay related under every call of a client that gives away and frees only
    strings it owns. *)

From S2P Require Import Prelude ProtoWire RpcPb RpcStrings.

(** ** Who owns what

    The heap [h] is split between the client's strings [o] and the members'
    strings: [mem] says where they are, [sl] what they hold. *)

Definition upd {A} (k : sfield → A) (f : sfield) (a : A) : sfield → A :=
  λ g, if decide (g = f) then a else k g.

Lemma upd_same {A} (k : sfield → A) f a : upd k f a f = a.
Proof. unfold upd. by rewrite decide_True. Qed.
Lemma upd_other {A} (k : sfield → A) f g a : g ≠ f → upd k f a g = k g.
Proof. intros H. unfold upd. by rewrite decide_False. Qed.

Record split_heap (h : gmap ptr bytes) (mem : sfield → option ptr) (o : gmap ptr bytes)
    (sl : sfield → slot) : Prop := {
  heap_iff p v : h !! p = Some v ↔ o !! p = Some v ∨ ∃ f, mem f = Some p ∧ sl f = Some v;
  apart f p : mem f = Some p → o !! p = None;
  one_member f g p : mem f = Some p → mem g = Some p → f = g;
  member_iff f : is_Some (mem f) ↔ is_Some (sl f)
}.

Section split.
Context (h : gmap ptr bytes) (mem : sfield → option ptr) (o : gmap ptr bytes)
  (sl : sfield → slot) (H : split_heap h mem o sl).

Lemma member_string f p : mem f = Some p → ∃ v, sl f = Some v ∧ h !! p = Some v.
Proof using H.
  intros Hp. destruct (proj1 (member_iff _ _ _ _ H f)) as [v Hv]; [by rewrite Hp|].
  exists v. split; [done|]. apply (heap_iff _ _ _ _ H). eauto.
Qed.

Lemma owned_string p v : o !! p = Some v → h !! p = Some v.
Proof using H. intros Hp. apply (heap_iff _ _ _ _ H). by left. Qed.

Lemma no_member f : mem f = None → sl f = None.
Proof using H.
  intros Hf. destruct (sl f) eqn:E; [|done].
  destruct (proj2 (member_iff _ _ _ _ H f)) as [p Hp]; [by rewrite E|congruence].
Qed.

Lemma free_pointer p : h !! p = None → o !! p = None ∧ ∀ f, mem f ≠ Some p.
Proof using H.
  intros Hp. split.
  - destruct (o !! p) eqn:E; [|done]. apply owned_string in E. congruence.
  - intros f Hf. apply member_string in Hf as (v & _ & Hv). congruence.
Qed.

Ltac upd_cases :=
  unfold upd in *; repeat case_decide; subst; simplify_eq; try done.

(** A string of a member changes. *)
Lemma split_assign f p v :
  mem f = Some p → split_heap (<[p := v]> h) mem o (upd sl f (Some v)).
Proof using H.
  intros Hf. pose proof (apart _ _ _ _ H) as Ha. pose proof (one_member _ _ _ _ H) as H1.
  constructor; [|exact Ha|exact H1|].
  - intros q w. rewrite lookup_insert_Some, (heap_iff _ _ _ _ H). split.
    + intros [[-> ->]|[Hn [Hq|(g & Hg & Hw)]]]; [|by left|].
      * right. exists f. by rewrite upd_same.
      * right. exists g. rewrite upd_other; [done|]. intros ->. congruence.
    + intros [Hq|(g & Hg & Hw)].
      * right. split; [|by left]. intros ->. rewrite (Ha f q Hf) in Hq. done.
      * unfold upd in Hw. case_decide as Hd; [left; split; congruence|].
        right. split; [|by right; eauto]. intros ->. apply Hd. by eapply H1.
  - intros g. unfold upd. case_decide as Hd; [subst; by rewrite Hf|apply (member_iff _ _ _ _ H)].
Qed.

(** A member gets a string that was the client's, or a new one. *)
Lemma split_adopt f p v :
  mem f = None → o !! p = Some v →
  split_heap h (upd mem f (Some p)) (delete p o) (upd sl f (Some v)).
Proof using H.
  intros Hf Hp. pose proof (apart _ _ _ _ H) as Ha. pose proof (one_member _ _ _ _ H) as H1.
  constructor.
  - intros q w. rewrite lookup_delete_Some, (heap_iff _ _ _ _ H). split.
    + intros [Hq|(g & Hg & Hw)].
      * destruct (decide (p = q)) as [->|Hn]; [|by left].
        right. exists f. rewrite !upd_same. split; [done|congruence].
      * right. exists g. rewrite !upd_other by congruence. done.
    + intros [[Hn Hq]|(g & Hg & Hw)]; [by left|]. upd_cases; eauto.
  - intros g q Hg. rewrite lookup_delete_None. unfold upd in Hg.
    case_decide; [left; congruence|right; by eapply Ha].
  - intros g1 g2 q Hg1 Hg2. unfold upd in *. repeat case_decide; subst; simplify_eq; try done;
      first [by eapply H1 | match goal with K : mem _ = Some _ |- _ => apply Ha in K; congruence end].
  - intros g. unfold upd. case_decide; [by split; eauto|apply (member_iff _ _ _ _ H)].
Qed.

(** The client makes a string. *)
Lemma split_client_new p v :
  h !! p = None → split_heap (<[p := v]> h) mem (<[p := v]> o) sl.
Proof using H.
  intros Hp. destruct (free_pointer p Hp) as [Ho Hm].
  constructor; [| |apply (one_member _ _ _ _ H)|apply (member_iff _ _ _ _ H)].
  - intros q w. rewrite !lookup_insert_Some, (heap_iff _ _ _ _ H). split.
    + intros [?|[? [?|?]]]; eauto.
    + intros [[?|[? ?]]|(g & Hg & Hw)]; eauto.
      right. split; [|eauto]. intros ->. by apply (Hm g).
  - intros g q Hg. rewrite lookup_insert_ne; [by eapply apart|].
    intros ->. by apply (Hm g).
Qed.

(** The client frees a string. *)
Lemma split_client_delete p v :
  o !! p = Some v → split_heap (delete p h) mem (delete p o) sl.
Proof using H.
  intros Hp. pose proof (apart _ _ _ _ H) as Ha.
  constructor; [| |apply (one_member _ _ _ _ H)|apply (member_iff _ _ _ _ H)].
  - intros q w. rewrite !lookup_delete_Some, (heap_iff _ _ _ _ H). split.
    + intros [? [?|?]]; eauto.
    + intros [[? ?]|(g & Hg & Hw)]; eauto.
      split; [|eauto]. intros ->. apply Ha in Hg. congruence.
  - intros g q Hg. rewrite lookup_delete_None. right. by eapply Ha.
Qed.

(** A member gives its string away. *)
Lemma split_release f p v :
  mem f = Some p → sl f = Some v →
  split_heap h (upd mem f None) (<[p := v]> o) (upd sl f None).
Proof using H.
  intros Hf Hv. pose proof (apart _ _ _ _ H) as Ha. pose proof (one_member _ _ _ _ H) as H1.
  constructor.
  - intros q w. rewrite lookup_insert_Some, (heap_iff _ _ _ _ H). split.
    + intros [Hq|(g & Hg & Hw)].
      * left. right. split; [|done]. intros ->. apply Ha in Hf. congruence.
      * destruct (decide (g = f)) as [->|Hn]; [left; left; split; congruence|].
        right. exists g. by rewrite !upd_other.
    + intros [[[-> ->]|[Hn Hq]]|(g & Hg & Hw)]; [eauto|by left|]. upd_cases; eauto.
  - intros g q Hg. unfold upd in Hg. case_decide as Hd; [done|].
    rewrite lookup_insert_ne; [by eapply Ha|]. intros ->. apply Hd. by eapply H1.
  - intros g1 g2 q Hg1 Hg2. unfold upd in *. repeat case_decide; try done. by eapply H1.
  - intros g. unfold upd. case_decide; [by split; intros []|apply (member_iff _ _ _ _ H)].
Qed.
End split.

(** Only the members' values matter. *)
Lemma split_ext h mem mem' o sl sl' :
  split_heap h mem o sl → (∀ f, mem f = mem' f) → (∀ f, sl f = sl' f) → split_heap h mem' o sl'.
Proof.
  intros H Hm Hs. constructor.
  - intros p v. rewrite (heap_iff _ _ _ _ H). setoid_rewrite Hm. by setoid_rewrite Hs.
  - intros f p. rewrite <- Hm. apply (apart _ _ _ _ H).
  - intros f g p. rewrite <- !Hm. apply (one_member _ _ _ _ H).
  - intros f. rewrite <- Hm, <- Hs. apply (member_iff _ _ _ _ H).
Qed.

(** A member gets a new string, or loses the one it has for good. *)
Lemma split_new h mem o sl f p v :
  split_heap h mem o sl → mem f = None → h !! p = None →
  split_heap (<[p := v]> h) (upd mem f (Some p)) o (upd sl f (Some v)).
Proof.
  intros H Hf Hp. destruct (free_pointer _ _ _ _ H p Hp) as [Ho _].
  pose proof (split_client_new _ _ _ _ H p v Hp) as H1.
  pose proof (split_adopt _ _ _ _ H1 f p v Hf (lookup_insert_eq _ _ _)) as H2.
  by rewrite delete_insert_id in H2.
Qed.

Lemma split_drop h mem o sl f p :
  split_heap h mem o sl → mem f = Some p →
  split_heap (delete p h) (upd mem f None) o (upd sl f None).
Proof.
  intros H Hf. destruct (member_string _ _ _ _ H f p Hf) as (v & Hv & _).
  pose proof (apart _ _ _ _ H f p Hf) as Ho.
  pose proof (split_release _ _ _ _ H f p v Hf Hv) as H1.
  pose proof (split_client_delete _ _ _ _ H1 p v (lookup_insert_eq _ _ _)) as H2.
  by rewrite delete_insert_id in H2.
Qed.

(** ** The values of [RpcPb.v], member by member *)

Section values.
Context {WO : WireOps}.

Definition slot_at (m : RpcMessage.t) (f : sfield) : slot :=
  match f with
  | F_service => RpcMessage.service_ m | F_method => RpcMessage.method_ m
  | F_request => RpcMessage.request_ m | F_response => RpcMessage.response_ m
  end.
Definition v_clear (f : sfield) : RpcMessage.t → RpcMessage.t :=
  match f with
  | F_service => RpcMessage.clear_service | F_method => RpcMessage.clear_method
  | F_request => RpcMessage.clear_request | F_response => RpcMessage.clear_response
  end.
Definition v_set (f : sfield) : bytes → RpcMessage.t → RpcMessage.t :=
  match f with
  | F_service => RpcMessage.set_service | F_method => RpcMessage.set_method
  | F_request => RpcMessage.set_request | F_response => RpcMessage.set_response
  end.
Definition v_mutable (f : sfield) : (bytes → bytes) → RpcMessage.t → RpcMessage.t :=
  match f with
  | F_service => RpcMessage.mutable_service | F_method => RpcMessage.mutable_method
  | F_request => RpcMessage.mutable_request | F_response => RpcMessage.mutable_response
  end.
Definition v_release (f : sfield) : RpcMessage.t → slot * RpcMessage.t :=
  match f with
  | F_service => RpcMessage.release_service | F_method => RpcMessage.release_method
  | F_request => RpcMessage.release_request | F_response => RpcMessage.release_response
  end.
Definition v_set_allocated (f : sfield) : slot → RpcMessage.t → RpcMessage.t :=
  match f with
  | F_service => RpcMessage.set_allocated_service | F_method => RpcMessage.set_allocated_method
  | F_request => RpcMessage.set_allocated_request
  | F_response => RpcMessage.set_allocated_response
  end.

(** What the operations do to the members and to the bits. *)
Lemma slot_clear_at f m g :
  slot_at (v_clear f m) g = upd (slot_at m) f (slot_clear (slot_at m f)) g.
Proof. by destruct f, g. Qed.
Lemma slot_set_at f v m g : slot_at (v_set f v m) g = upd (slot_at m) f (Some v) g.
Proof. by destruct f, g. Qed.
Lemma slot_mutable_at f k m g :
  slot_at (v_mutable f k m) g = upd (slot_at m) f (Some (k (slot_mutable (slot_at m f)))) g.
Proof. by destruct f, g. Qed.
Lemma slot_release_at f m g :
  slot_at (v_release f m).2 g = upd (slot_at m) f None g ∧ (v_release f m).1 = slot_at m f.
Proof.
  destruct m as [u b c i s1 s2 ty e s3 s4]. destruct f; [destruct s1|destruct s2|destruct s3|destruct s4];
    by destruct g.
Qed.
Lemma slot_allocated_at f s m g :
  slot_at (v_set_allocated f s m) g = upd (slot_at m) f s g.
Proof. by destruct f, g, s. Qed.

Abbreviation bits := RpcMessage._has_bits_.
Abbreviation on f m := (Z.lor (bits m) (RpcStrings.bit_of f)).
Abbreviation off f m := (Z.land (bits m) (Z.lxor 0xffffffff (RpcStrings.bit_of f))).

Lemma vbits_clear f m : bits (v_clear f m) = off f m.
Proof. by destruct f. Qed.
Lemma vbits_set f v m : bits (v_set f v m) = on f m.
Proof. by destruct f. Qed.
Lemma vbits_mutable f k m : bits (v_mutable f k m) = on f m.
Proof. by destruct f. Qed.
Lemma vbits_release f m : bits (v_release f m).2 = off f m.
Proof.
  destruct m as [u b c i s1 s2 ty e s3 s4].
  by destruct f; [destruct s1|destruct s2|destruct s3|destruct s4].
Qed.
Lemma vbits_allocated f s m :
  bits (v_set_allocated f s m) = match s with Some _ => on f m | None => off f m end.
Proof. by destruct f, s. Qed.

(** ** The client's view and what its calls mean *)

Record view := View { msg : RpcMessage.t; owned : gmap ptr bytes }.

(** A client gives away and frees only strings it owns. *)
Definition legal (c : RpcStrings.call) (a : view) : Prop :=
  match c with
  | RpcStrings.Call_set_allocated _ (Some p) | RpcStrings.Delete_string p =>
      is_Some (owned a !! p)
  | _ => True
  end.

(** The meaning of a call: its result and the view after it. *)
Inductive meaning : RpcStrings.call → view → option ptr → view → Prop :=
  | M_clear f a : meaning (RpcStrings.Call_clear f) a None (View (v_clear f (msg a)) (owned a))
  | M_set f v a : meaning (RpcStrings.Call_set f v) a None (View (v_set f v (msg a)) (owned a))
  | M_mutable f g a :
      meaning (RpcStrings.Call_mutable f g) a None (View (v_mutable f g (msg a)) (owned a))
  | M_release_none f a :
      (v_release f (msg a)).1 = None →
      meaning (RpcStrings.Call_release f) a None (View (v_release f (msg a)).2 (owned a))
  | M_release f a p v :
      (v_release f (msg a)).1 = Some v → owned a !! p = None →
      meaning (RpcStrings.Call_release f) a (Some p)
        (View (v_release f (msg a)).2 (<[p := v]> (owned a)))
  | M_set_null f a :
      meaning (RpcStrings.Call_set_allocated f None) a None
        (View (v_set_allocated f None (msg a)) (owned a))
  | M_set_allocated f a p v :
      owned a !! p = Some v →
      meaning (RpcStrings.Call_set_allocated f (Some p)) a None
        (View (v_set_allocated f (Some v) (msg a)) (delete p (owned a)))
  | M_Clear a :
      meaning RpcStrings.Call_Clear a None (View (RpcMessage.Clear (msg a)) (owned a))
  | M_new v a p :
      owned a !! p = None →
      meaning (RpcStrings.New_string v) a (Some p) (View (msg a) (<[p := v]> (owned a)))
  | M_delete p a :
      meaning (RpcStrings.Delete_string p) a None (View (msg a) (delete p (owned a))).

(** The heap of the program implements the view. *)
Definition implements (s : RpcStrings.store) (a : view) : Prop :=
  split_heap (RpcStrings.heap s) (RpcStrings.member (RpcStrings.this s)) (owned a)
    (slot_at (msg a)) ∧
  RpcStrings.has_bits (RpcStrings.this s) = bits (msg a).

End values.

(** ** Each operation on the heap *)

Definition rep (s : RpcStrings.store) (o : gmap ptr bytes) (sl : sfield → slot) (b : Z) : Prop :=
  split_heap (RpcStrings.heap s) (RpcStrings.member (RpcStrings.this s)) o sl ∧
  RpcStrings.has_bits (RpcStrings.this s) = b.

Section operations.
Import RpcStrings.

Lemma rep_ext s o sl sl' b : rep s o sl b → (∀ f, sl f = sl' f) → rep s o sl' b.
Proof. intros [H Hb] He. split; [|done]. by eapply split_ext. Qed.

Lemma deref_rep s o sl b f p v :
  rep s o sl b → member (this s) f = Some p → sl f = Some v → deref p s = Ok (v, s).
Proof.
  intros [H _] Hp Hv. destruct (member_string _ _ _ _ H f p Hp) as (w & Hw & Hh).
  unfold deref. mrun. rewrite Hh. by simplify_eq.
Qed.

Lemma assign_rep s o sl b f p v :
  rep s o sl b → member (this s) f = Some p →
  ∃ s', assign p v s = Ok (tt, s') ∧ this s' = this s ∧ rep s' o (upd sl f (Some v)) b.
Proof.
  intros Hrep Hp. pose proof Hrep as [H Hb].
  destruct (member_string _ _ _ _ H f p Hp) as (w & Hw & Hh).
  exists (mk_store (<[p := v]> (heap s)) (this s)). split_and!; [|done|].
  - unfold assign. mrun (deref_rep s o sl b f p w Hrep Hp Hw). done.
  - split; [|done]. by apply split_assign.
Qed.

Lemma clear_rep s o sl b f :
  rep s o sl b →
  ∃ s', clear f s = Ok (tt, s') ∧
    rep s' o (upd sl f (slot_clear (sl f))) (Z.land b (Z.lxor 0xffffffff (bit_of f))).
Proof.
  intros Hrep. pose proof Hrep as [H Hb]. unfold clear, pointer. mrun.
  destruct (member (this s) f) as [p|] eqn:Hf.
  - destruct (member_string _ _ _ _ H f p Hf) as (w & Hw & _).
    destruct (assign_rep s o sl b f p [] Hrep Hf) as (s1 & H1 & Ht1 & [H1' Hb1]).
    mrun H1. eexists. split; [reflexivity|]. rewrite Hw. split; [exact H1'|]. cbn. by rewrite Hb1.
  - mrun. eexists. split; [reflexivity|]. split; [|cbn; by rewrite Hb].
    cbn. eapply split_ext; [exact H|done|]. intros g. unfold upd. case_decide; [|done].
    subst. by rewrite (no_member _ _ _ _ H f Hf).
Qed.

Lemma mutable_rep s o sl b f :
  rep s o sl b →
  ∃ p s', mutable f s = Ok (p, s') ∧ member (this s') f = Some p ∧
    rep s' o (upd sl f (Some (slot_mutable (sl f)))) (Z.lor b (bit_of f)).
Proof.
  intros [H Hb]. unfold mutable, set_has, with_this, pointer. mrun. mrun. cbn [this member].
  destruct (member (this s) f) as [p|] eqn:Hf.
  - eexists p, _. split; [reflexivity|]. split; [done|]. split; [|cbn; by rewrite Hb].
    eapply split_ext; [exact H|done|]. intros g. unfold upd. case_decide; [|done].
    subst. destruct (member_string _ _ _ _ H f p Hf) as (w & -> & _). done.
  - eexists _, _. split; [reflexivity|]. cbn. split; [by rewrite decide_True|].
    split; [|cbn; by rewrite Hb]. cbn. rewrite (no_member _ _ _ _ H f Hf).
    apply split_new; [done|done|]. apply not_elem_of_dom, is_fresh.
Qed.

Lemma release_rep s o sl b f :
  rep s o sl b →
  ∃ r s', release f s = Ok (r, s') ∧
    match r with
    | None => sl f = None ∧ rep s' o (upd sl f None) (Z.land b (Z.lxor 0xffffffff (bit_of f)))
    | Some p => ∃ v, sl f = Some v ∧ o !! p = None ∧
        rep s' (<[p := v]> o) (upd sl f None) (Z.land b (Z.lxor 0xffffffff (bit_of f)))
    end.
Proof.
  intros [H Hb]. unfold release, clear_has, with_this, pointer. mrun. mrun. cbn [this member].
  destruct (member (this s) f) as [p|] eqn:Hf.
  - eexists (Some p), _. split; [reflexivity|].
    destruct (member_string _ _ _ _ H f p Hf) as (v & Hv & _).
    exists v. split; [done|]. split; [by eapply apart|].
    split; [|cbn; by rewrite Hb]. by apply split_release.
  - pose proof (no_member _ _ _ _ H f Hf) as Hn.
    eexists None, _. split; [reflexivity|]. split; [done|]. split; [|cbn; by rewrite Hb].
    eapply split_ext; [exact H|done|]. intros g. unfold upd. by case_decide; subst.
Qed.

(** [if (p != &empty) delete p;], the member not yet set; [mem] is what the members
    should be. *)
Lemma delete_member_split s mem o sl f :
  split_heap (heap s) mem o sl → mem f = member (this s) f →
  ∃ s', delete_member f s = Ok (tt, s') ∧ this s' = this s ∧
    split_heap (heap s') (upd mem f None) o (upd sl f None).
Proof.
  intros H Hm. unfold delete_member, pointer. mrun. rewrite <- Hm.
  destruct (mem f) as [p|] eqn:Hf.
  - destruct (member_string _ _ _ _ H f p Hf) as (v & Hv & Hh).
    exists (mk_store (delete p (heap s)) (this s)).
    split; [unfold delete_string; mrun; by rewrite Hh|]. split; [done|]. by apply split_drop.
  - exists s. split_and!; [done..|]. pose proof (no_member _ _ _ _ H f Hf) as Hn.
    eapply split_ext; [exact H|..]; intros g; unfold upd; by case_decide; subst.
Qed.

Lemma delete_member_rep s o sl b f :
  rep s o sl b →
  ∃ s', delete_member f s = Ok (tt, s') ∧ this s' = this s ∧
    split_heap (heap s') (upd (member (this s)) f None) o (upd sl f None).
Proof. intros [H _]. by apply delete_member_split. Qed.

Lemma set_allocated_unfold f q s :
  set_allocated f q s =
  (_ ← delete_member f;
   match q with
   | Some _ => _ ← set_has f; point f q
   | None => _ ← clear_has f; point f None
   end) s.
Proof.
  unfold set_allocated, delete_member, pointer. by destruct (member (this s) f) eqn:E;
    unfold mbind, M_bind, gets; rewrite ?E.
Qed.

Lemma set_null_rep s o sl b f :
  rep s o sl b →
  ∃ s', set_allocated f None s = Ok (tt, s') ∧
    rep s' o (upd sl f None) (Z.land b (Z.lxor 0xffffffff (bit_of f))).
Proof.
  intros Hrep. destruct (delete_member_rep s o sl b f Hrep) as (s1 & H1 & Ht & H2).
  rewrite set_allocated_unfold. mrun H1. eexists. split; [reflexivity|].
  split; [|cbn; by rewrite Ht, (proj2 Hrep)]. cbn. rewrite Ht. exact H2.
Qed.

Lemma set_allocated_rep s o sl b f p v :
  rep s o sl b → o !! p = Some v →
  ∃ s', set_allocated f (Some p) s = Ok (tt, s') ∧
    rep s' (delete p o) (upd sl f (Some v)) (Z.lor b (bit_of f)).
Proof.
  intros Hrep Hp. destruct (delete_member_rep s o sl b f Hrep) as (s1 & H1 & Ht & H2).
  rewrite set_allocated_unfold. mrun H1. eexists. split; [reflexivity|].
  split; [|cbn; by rewrite Ht, (proj2 Hrep)]. cbn. rewrite Ht.
  pose proof (split_adopt _ _ _ _ H2 f p v (upd_same _ _ _) Hp) as H3.
  eapply split_ext; [exact H3|..]; intros g; unfold upd; by case_decide.
Qed.

Lemma clear_present_rep s o sl b f :
  rep s o sl b →
  ∃ s', clear_present f s = Ok (tt, s') ∧
    rep s' o (upd sl f (if Z.land b (bit_of f) =? 0 then sl f else slot_clear (sl f))) b.
Proof.
  intros Hrep. pose proof Hrep as [H Hb]. unfold clear_present, pointer. mrun. rewrite Hb.
  destruct (Z.land b (bit_of f) =? 0).
  - exists s. split; [done|]. eapply rep_ext; [exact Hrep|]. intros g. unfold upd. by case_decide; subst.
  - mrun. destruct (member (this s) f) as [p|] eqn:Hf.
    + destruct (member_string _ _ _ _ H f p Hf) as (w & Hw & _).
      destruct (assign_rep s o sl b f p [] Hrep Hf) as (s1 & H1 & _ & H2).
      exists s1. split; [exact H1|]. by rewrite Hw.
    + exists s. split; [done|]. eapply rep_ext; [exact Hrep|]. intros g.
      unfold upd. case_decide; subst; [|done]. by rewrite (no_member _ _ _ _ H f Hf).
Qed.
End operations.

Lemma Clear_rep s o sl b :
  rep s o sl b →
  ∃ s', RpcStrings.Clear s = Ok (tt, s') ∧
    rep s' o (λ f, if Z.land b 127 =? 0 then sl f
                   else if Z.land b (RpcStrings.bit_of f) =? 0 then sl f
                   else slot_clear (sl f)) 0.
Proof.
  intros Hrep. unfold RpcStrings.Clear. mrun. rewrite (proj2 Hrep).
  destruct (Z.land b 127 =? 0).
  - mrun. eexists. split; [reflexivity|]. split; [|done]. exact (proj1 Hrep).
  - destruct (clear_present_rep s o _ b F_service Hrep) as (s1 & H1 & R1).
    destruct (clear_present_rep s1 o _ b F_method R1) as (s2 & H2 & R2).
    destruct (clear_present_rep s2 o _ b F_request R2) as (s3 & H3 & R3).
    destruct (clear_present_rep s3 o _ b F_response R3) as (s4 & H4 & R4).
    erewrite bind_run.
    2: { mrun H1. mrun H2. mrun H3. exact H4. }
    eexists. split; [reflexivity|]. split; [|done].
    eapply split_ext; [exact (proj1 R4)|done|]. intros []; reflexivity.
Qed.

Section simulation.
Context {WO : WireOps}.

Lemma slot_Clear_at m f :
  slot_at (RpcMessage.Clear m) f =
  (let b := RpcMessage._has_bits_ m in
   if Z.land b 127 =? 0 then slot_at m f
   else if Z.land b (RpcStrings.bit_of f) =? 0 then slot_at m f else slot_clear (slot_at m f)).
Proof.
  destruct m as [u b c i s1 s2 ty e s3 s4]. unfold RpcMessage.Clear, RpcMessage.has_service,
    RpcMessage.has_method, RpcMessage.has_request, RpcMessage.has_response, RpcMessage.has_bit.
  cbn. destruct (Z.land b 127 =? 0); [by destruct f|]. cbn.
  destruct (Z.land b 4 =? 0) eqn:E1, (Z.land b 8 =? 0) eqn:E2, (Z.land b 16 =? 0) eqn:E3,
    (Z.land b 32 =? 0) eqn:E4; cbn; rewrite ?E1, ?E2, ?E3, ?E4; cbn;
    rewrite ?E2, ?E3, ?E4; cbn; rewrite ?E3, ?E4; cbn; rewrite ?E4; destruct f; cbn;
    by rewrite ?E1, ?E2, ?E3, ?E4.
Qed.

Lemma implements_intro s o m sl b :
  rep s o sl b → (∀ g, slot_at m g = sl g) → RpcMessage._has_bits_ m = b →
  implements s (View m o).
Proof.
  intros [H Hb] Hs Hm. split; [|by rewrite Hb, <- Hm].
  eapply split_ext; [exact H|done|]. intros g. by rewrite <- Hs.
Qed.

Lemma implements_rep s a :
  implements s a → rep s (owned a) (slot_at (msg a)) (RpcMessage._has_bits_ (msg a)).
Proof. done. Qed.

(** The call [c] of a client in [s] with view [a] goes through as it means. *)
Definition goes_through (c : RpcStrings.call) (s : RpcStrings.store) (a : view) : Prop :=
  ∃ r s' a', RpcStrings.exec c s = Ok (r, s') ∧ meaning c a r a' ∧ implements s' a'.

Section calls.
Context (s : RpcStrings.store) (a : view) (Hi : implements s a).

Lemma clear_through f : goes_through (RpcStrings.Call_clear f) s a.
Proof using Hi.
  destruct (clear_rep _ _ _ _ f (implements_rep s a Hi)) as (s1 & H1 & R1).
  eexists _, _, _. split; [cbn; mrun H1; reflexivity|]. split; [constructor|].
  eapply implements_intro; [exact R1|intros g; apply slot_clear_at|apply vbits_clear].
Qed.

Lemma set_through f v : goes_through (RpcStrings.Call_set f v) s a.
Proof using Hi.
  destruct (mutable_rep _ _ _ _ f (implements_rep s a Hi)) as (p & s1 & H1 & Hp & R1).
  destruct (assign_rep _ _ _ _ f p v R1 Hp) as (s2 & H2 & _ & R2).
  eexists _, _, _.
  split; [cbn; unfold RpcStrings.set; rewrite bind_assoc; mrun H1; mrun H2; reflexivity|].
  split; [constructor|]. eapply implements_intro; [exact R2| |apply vbits_set].
  intros g. rewrite slot_set_at. unfold upd. by case_decide.
Qed.

Lemma mutable_through f k : goes_through (RpcStrings.Call_mutable f k) s a.
Proof using Hi.
  destruct (mutable_rep _ _ _ _ f (implements_rep s a Hi)) as (p & s1 & H1 & Hp & R1).
  destruct (assign_rep _ _ _ _ f p (k (slot_mutable (slot_at (msg a) f))) R1 Hp)
    as (s2 & H2 & _ & R2).
  eexists _, _, _. split.
  { cbn. mrun H1. mrun (deref_rep _ _ _ _ f p _ R1 Hp (upd_same _ _ _)). mrun H2. reflexivity. }
  split; [constructor|]. eapply implements_intro; [exact R2| |apply vbits_mutable].
  intros g. rewrite slot_mutable_at. unfold upd. by case_decide.
Qed.

Lemma release_through f : goes_through (RpcStrings.Call_release f) s a.
Proof using Hi.
  destruct (release_rep _ _ _ _ f (implements_rep s a Hi)) as (r & s1 & H1 & HR).
  destruct (slot_release_at f (msg a) f) as [_ Hval].
  destruct r as [p|]; [destruct HR as (v & Hv & Ho & R1)|destruct HR as [Hn R1]];
    eexists _, _, _; (split; [exact H1|]); split;
    [by apply (M_release f a p v); [rewrite Hval|]| |by apply M_release_none; rewrite Hval|].
  all: eapply implements_intro; [exact R1| |apply vbits_release].
  all: intros g; apply slot_release_at.
Qed.

Lemma set_allocated_through f q :
  legal (RpcStrings.Call_set_allocated f q) a → goes_through (RpcStrings.Call_set_allocated f q) s a.
Proof using Hi.
  destruct q as [p|]; [intros [v Hv]|intros _].
  - destruct (set_allocated_rep _ _ _ _ f p v (implements_rep s a Hi) Hv) as (s1 & H1 & R1).
    eexists _, _, _. split; [cbn; mrun H1; reflexivity|]. split; [by econstructor|].
    eapply implements_intro; [exact R1|intros g; apply slot_allocated_at|by rewrite vbits_allocated].
  - destruct (set_null_rep _ _ _ _ f (implements_rep s a Hi)) as (s1 & H1 & R1).
    eexists _, _, _. split; [cbn; mrun H1; reflexivity|]. split; [constructor|].
    eapply implements_intro; [exact R1|intros g; apply slot_allocated_at|by rewrite vbits_allocated].
Qed.

Lemma Clear_through : goes_through RpcStrings.Call_Clear s a.
Proof using Hi.
  destruct (Clear_rep _ _ _ _ (implements_rep s a Hi)) as (s1 & H1 & R1).
  eexists _, _, _. split; [cbn; mrun H1; reflexivity|]. split; [constructor|].
  eapply implements_intro; [exact R1|intros g; apply slot_Clear_at|done].
Qed.

Lemma new_through v : goes_through (RpcStrings.New_string v) s a.
Proof using Hi.
  set (p := fresh (dom (RpcStrings.heap s))).
  assert (RpcStrings.heap s !! p = None) as Hp by apply not_elem_of_dom, is_fresh.
  exists (Some p), (RpcStrings.mk_store (<[p := v]> (RpcStrings.heap s)) (RpcStrings.this s)),
    (View (msg a) (<[p := v]> (owned a))).
  split_and!.
  - cbn [RpcStrings.exec]. unfold RpcStrings.new_string, RpcStrings.assign, RpcStrings.deref.
    rewrite bind_assoc. mrun. rewrite bind_assoc. mrun. mrun. rewrite !bind_assoc. mrun.
    cbn. fold p. rewrite lookup_insert_eq. mrun. mrun.
    cbn. by rewrite insert_insert_eq.
  - constructor. by apply (free_pointer _ _ _ _ (proj1 Hi)).
  - split; [|exact (proj2 Hi)]. by apply split_client_new; [exact (proj1 Hi)|].
Qed.

Lemma delete_through p : legal (RpcStrings.Delete_string p) a → goes_through (RpcStrings.Delete_string p) s a.
Proof using Hi.
  intros [v Hv]. pose proof (owned_string _ _ _ _ (proj1 Hi) p v Hv) as Hh.
  eexists None, _, _. split_and!; [|constructor|].
  - cbn [RpcStrings.exec]. unfold RpcStrings.delete_string. rewrite bind_assoc. mrun.
    rewrite Hh. reflexivity.
  - split; [|exact (proj2 Hi)]. by eapply split_client_delete; [exact (proj1 Hi)|].
Qed.

(** Every legal call runs without fault, and does to the heap what it means. *)
Lemma call_through c : legal c a → goes_through c s a.
Proof using Hi.
  destruct c; eauto using clear_through, set_through, mutable_through, release_through,
    set_allocated_through, Clear_through, new_through, delete_through.
Qed.
End calls.

(** ** A whole life *)

(** A client's calls one after the other, each legal when it is made: it may
    depend on the results of those before it. *)
Inductive session : RpcStrings.store → view → RpcStrings.store → view → Prop :=
  | session_nil s a : session s a s a
  | session_call c s a r s1 a1 s2 a2 :
      legal c a → RpcStrings.exec c s = Ok (r, s1) → meaning c a r a1 →
      session s1 a1 s2 a2 → session s a s2 a2.

Lemma meaning_result c a r r' a1 a2 :
  meaning c a r a1 → meaning c a r' a2 → r = r' → a1 = a2.
Proof.
  intros H1 H2 ->. destruct H1; inversion H2; subst; try done; try congruence.
Qed.

Lemma session_implements s a s' a' :
  session s a s' a' → implements s a → implements s' a'.
Proof.
  induction 1 as [|c s a r s1 a1 s2 a2 Hl Hx Hm Hs IH]; [done|]. intros Hi. apply IH.
  destruct (call_through s a Hi c Hl) as (r' & s1' & a1' & Hx' & Hm' & Hi').
  rewrite Hx in Hx'. injection Hx' as <- <-.
  by rewrite (meaning_result c a r r a1 a1' Hm Hm' eq_refl).
Qed.

(** The destructor frees the strings of the members and nothing else. *)
Lemma SharedDtor_frees s a :
  implements s a →
  ∃ s', RpcStrings.SharedDtor s = Ok (tt, s') ∧ RpcStrings.heap s' = owned a.
Proof.
  intros Hi. apply implements_rep in Hi. unfold RpcStrings.SharedDtor.
  destruct (delete_member_split s _ _ _ F_service (proj1 Hi) eq_refl) as (s1 & H1 & T1 & R1). mrun H1.
  destruct (delete_member_split s1 _ _ _ F_method R1) as (s2 & H2 & T2 & R2); [by rewrite T1|]. mrun H2.
  destruct (delete_member_split s2 _ _ _ F_request R2) as (s3 & H3 & T3 & R3); [by rewrite T2, T1|]. mrun H3.
  destruct (delete_member_split s3 _ _ _ F_response R3) as (s4 & H4 & T4 & R4); [by rewrite T3, T2, T1|].
  exists s4. split; [exact H4|]. apply map_eq. intros p. apply option_eq. intros v.
  rewrite (heap_iff _ _ _ _ R4). split; [|by left].
  intros [?|(f & Hf & _)]; [done|]. by destruct f.
Qed.

(** C32: the string objects of a message are never freed twice, used after they
    are freed or leaked.  Whatever a client does with a fresh message — clear,
    set, change through [mutable_], take strings out with [release_], put its own
    in with [set_allocated_] — as long as it gives away and frees only strings it
    owns, every next call runs without fault with the meaning that the values of
    the message have, and the destructor then leaves exactly the client's
    strings on the heap. *)
Theorem message_strings_owned h0 s0 s a :
  RpcStrings.heap s0 = h0 →
  ∃ s1, RpcStrings.SharedCtor s0 = Ok (tt, s1) ∧
  (session s1 (View RpcMessage.init h0) s a →
   (∀ c, legal c a → goes_through c s a) ∧
   ∃ s', RpcStrings.SharedDtor s = Ok (tt, s') ∧ RpcStrings.heap s' = owned a).
Proof.
  intros <-. eexists. split; [reflexivity|]. intros Hs.
  assert (implements s a) as Hi.
  { eapply session_implements; [exact Hs|]. split; [|done]. cbn. constructor.
    - intros p v. cbn. split; [by left|]. by intros [?|(f & ? & _)].
    - done.
    - done.
    - intros f. destruct f; cbn; split; intros [? [=]]. }
  split; [intros c; by apply call_through|by apply SharedDtor_frees].
Qed.
End simulation.

(** A session on a concrete heap: the client's string is put into the message,
    changed there, taken out of it again and freed. *)
Module strings_demo.
#[local] Existing Instance base128.wire.

Definition h0 : gmap ptr bytes := {[ 1%positive := [Byte.x2a] ]}.
Definition start : RpcStrings.store :=
  RpcStrings.mk_store h0 (RpcStrings.mk (λ _, None) 0).

Definition run_calls (cs : list RpcStrings.call) (s : RpcStrings.store) :
    outcome (option ptr * RpcStrings.store) :=
  foldl (λ o c, match o with Ok (_, s) => RpcStrings.exec c s | o => o end) (Ok (None, s)) cs.

Definition ending : list RpcStrings.call :=
  [ RpcStrings.Call_set_allocated F_service (Some 1%positive);
    RpcStrings.Call_mutable F_service (λ v, v ++ [Byte.x2b]);
    RpcStrings.Call_set F_method [Byte.x01];
    RpcStrings.Call_Clear ].

Example ending_runs :
  (λ r, match r with
        | Ok (_, s) => (RpcStrings.heap s !! 1%positive, size (RpcStrings.heap s))
        | _ => (None, 0%nat) end) (run_calls ending start) = (Some [], 2%nat).
Proof. vm_compute. reflexivity. Qed.

(** Giving a string away twice is the client's fault, and ends in a double free. *)
Example given_away_twice :
  run_calls [ RpcStrings.Call_set_allocated F_service (Some 1%positive);
              RpcStrings.Call_set_allocated F_method (Some 1%positive);
              RpcStrings.Call_set_allocated F_service None;
              RpcStrings.Call_set_allocated F_method None ] start = Fault DoubleFree.
Proof. vm_compute. reflexivity. Qed.

Lemma message_strings_owned_witness :
  ∃ s a s', session start (View RpcMessage.init h0) s a ∧
    RpcStrings.SharedDtor s = Ok (tt, s') ∧ RpcStrings.heap s' = ∅.
Proof.
  destruct (message_strings_owned h0 start
    (RpcStrings.mk_store h0 (RpcStrings.mk (λ g, if decide (g = F_service) then Some 1%positive else None) 4))
    (View (RpcMessage.set_allocated_service (Some [Byte.x2a]) RpcMessage.init) (delete 1%positive h0))
    eq_refl) as (s1 & H1 & Hall).
  injection H1 as <-.
  assert (session start (View RpcMessage.init h0)
    (RpcStrings.mk_store h0 (RpcStrings.mk (λ g, if decide (g = F_service) then Some 1%positive else None) 4))
    (View (RpcMessage.set_allocated_service (Some [Byte.x2a]) RpcMessage.init) (delete 1%positive h0)))
    as Hs.
  { eapply (session_call (RpcStrings.Call_set_allocated F_service (Some 1%positive)));
      [by exists [Byte.x2a]|reflexivity|by apply (M_set_allocated F_service (View RpcMessage.init h0))|].
    apply session_nil. }
  destruct (Hall Hs) as (_ & s' & Hd & Hh). eexists _, _, s'. split; [exact Hs|].
  split; [exact Hd|]. rewrite Hh. reflexivity.
Defined.
End strings_demo.
