(* ===== verification/Pool.v ===== *)
(** * The connections of a process

    [pool_ok] relates the four places in which a connection is recorded: its
    object in the heap, the queue of its thread, its bufferevent, and the
    argument of the bufferevent's callbacks.  Opening a connection, closing it,
    and the changes a handler makes to an open one preserve it. *)

From S2P Require Import Prelude ConnQueue External World.

Section pool.
Context {EB : EvbufferOps}.
Implicit Types (h : ConnHeap) (m : gmap ptr (Bufferevent EB)) (q : ConnQueue)
  (qs : list ConnQueue) (l : list ptr) (ls : list (list ptr)) (c b : ptr).

(** Thread [i] has the queue [q], which holds the connections [l]. *)
Definition owner qs ls (i : nat) q l : Prop := qs !! i = Some q ∧ ls !! i = Some l.

(** The buffer pointers are those of the bufferevent, or not yet set. *)
Definition bufs_ok (b : ptr) (x : info) : Prop :=
  (x.1.2 = None ∨ x.1.2 = Some (mkBufref b Input)) ∧
  (x.2 = None ∨ x.2 = Some (mkBufref b Output)).

(** [c] is an open connection of thread [i] with the bufferevent [b]. *)
Definition conn_open h m (i : nat) c b : Prop := ∃ x bv,
  payload <$> cells h !! c = Some x ∧ x.1.1.1.2 = Some i ∧ x.1.1.2 = Some b ∧ bufs_ok b x ∧
  m !! b = Some bv ∧ bev_data bv = Some c.

Record pool_ok h (bb : ptr) m qs ls : Prop := {
  ok_length : length qs = length ls;
  ok_heap : heap_wf h;
  ok_queue i q l : owner qs ls i q l → queue_ok h q l;
  ok_disjoint i j q q' l l' p :
    owner qs ls i q l → owner qs ls j q' l' → p ∈ chain q l → p ∈ chain q' l' → i = j;
  ok_conn i l c : ls !! i = Some l → c ∈ l → ∃ b, conn_open h m i c b;
  ok_bev b bv : m !! b = Some bv →
    (b < bb)%positive ∧ ∃ i l c, ls !! i = Some l ∧ c ∈ l ∧ conn_open h m i c b
}.

(** *** Lemmas *)

Lemma owner_insert qs ls i q l j q0 l0 :
  owner (<[i := q]> qs) (<[i := l]> ls) j q0 l0 →
  (j = i ∧ q0 = q ∧ l0 = l) ∨ (j ≠ i ∧ owner qs ls j q0 l0).
Proof.
  intros [Hq Hl]. destruct (decide (j = i)) as [->|Hne].
  - left. apply list_lookup_insert_Some in Hq as [(_ & ? & _)|[? _]]; [|done].
    apply list_lookup_insert_Some in Hl as [(_ & ? & _)|[? _]]; [|done]. done.
  - right. rewrite list_lookup_insert_ne in Hq by done.
    by rewrite list_lookup_insert_ne in Hl by done.
Qed.

Lemma queue_ok_frame h h' q l (X : ptr → Prop) :
  heap_wf h' → same_outside X h h' → (∀ p, p ∈ chain q l → ¬ X p) →
  queue_ok h q l → queue_ok h' q l.
Proof.
  intros Hwf Hout HX Hq. eapply queue_ok_payload; [done| |exact Hq].
  intros p Hp. destruct (queue_alive _ _ _ _ Hq Hp) as [o Ho].
  exists o, o. rewrite Hout by auto. done.
Qed.

Lemma conn_open_mono h h' m m' i c b :
  payload <$> cells h' !! c = payload <$> cells h !! c →
  (∀ bv, m !! b = Some bv → ∃ bv', m' !! b = Some bv' ∧ bev_data bv' = bev_data bv) →
  conn_open h m i c b → conn_open h' m' i c b.
Proof.
  intros Hp Hm (x & bv & Hx & Ht & Hb & Hbufs & Hbv & Hd).
  destruct (Hm _ Hbv) as (bv' & Hbv' & Hd').
  exists x, bv'. rewrite Hp, Hd'. done.
Qed.

Lemma conn_open_bev h m i c b i' b' :
  conn_open h m i c b → conn_open h m i' c b' → b = b' ∧ i = i'.
Proof.
  intros (x & ? & Hx & Ht & Hb & _) (x' & ? & Hx' & Ht' & Hb' & _).
  split; congruence.
Qed.
Lemma conn_open_conn h m i c b i' c' :
  conn_open h m i c b → conn_open h m i' c' b → c = c'.
Proof.
  intros (x & bv & _ & _ & _ & _ & Hb & Hd) (x' & bv' & _ & _ & _ & _ & Hb' & Hd'). congruence.
Qed.

(** What the members of the record say of a bufferevent and its connection. *)
Lemma pool_conn h bb m qs ls i c b :
  pool_ok h bb m qs ls → conn_open h m i c b →
  (∃ l, ls !! i = Some l ∧ c ∈ l) ∧ ∃ q, qs !! i = Some q.
Proof.
  intros Hok Ho. pose proof Ho as (x & bv & Hx & Ht & Hb & _ & Hbv & Hd).
  destruct (ok_bev _ _ _ _ _ Hok _ _ Hbv) as (_ & i' & l & c' & Hl & Hc & Ho').
  pose proof (conn_open_conn _ _ _ _ _ _ _ Ho Ho') as <-.
  destruct (conn_open_bev _ _ _ _ _ _ _ Ho Ho') as [_ <-].
  split; [by eauto|]. apply lookup_lt_is_Some. rewrite (ok_length _ _ _ _ _ Hok).
  by eapply lookup_lt_Some.
Qed.

End pool.

(** ** Opening a connection *)

Section opening.
Context {EB : EvbufferOps} (h h' : ConnHeap) (bb : ptr) (m : gmap ptr (Bufferevent EB)).
Context (qs : list ConnQueue) (ls : list (list ptr)) (i : nat) (q q' : ConnQueue) (l : list ptr).
Context (c : ptr) (bv : Bufferevent EB).
Context (Hok : pool_ok h bb m qs ls) (Hown : owner qs ls i q l).
Context (Hfresh : cells h !! c = None) (Hq' : queue_ok h' q' (c :: l)).
Context (Hhead : head q' = head q) (Htail : tail q' = tail q).
Context (Hsame : same_payload (λ r, r = c) h h').
Context (Hout : same_outside (λ r, r = c ∨ r ∈ chain q l) h h').
Context (Hcc : conn_open h' (<[bb := bv]> m) i c bb).

Lemma open_fresh_chain j qj lj : owner qs ls j qj lj → c ∉ chain qj lj.
Proof using All.
  intros Hj Hin. pose proof (ok_queue _ _ _ _ _ Hok _ _ _ Hj) as Hqj.
  destruct (queue_alive _ _ _ _ Hqj Hin) as [o Ho]. congruence.
Qed.
Lemma open_fresh_member j lj c0 : ls !! j = Some lj → c0 ∈ lj → c0 ≠ c.
Proof using All.
  intros Hj Hin ->. destruct (ok_conn _ _ _ _ _ Hok _ _ _ Hj Hin) as (b & x & ? & Hx & _).
  by rewrite Hfresh in Hx.
Qed.
Lemma open_chain p : p ∈ chain q' (c :: l) ↔ p = c ∨ p ∈ chain q l.
Proof using All. unfold chain. rewrite Hhead, Htail. simpl. rewrite !elem_of_cons. tauto. Qed.

Lemma open_old j lj c0 b0 :
  ls !! j = Some lj → c0 ∈ lj → conn_open h m j c0 b0 → conn_open h' (<[bb := bv]> m) j c0 b0.
Proof using All.
  intros Hj Hin. apply conn_open_mono.
  - by eapply Hsame, open_fresh_member.
  - intros bv0 Hb0. exists bv0. rewrite lookup_insert_ne; [done|]. intros ->.
    destruct (ok_bev _ _ _ _ _ Hok _ _ Hb0) as [Hlt _]. by apply Pos.lt_irrefl in Hlt.
Qed.

Lemma open_queues j qj lj :
  owner (<[i := q']> qs) (<[i := c :: l]> ls) j qj lj → queue_ok h' qj lj.
Proof using All.
  intros [(-> & -> & ->)|[Hne Hj]]%owner_insert; [done|].
  eapply queue_ok_frame; [apply Hq'|exact Hout| |by eapply ok_queue].
  intros p Hp [->|Hp']; [by eapply open_fresh_chain|].
  apply Hne. by eapply (ok_disjoint _ _ _ _ _ Hok).
Qed.

Lemma open_disjoint j k qj qk lj lk p :
  owner (<[i := q']> qs) (<[i := c :: l]> ls) j qj lj →
  owner (<[i := q']> qs) (<[i := c :: l]> ls) k qk lk →
  p ∈ chain qj lj → p ∈ chain qk lk → j = k.
Proof using All.
  intros [(-> & -> & ->)|[_ Hj]]%owner_insert [(-> & -> & ->)|[_ Hk]]%owner_insert;
    rewrite ?open_chain.
  - done.
  - intros [->|Hp] Hp'; [by destruct (open_fresh_chain _ _ _ Hk)|].
    by eapply (ok_disjoint _ _ _ _ _ Hok).
  - intros Hp' [->|Hp]; [by destruct (open_fresh_chain _ _ _ Hj)|].
    by eapply (ok_disjoint _ _ _ _ _ Hok).
  - by eapply (ok_disjoint _ _ _ _ _ Hok).
Qed.

Lemma open_member j lj c0 :
  ls !! j = Some lj → c0 ∈ lj → ∃ lj', <[i := c :: l]> ls !! j = Some lj' ∧ c0 ∈ lj'.
Proof using All.
  intros Hj Hc0. destruct (decide (j = i)) as [->|Hne].
  - exists (c :: l). assert (lj = l) as -> by (destruct Hown; congruence).
    rewrite list_lookup_insert_eq by (by eapply lookup_lt_Some). split; [done|set_solver].
  - exists lj. by rewrite list_lookup_insert_ne.
Qed.

Lemma pool_opened :
  pool_ok h' (Pos.succ bb) (<[bb := bv]> m) (<[i := q']> qs) (<[i := c :: l]> ls).
Proof using All.
  split.
  - rewrite !length_insert. apply Hok.
  - apply Hq'.
  - apply open_queues.
  - apply open_disjoint.
  - intros j lj c0 [(<- & <- & _)|[Hne Hj]]%list_lookup_insert_Some Hc0.
    + apply elem_of_cons in Hc0 as [->|Hc0]; [by eauto|]. destruct Hown as [_ Hl].
      destruct (ok_conn _ _ _ _ _ Hok _ _ _ Hl Hc0) as [b0 Hb0]. eauto using open_old.
    + destruct (ok_conn _ _ _ _ _ Hok _ _ _ Hj Hc0) as [b0 Hb0]. eauto using open_old.
  - intros b0 bv0 [[<- <-]|[Hne Hb0]]%lookup_insert_Some.
    + split; [lia|]. exists i, (c :: l), c. split_and!; [|set_solver|done].
      apply list_lookup_insert_eq. by eapply lookup_lt_Some, Hown.
    + destruct (ok_bev _ _ _ _ _ Hok _ _ Hb0) as (Hlt & j & lj & c0 & Hj & Hc0 & Hco).
      split; [lia|]. destruct (open_member _ _ _ Hj Hc0) as (lj' & ? & ?).
      exists j, lj', c0. eauto using open_old.
Qed.
End opening.

(** [insertConn] followed by the assignments that [notifyHandler] makes. *)
Section inserting.
Context {EB : EvbufferOps}.

Lemma pool_insert (h : ConnHeap) (bb : ptr) (m : gmap ptr (Bufferevent EB)) qs ls i q l fd0 :
  pool_ok h bb m qs ls → owner qs ls i q l →
  ∃ c q' h' o, insertConn q fd0 (Some i) h = Ok ((c, q'), h') ∧ c ∉ l ∧ cells h !! c = None ∧
    cells h' !! c = Some o ∧ payload o = (fd0, Some i, NULL, None, None) ∧
    (∀ p, p ∈ chain q' (c :: l) ↔ p = c ∨ p ∈ chain q l) ∧
    same_outside (λ p, p = c ∨ p ∈ chain q l) h h' ∧
    let h2 := mkHeap (brk h') (<[c := set_thread (Some i) (set_bev (Some bb) o)]> (cells h')) in
    ∀ bv, bev_data bv = Some c →
      pool_ok h2 (Pos.succ bb) (<[bb := bv]> m) (<[i := q']> qs) (<[i := c :: l]> ls) ∧
      conn_open h2 (<[bb := bv]> m) i c bb.
Proof.
  intros Hok Hown. pose proof (ok_queue _ _ _ _ _ Hok _ _ _ Hown) as Hq.
  destruct (insertConn_spec h q l fd0 (Some i) Hq)
    as (h' & Hrun & Hq' & Hbrk & Hnew & Hsame & Hout).
  pose proof (heap_wf_brk _ (ok_heap _ _ _ _ _ Hok)) as Hfresh.
  revert Hrun Hq' Hnew Hsame Hout Hfresh. generalize (brk h). intros c Hrun Hq' Hnew Hsame Hout Hfresh.
  destruct (cells h' !! c) as [o|] eqn:Ho; [|done].
  assert (Hpay : payload o = (fd0, Some i, NULL, None, None)) by (injection Hnew; intros; unfold payload; congruence).
  clear Hnew. eexists c, _, h', o. split_and!; [exact Hrun| |done|done|done| |exact Hout|].
  { intros Hin. destruct Hown as [_ Hl]. 
    destruct (ok_conn _ _ _ _ _ Hok _ _ _ Hl Hin) as (b & x & ? & Hx & _). by rewrite Hfresh in Hx. }
  { intros p. unfold chain. simpl. rewrite !elem_of_cons. tauto. }
  intros h2 bv Hd. set (o' := set_thread (Some i) (set_bev (Some bb) o)) in *.
  assert (Hcc : conn_open h2 (<[bb := bv]> m) i c bb).
  { exists (payload o'), bv. simpl. rewrite !lookup_insert_eq. split_and!; try done.
    unfold payload in Hpay. injection Hpay as _ _ _ Hr Hw. by split; left. }
  split; [|exact Hcc]. eapply (pool_opened h h2 bb m qs ls i q _ l c bv); try done.
  - eapply queue_ok_payload; [| |exact Hq'].
    + apply heap_wf_insert; [destruct h'; apply Hq'|eauto].
    + intros p Hp. destruct (queue_alive _ _ _ _ Hq' Hp) as [op Hop]. simpl.
      destruct (decide (p = c)) as [->|Hne].
      * exists o, o'. by rewrite lookup_insert_eq.
      * exists op, op. by rewrite lookup_insert_ne.
  - intros p Hp. simpl. rewrite lookup_insert_ne by done. by apply Hsame.
  - intros p Hp. simpl. rewrite lookup_insert_ne by (intros ->; tauto). by apply Hout.
Qed.
End inserting.

(** ** Closing a connection *)

Section closing.
Context {EB : EvbufferOps} (h h' : ConnHeap) (bb : ptr) (m : gmap ptr (Bufferevent EB)).
Context (qs : list ConnQueue) (ls : list (list ptr)) (i : nat) (q q' : ConnQueue) (l : list ptr).
Context (c b : ptr).
Context (Hok : pool_ok h bb m qs ls) (Hown : owner qs ls i q l).
Context (Hq' : queue_ok h' q' (filter (λ x, x ≠ c) l)).
Context (Hhead : head q' = head q) (Htail : tail q' = tail q).
Context (Hsame : same_payload (λ r, r = c) h h').
Context (Hout : same_outside (λ r, r ∈ chain q l) h h').
Context (Hcc : conn_open h m i c b).

Lemma close_chain p : p ∈ chain q' (filter (λ x, x ≠ c) l) → p ∈ chain q l.
Proof using All.
  unfold chain. rewrite Hhead, Htail. rewrite !elem_of_cons, !elem_of_app.
  rewrite list_elem_of_filter. tauto.
Qed.

Lemma close_other j c0 b0 : c0 ≠ c → conn_open h m j c0 b0 → conn_open h' (delete b m) j c0 b0.
Proof using All.
  intros Hne Ho. assert (b0 ≠ b).
  { intros ->. by destruct (conn_open_conn _ _ _ _ _ _ _ Hcc Ho). }
  eapply conn_open_mono; [by apply Hsame| |done].
  intros bv0 Hb0. exists bv0. by rewrite lookup_delete_ne.
Qed.

Lemma close_member j lj c0 :
  c0 ≠ c → ls !! j = Some lj → c0 ∈ lj →
  ∃ lj', <[i := filter (λ x, x ≠ c) l]> ls !! j = Some lj' ∧ c0 ∈ lj'.
Proof using All.
  intros Hc Hj Hc0. destruct (decide (j = i)) as [->|Hne].
  - eexists. assert (lj = l) as -> by (destruct Hown; congruence).
    rewrite list_lookup_insert_eq by (by eapply lookup_lt_Some).
    split; [done|]. by apply list_elem_of_filter.
  - exists lj. by rewrite list_lookup_insert_ne.
Qed.

Lemma pool_closed :
  pool_ok h' bb (delete b m) (<[i := q']> qs) (<[i := filter (λ x, x ≠ c) l]> ls).
Proof using All.
  split.
  - rewrite !length_insert. apply Hok.
  - apply Hq'.
  - intros j qj lj [(-> & -> & ->)|[Hne Hj]]%owner_insert; [done|].
    eapply queue_ok_frame; [apply Hq'|exact Hout| |by eapply ok_queue].
    intros p Hp Hp'. apply Hne. by eapply (ok_disjoint _ _ _ _ _ Hok).
  - intros j k qj qk lj lk p [(-> & -> & ->)|[_ Hj]]%owner_insert
      [(-> & -> & ->)|[_ Hk]]%owner_insert Hp Hp';
      try apply close_chain in Hp; try apply close_chain in Hp';
      by eapply (ok_disjoint _ _ _ _ _ Hok).
  - intros j lj c0 [(<- & <- & _)|[Hne Hj]]%list_lookup_insert_Some Hc0.
    + apply list_elem_of_filter in Hc0 as [Hc Hc0]. destruct Hown as [_ Hl].
      destruct (ok_conn _ _ _ _ _ Hok _ _ _ Hl Hc0) as [b0 Hb0]. eauto using close_other.
    + destruct (ok_conn _ _ _ _ _ Hok _ _ _ Hj Hc0) as [b0 Hb0]. exists b0.
      apply close_other; [|done]. intros ->.
      by destruct (conn_open_bev _ _ _ _ _ _ _ Hcc Hb0) as [_ ?].
  - intros b0 bv0 [Hne Hb0]%lookup_delete_Some.
    destruct (ok_bev _ _ _ _ _ Hok _ _ Hb0) as (Hlt & j & lj & c0 & Hj & Hc0 & Hco).
    split; [lia|]. assert (c0 ≠ c).
    { intros ->. by destruct (conn_open_bev _ _ _ _ _ _ _ Hcc Hco). }
    destruct (close_member _ _ _ ltac:(done) Hj Hc0) as (lj' & ? & ?).
    exists j, lj', c0. eauto using close_other.
Qed.
End closing.

(** ** Changes to an open connection *)

Section changing.
Context {EB : EvbufferOps}.
Implicit Types (h : ConnHeap) (m : gmap ptr (Bufferevent EB)) (c b : ptr).

(** The buffers of a bufferevent change. *)
Lemma pool_buffers h bb m qs ls b (bv bv' : Bufferevent EB) :
  m !! b = Some bv → bev_data bv' = bev_data bv →
  pool_ok h bb m qs ls → pool_ok h bb (<[b := bv']> m) qs ls.
Proof.
  intros Hb Hd [Hlen Hwf Hq Hdisj Hc Hbev].
  assert (Hmono : ∀ j c0 b0, conn_open h m j c0 b0 → conn_open h (<[b := bv']> m) j c0 b0).
  { intros j c0 b0. apply conn_open_mono; [done|]. intros bv0 Hb0.
    destruct (decide (b0 = b)) as [->|Hne].
    - exists bv'. rewrite lookup_insert_eq. split; congruence.
    - exists bv0. by rewrite lookup_insert_ne. }
  split; try done.
  - intros j lj c0 Hj Hc0. destruct (Hc _ _ _ Hj Hc0) as [b0 Hb0]. eauto.
  - intros b0 bv0 Hb0.
    assert (is_Some (m !! b0)) as [bv1 Hb1].
    { apply lookup_insert_Some in Hb0 as [[<- _]|[_ Hb0]]; eauto. }
    destruct (Hbev _ _ Hb1) as (Hlt & j & lj & c0 & ? & ? & ?). eauto 10.
Qed.

(** A member of the connection's object changes, links apart. *)
Lemma pool_object h bb m qs ls c o o' b :
  cells h !! c = Some o → pre o' = pre o → next o' = next o →
  thread o' = thread o → bev o' = bev o → bev o = Some b → bufs_ok b (payload o') →
  pool_ok h bb m qs ls → pool_ok (mkHeap (brk h) (<[c := o']> (cells h))) bb m qs ls.
Proof.
  intros Ho Hpre Hnext Hth Hbev Hb Hbufs [Hlen Hwf Hq Hdisj Hc Hbv].
  assert (Hwf' : heap_wf (mkHeap (brk h) (<[c := o']> (cells h)))).
  { apply heap_wf_insert; [|by eauto]. by destruct h. }
  assert (Hmono : ∀ j c0 b0, conn_open h m j c0 b0 →
    conn_open (mkHeap (brk h) (<[c := o']> (cells h))) m j c0 b0).
  { intros j c0 b0 (x & bv0 & Hx & Ht & Hbx & Hb0 & Hm & Hd).
    destruct (decide (c0 = c)) as [->|Hne].
    - rewrite Ho in Hx. simpl in Hx. injection Hx as <-. simpl in Ht, Hbx.
      exists (payload o'), bv0. simpl. rewrite lookup_insert_eq, Hth, Hbev. simpl.
      assert (b0 = b) as -> by congruence. done.
    - exists x, bv0. simpl. by rewrite lookup_insert_ne. }
  split; try done.
  - intros j qj lj Hj. eapply queue_ok_payload; [done| |by eapply Hq].
    intros p Hp. destruct (queue_alive _ _ _ _ (Hq _ _ _ Hj) Hp) as [op Hop]. simpl.
    destruct (decide (p = c)) as [->|Hne].
    + exists o, o'. by rewrite lookup_insert_eq.
    + exists op, op. by rewrite lookup_insert_ne.
  - intros j lj c0 Hj Hc0. destruct (Hc _ _ _ Hj Hc0) as [b0 Hb0]. eauto.
  - intros b0 bv0 Hb0. destruct (Hbv _ _ Hb0) as (Hlt & j & lj & c0 & ? & ? & ?). eauto 10.
Qed.
End changing.

(** ** The pool of a world *)

Lemma alter_twice {A} (f g : A → A) i (l : list A) :
  alter f i (alter g i l) = alter (f ∘ g) i l.
Proof.
  revert i. induction l as [|x l IH]; intros [|i]; try done. cbn. f_equal. exact (IH i).
Qed.

(** A thread apart from its queue. *)
Definition core (th : LibeventThread) : LibeventThread := set_queue (mkQueue 0 1 1) th.

Lemma list_lookup_alter_eq_Some {A} (f : A → A) i (l : list A) x :
  l !! i = Some x → alter f i l !! i = Some (f x).
Proof. intros H. by rewrite list_lookup_alter_eq, H. Qed.

Section world_pool.
Context {EB : EvbufferOps} {E : Type}.
Implicit Types (w : World EB E) (c b : ptr) (ls : list (list ptr)).

Definition conns_ok w ls : Prop :=
  pool_ok (w_heap w) (w_bev_brk w) (w_bevs w) (connect_queue <$> w_threads w) ls.
Definition open_in w i c b : Prop := conn_open (w_heap w) (w_bevs w) i c b.

Lemma queues_set_queue (ts : list LibeventThread) i q :
  connect_queue <$> alter (set_queue q) i ts = <[i := q]> (connect_queue <$> ts).
Proof.
  revert i. induction ts as [|t ts IH]; intros [|i]; try done.
  cbn. f_equal. exact (IH i).
Qed.
Lemma cores_set_queue (ts : list LibeventThread) i q :
  core <$> alter (set_queue q) i ts = core <$> ts.
Proof.
  revert i. induction ts as [|t ts IH]; intros [|i]; try done.
  cbn. f_equal. exact (IH i).
Qed.
Lemma queues_alter (ts : list LibeventThread) i f :
  (∀ t, connect_queue (f t) = connect_queue t) →
  connect_queue <$> alter f i ts = connect_queue <$> ts.
Proof.
  intros Hf. revert i. induction ts as [|t ts IH]; intros [|i]; try done; cbn; f_equal;
    [apply Hf | exact (IH i)].
Qed.

Lemma open_object w i c b :
  open_in w i c b → ∃ o bv, cells (w_heap w) !! c = Some o ∧ thread o = Some i ∧
    bev o = Some b ∧ bufs_ok b (payload o) ∧ w_bevs w !! b = Some bv ∧ bev_data bv = Some c.
Proof.
  intros (x & bv & Hx & Ht & Hb & Hbufs & Hbv & Hd).
  destruct (cells (w_heap w) !! c) as [o|]; [|done]. simpl in Hx. injection Hx as <-.
  exists o, bv. done.
Qed.

Lemma conns_thread w ls i c b :
  conns_ok w ls → open_in w i c b →
  ∃ th l, w_threads w !! i = Some th ∧ ls !! i = Some l ∧ c ∈ l.
Proof.
  intros Hok Ho. destruct (pool_conn _ _ _ _ _ _ _ _ Hok Ho) as ((l & Hl & Hc) & q & Hq).
  apply list_lookup_fmap_Some in Hq as (th & -> & Hth). eauto.
Qed.

(** [p] is an object or a sentinel of one of the queues. *)
Definition in_pool w ls p : Prop :=
  ∃ i q l, owner (connect_queue <$> w_threads w) ls i q l ∧ p ∈ chain q l.

(** An operation stays within the queues and what it allocates: what else is in
    the heap is not touched and does not enter a queue. *)
Definition confined w ls w' ls' : Prop := ∀ p, is_Some (cells (w_heap w) !! p) → ¬ in_pool w ls p →
  cells (w_heap w') !! p = cells (w_heap w) !! p ∧ ¬ in_pool w' ls' p.

Lemma confined_queues w w' ls :
  w_heap w' = w_heap w → connect_queue <$> w_threads w' = connect_queue <$> w_threads w → confined w ls w' ls.
Proof. intros Hh Hq p _ Hp. rewrite Hh. split; [done|]. unfold in_pool in *. by rewrite Hq. Qed.

Lemma confined_trans w1 ls1 w2 ls2 w3 ls3 :
  confined w1 ls1 w2 ls2 → confined w2 ls2 w3 ls3 → confined w1 ls1 w3 ls3.
Proof.
  intros H12 H23 p Hp Hn. destruct (H12 p Hp Hn) as [Hc Hn2].
  destruct (H23 p) as [Hc3 Hn3]; [by rewrite Hc|done|]. by rewrite Hc3.
Qed.

Lemma open_in_pool w ls i c b : conns_ok w ls → open_in w i c b → in_pool w ls c.
Proof.
  intros Hok Ho. destruct (conns_thread _ _ _ _ _ Hok Ho) as (th & l & Hth & Hl & Hc).
  exists i, (connect_queue th), l. split; [split; [by rewrite list_lookup_fmap, Hth|done]|].
  unfold chain. set_solver.
Qed.

(** One queue of the pool changes, to some of its objects and new ones. *)
Lemma confined_queue w w' ls i q l q' l' :
  owner (connect_queue <$> w_threads w) ls i q l →
  connect_queue <$> w_threads w' = <[i := q']> (connect_queue <$> w_threads w) →
  (∀ p, is_Some (cells (w_heap w) !! p) → p ∈ chain q' l' → p ∈ chain q l) →
  (∀ p, is_Some (cells (w_heap w) !! p) → p ∉ chain q l → cells (w_heap w') !! p = cells (w_heap w) !! p) →
  confined w ls w' (<[i := l']> ls).
Proof.
  intros Hown Hqs Hin Hout p Hp Hn.
  assert (Hpq : p ∉ chain q l) by (intros H; apply Hn; by exists i, q, l).
  split; [by apply Hout|]. intros (j & qj & lj & Hj & Hpj). rewrite Hqs in Hj.
  apply owner_insert in Hj as [(-> & -> & ->)|[Hne Hj]]; [by apply Hpq, Hin|].
  apply Hn. by exists j, qj, lj.
Qed.

(** Closing: both orders in which the code deletes the connection and frees the
    bufferevent give the same state. *)
Lemma close_run w ls i c b :
  conns_ok w ls → open_in w i c b →
  ∃ h' q' l, ls !! i = Some l ∧
    let ts' := alter (set_queue q') i (w_threads w) in
    let w' := mkWorld h' (w_bev_brk w) (delete b (w_bevs w)) ts' (w_ext w) in
    (_ ← thread_deleteConn c; bufferevent_free (Some b)) w = Ok (tt, w') ∧
    (_ ← bufferevent_free (Some b); thread_deleteConn c) w = Ok (tt, w') ∧
    conns_ok w' (<[i := filter (λ x, x ≠ c) l]> ls) ∧ cells h' !! c = None ∧
    confined w ls w' (<[i := filter (λ x, x ≠ c) l]> ls).
Proof.
  intros Hok Ho. destruct (open_object _ _ _ _ Ho) as (o & bv & Hc & Ht & Hb & _ & Hbv & _).
  destruct (conns_thread _ _ _ _ _ Hok Ho) as (th & l & Hth & Hl & Hcl).
  assert (Hown : owner (connect_queue <$> w_threads w) ls i (connect_queue th) l)
    by (split; [by rewrite list_lookup_fmap, Hth | done]).
  pose proof (ok_queue _ _ _ _ _ Hok _ _ _ Hown) as Hq.
  destruct (delete_member _ _ _ _ Hq Hcl) as (h' & Hrun & Hq' & _ & Hdel & Hsame & Hout).
  set (q' := mkQueue _ _ _) in *.
  assert (Hdelete : ∀ m, thread_deleteConn c (set_bevs m w) =
    Ok (tt, mkWorld h' (w_bev_brk w) m (alter (set_queue q') i (w_threads w)) (w_ext w))).
  { intros m. unfold thread_deleteConn, getThread. rewrite bind_assoc.
    erewrite bind_run by (by apply conn_at_run). rewrite ret_run_bind, Ht.
    erewrite bind_run by (by apply thread_at_run).
    by erewrite bind_run by (by apply on_heap_run). }
  exists h', q', l. split; [done|]. cbn zeta. split_and!; [| | |done|].
  - rewrite <- (set_bevs_id w) at 1. erewrite bind_run by apply Hdelete.
    by rewrite bufferevent_free_run by (simpl; eauto).
  - erewrite bind_run by (by apply bufferevent_free_run; eauto). apply Hdelete.
  - unfold conns_ok. simpl. rewrite queues_set_queue.
    eapply (pool_closed _ _ _ _ _ _ _ (connect_queue th) q'); eauto.
  - eapply confined_queue; [exact Hown|apply queues_set_queue| |].
    + intros p _. unfold chain, q'. cbn [head tail]. rewrite !elem_of_cons, !elem_of_app, list_elem_of_filter. tauto.
    + intros p _ Hp. by apply Hout.
Qed.

(** The handlers store the buffers of the bufferevent in the connection. *)
Lemma set_buf_run w ls i c b f :
  conns_ok w ls → open_in w i c b →
  (∀ o, bev o = Some b → bufs_ok b (payload o) → pre (f o) = pre o ∧ next (f o) = next o ∧
    thread (f o) = thread o ∧ bev (f o) = bev o ∧ bufs_ok b (payload (f o))) →
  ∃ o w', cells (w_heap w) !! c = Some o ∧ conn_update c f w = Ok (tt, w') ∧ conns_ok w' ls ∧
    open_in w' i c b ∧ cells (w_heap w') !! c = Some (f o) ∧
    w' = set_heap (w_heap w') w ∧ confined w ls w' ls.
Proof.
  intros Hok Ho Hf. destruct (open_object _ _ _ _ Ho) as (o & bv & Hc & Ht & Hb & Hbufs & Hbv & Hd).
  destruct (Hf o Hb Hbufs) as (Hp & Hn & Hth & Hbv' & Hbufs').
  exists o. eexists. split; [done|]. split; [by apply conn_update_run|].
  split_and!; [|..|done|].
  - unfold conns_ok. simpl. by eapply pool_object.
  - exists (payload (f o)), bv. simpl. rewrite lookup_insert_eq, Hth, Hbv'. done.
  - simpl. apply lookup_insert_eq.
  - intros p _ Hout. split; [|exact Hout]. simpl. apply lookup_insert_ne. intros ->.
    by eapply Hout, open_in_pool.
Qed.
End world_pool.
