(* ===== verification/TcpServer.v ===== *)
(** * The server: [class TcpServer] (src/tcpServer.h, src/tcpServer.cpp)

    One main thread accepts connections and hands each one to the worker with
    the fewest, through a pipe; a worker registers the connection in its queue
    and runs the callbacks of the application on its events.  The handlers are
    computations on the state of the process; [event], [handle] and [enabled]
    say what the event loops may run, and [server_step] is one such run. *)

From S2P Require Import Prelude Endian ConnQueue External World.

(** ** The server object *)

(** [sockaddr_in] as [startRun] fills it: port and address in network order. *)
Record sockaddr_in := mkSockaddr { sin_port : Z; sin_addr : Z }.

(** The callbacks are codes of type [K]; [listener] is the address that the
    running server is bound to, [app] the state behind the callbacks. *)
Record TcpServer {K A : Type} := mkServer {
  read_cb : option K;
  write_cb : option K;
  connect_cb : option K;
  event_cb : option K;
  thread_count : Z;
  port : Z;
  ip : string;
  main_base : LibeventThread;
  listener : option sockaddr_in;
  app : A
}.
Arguments TcpServer K A : clear implicits.
Arguments mkServer {K A} _ _ _ _ _ _ _ _ _ _.

Definition EXIT_CODE : Z := -1.

Section setters.
Context {K A : Type}.
Implicit Types (s : TcpServer K A).

Definition set_callbacks r w c e s : TcpServer K A := mkServer r w c e (thread_count s) (port s) (ip s)
  (main_base s) (listener s) (app s).
Definition set_main_base b s : TcpServer K A := mkServer (read_cb s) (write_cb s) (connect_cb s) (event_cb s)
  (thread_count s) (port s) (ip s) b (listener s) (app s).
Definition set_listener l s : TcpServer K A := mkServer (read_cb s) (write_cb s) (connect_cb s) (event_cb s)
  (thread_count s) (port s) (ip s) (main_base s) l (app s).
Definition set_app a s : TcpServer K A := mkServer (read_cb s) (write_cb s) (connect_cb s) (event_cb s)
  (thread_count s) (port s) (ip s) (main_base s) (listener s) a.

Definition setReadCallback (cb : option K) s : TcpServer K A :=
  set_callbacks cb (write_cb s) (connect_cb s) (event_cb s) s.
Definition setWriteCallback (cb : option K) s : TcpServer K A :=
  set_callbacks (read_cb s) cb (connect_cb s) (event_cb s) s.
Definition setConnectionCallback (cb : option K) s : TcpServer K A :=
  set_callbacks (read_cb s) (write_cb s) cb (event_cb s) s.
Definition setEventCallback (cb : option K) s : TcpServer K A :=
  set_callbacks (read_cb s) (write_cb s) (connect_cb s) cb s.
End setters.

(** What the codes of the callbacks do. *)
Class Callbacks {EB : EvbufferOps} (K A : Type) := {
  call : K → ptr → M (World EB (TcpServer K A)) unit;
  call_event : K → ptr → Z → M (World EB (TcpServer K A)) unit
}.

(** What the system answers while a thread is set up. *)
Record thread_env := mkThreadEnv {
  env_base : bool;
  env_pipe : option (Z * Z);
  env_event_add : bool
}.

(** What the system answers to [startRun]: [inet_pton], the listener, and the
    identifiers of the created threads. *)
Record start_env := mkStartEnv {
  env_inet_pton : string → option Z;
  env_listener : bool;
  env_pthread : nat → option Z
}.

Section TcpServer.
Context {EB : EvbufferOps} {K A : Type} {CB : Callbacks K A}.
Context (host : endian).
Abbreviation W := (World EB (TcpServer K A)).
Abbreviation MW := (M (World EB (TcpServer K A))).

(** *** Construction *)

Definition event_base_new (available : bool) : option event_base :=
  if available then Some (mkBase false) else None.

Definition setupThread (i : nat) (env : thread_env) : MW unit :=
  match event_base_new (env_base env) with
  | None => throw "child thread event_base_new error:"
  | Some b =>
      _ ← thread_update i (set_base (Some b));
      match env_pipe env with
      | None => throw "child thread pipe create error:"
      | Some (rd, wr) =>
          _ ← thread_update i (set_notify_fds wr rd);
          if env_event_add env then thread_update i (set_registered true)
          else throw "child thread add event error:"
      end
  end.

(** [for (int i = 0; i < n; i++)] *)
Fixpoint for_each (idx : list nat) (body : nat → MW unit) : MW unit :=
  match idx with
  | [] => mret tt
  | i :: idx => _ ← body i; for_each idx body
  end.

(** [new LibeventThread[n]] *)
Fixpoint new_threads (n : nat) : M ConnHeap (list LibeventThread) :=
  match n with
  | O => mret []
  | S n => th ← LibeventThread_init; ths ← new_threads n; mret (th :: ths)
  end.

Definition TcpServer_init (count : Z) (ip0 : string) (port0 : Z) (a : A)
    (self : Z) (main_env : bool) (envs : nat → thread_env) : MW unit :=
  mb ← on_heap LibeventThread_init;
  _ ← (if decide (count < 0) then throw "std::bad_array_new_length" else mret tt);
  ths ← on_heap (new_threads (Z.to_nat count));
  _ ← modify (λ w, set_threads ths (set_ext
        (mkServer None None None None count port0 ip0 (set_thread_id self mb) None a) w));
  match event_base_new main_env with
  | None => throw "main thread event_base_new error:"
  | Some b =>
      _ ← on_ext (modify (λ s, set_main_base (set_base (Some b) (main_base s)) s));
      for_each (seq 0 (Z.to_nat count)) (λ i, setupThread i (envs i))
  end.

(** *** Handlers *)

Definition event_base_loopbreak (i : nat) : MW unit :=
  th ← thread_at (Some i);
  match base th with
  | None => raise NullDeref
  | Some _ => thread_update i (set_base (Some (mkBase true)))
  end.

(** An optional callback; [run] invokes it. *)
Definition when_set (cb : option K) (run : K → MW unit) : MW unit :=
  match cb with None => mret tt | Some k => run k end.

(** [read_ok] says whether [read] succeeds, [bev_ok] whether a bufferevent can
    be had. *)
Definition notifyHandler (i : nat) (read_ok bev_ok : bool) : MW unit :=
  th ← thread_at (Some i);
  if negb read_ok then mret tt else
  match notify_pipe th with
  | [] => raise Blocks
  | confd :: rest =>
      _ ← thread_update i (set_pipe rest);
      if decide (confd = EXIT_CODE) then event_base_loopbreak i else
      bev ← bufferevent_socket_new bev_ok confd;
      match bev with
      | None => mret tt
      | Some b =>
          conn ← thread_insertConn i confd;
          _ ← conn_update conn (set_bev (Some b));
          _ ← conn_update conn (set_thread (Some i));
          _ ← bufferevent_setcb (Some b) conn;
          s ← gets w_ext;
          when_set (connect_cb s) (λ k, call k conn)
      end
  end.

(** [conn->getThread()->tcp_server]: every thread belongs to the one server. *)
Definition server_of (conn : ptr) : MW (TcpServer K A) :=
  t ← getThread conn;
  _ ← thread_at t;
  gets w_ext.

Definition bufferReadCb (b data : ptr) : MW unit :=
  inp ← bufferevent_get_input (Some b);
  _ ← conn_update data (set_readBuf (Some inp));
  out ← bufferevent_get_output (Some b);
  _ ← conn_update data (set_writeBuf (Some out));
  s ← server_of data;
  when_set (read_cb s) (λ k, call k data).

Definition bufferWriteCb (b data : option ptr) : MW unit :=
  match b, data with
  | Some b, Some data =>
      inp ← bufferevent_get_input (Some b);
      _ ← conn_update data (set_readBuf (Some inp));
      out ← bufferevent_get_output (Some b);
      _ ← conn_update data (set_writeBuf (Some out));
      s ← server_of data;
      when_set (write_cb s) (λ k, call k data)
  | _, _ => mret tt
  end.

Definition bufferEventCb (b : ptr) (events : Z) (data : ptr) : MW unit :=
  s ← server_of data;
  _ ← when_set (event_cb s) (λ k, call_event k data events);
  _ ← thread_deleteConn data;
  bufferevent_free (Some b).

(** The loop of [acceptCb] over the indices [idx]. *)
Fixpoint acceptCb_loop (idx : list nat) (num : nat) : MW nat :=
  match idx with
  | [] => mret num
  | i :: idx =>
      tn ← thread_at (Some num);
      ti ← thread_at (Some i);
      acceptCb_loop idx
        (if decide (getCount (connect_queue ti) < getCount (connect_queue tn)) then i else num)
  end.

(** [write(threads[num].notify_send_fd, &v, sizeof v)]; the result is ignored. *)
Definition notify_write (num : nat) (write_ok : bool) (v : Z) : MW unit :=
  _ ← thread_at (Some num);
  if write_ok then thread_update num (λ th, set_pipe (notify_pipe th ++ [v]) th) else mret tt.

Definition acceptCb (fd0 : Z) (write_ok : bool) : MW unit :=
  s ← gets w_ext;
  num ← acceptCb_loop (seq 0 (Z.to_nat (thread_count s))) 0;
  notify_write num write_ok fd0.

(** *** Starting and stopping *)

Definition htons (p : Z) : Z := htobe host 2 (u16 p).

(** [startRun] up to the loop of the main thread; the loops themselves are the
    steps of [server_step]. *)
Definition startRun (env : start_env) : MW unit :=
  s ← gets w_ext;
  addr ← (if decide (ip s = "") then mret 0
          else match env_inet_pton env (ip s) with
               | None => throw "sokcet ip error:"
               | Some a => mret a
               end);
  _ ← (if env_listener env
       then on_ext (modify (set_listener (Some (mkSockaddr (htons (port s)) addr))))
       else throw "create listener error:");
  for_each (seq 0 (Z.to_nat (thread_count s))) (λ i,
    _ ← thread_at (Some i);
    match env_pthread env i with
    | None => throw "pthread_create error:"
    | Some t => thread_update i (set_thread_id t)
    end).

(** The end of [startRun], when the loop of the main thread returns. *)
Definition startRun_end : MW unit := on_ext (modify (set_listener None)).

Definition quit (write_ok : nat → bool) : MW unit :=
  s ← gets w_ext;
  _ ← for_each (seq 0 (Z.to_nat (thread_count s))) (λ i, notify_write i (write_ok i) EXIT_CODE);
  match base (main_base s) with
  | None => raise NullDeref
  | Some _ => on_ext (modify (λ s, set_main_base (set_base (Some (mkBase true)) (main_base s)) s))
  end.

(** [event_base_free] *)
Definition free_base (b : option event_base) : MW unit :=
  match b with None => raise NullDeref | Some _ => mret tt end.

(** [delete[]] destroys the last element first. *)
Definition TcpServer_destroy (fuel : nat) (write_ok : nat → bool) : MW unit :=
  _ ← quit write_ok;
  s ← gets w_ext;
  _ ← free_base (base (main_base s));
  _ ← for_each (seq 0 (Z.to_nat (thread_count s))) (λ i,
        th ← thread_at (Some i); free_base (base th));
  _ ← on_heap (ConnQueue_destroy fuel (connect_queue (main_base s)));
  _ ← for_each (rev (seq 0 (Z.to_nat (thread_count s)))) (λ i,
        th ← thread_at (Some i); on_heap (ConnQueue_destroy fuel (connect_queue th)));
  modify (set_threads []).

(** *** The event loops *)

(** What an event loop can run next.  Before a read callback libevent has put
    what it received into the input buffer, before a write callback it has sent
    from the output buffer. *)
Inductive event :=
  | EAccept (fd0 : Z) (write_ok : bool)
  | ENotify (i : nat) (read_ok bev_ok : bool)
  | ERead (b : ptr) (input : evbuffer)
  | EWrite (b : ptr) (output : evbuffer)
  | EEvent (b : ptr) (events : Z)
  | EQuit (write_ok : nat → bool).

Definition data_of (b : ptr) : MW ptr :=
  bv ← bev_at (Some b); expect Uninit (bev_data bv).

Definition handle (e : event) : MW unit :=
  match e with
  | EAccept fd0 ok => acceptCb fd0 ok
  | ENotify i r b => notifyHandler i r b
  | ERead b e =>
      c ← data_of b; _ ← buf_store (Some (mkBufref b Input)) e; bufferReadCb b c
  | EWrite b e =>
      c ← data_of b; _ ← buf_store (Some (mkBufref b Output)) e; bufferWriteCb (Some b) (Some c)
  | EEvent b ev => c ← data_of b; bufferEventCb b ev c
  | EQuit ok => quit ok
  end.

(** Accepting needs a listener; a pipe is read when there is something to read;
    events occur on live bufferevents. *)
Definition enabled (e : event) (w : W) : Prop :=
  match e with
  | EAccept _ _ => listener (w_ext w) ≠ None
  | ENotify i _ _ => ∃ th, w_threads w !! i = Some th ∧ base th = Some (mkBase false) ∧
                           notify_pipe th ≠ []
  | ERead b _ | EWrite b _ | EEvent b _ => is_Some (w_bevs w !! b)
  | EQuit _ => True
  end.

Definition server_step (w w' : W) : Prop :=
  ∃ e, enabled e w ∧ handle e w = Ok (tt, w').
End TcpServer.
