(* ===== verification/ServerInv.v ===== *)
(** * The invariant of the server

    [server_ok] holds of every state the event loops reach: the pool of
    connections is consistent and every thread has its event base.  [ServerApp]
    is the contract of the application's callbacks; under it every event that an
    event loop can run is handled without a fault and keeps the invariant. *)

From S2P Require Import Prelude ConnQueue External World Pool TcpServer.

Section contract.
Context {EB : EvbufferOps} {K A : Type} {CB : Callbacks K A}.
Abbreviation W := (World EB (TcpServer K A)).

(** The server object apart from the state of the application. *)
Definition config (s : TcpServer K A) :=
  (read_cb s, write_cb s, connect_cb s, event_cb s, thread_count s, port s, ip s,
   main_base s, listener s).

(** Threads and server are the same, queues and application apart. *)
Record quiet (w w' : W) : Prop := {
  quiet_cores : core <$> w_threads w' = core <$> w_threads w;
  quiet_config : config (w_ext w') = config (w_ext w)
}.

(** The queue of the main thread, which nothing uses, is empty and apart from the
    queues of the workers. *)
Definition main_queue (w : W) : ConnQueue := connect_queue (main_base (w_ext w)).
Definition main_apart (w : W) (ls : list (list ptr)) : Prop :=
  queue_ok (w_heap w) (main_queue w) [] ∧ ∀ p, p ∈ chain (main_queue w) [] → ¬ in_pool w ls p.

Record server_ok (w : W) (ls : list (list ptr)) : Prop := {
  so_conns : conns_ok w ls;
  so_apart : main_apart w ls;
  so_count : thread_count (w_ext w) = lenZ (w_threads w);
  so_bases : Forall (λ th, base th ≠ None) (w_threads w);
  so_main : base (main_base (w_ext w)) ≠ None
}.

(** The buffer pointers of the connection are set. *)
Definition bufs_set (w : W) (c b : ptr) : Prop := ∃ o, cells (w_heap w) !! c = Some o ∧
  readBuf o = Some (mkBufref b Input) ∧ writeBuf o = Some (mkBufref b Output).

(** The callbacks return, keep the invariant, and leave the threads and the
    configuration alone.  They may close the connection they are called for,
    except the event callback, after which the server itself does so. *)
Class ServerApp (app_inv : A → Prop) : Prop := {
  connect_handled k w ls i c b :
    connect_cb (w_ext w) = Some k → server_ok w ls → app_inv (app (w_ext w)) → open_in w i c b →
    ∃ w' ls', call k c w = Ok (tt, w') ∧ server_ok w' ls' ∧ app_inv (app (w_ext w')) ∧ quiet w w';
  data_handled k w ls i c b :
    read_cb (w_ext w) = Some k ∨ write_cb (w_ext w) = Some k →
    server_ok w ls → app_inv (app (w_ext w)) → open_in w i c b → bufs_set w c b →
    ∃ w' ls', call k c w = Ok (tt, w') ∧ server_ok w' ls' ∧ app_inv (app (w_ext w')) ∧ quiet w w';
  event_handled k w ls i c b events :
    event_cb (w_ext w) = Some k → server_ok w ls → app_inv (app (w_ext w)) → open_in w i c b →
    ∃ w' ls', call_event k c events w = Ok (tt, w') ∧ server_ok w' ls' ∧
      app_inv (app (w_ext w')) ∧ quiet w w' ∧ open_in w' i c b
}.
End contract.

Section quiet_lemmas.
Context {EB : EvbufferOps} {K A : Type} {CB : Callbacks K A}.
Implicit Types (w : World EB (TcpServer K A)) (ls : list (list ptr)).

#[export] Instance quiet_preorder : PreOrder (quiet (EB := EB) (K := K) (A := A)).
Proof.
  split; [by split|]. intros w1 w2 w3 [H1 H2] [H3 H4]. split; congruence.
Qed.

Lemma config_fields (s s' : TcpServer K A) : config s = config s' →
  read_cb s = read_cb s' ∧ write_cb s = write_cb s' ∧ connect_cb s = connect_cb s' ∧
  event_cb s = event_cb s' ∧ thread_count s = thread_count s' ∧ main_base s = main_base s' ∧
  listener s = listener s'.
Proof. unfold config. intros [=]. done. Qed.

Lemma main_apart_kept w ls w' ls' :
  main_queue w' = main_queue w → heap_wf (w_heap w') → confined w ls w' ls' →
  main_apart w ls → main_apart w' ls'.
Proof.
  intros Hm Hwf Hc [Hq Hp]. unfold main_apart. rewrite Hm.
  assert (Hkept : ∀ p, p ∈ chain (main_queue w) [] →
    cells (w_heap w') !! p = cells (w_heap w) !! p ∧ ¬ in_pool w' ls' p).
  { intros p Hin. apply Hc; [by eapply queue_alive|by apply Hp]. }
  split; [|intros p Hin; by apply Hkept].
  eapply (queue_ok_frame _ _ _ _ (λ p, p ∉ chain (main_queue w) [])); [done| | |exact Hq].
  - intros p Hn. apply Hkept. by destruct (decide (p ∈ chain (main_queue w) [])).
  - tauto.
Qed.

(** Changes of the threads that keep queues and bases. *)
Lemma server_ok_threads w ls ts :
  connect_queue <$> ts = connect_queue <$> w_threads w →
  Forall (λ th, base th ≠ None) ts → server_ok w ls → server_ok (set_threads ts w) ls.
Proof.
  intros Hq Hb [Hc Ha Hn _ Hm]. split; [| |simpl|done|done].
  - unfold conns_ok in *. simpl. by rewrite Hq.
  - apply (main_apart_kept w ls); [done|apply (ok_heap _ _ _ _ _ Hc)|by apply confined_queues|done].
  - apply (f_equal length) in Hq. rewrite !length_fmap in Hq. by rewrite Hq.
Qed.

Lemma Forall_alter {B} (P : B → Prop) f (l : list B) i :
  (∀ x, P x → P (f x)) → Forall P l → Forall P (alter f i l).
Proof. intros Hf Hl. apply Forall_alter; auto. Qed.

Lemma server_ok_alter w ls i f :
  (∀ th, connect_queue (f th) = connect_queue th) → (∀ th, base th ≠ None → base (f th) ≠ None) →
  server_ok w ls → server_ok (set_threads (alter f i (w_threads w)) w) ls.
Proof.
  intros Hq Hb Hok. apply server_ok_threads; [by apply queues_alter| |done].
  apply Forall_alter; [done|apply Hok].
Qed.

(** Same configuration, another consistent pool over the same threads. *)
Lemma server_ok_pool w w' ls ls' :
  core <$> w_threads w' = core <$> w_threads w → w_ext w' = w_ext w →
  conns_ok w' ls' → confined w ls w' ls' → server_ok w ls → server_ok w' ls'.
Proof.
  intros Hc He Hp Hkeep [_ Ha Hn Hb Hm]. split; [done| | | |by rewrite He].
  - apply (main_apart_kept w ls); [unfold main_queue; by rewrite He|apply (ok_heap _ _ _ _ _ Hp)|done|done].
  - apply (f_equal length) in Hc. rewrite !length_fmap in Hc. by rewrite He, Hc.
  - set (P := λ th, base th ≠ None) in *.
    assert (Forall P (core <$> w_threads w')) as Hf.
    { rewrite Hc. apply Forall_fmap. exact Hb. }
    rewrite Forall_fmap in Hf. exact Hf.
Qed.
End quiet_lemmas.

(** ** The handlers of an open connection *)

Section handlers.
Context {EB : EvbufferOps} {K A : Type} {CB : Callbacks K A}.
Context (app_inv : A → Prop) {SA : ServerApp app_inv}.
Implicit Types (w : World EB (TcpServer K A)) (ls : list (list ptr)) (c b : ptr).

(** The outcome of a handler that changes neither the threads nor the
    configuration. *)
Definition handled (m : M (World EB (TcpServer K A)) unit) w : Prop :=
  ∃ w' ls', m w = Ok (tt, w') ∧ server_ok w' ls' ∧ app_inv (app (w_ext w')) ∧ quiet w w'.

Lemma get_input_run w b : is_Some (w_bevs w !! b) →
  bufferevent_get_input (Some b) w = Ok (mkBufref b Input, w).
Proof. intros [bv H]. unfold bufferevent_get_input. by erewrite bind_run by (by apply bev_at_run). Qed.
Lemma get_output_run w b : is_Some (w_bevs w !! b) →
  bufferevent_get_output (Some b) w = Ok (mkBufref b Output, w).
Proof. intros [bv H]. unfold bufferevent_get_output. by erewrite bind_run by (by apply bev_at_run). Qed.

Lemma server_of_run w ls i c b :
  conns_ok w ls → open_in w i c b → server_of c w = Ok (w_ext w, w).
Proof.
  intros Hok Ho. destruct (open_object _ _ _ _ Ho) as (o & bv & Hc & Ht & _).
  destruct (conns_thread _ _ _ _ _ Hok Ho) as (th & l & Hth & _).
  unfold server_of, getThread. rewrite bind_assoc.
  erewrite bind_run by (by apply conn_at_run). rewrite ret_run_bind, Ht.
  by erewrite bind_run by (by apply thread_at_run).
Qed.

(** The common beginning of the read and the write handler. *)
Definition store_bufs b c : M (World EB (TcpServer K A)) unit :=
  inp ← bufferevent_get_input (Some b);
  _ ← conn_update c (set_readBuf (Some inp));
  out ← bufferevent_get_output (Some b);
  conn_update c (set_writeBuf (Some out)).

Lemma store_bufs_run w ls i c b :
  conns_ok w ls → open_in w i c b →
  ∃ h, store_bufs b c w = Ok (tt, set_heap h w) ∧ conns_ok (set_heap h w) ls ∧
    open_in (set_heap h w) i c b ∧ bufs_set (set_heap h w) c b ∧ confined w ls (set_heap h w) ls.
Proof.
  intros Hok Ho. destruct (open_object _ _ _ _ Ho) as (o & bv & _ & _ & _ & _ & Hbv & _).
  destruct (set_buf_run w ls i c b (set_readBuf (Some (mkBufref b Input))) Hok Ho)
    as (o1 & w1 & Ho1 & H1 & Hok1 & Hop1 & Hc1 & Hw1 & Hf1).
  { intros o' _ [_ Hr]. split_and!; try done. split; [by right|exact Hr]. }
  destruct (set_buf_run w1 ls i c b (set_writeBuf (Some (mkBufref b Output))) Hok1 Hop1)
    as (o2 & w2 & Ho2 & H2 & Hok2 & Hop2 & Hc2 & Hw2 & Hf2).
  { intros o' _ [Hl _]. split_and!; try done. split; [exact Hl|by right]. }
  assert (w2 = set_heap (w_heap w2) w) as Hw by (rewrite Hw2, Hw1 at 1; done).
  exists (w_heap w2). rewrite <- Hw. split_and!; [|done..| |].
  - unfold store_bufs. mrun (get_input_run w b ltac:(eauto)). mrun H1.
    mrun (get_output_run w1 b ltac:(rewrite Hw1; simpl; eauto)). exact H2.
  - exists (set_writeBuf (Some (mkBufref b Output)) o2). split; [exact Hc2|].
    rewrite Hc1 in Ho2. injection Ho2 as <-. done.
  - by eapply confined_trans.
Qed.

Lemma server_ok_heap w ls h : conns_ok (set_heap h w) ls → confined w ls (set_heap h w) ls →
  server_ok w ls → server_ok (set_heap h w) ls.
Proof. intros Hp. by apply server_ok_pool. Qed.

Lemma data_callback_run w ls i c b (sel : TcpServer K A → option K) :
  (∀ s k, sel s = Some k → read_cb s = Some k ∨ write_cb s = Some k) →
  server_ok w ls → app_inv (app (w_ext w)) → open_in w i c b →
  handled (_ ← store_bufs b c; s ← server_of c; when_set (sel s) (λ k, call k c)) w.
Proof using SA.
  intros Hsel Hok Hi Ho.
  destruct (store_bufs_run w ls i c b (so_conns _ _ Hok) Ho) as (h & Hrun & Hok' & Hop & Hset & Hf).
  assert (Hs : server_ok (set_heap h w) ls) by (by apply server_ok_heap).
  unfold handled. setoid_rewrite (bind_run _ _ _ _ _ Hrun).
  setoid_rewrite (bind_run _ _ _ _ _ (server_of_run _ _ _ _ _ Hok' Hop)). simpl w_ext.
  destruct (sel (w_ext w)) as [k|] eqn:Hk; simpl when_set.
  - destruct (data_handled k (set_heap h w) ls i c b) as (w' & ls' & Hc & ? & ? & [? ?]); auto.
    exists w', ls'. done.
  - by exists (set_heap h w), ls.
Qed.

Lemma bufferReadCb_handled w ls i c b :
  server_ok w ls → app_inv (app (w_ext w)) → open_in w i c b → handled (bufferReadCb b c) w.
Proof using SA.
  intros Hok Hi Ho.
  destruct (data_callback_run w ls i c b read_cb ltac:(auto) Hok Hi Ho) as (w' & ls' & Hrun & H).
  exists w', ls'. split; [|exact H]. rewrite <- Hrun. unfold bufferReadCb, store_bufs.
  rewrite !bind_assoc. apply bind_ext_run. intros inp w1.
  rewrite !bind_assoc. apply bind_ext_run. intros _ w2. by rewrite !bind_assoc.
Qed.

Lemma bufferWriteCb_handled w ls i c b :
  server_ok w ls → app_inv (app (w_ext w)) → open_in w i c b →
  handled (bufferWriteCb (Some b) (Some c)) w.
Proof using SA.
  intros Hok Hi Ho.
  destruct (data_callback_run w ls i c b write_cb ltac:(auto) Hok Hi Ho) as (w' & ls' & Hrun & H).
  exists w', ls'. split; [|exact H]. rewrite <- Hrun. unfold bufferWriteCb, store_bufs.
  rewrite !bind_assoc. apply bind_ext_run. intros inp w1.
  rewrite !bind_assoc. apply bind_ext_run. intros _ w2. by rewrite !bind_assoc.
Qed.

Lemma bufferEventCb_handled w ls i c b ev :
  server_ok w ls → app_inv (app (w_ext w)) → open_in w i c b →
  ∃ w', bufferEventCb b ev c w = Ok (tt, w') ∧ (∃ ls', server_ok w' ls') ∧
    app_inv (app (w_ext w')) ∧ quiet w w' ∧
    cells (w_heap w') !! c = None ∧ w_bevs w' !! b = None.
Proof using SA.
  intros Hok Hi Ho.
  assert (∃ w1 ls1, when_set (event_cb (w_ext w)) (λ k, call_event k c ev) w = Ok (tt, w1) ∧
    server_ok w1 ls1 ∧ app_inv (app (w_ext w1)) ∧ quiet w w1 ∧ open_in w1 i c b)
    as (w1 & ls1 & H1 & Hok1 & Hi1 & Hq1 & Ho1).
  { destruct (event_cb (w_ext w)) as [k|] eqn:Hk; [by eapply event_handled|].
    by exists w, ls. }
  destruct (close_run w1 ls1 i c b (so_conns _ _ Hok1) Ho1)
    as (h' & q' & l & Hl & H2 & _ & Hok2 & Hdel & Hf).
  eexists. split; [|split; [|split; [|split; [|split]]]].
  - unfold bufferEventCb. mrun (server_of_run _ _ _ _ _ (so_conns _ _ Hok) Ho).
    mrun H1. exact H2.
  - eexists. eapply (server_ok_pool w1); [apply cores_set_queue|done|exact Hok2|exact Hf|exact Hok1].
  - done.
  - etrans; [exact Hq1|]. split; [apply cores_set_queue|done].
  - exact Hdel.
  - simpl. apply lookup_delete_eq.
Qed.
End handlers.
