(* ===== verification/ServerRun.v ===== *)
(** * The event loops of the server

    The handlers of the main thread and of the pipes, the construction and the
    start of a server, and the properties of its runs: no reachable state has an
    event whose handler faults, connections go to the least loaded worker, and
    [quit] stops every worker. *)

From S2P Require Import Prelude ConnQueue External World Pool TcpServer ServerInv.

(** ** Accepting *)

(** [num] is the first index of the least element of [cs]. *)
Definition least_loaded (cs : list Z) (num : nat) : Prop := ∃ m, cs !! num = Some m ∧
  (∀ j c, cs !! j = Some c → m ≤ c) ∧ (∀ j c, (j < num)%nat → cs !! j = Some c → m < c).

Section accepting.
Context {EB : EvbufferOps} {K A : Type} {CB : Callbacks K A}.
Abbreviation W := (World EB (TcpServer K A)).
Implicit Types (w : World EB (TcpServer K A)) (ls : list (list ptr)).

Definition counts w : list Z := (λ th, getCount (connect_queue th)) <$> w_threads w.

Lemma counts_thread w i c :
  counts w !! i = Some c → ∃ th, w_threads w !! i = Some th ∧ getCount (connect_queue th) = c.
Proof. intros (th & -> & H)%list_lookup_fmap_Some. eauto. Qed.

Lemma least_loaded_step cs k num m c :
  least_loaded (take k cs) num → cs !! num = Some m → cs !! k = Some c →
  least_loaded (take (S k) cs) (if decide (c < m) then k else num).
Proof.
  intros (m' & Hm' & Hle & Hlt) Hm Hc.
  assert (num < k)%nat as Hnum.
  { apply lookup_lt_Some in Hm'. rewrite length_take in Hm'. lia. }
  assert (m' = m) as -> by (rewrite lookup_take_lt in Hm' by done; congruence).
  assert (Htk : ∀ j c0, take (S k) cs !! j = Some c0 → (j < k)%nat ∧ take k cs !! j = Some c0 ∨ j = k ∧ c0 = c).
  { intros j c0 Hj. pose proof (lookup_lt_Some _ _ _ Hj) as Hl. rewrite length_take in Hl.
    rewrite lookup_take_lt in Hj by lia. destruct (decide (j = k)) as [->|Hne].
    - right. split; congruence.
    - left. rewrite lookup_take_lt by lia. split; [lia|done]. }
  case_decide as Hd.
  - exists c. rewrite lookup_take_lt by lia. split_and!; [done| |].
    + intros j c0 [[_ Hj%Hle]|[_ ->]]%Htk; lia.
    + intros j c0 Hj [[_ Hj'%Hle]|[-> _]]%Htk; lia.
  - exists m. rewrite lookup_take_lt by lia. split_and!; [done| |].
    + intros j c0 [[_ Hj%Hle]|[_ ->]]%Htk; lia.
    + intros j c0 Hj [[_ Hj']|[-> _]]%Htk; [by eapply Hlt|lia].
Qed.

Lemma acceptCb_loop_run w k r num :
  (k + r = length (w_threads w))%nat → least_loaded (take k (counts w)) num →
  ∃ num', acceptCb_loop (seq k r) num w = Ok (num', w) ∧ least_loaded (counts w) num'.
Proof.
  revert k num. induction r as [|r IH]; intros k num Hk Hn.
  - exists num. split; [done|]. rewrite take_ge in Hn; [done|].
    unfold counts. rewrite length_fmap. lia.
  - cbn [seq acceptCb_loop]. pose proof Hn as (m & Hm & _).
    rewrite lookup_take_lt in Hm
      by (apply lookup_lt_Some in Hm; rewrite length_take in Hm; lia).
    destruct (counts_thread _ _ _ Hm) as (tn & Htn & Hcn).
    destruct (lookup_lt_is_Some_2 (w_threads w) k) as [ti Hti]; [lia|].
    mrun (thread_at_run _ _ _ Htn). mrun (thread_at_run _ _ _ Hti).
    apply IH; [lia|]. rewrite Hcn. apply least_loaded_step; [done|done|].
    unfold counts. by rewrite list_lookup_fmap, Hti.
Qed.

Lemma notify_write_run w i th v :
  w_threads w !! i = Some th →
  notify_write i true v w =
    Ok (tt, set_threads (alter (λ th, set_pipe (notify_pipe th ++ [v]) th) i (w_threads w)) w).
Proof. intros H. unfold notify_write. by mrun (thread_at_run _ _ _ H). Qed.

Lemma acceptCb_run w fd0 ok :
  thread_count (w_ext w) = lenZ (w_threads w) → 0 < thread_count (w_ext w) →
  ∃ num, least_loaded (counts w) num ∧ acceptCb fd0 ok w = notify_write num ok fd0 w.
Proof.
  intros Hn Hpos. unfold acceptCb.
  destruct (w_threads w) as [|t0 ts] eqn:Ht; [simpl in Hn; lia|].
  assert (H0 : w_threads w !! 0%nat = Some t0) by (by rewrite Ht).
  destruct (acceptCb_loop_run w 1 (length ts) 0) as (num & Hrun & Hnum).
  { by rewrite Ht. }
  { unfold counts. rewrite Ht. simpl. exists (getCount (connect_queue t0)).
    split_and!; [done| |lia]. intros [|j] c; [|done]. simpl. intros [= <-]. lia. }
  exists num. split; [done|]. mrun. rewrite Hn, Nat2Z.id. cbn [length seq].
  erewrite bind_run; [done|]. cbn [acceptCb_loop].
  mrun (thread_at_run _ _ _ H0). mrun (thread_at_run _ _ _ H0).
  rewrite decide_False by lia. exact Hrun.
Qed.

(** The number of connections of each queue, as long as it fits the counter. *)
Lemma counts_lengths w ls :
  server_ok w ls → Forall (λ l, lenZ l < 2 ^ 64) ls →
  counts w = (λ l, lenZ l) <$> ls.
Proof.
  intros Hok Hsmall. pose proof (so_conns _ _ Hok) as Hc.
  pose proof (ok_length _ _ _ _ _ Hc) as Hlen. rewrite length_fmap in Hlen.
  apply list_eq_same_length with (length ls); unfold counts;
    [by rewrite length_fmap|by rewrite length_fmap|].
  intros i c c' Hi Hx Hy.
  apply list_lookup_fmap_Some in Hx as (th & -> & Hth).
  apply list_lookup_fmap_Some in Hy as (l & -> & Hl).
  assert (Hq : queue_ok (w_heap w) (connect_queue th) l).
  { apply (ok_queue _ _ _ _ _ Hc i). split; [|done]. by rewrite list_lookup_fmap, Hth. }
  unfold getCount. rewrite (queue_total _ _ _ Hq).
  rewrite Forall_lookup in Hsmall. specialize (Hsmall _ _ Hl). apply (wrap_small 64). lia.
Qed.
End accepting.

(** ** The pipe of a worker *)

Section notifying.
Context {EB : EvbufferOps} {K A : Type} {CB : Callbacks K A}.
Implicit Types (w : World EB (TcpServer K A)) (ls : list (list ptr)).

(** A descriptor is registered, then the connection callback runs. *)
Lemma notifyHandler_run w ls i th fd0 rest l :
  server_ok w ls → w_threads w !! i = Some th → notify_pipe th = fd0 :: rest →
  fd0 ≠ EXIT_CODE → ls !! i = Some l →
  ∃ c b w1,
    notifyHandler i true true w = when_set (connect_cb (w_ext w)) (λ k, call k c) w1 ∧
    server_ok w1 (<[i := c :: l]> ls) ∧ open_in w1 i c b ∧ c ∉ l ∧
    payload <$> cells (w_heap w1) !! c = Some (fd0, Some i, Some b, None, None) ∧
    core <$> w_threads w1 = core <$> alter (set_pipe rest) i (w_threads w) ∧ w_ext w1 = w_ext w.
Proof.
  intros Hok Hth Hpipe Hfd Hl.
  set (ts0 := alter (set_pipe rest) i (w_threads w)).
  set (w0 := set_threads ts0 w).
  assert (Hok0 : server_ok w0 ls) by (by apply server_ok_alter).
  assert (Hth0 : w_threads w0 !! i = Some (set_pipe rest th))
    by (simpl; unfold ts0; by rewrite list_lookup_alter_eq, Hth).
  pose proof (so_conns _ _ Hok0) as Hc0.
  assert (Hown : owner (connect_queue <$> ts0) ls i (connect_queue th) l)
    by (split; [simpl in Hth0; by rewrite list_lookup_fmap, Hth0|done]).
  destruct (pool_insert (w_heap w) (w_bev_brk w) (w_bevs w) (connect_queue <$> ts0) ls i
    (connect_queue th) l fd0) as (c & q' & h' & o & Hrun & Hcl & Hfresh & Ho & Hpay & Hch & Hout & Hpool);
    [exact Hc0|exact Hown|].
  set (o' := set_thread (Some i) (set_bev (Some (w_bev_brk w)) o)) in *.
  set (bv := mkBev EB fd0 (Some c) evbuffer_new evbuffer_new).
  destruct (Hpool bv eq_refl) as [Hpool' Hopen]. clear Hpool.
  set (w1 := mkWorld (mkHeap (brk h') (<[c := o']> (cells h'))) (Pos.succ (w_bev_brk w))
    (<[w_bev_brk w := bv]> (w_bevs w)) (alter (set_queue q') i ts0) (w_ext w)).
  assert (Hp1 : conns_ok w1 (<[i := c :: l]> ls))
    by (unfold conns_ok; simpl; by rewrite queues_set_queue).
  exists c, (w_bev_brk w), w1. split_and!; [| | exact Hopen|done| | |done].
  - unfold notifyHandler. mrun (thread_at_run _ _ _ Hth). rewrite Hpipe. cbn [negb].
    mrun. fold ts0 w0. if_no; [|done]. mrun.
    unfold thread_insertConn. rewrite !bind_assoc.
    erewrite bind_run by (apply thread_at_run; exact Hth0). cbn beta. rewrite !bind_assoc.
    erewrite bind_run by (apply on_heap_run; exact Hrun). cbn beta. rewrite !bind_assoc.
    do 2 mrun. cbn [fst snd].
    erewrite bind_run by (apply conn_update_run; exact Ho). cbn beta.
    erewrite bind_run by (apply conn_update_run; apply lookup_insert_eq). cbn beta.
    unfold bufferevent_setcb. rewrite bind_assoc.
    erewrite bind_run by (apply bev_at_run; apply lookup_insert_eq). cbn beta.
    do 2 mrun. simpl w_ext. f_equal. unfold w1, set_heap, set_bevs, set_threads. simpl.
    by rewrite !insert_insert_eq.
  - eapply (server_ok_pool w0); [apply cores_set_queue|done|exact Hp1| |exact Hok0].
    eapply confined_queue; [exact Hown|apply queues_set_queue| |].
    all: intros p [op Hp] Hin; change (cells (w_heap w) !! p = Some op) in Hp;
      assert (p ≠ c) as Hpc by congruence.
    + by apply Hch in Hin as [?|?].
    + simpl. rewrite lookup_insert_ne by done. by apply Hout; intros [?|?].
  - simpl. rewrite lookup_insert_eq. simpl. unfold payload, o' in *. simpl. by injection Hpay as -> _ _ -> ->.
  - apply cores_set_queue.
Qed.

Context (app_inv : A → Prop) {SA : ServerApp app_inv}.

(** Every case of [notifyHandler] on a readable pipe. *)
Lemma notifyHandler_handled w ls i th v rest r bo :
  server_ok w ls → app_inv (app (w_ext w)) → w_threads w !! i = Some th →
  notify_pipe th = v :: rest →
  ∃ w' ls', notifyHandler i r bo w = Ok (tt, w') ∧ server_ok w' ls' ∧ app_inv (app (w_ext w')) ∧
    config (w_ext w') = config (w_ext w) ∧
    core <$> w_threads w' = core <$> alter (λ th, if negb r then th else
      set_base (if decide (v = EXIT_CODE) then Some (mkBase true) else base th)
        (set_pipe rest th)) i (w_threads w).
Proof using SA.
  intros Hok Hi Hth Hpipe. destruct r; simpl negb; cycle 1.
  { exists w, ls. split_and!; try done.
    - unfold notifyHandler. by mrun (thread_at_run _ _ _ Hth).
    - f_equal. symmetry. by apply list_alter_id. }
  assert (Hok0 : server_ok (set_threads (alter (set_pipe rest) i (w_threads w)) w) ls)
    by (by apply server_ok_alter).
  assert (Hth0 : alter (set_pipe rest) i (w_threads w) !! i = Some (set_pipe rest th))
    by (by rewrite list_lookup_alter_eq, Hth).
  destruct (decide (v = EXIT_CODE)) as [->|Hv].
  - assert (base th ≠ None) as Hb.
    { pose proof (so_bases _ _ Hok) as Hf. rewrite Forall_lookup in Hf. by eapply Hf. }
    eexists _, ls. split_and!; [| | | |].
    + unfold notifyHandler. mrun (thread_at_run _ _ _ Hth). rewrite Hpipe. cbn [negb].
      mrun. if_yes; [|done]. unfold event_base_loopbreak.
      mrun (thread_at_run (set_threads _ w) _ _ Hth0).
      change (base (set_pipe rest th)) with (base th). destruct (base th); [reflexivity|done].
    + by apply server_ok_alter.
    + done.
    + done.
    + simpl. by rewrite alter_twice.
  - destruct bo.
    + destruct (lookup_lt_is_Some_2 ls i) as [l Hl].
      { pose proof (ok_length _ _ _ _ _ (so_conns _ _ Hok)) as Hlen. rewrite length_fmap in Hlen.
        rewrite <- Hlen. by eapply lookup_lt_Some. }
      destruct (notifyHandler_run w ls i th v rest l Hok Hth Hpipe Hv Hl)
        as (c & b & w1 & Hrun & Hok1 & Ho1 & _ & _ & Hcore & Hext).
      rewrite Hrun. destruct (connect_cb (w_ext w)) as [k|] eqn:Hk; simpl when_set.
      * destruct (connect_handled k w1 (<[i := c :: l]> ls) i c b) as (w' & ls' & ? & ? & ? & [Hqc Hqf]);
          rewrite ?Hext; try done.
        exists w', ls'. split_and!; try done; [by rewrite Hqf, Hext|].
        by rewrite Hqc, Hcore.
      * exists w1, (<[i := c :: l]> ls). rewrite Hext. done.
    + eexists _, ls. split_and!; [|exact Hok0|done|done|done].
      unfold notifyHandler. mrun (thread_at_run _ _ _ Hth). rewrite Hpipe. cbn [negb].
      mrun. if_no; [|done]. reflexivity.
Qed.
End notifying.
