(* ===== verification/ServerBoot.v ===== *)
(** * Construction, start and end of a server

    [TcpServer_init] either throws or establishes the invariant, [startRun]
    keeps it; together with the handlers this gives the safety of every run. *)

From S2P Require Import Prelude Endian ConnQueue External World Pool TcpServer ServerInv ServerRun.

(** ** The threads of a new server *)

(** New threads: empty queues in cells from [from] on, and no event base. *)
Record fresh_threads (h : ConnHeap) (from : ptr) (ths : list LibeventThread) : Prop := {
  fr_queue i th : ths !! i = Some th → queue_ok h (connect_queue th) [] ∧ notify_pipe th = [];
  fr_from i th p : ths !! i = Some th → p ∈ chain (connect_queue th) [] → (from ≤ p)%positive;
  fr_disjoint i j th th' p : ths !! i = Some th → ths !! j = Some th' →
    p ∈ chain (connect_queue th) [] → p ∈ chain (connect_queue th') [] → i = j
}.

Lemma new_threads_spec n h :
  heap_wf h → ∃ ths h', new_threads n h = Ok (ths, h') ∧ heap_wf h' ∧ length ths = n ∧
    (brk h ≤ brk h')%positive ∧
    (∀ p, (p < brk h)%positive → cells h' !! p = cells h !! p) ∧
    fresh_threads h' (brk h) ths.
Proof.
  revert h. induction n as [|n IH]; intros h Hwf.
  { exists [], h. by split_and!. }
  destruct (ConnQueue_init_spec h Hwf) as (q & h1 & H1 & Hq & Hhd & Htl & Hbrk & Hout).
  destruct (IH h1 (queue_heap _ _ _ Hq)) as (ths & h2 & H2 & Hwf2 & Hlen & Hb2 & Hold & Hfr).
  assert (Hch : ∀ p, p ∈ chain q [] → (brk h ≤ p)%positive ∧ (p < brk h1)%positive).
  { intros p. unfold chain. rewrite Hhd, Htl, Hbrk. simpl.
    rewrite !elem_of_cons, elem_of_nil. intros [->|[->|[]]]; lia. }
  assert (Hq2 : queue_ok h2 q []).
  { eapply queue_ok_frame with (X := λ p, (brk h1 ≤ p)%positive); [done| | |exact Hq].
    - intros p Hp. apply Hold. lia.
    - intros p Hp. apply Hch in Hp. lia. }
  exists (mkThread 0 None false 0 0 [] q :: ths), h2. split_and!; [|done|simpl; lia|lia| |].
  - cbn [new_threads]. unfold LibeventThread_init. rewrite bind_assoc. mrun H1.
    rewrite ret_run_bind. by mrun H2.
  - intros p Hp. rewrite Hold by lia. apply Hout. intros Hin. apply Hch in Hin. lia.
  - split.
    + intros [|i] th; [intros [= <-]; done|]. apply Hfr.
    + intros [|i] th p; [intros [= <-] Hp; by apply Hch|]. intros Hi Hp.
      pose proof (fr_from _ _ _ Hfr _ _ _ Hi Hp). lia.
    + intros [|i] [|j] th th' p; [done|..].
      * intros [= <-] Hj Hp Hp'. pose proof (fr_from _ _ _ Hfr _ _ _ Hj Hp'). apply Hch in Hp. lia.
      * intros Hi [= <-] Hp Hp'. pose proof (fr_from _ _ _ Hfr _ _ _ Hi Hp). apply Hch in Hp'. lia.
      * intros Hi Hj Hp Hp'. f_equal. by eapply (fr_disjoint _ _ _ Hfr).
Qed.

(** An empty pool. *)
Lemma fresh_pool {EB : EvbufferOps} h from ths bb :
  heap_wf h → fresh_threads h from ths →
  pool_ok (EB := EB) h bb ∅ (connect_queue <$> ths) (replicate (length ths) []).
Proof.
  intros Hwf Hfr.
  assert (Hown : ∀ i q l, owner (connect_queue <$> ths) (replicate (length ths) []) i q l →
    ∃ th, ths !! i = Some th ∧ q = connect_queue th ∧ l = []).
  { intros i q l [Hq Hl]. apply list_lookup_fmap_Some in Hq as (th & -> & Hth).
    apply lookup_replicate in Hl as [-> _]. eauto. }
  split; [by rewrite length_fmap, length_replicate|done| | | |].
  - intros i q l (th & Hth & -> & ->)%Hown. by eapply fr_queue.
  - intros i j q q' l l' p (th & Hth & -> & ->)%Hown (th' & Hth' & -> & ->)%Hown.
    by apply (fr_disjoint _ _ _ Hfr).
  - intros i l c Hl Hc. apply lookup_replicate in Hl as [-> _]. by apply elem_of_nil in Hc.
  - intros b bv Hb. by rewrite lookup_empty in Hb.
Qed.

Section boot.
Context {EB : EvbufferOps} {K A : Type} {CB : Callbacks K A}.
Context (host : endian).
Abbreviation W := (World EB (TcpServer K A)).
Implicit Types (w : World EB (TcpServer K A)) (ls : list (list ptr)).

(** A computation that throws or returns in a state with [P]. *)
Definition throws_or (m : M (World EB (TcpServer K A)) unit) (P : W → Prop) w : Prop :=
  (∃ e, m w = Throw e) ∨ ∃ w', m w = Ok (tt, w') ∧ P w'.

Lemma throws_or_bind {B} (m : M W B) (k : B → M W unit) (P : W → Prop) w b w' :
  m w = Ok (b, w') → throws_or (k b) P w' → throws_or (m ≫= k) P w.
Proof. intros H. unfold throws_or. by setoid_rewrite (bind_run _ _ _ _ _ H). Qed.

(** The state of a loop over [0 .. n-1] after each index. *)
Lemma for_each_inv (P : nat → W → Prop) (body : nat → M W unit) k r w :
  (∀ i w, (k ≤ i < k + r)%nat → P i w → throws_or (body i) (P (S i)) w) →
  P k w → throws_or (for_each (seq k r) body) (P (k + r)%nat) w.
Proof.
  revert k w. induction r as [|r IH]; intros k w Hbody Hk.
  - right. exists w. by rewrite Nat.add_0_r.
  - destruct (Hbody k w ltac:(lia) Hk) as [[e He]|(w1 & H1 & HP)].
    + left. exists e. cbn [seq for_each]. unfold mbind, M_bind. by rewrite He.
    + destruct (IH (S k) w1) as [[e He]|(w2 & H2 & HP2)]; [|done|..].
      * intros i w' Hi. apply Hbody. lia.
      * left. exists e. cbn [seq for_each]. by rewrite (bind_run _ _ _ _ _ H1).
      * right. exists w2. rewrite Nat.add_succ_r. cbn [seq for_each].
        by rewrite (bind_run _ _ _ _ _ H1).
Qed.

(** The server in construction: the bases of the first [k] threads exist. *)
Definition setting_up (a : A) (n : nat) (k : nat) w : Prop :=
  conns_ok w (replicate n []) ∧ length (w_threads w) = n ∧
  thread_count (w_ext w) = Z.of_nat n ∧ base (main_base (w_ext w)) ≠ None ∧
  app (w_ext w) = a ∧ w_bevs w = ∅ ∧ main_apart w (replicate n []) ∧
  ∀ i th, w_threads w !! i = Some th →
    notify_pipe th = [] ∧ ((i < k)%nat → base th = Some (mkBase false)).

Lemma setting_up_alter a n k k' w i f :
  (∀ th, connect_queue (f th) = connect_queue th ∧ notify_pipe (f th) = notify_pipe th) →
  (∀ j th, w_threads w !! j = Some th → (j < k')%nat →
     base (if decide (j = i) then f th else th) = Some (mkBase false)) →
  setting_up a n k w → setting_up a n k' (set_threads (alter f i (w_threads w)) w).
Proof.
  intros Hf Hb (Hc & Hn & Ht & Hm & Ha & Hbv & Hap & Hth).
  assert (Hq : connect_queue <$> alter f i (w_threads w) = connect_queue <$> w_threads w)
    by (apply queues_alter; intros th; apply Hf).
  split_and!; try done.
  - unfold conns_ok. simpl. rewrite Hq. exact Hc.
  - simpl. by rewrite length_alter.
  - apply (main_apart_kept w (replicate n [])); [done|apply (ok_heap _ _ _ _ _ Hc)|by apply confined_queues|done].
  - intros j th' Hj. simpl in Hj. destruct (decide (j = i)) as [->|Hne].
    + rewrite list_lookup_alter_eq in Hj. apply fmap_Some in Hj as (th & Hj & ->).
      destruct (Hth _ _ Hj) as [Hp _]. split; [by rewrite (proj2 (Hf th))|].
      intros Hk. specialize (Hb _ _ Hj Hk). by rewrite decide_True in Hb.
    + rewrite list_lookup_alter_ne in Hj by done.
      destruct (Hth _ _ Hj) as [Hp _]. split; [done|].
      intros Hk. specialize (Hb _ _ Hj Hk). by rewrite decide_False in Hb.
Qed.

Lemma setupThread_step a n i env w :
  setting_up a n i w → throws_or (setupThread i env) (setting_up a n (S i)) w.
Proof.
  intros Hs. unfold setupThread, event_base_new.
  destruct (env_base env); [|left; by eexists].
  set (w1 := set_threads (alter (set_base (Some (mkBase false))) i (w_threads w)) w).
  assert (H1 : setting_up a n (S i) w1).
  { apply (setting_up_alter _ _ i); [done| |done]. intros j th Hj Hk. case_decide; [done|].
    destruct Hs as (_ & _ & _ & _ & _ & _ & _ & Hth). apply (Hth _ _ Hj). lia. }
  apply (throws_or_bind (thread_update i _) _ _ _ tt w1 eq_refl).
  destruct (env_pipe env) as [[rd wr]|]; [|left; by eexists].
  set (w2 := set_threads (alter (set_notify_fds wr rd) i (w_threads w1)) w1).
  assert (Hkeep : ∀ f w', (∀ th, base (f th) = base th) → setting_up a n (S i) w' →
    ∀ j th, w_threads w' !! j = Some th → (j < S i)%nat →
      base (if decide (j = i) then f th else th) = Some (mkBase false)).
  { intros f w' Hf (_ & _ & _ & _ & _ & _ & _ & Hth) j th Hj Hk.
    case_decide; rewrite ?Hf; by apply (Hth _ _ Hj). }
  assert (H2 : setting_up a n (S i) w2)
    by (apply (setting_up_alter _ _ (S i)); [done|by apply Hkeep|done]).
  apply (throws_or_bind (thread_update i _) _ _ _ tt w2 eq_refl).
  destruct (env_event_add env); [|left; by eexists].
  right. eexists. split; [reflexivity|].
  apply (setting_up_alter _ _ (S i)); [done|by apply Hkeep|done].
Qed.

Lemma TcpServer_init_spec w count ip0 port0 a self me envs :
  heap_wf (w_heap w) → w_bevs w = ∅ →
  throws_or (TcpServer_init count ip0 port0 a self me envs)
    (λ w', 0 ≤ count ∧ setting_up a (Z.to_nat count) (Z.to_nat count) w') w.
Proof.
  intros Hwf Hbv. unfold TcpServer_init.
  destruct (ConnQueue_init_spec _ Hwf) as (q & h1 & H1 & Hq & Hhd & Htl & Hbrk & _).
  set (mb := mkThread 0 None false 0 0 [] q).
  apply (throws_or_bind (on_heap LibeventThread_init) _ _ _ mb (set_heap h1 w)).
  { apply on_heap_run. unfold LibeventThread_init. by mrun H1. }
  case_decide as Hc; [left; by eexists|].
  eapply throws_or_bind; [reflexivity|]; cbn beta.
  destruct (new_threads_spec (Z.to_nat count) h1 (queue_heap _ _ _ Hq))
    as (ths & h2 & H2 & Hwf2 & Hlen & _ & Hold & Hfr).
  apply (throws_or_bind (on_heap (new_threads _)) _ _ _ ths (set_heap h2 w)).
  { exact (on_heap_run _ (set_heap h1 w) _ _ H2). }
  eapply throws_or_bind; [reflexivity|]; cbn beta.
  destruct me; simpl event_base_new; [|left; by eexists].
  eapply throws_or_bind; [reflexivity|]; cbn beta.
  destruct (for_each_inv (setting_up a (Z.to_nat count)) (λ i, setupThread i (envs i)) 0
    (Z.to_nat count) (set_ext (mkServer None None None None count port0 ip0
      (set_base (Some (mkBase false)) (set_thread_id self mb)) None a)
      (set_threads ths (set_heap h2 w)))) as [[e He]|(w' & Hr & Hs)].
  - intros i w' _. apply setupThread_step.
  - split_and!; try done.
    + unfold conns_ok. simpl. rewrite Hbv, <- Hlen. by eapply fresh_pool.
    + simpl. by rewrite Z2Nat.id by lia.
    + assert (Hlt : ∀ p, p ∈ chain q [] → (p < brk h1)%positive).
      { intros p. unfold chain. rewrite Hhd, Htl, Hbrk. simpl.
        rewrite !elem_of_cons, elem_of_nil. intros [->|[->|[]]]; lia. }
      split.
      * eapply (queue_ok_frame h1 _ _ _ (λ p, (brk h1 ≤ p)%positive)); [done| | |exact Hq].
        -- intros p Hp. apply Hold. lia.
        -- intros p Hp%Hlt. lia.
      * intros p Hp%Hlt (i & q' & l & [Hi Hl] & Hin). simpl in Hi.
        apply list_lookup_fmap_Some in Hi as (th & -> & Hth).
        apply lookup_replicate in Hl as [-> _].
        pose proof (fr_from _ _ _ Hfr _ _ _ Hth Hin). lia.
    + intros i th Hth. split; [by eapply fr_queue|]. lia.
  - left. by exists e.
  - right. exists w'. split; [exact Hr|]. split; [lia|done].
Qed.

Lemma setting_up_server_ok a n w :
  setting_up a n n w → server_ok w (replicate n []).
Proof.
  intros (Hc & Hn & Ht & Hm & _ & _ & Ha & Hth). split; [done|done|by rewrite Ht, Hn| |done].
  apply Forall_lookup_2. intros i th Hi. destruct (Hth _ _ Hi) as [_ Hb].
  rewrite Hb; [done|]. rewrite <- Hn. by eapply lookup_lt_Some.
Qed.

(** Setting the callbacks before the server is started. *)
Definition set_all (r wr c e : option K) : M W unit :=
  _ ← on_ext (modify (setReadCallback r));
  _ ← on_ext (modify (setWriteCallback wr));
  _ ← on_ext (modify (setConnectionCallback c));
  on_ext (modify (setEventCallback e)).

Lemma set_all_run w r wr c e :
  set_all r wr c e w = Ok (tt, set_ext (set_callbacks r wr c e (w_ext w)) w).
Proof. by destruct w as [h bb m ts [? ? ? ? ? ? ? ? ? ?]]. Qed.

Lemma fmap_alter_same {B C} (g : B → C) f (l : list B) i :
  (∀ x, g (f x) = g x) → g <$> alter f i l = g <$> l.
Proof.
  intros Hg. apply list_eq. intros j. rewrite !list_lookup_fmap.
  destruct (decide (j = i)) as [->|Hne]; [rewrite list_lookup_alter_eq|by rewrite list_lookup_alter_ne].
  destruct (l !! i); [|done]. simpl. by rewrite Hg.
Qed.

(** [startRun] keeps what the constructor established, throws, or both. *)
Lemma startRun_spec w ls env :
  server_ok w ls →
  throws_or (startRun host env) (λ w', server_ok w' ls ∧ app (w_ext w') = app (w_ext w) ∧
    thread_count (w_ext w') = thread_count (w_ext w) ∧ w_bevs w' = w_bevs w ∧
    connect_cb (w_ext w') = connect_cb (w_ext w) ∧
    notify_pipe <$> w_threads w' = notify_pipe <$> w_threads w) w.
Proof.
  intros Hok. unfold startRun.
  set (P := λ (_ : nat) w', server_ok w' ls ∧ app (w_ext w') = app (w_ext w) ∧
    thread_count (w_ext w') = thread_count (w_ext w) ∧ w_bevs w' = w_bevs w ∧
    connect_cb (w_ext w') = connect_cb (w_ext w) ∧
    notify_pipe <$> w_threads w' = notify_pipe <$> w_threads w).
  apply (throws_or_bind (gets w_ext) _ _ _ (w_ext w) w eq_refl).
  assert (Haddr : ∀ addr, throws_or
    (_ ← (if env_listener env
          then on_ext (modify (set_listener (Some (mkSockaddr (htons host (port (w_ext w))) addr))))
          else throw "create listener error:");
     for_each (seq 0 (Z.to_nat (thread_count (w_ext w)))) (λ i,
       _ ← thread_at (Some i);
       match env_pthread env i with
       | None => throw "pthread_create error:"
       | Some t => thread_update i (set_thread_id t)
       end)) (P (0 + Z.to_nat (thread_count (w_ext w)))%nat) w).
  { intros addr. destruct (env_listener env); [|left; by eexists].
    eapply throws_or_bind; [reflexivity|]; cbn beta.
    apply for_each_inv.
    - intros i w' Hi (Hok' & Ha & Hn & Hb & Hcb & Hpi).
      destruct (lookup_lt_is_Some_2 (w_threads w') i) as [th Hth].
      { pose proof (so_count _ _ Hok'). lia. }
      apply (throws_or_bind (thread_at (Some i)) _ _ _ th w' (thread_at_run _ _ _ Hth)).
      destruct (env_pthread env i); [|left; by eexists].
      right. eexists. split; [reflexivity|]. split_and!; try done; [by apply server_ok_alter|].
      rewrite <- Hpi. simpl. by apply fmap_alter_same.
    - split_and!; try done. destruct Hok as [? ? ? ? ?]. by split. }
  case_decide as Hip.
  - apply (throws_or_bind (mret 0) _ _ _ 0 w eq_refl). apply Haddr.
  - destruct (env_inet_pton env (ip (w_ext w))) as [addr|]; [|left; by eexists].
    apply (throws_or_bind (mret addr) _ _ _ addr w eq_refl). apply Haddr.
Qed.
End boot.
