(* ===== verification/ServerProps.v ===== *)
(** * Properties of the server

    Safety of every run from construction on, the distribution of connections
    over the workers, registration and closing of a connection, and the end of
    the workers after [quit]. *)

From S2P Require Import Prelude Endian ConnQueue External World Pool Codec.
From S2P Require Import TcpServer ServerInv ServerRun ServerBoot.

(** ** Writing to every pipe *)

Section pipes.
Context {EB : EvbufferOps} {K A : Type} {CB : Callbacks K A}.
Implicit Types (w : World EB (TcpServer K A)) (ls : list (list ptr)).

Definition append_pipe (v : Z) (th : LibeventThread) : LibeventThread :=
  set_pipe (notify_pipe th ++ [v]) th.

Lemma notify_write_any w i th ok v :
  w_threads w !! i = Some th →
  notify_write i ok v w =
    Ok (tt, set_threads (alter (λ th, if ok then append_pipe v th else th) i (w_threads w)) w).
Proof.
  intros H. destruct ok; [by apply notify_write_run with th|].
  unfold notify_write. mrun (thread_at_run _ _ _ H). rewrite list_alter_id by done.
  by destruct w.
Qed.

Lemma for_each_notify ok v k r w :
  (k + r = length (w_threads w))%nat →
  ∃ ts, for_each (seq k r) (λ i, notify_write i (ok i) v) w = Ok (tt, set_threads ts w) ∧
    ∀ i, ts !! i = (λ th, if decide (k ≤ i)%nat then if ok i then append_pipe v th else th else th)
                     <$> w_threads w !! i.
Proof.
  revert k w. induction r as [|r IH]; intros k w Hk.
  - exists (w_threads w). split; [by destruct w|]. intros i.
    destruct (w_threads w !! i) as [th|] eqn:Hi; [|done]. simpl.
    apply lookup_lt_Some in Hi. by rewrite decide_False by lia.
  - destruct (lookup_lt_is_Some_2 (w_threads w) k) as [th Hth]; [lia|].
    set (w1 := set_threads (alter (λ th, if ok k then append_pipe v th else th) k (w_threads w)) w).
    destruct (IH (S k) w1) as (ts & Hrun & Hts).
    { unfold w1. simpl. rewrite length_alter. lia. }
    exists ts. cbn [seq for_each]. rewrite (bind_run _ _ _ _ _ (notify_write_any _ _ _ (ok k) v Hth)).
    split; [exact Hrun|]. intros i. rewrite Hts. unfold w1. simpl.
    destruct (decide (i = k)) as [->|Hne].
    + rewrite list_lookup_alter_eq, Hth. simpl.
      by rewrite decide_False, decide_True by lia.
    + rewrite list_lookup_alter_ne by done. destruct (w_threads w !! i) as [t|]; [|done]. simpl.
      destruct (decide (k ≤ i)%nat).
      * by rewrite decide_True by lia.
      * by rewrite decide_False by lia.
Qed.

Lemma quit_run ok w ls :
  server_ok w ls →
  ∃ ts, quit ok w = Ok (tt, set_ext (set_main_base
      (set_base (Some (mkBase true)) (main_base (w_ext w))) (w_ext w)) (set_threads ts w)) ∧
    connect_queue <$> ts = connect_queue <$> w_threads w ∧
    ∀ i, ts !! i = (λ th, if ok i then append_pipe EXIT_CODE th else th) <$> w_threads w !! i.
Proof.
  intros Hok. destruct (for_each_notify ok EXIT_CODE 0 (length (w_threads w)) w eq_refl)
    as (ts & Hrun & Hts).
  exists ts. split_and!.
  - unfold quit. mrun. rewrite (so_count _ _ Hok), Nat2Z.id. mrun Hrun.
    destruct (base (main_base (w_ext w))) eqn:Hb; [done|]. by destruct (so_main _ _ Hok).
  - apply list_eq. intros i. rewrite !list_lookup_fmap, Hts, <- option_fmap_compose.
    destruct (w_threads w !! i); [|done]. simpl. by destruct (decide (0 ≤ i)%nat), (ok i).
  - intros i. rewrite Hts. destruct (w_threads w !! i); [|done]. simpl. by destruct (decide (0 ≤ i)%nat); [|lia].
Qed.

Lemma quit_server_ok ok w ls :
  server_ok w ls → ∃ w', quit ok w = Ok (tt, w') ∧ server_ok w' ls ∧
    app (w_ext w') = app (w_ext w) ∧ thread_count (w_ext w') = thread_count (w_ext w).
Proof.
  intros Hok. destruct (quit_run ok w ls Hok) as (ts & Hrun & Hq & Hts).
  eexists. split; [exact Hrun|]. split_and!; [|done|done].
  assert (Hok1 : server_ok (set_threads ts w) ls).
  { apply server_ok_threads; [done| |done]. apply Forall_lookup_2. intros i th Hi.
    rewrite Hts in Hi. apply fmap_Some in Hi as (th0 & Hi & ->).
    pose proof (so_bases _ _ Hok) as Hf. rewrite Forall_lookup in Hf. specialize (Hf _ _ Hi).
    by destruct (ok i). }
  destruct Hok1 as [? ? ? ? ?]. by split.
Qed.
End pipes.

(** ** Safety *)

Section safety.
Context {EB : EvbufferOps} {K A : Type} {CB : Callbacks K A}.
Context (host : endian) (app_inv : A → Prop) {SA : ServerApp app_inv}.
Abbreviation W := (World EB (TcpServer K A)).
Implicit Types (w : World EB (TcpServer K A)) (ls : list (list ptr)).

Definition server_inv w : Prop :=
  0 < thread_count (w_ext w) ∧ app_inv (app (w_ext w)) ∧ ∃ ls, server_ok w ls.

Lemma config_count (s s' : TcpServer K A) : config s = config s' → thread_count s = thread_count s'.
Proof. unfold config. congruence. Qed.

Lemma handled_inv m w : 0 < thread_count (w_ext w) → handled app_inv m w →
  ∃ w', m w = Ok (tt, w') ∧ server_inv w'.
Proof.
  intros Hn (w' & ls' & Hrun & Hok & Ha & [_ Hq]). exists w'. split; [done|].
  split; [by rewrite (config_count _ _ Hq)|]. eauto.
Qed.

(** An event on a live bufferevent: its connection is open. *)
Lemma data_of_run w ls b :
  server_ok w ls → is_Some (w_bevs w !! b) →
  ∃ i c bv, w_bevs w !! b = Some bv ∧ data_of b w = Ok (c, w) ∧ open_in w i c b.
Proof.
  intros Hok [bv Hb].
  destruct (ok_bev _ _ _ _ _ (so_conns _ _ Hok) _ _ Hb) as (_ & i & l & c & _ & _ & Ho).
  exists i, c, bv. split_and!; [done| |done].
  unfold data_of. mrun (bev_at_run _ _ _ Hb).
  destruct Ho as (? & bv' & _ & _ & _ & _ & Hb' & Hd). assert (bv' = bv) as -> by congruence.
  by rewrite Hd.
Qed.

Lemma buf_store_ok w ls b bv s e i c :
  server_ok w ls → w_bevs w !! b = Some bv → open_in w i c b →
  ∃ w', buf_store (Some (mkBufref b s)) e w = Ok (tt, w') ∧ server_ok w' ls ∧
    w_ext w' = w_ext w ∧ open_in w' i c b.
Proof.
  intros Hok Hb Ho. eexists. split; [by apply buf_store_run|].
  assert (Hd : bev_data (set_side s e bv) = bev_data bv) by (by destruct s).
  split_and!; [|done|].
  - eapply (server_ok_pool w); [done|done| |by apply confined_queues|done]. unfold conns_ok. simpl.
    by eapply pool_buffers; [..|apply Hok].
  - eapply conn_open_mono; [done| |exact Ho]. intros bv0 Hb0.
    exists (set_side s e bv). simpl. rewrite lookup_insert_eq. split; congruence.
Qed.

Lemma handle_ok e w :
  server_inv w → enabled e w → ∃ w', handle e w = Ok (tt, w') ∧ server_inv w'.
Proof using SA.
  intros (Hn & Ha & ls & Hok) He. destruct e as [fd0 ok|i r bo|b e|b e|b ev|ok]; simpl in *.
  - destruct (acceptCb_run w fd0 ok (so_count _ _ Hok) Hn) as (num & (m & Hm & _) & ->).
    destruct (counts_thread _ _ _ Hm) as (th & Hth & _).
    rewrite (notify_write_any _ _ _ _ _ Hth). eexists. split; [done|].
    split; [done|]. split; [done|]. exists ls. apply server_ok_alter; [..|done];
      intros th0; by destruct ok.
  - destruct He as (th & Hth & _ & Hp). destruct (notify_pipe th) as [|v rest] eqn:Hpipe; [done|].
    destruct (notifyHandler_handled app_inv w ls i th v rest r bo Hok Ha Hth Hpipe)
      as (w' & ls' & Hrun & Hok' & Ha' & Hc & _).
    exists w'. split; [done|]. split; [by rewrite (config_count _ _ Hc)|]. eauto.
  - destruct (data_of_run w ls b Hok He) as (i & c & bv & Hb & Hd & Ho).
    destruct (buf_store_ok w ls b bv Input e i c Hok Hb Ho) as (w1 & H1 & Hok1 & Hx1 & Ho1).
    erewrite bind_run by exact Hd. erewrite bind_run by exact H1.
    apply handled_inv; [by rewrite Hx1|].
    eapply bufferReadCb_handled; [exact SA|exact Hok1|by rewrite Hx1|exact Ho1].
  - destruct (data_of_run w ls b Hok He) as (i & c & bv & Hb & Hd & Ho).
    destruct (buf_store_ok w ls b bv Output e i c Hok Hb Ho) as (w1 & H1 & Hok1 & Hx1 & Ho1).
    erewrite bind_run by exact Hd. erewrite bind_run by exact H1.
    apply handled_inv; [by rewrite Hx1|].
    eapply bufferWriteCb_handled; [exact SA|exact Hok1|by rewrite Hx1|exact Ho1].
  - destruct (data_of_run w ls b Hok He) as (i & c & bv & Hb & Hd & Ho).
    erewrite bind_run by exact Hd.
    destruct (bufferEventCb_handled app_inv w ls i c b ev Hok Ha Ho)
      as (w' & Hrun & (ls' & Hok') & Ha' & [_ Hc] & _).
    exists w'. split; [done|]. split; [by rewrite (config_count _ _ Hc)|]. eauto.
  - destruct (quit_server_ok ok w ls Hok) as (w' & Hrun & Hok' & Hx & Hc).
    exists w'. split; [done|]. split; [by rewrite Hc|]. rewrite Hx. eauto.
Qed.

Lemma reachable_inv w w' : rtc server_step w w' → server_inv w → server_inv w'.
Proof using SA.
  induction 1 as [|w w1 w' (e & He & Hrun) _ IH]; [done|]. intros Hi. apply IH.
  destruct (handle_ok e w Hi He) as (w2 & H2 & Hi2). congruence.
Qed.

(** Construction, the setters, and [startRun] up to the event loops. *)
Definition boot count ip0 port0 (a : A) self me envs (r wr c e : option K) senv : M W unit :=
  _ ← TcpServer_init count ip0 port0 a self me envs;
  _ ← set_all r wr c e;
  startRun host senv.

Lemma boot_ok count ip0 port0 a self me envs r wr c e senv w0 w1 :
  heap_wf (w_heap w0) → w_bevs w0 = ∅ →
  boot count ip0 port0 a self me envs r wr c e senv w0 = Ok (tt, w1) →
  server_ok w1 (replicate (Z.to_nat count) []) ∧ app (w_ext w1) = a ∧
    thread_count (w_ext w1) = Z.of_nat (Z.to_nat count).
Proof.
  intros Hwf Hbv Hboot. unfold boot in Hboot.
  apply bind_inv in Hboot as ([] & s1 & Hb1 & Hboot). apply bind_inv in Hboot as ([] & s2 & Hb2 & Hb3).
  destruct (TcpServer_init_spec w0 count ip0 port0 a self me envs Hwf Hbv)
    as [[? ?]|(w2 & H2 & _ & Hs)]; [congruence|].
  assert (s1 = w2) as -> by congruence.
  rewrite set_all_run in Hb2. injection Hb2 as <-.
  pose proof Hs as (_ & Hlen & Hcnt & _ & Happ & _ & _ & _). apply setting_up_server_ok in Hs.
  destruct (startRun_spec host (set_ext (set_callbacks r wr c e (w_ext w2)) w2)
    (replicate (Z.to_nat count) []) senv) as [[? ?]|(w3 & H3 & Hok3 & Ha3 & Hc3 & _)];
    [destruct Hs; by split|congruence|].
  assert (w1 = w3) as -> by congruence.
  rewrite Ha3, Hc3. done.
Qed.

Lemma boot_inv count ip0 port0 a self me envs r wr c e senv w0 w1 :
  heap_wf (w_heap w0) → w_bevs w0 = ∅ → 0 < count → app_inv a →
  boot count ip0 port0 a self me envs r wr c e senv w0 = Ok (tt, w1) → server_inv w1.
Proof.
  intros Hwf Hbv Hc Ha Hboot. apply boot_ok in Hboot as (Hok & Happ & Hn); [|done..].
  split; [rewrite Hn; lia|]. rewrite Happ. eauto.
Qed.

(** C18: no run of a server faults: whatever events the loops of a server run
    after its construction and [startRun] (connections accepted, descriptors
    arriving at the workers, data, errors and closed connections, [quit]), every
    event that can come next is handled to its end.  In particular no handler
    uses a connection or a bufferevent after it was freed, or frees it twice. *)
Theorem server_never_faults count ip0 port0 a self me envs r wr c e senv w0 w1 w ev :
  heap_wf (w_heap w0) → w_bevs w0 = ∅ → 0 < count → app_inv a →
  boot count ip0 port0 a self me envs r wr c e senv w0 = Ok (tt, w1) →
  rtc server_step w1 w → enabled ev w →
  ∃ w', handle ev w = Ok (tt, w').
Proof using SA.
  intros Hwf Hbv Hc Ha Hboot Hreach Hev.
  destruct (handle_ok ev w) as (w' & ? & _); eauto.
  eapply reachable_inv; [done|]. by eapply boot_inv.
Qed.

(** C19: on every reachable state the four records of the connections agree: the
    queues of the workers are well formed, the open bufferevents are in
    bijection with the connections in the queues, each connection knows its
    worker and its bufferevent, and the bufferevent passes it to the callbacks. *)
Theorem reachable_connections_consistent count ip0 port0 a self me envs r wr c e senv w0 w1 w :
  heap_wf (w_heap w0) → w_bevs w0 = ∅ → 0 < count → app_inv a →
  boot count ip0 port0 a self me envs r wr c e senv w0 = Ok (tt, w1) →
  rtc server_step w1 w →
  ∃ ls, length ls = length (w_threads w) ∧
    (∀ i th l, w_threads w !! i = Some th → ls !! i = Some l →
       queue_ok (w_heap w) (connect_queue th) l ∧ getCount (connect_queue th) = u64 (lenZ l)) ∧
    (∀ i l c, ls !! i = Some l → c ∈ l → ∃ b, open_in w i c b) ∧
    (∀ b, is_Some (w_bevs w !! b) → ∃ i l c, ls !! i = Some l ∧ c ∈ l ∧ open_in w i c b).
Proof using SA.
  intros Hwf Hbv Hc Ha Hboot Hreach.
  assert (server_inv w) as (_ & _ & ls & Hok) by (eapply reachable_inv; [done|]; by eapply boot_inv).
  pose proof (so_conns _ _ Hok) as Hp. exists ls. split_and!.
  - pose proof (ok_length _ _ _ _ _ Hp) as H. by rewrite length_fmap in H.
  - intros i th l Hth Hl. assert (Hq : queue_ok (w_heap w) (connect_queue th) l).
    { apply (ok_queue _ _ _ _ _ Hp i). split; [by rewrite list_lookup_fmap, Hth|done]. }
    split; [done|]. apply (queue_total _ _ _ Hq).
  - apply (ok_conn _ _ _ _ _ Hp).
  - intros b [bv Hb]. destruct (ok_bev _ _ _ _ _ Hp _ _ Hb) as (_ & i & l & c0 & ? & ? & ?).
    by exists i, l, c0.
Qed.
End safety.

(** ** Distribution, registration, closing, and the end *)

Section behaviour.
Context {EB : EvbufferOps} {K A : Type} {CB : Callbacks K A}.
Context (host : endian).
Implicit Types (w : World EB (TcpServer K A)) (ls : list (list ptr)).

Definition enqueue (fds : list Z) (th : LibeventThread) : LibeventThread :=
  set_pipe (notify_pipe th ++ fds) th.

(** C20: [acceptCb] hands the descriptor to the first of the workers that have the
    fewest registered connections, through the pipe of that worker, and changes
    nothing else. *)
Theorem acceptCb_least_loaded w ls (fd0 : Z) :
  server_ok w ls → 0 < thread_count (w_ext w) → Forall (λ l, lenZ l < 2 ^ 64) ls →
  ∃ num, least_loaded ((λ l, lenZ l) <$> ls) num ∧
    acceptCb fd0 true w = Ok (tt, set_threads (alter (enqueue [fd0]) num (w_threads w)) w).
Proof.
  intros Hok Hn Hs. destruct (acceptCb_run w fd0 true (so_count _ _ Hok) Hn) as (num & Hl & ->).
  exists num. rewrite <- (counts_lengths w ls Hok Hs). split; [done|].
  destruct Hl as (m & Hm & _). destruct (counts_thread _ _ _ Hm) as (th & Hth & _).
  by apply notify_write_run with th.
Qed.

(** A server constructed with no workers reads its thread array out of
    bounds on the first connection: [acceptCb] does not look at the count. *)
Theorem acceptCb_no_workers_faults w (fd0 : Z) (ok : bool) :
  w_threads w = [] → thread_count (w_ext w) = 0 → acceptCb fd0 ok w = Fault OutOfBounds.
Proof.
  intros Ht Hc. unfold acceptCb. mrun. rewrite Hc. cbn [seq acceptCb_loop Z.to_nat]. mrun.
  unfold notify_write. apply bind_fault. unfold thread_at. by rewrite Ht.
Qed.

Fixpoint acceptAll (fds : list Z) : M (World EB (TcpServer K A)) unit :=
  match fds with [] => mret tt | fd0 :: fds => _ ← acceptCb fd0 true; acceptAll fds end.

(** The choice looks at registered connections only: connections accepted
    before the chosen worker has read its pipe are all handed to that worker,
    however many they are and however idle the others. *)
Theorem accept_burst_one_worker w ls (fds : list Z) :
  server_ok w ls → 0 < thread_count (w_ext w) → fds ≠ [] →
  ∃ num, (num < length (w_threads w))%nat ∧
    acceptAll fds w = Ok (tt, set_threads (alter (enqueue fds) num (w_threads w)) w).
Proof.
  intros Hok Hn Hne.
  destruct (acceptCb_run w 0 true (so_count _ _ Hok) Hn) as (num & Hleast & _).
  exists num. pose proof Hleast as (m & Hm & _).
  destruct (counts_thread _ _ _ Hm) as (th & Hth & _). split; [by eapply lookup_lt_Some|].
  clear Hne. revert w th Hok Hn Hleast Hm Hth. induction fds as [|fd0 fds IH];
    intros w th Hok Hn Hleast Hm Hth.
  - cbn [acceptAll]. rewrite list_alter_id; [by destruct w|].
    intros t. unfold enqueue. rewrite app_nil_r. by destruct t.
  - cbn [acceptAll]. destruct (acceptCb_run w fd0 true (so_count _ _ Hok) Hn) as (num' & Hl' & Hrun).
    assert (num' = num) as ->.
    { destruct Hleast as (m1 & H1 & H1' & H1''), Hl' as (m2 & H2 & H2' & H2'').
      destruct (Nat.lt_trichotomy num num') as [Hlt|[->|Hlt]]; [|done|].
      - specialize (H2'' _ _ Hlt H1). specialize (H1' _ _ H2). lia.
      - specialize (H1'' _ _ Hlt H2). specialize (H2' _ _ H1). lia. }
    rewrite (notify_write_run _ _ _ _ Hth) in Hrun. erewrite bind_run by exact Hrun.
    change (λ th0, set_pipe (notify_pipe th0 ++ [fd0]) th0) with (enqueue [fd0]).
    set (w1 := set_threads (alter (enqueue [fd0]) num (w_threads w)) w).
    assert (Hcounts : counts w1 = counts w).
    { unfold counts, w1. simpl. rewrite !(list_fmap_compose connect_queue getCount).
      by rewrite queues_alter. }
    rewrite (IH w1 (enqueue [fd0] th)); rewrite ?Hcounts; try done.
    + unfold w1, set_threads. simpl. rewrite alter_twice. do 3 f_equal.
      apply list_alter_ext; [|done]. intros t _. unfold enqueue. simpl. by rewrite <- app_assoc.
    + by apply server_ok_alter.
    + simpl. by rewrite list_lookup_alter_eq, Hth.
Qed.

(** When a worker reads a descriptor from its pipe, it registers a new
    connection at the front of its queue, with a bufferevent on that descriptor,
    and then runs the connection callback on it. *)
Theorem notifyHandler_registers w ls i th fd0 rest l :
  server_ok w ls → w_threads w !! i = Some th → notify_pipe th = fd0 :: rest →
  fd0 ≠ EXIT_CODE → ls !! i = Some l →
  ∃ c b w1,
    notifyHandler i true true w = when_set (connect_cb (w_ext w)) (λ k, call k c) w1 ∧
    server_ok w1 (<[i := c :: l]> ls) ∧ open_in w1 i c b ∧ c ∉ l ∧
    payload <$> cells (w_heap w1) !! c = Some (fd0, Some i, Some b, None, None) ∧
    core <$> w_threads w1 = core <$> alter (set_pipe rest) i (w_threads w) ∧ w_ext w1 = w_ext w.
Proof. apply notifyHandler_run. Qed.

(** The default error callback of the codec closes the connection it is
    given: it frees the bufferevent, then the connection, once each, takes the
    connection out of the queue of its worker and keeps every invariant. *)
Theorem defaultErrorCallback_closes w ls i c b e :
  server_ok w ls → open_in w i c b →
  ∃ w' l, defaultErrorCallback (Some c) e w = Ok (tt, w') ∧ ls !! i = Some l ∧
    server_ok w' (<[i := filter (λ x, x ≠ c) l]> ls) ∧ w_ext w' = w_ext w ∧ quiet w w' ∧
    cells (w_heap w') !! c = None ∧ w_bevs w' = delete b (w_bevs w).
Proof.
  intros Hok Ho. destruct (open_object _ _ _ _ Ho) as (o & bv & Hc & _ & Hb & _).
  destruct (close_run w ls i c b (so_conns _ _ Hok) Ho)
    as (h' & q' & l & Hl & _ & Hrun & Hok' & Hdel & Hf).
  match type of Hrun with _ = Ok (_, ?w1) => exists w1, l end.
  split_and!; [ | done | | done | | exact Hdel | done].
  - unfold defaultErrorCallback, getBufferevent. rewrite bind_assoc.
    mrun (conn_at_run _ _ _ Hc). rewrite ret_run_bind, Hb. exact Hrun.
  - eapply (server_ok_pool w); [apply cores_set_queue|done|exact Hok'|exact Hf|done].
  - split; [apply cores_set_queue|done].
Qed.

Context (app_inv : A → Prop) {SA : ServerApp app_inv}.

(** An error or the end of a connection runs the event callback and then
    closes the connection. *)
Theorem bufferEventCb_closes w ls i c b ev :
  server_ok w ls → app_inv (app (w_ext w)) → open_in w i c b →
  ∃ w', bufferEventCb b ev c w = Ok (tt, w') ∧ (∃ ls', server_ok w' ls') ∧
    app_inv (app (w_ext w')) ∧ quiet w w' ∧
    cells (w_heap w') !! c = None ∧ w_bevs w' !! b = None.
Proof using SA. apply (bufferEventCb_handled app_inv). Qed.

(** The worker [i] reads its pipe [n] times. *)
Fixpoint read_pipe (n : nat) (i : nat) : M (World EB (TcpServer K A)) unit :=
  match n with O => mret tt | S n => _ ← notifyHandler i true true; read_pipe n i end.

Lemma core_lookup (ts ts' : list LibeventThread) i th :
  core <$> ts' = core <$> ts → ts !! i = Some th →
  ∃ th', ts' !! i = Some th' ∧ core th' = core th.
Proof.
  intros Hc Hi. assert (Hl : (core <$> ts') !! i = Some (core th))
    by (rewrite Hc, list_lookup_fmap, Hi; done).
  apply list_lookup_fmap_Some in Hl as (th' & ? & ?). by exists th'.
Qed.
Lemma core_fields th th' : core th' = core th →
  base th' = base th ∧ notify_pipe th' = notify_pipe th.
Proof. unfold core, set_queue. intros [=]. done. Qed.

Lemma read_pipe_stops w ls i th fds :
  server_ok w ls → app_inv (app (w_ext w)) → w_threads w !! i = Some th →
  notify_pipe th = fds ++ [EXIT_CODE] → Forall (λ fd0, fd0 ≠ EXIT_CODE) fds →
  ∃ w' th', read_pipe (S (length fds)) i w = Ok (tt, w') ∧ w_threads w' !! i = Some th' ∧
    base th' = Some (mkBase true) ∧ notify_pipe th' = [] ∧
    (∃ ls', server_ok w' ls') ∧ app_inv (app (w_ext w')).
Proof using SA.
  revert w ls th. induction fds as [|fd0 fds IH]; intros w ls th Hok Ha Hth Hpipe Hfds.
  - destruct (notifyHandler_handled app_inv w ls i th _ _ true true Hok Ha Hth Hpipe)
      as (w' & ls' & Hrun & Hok' & Ha' & _ & Hcore).
    destruct (core_lookup _ _ i _ Hcore (list_lookup_alter_eq_Some _ _ _ _ Hth))
      as (th' & Hth' & [Hb Hp]%core_fields).
    exists w', th'. split_and!; [|done|done|done|by eauto|done].
    cbn [length read_pipe]. by rewrite (bind_run _ _ _ _ _ Hrun).
  - apply Forall_cons in Hfds as [Hfd Hfds].
    destruct (notifyHandler_handled app_inv w ls i th _ _ true true Hok Ha Hth Hpipe)
      as (w1 & ls1 & Hrun & Hok1 & Ha1 & _ & Hcore).
    destruct (core_lookup _ _ i _ Hcore (list_lookup_alter_eq_Some _ _ _ _ Hth))
      as (th1 & Hth1 & [_ Hp]%core_fields).
    destruct (IH w1 ls1 th1 Hok1 Ha1 Hth1 Hp Hfds) as (w' & th' & Hrun' & H).
    exists w', th'. split; [|exact H].
    cbn [length read_pipe]. rewrite (bind_run _ _ _ _ _ Hrun). exact Hrun'.
Qed.

(** C23: [quit] stops the main loop and, through its pipe, every worker: a worker
    that keeps reading its pipe first registers the connections that were handed
    to it before and then leaves its loop. *)
Theorem quit_stops_workers w ls :
  server_ok w ls → app_inv (app (w_ext w)) →
  Forall (λ th, Forall (λ fd0, fd0 ≠ EXIT_CODE) (notify_pipe th)) (w_threads w) →
  ∃ w1, quit (λ _, true) w = Ok (tt, w1) ∧
    base (main_base (w_ext w1)) = Some (mkBase true) ∧
    ∀ i th, w_threads w !! i = Some th →
      ∃ w' th', read_pipe (S (length (notify_pipe th))) i w1 = Ok (tt, w') ∧
        w_threads w' !! i = Some th' ∧ base th' = Some (mkBase true) ∧ notify_pipe th' = [] ∧
        ∃ ls', server_ok w' ls'.
Proof using SA.
  intros Hok Ha Hfds. destruct (quit_run (λ _, true) w ls Hok) as (ts & Hrun & _ & Hts).
  destruct (quit_server_ok (λ _, true) w ls Hok) as (w1 & Hrun1 & Hok1 & Happ & _).
  exists w1. split; [done|]. assert (w1 = _) as Hw1 by (rewrite Hrun in Hrun1; by injection Hrun1 as <-).
  split; [by rewrite Hw1|]. intros i th Hth.
  rewrite Forall_lookup in Hfds. specialize (Hfds _ _ Hth).
  destruct (read_pipe_stops w1 ls i (append_pipe EXIT_CODE th) (notify_pipe th))
    as (w' & th' & ? & ? & ? & ? & ? & _); try done.
  - by rewrite Happ.
  - rewrite Hw1. simpl. by rewrite Hts, Hth.
  - by exists w', th'.
Qed.
End behaviour.

(** ** A concrete server: two workers, callbacks that log *)

Module demo_server.
#[local] Existing Instances chunked.ops chunked.laws chunked.no_oom.

(** The callbacks log the connection and the event flags. *)
Definition log_call (c : ptr) (ev : Z) : M (World chunked.ops (TcpServer unit (list (ptr * Z)))) unit :=
  on_ext (modify (λ s, set_app (app s ++ [(c, ev)]) s)).
#[export] Instance callbacks : Callbacks unit (list (ptr * Z)) :=
  { call := λ _ c, log_call c 0; call_event := λ _ c ev, log_call c ev }.

#[export] Instance app_ok : ServerApp (λ _ : list (ptr * Z), True).
Proof.
  assert (Hlog : ∀ (w : World chunked.ops (TcpServer unit (list (ptr * Z)))) ls i c b ev,
    server_ok w ls → open_in w i c b →
    ∃ w' ls', log_call c ev w = Ok (tt, w') ∧ server_ok w' ls' ∧ True ∧ quiet w w' ∧ open_in w' i c b).
  { intros w ls i c b ev [? ? ? ? ?] Ho. eexists _, ls. split; [reflexivity|]. by split_and!. }
  split.
  - intros k w ls i c b _ Hok _ Ho. destruct (Hlog w ls i c b 0 Hok Ho) as (w' & ls' & ? & ? & ? & ? & _).
    by exists w', ls'.
  - intros k w ls i c b _ Hok _ Ho _. destruct (Hlog w ls i c b 0 Hok Ho) as (w' & ls' & ? & ? & ? & ? & _).
    by exists w', ls'.
  - intros k w ls i c b ev _ Hok _ Ho. by apply (Hlog w ls i c b ev).
Qed.

Abbreviation W := (World chunked.ops (TcpServer unit (list (ptr * Z)))).
Definition w0 : W := mkWorld (mkHeap 1 ∅) 1 ∅ []
  (mkServer None None None None 0 0 "" (mkThread 0 None false 0 0 [] (mkQueue 0 1 1)) None []).
Definition envs (i : nat) : thread_env := mkThreadEnv true (Some (10, 11)) true.
Definition senv : start_env := mkStartEnv (λ _, Some 16777343) true (λ i, Some (Z.of_nat i)).
Definition start : M W unit :=
  boot LittleEndian 2 "127.0.0.1" 8080 [] 1 true envs (Some tt) None (Some tt) (Some tt) senv.
Definition after (m : M W unit) (w : W) : W := match m w with Ok (_, w') => w' | _ => w end.

(** Two connections are accepted, the worker registers both. *)
Definition w1 : W := after start w0.
Definition w2 : W := after (handle (EAccept 7 true)) w1.
Definition w3 : W := after (handle (EAccept 8 true)) w2.
Definition w4 : W := after (handle (ENotify 0 true true)) w3.

Lemma w0_wf : heap_wf (w_heap w0).
Proof. intros p [c Hc]. simpl in Hc. by rewrite lookup_empty in Hc. Qed.
Lemma start_runs : start w0 = Ok (tt, w1).
Proof. vm_compute. reflexivity. Qed.
Lemma w1_ok : server_ok w1 [[]; []].
Proof. apply (boot_ok _ _ _ _ _ _ _ _ _ _ _ _ _ _ _ w0_wf eq_refl start_runs). Qed.
Lemma w1_w4 : rtc server_step w1 w4.
Proof.
  eapply rtc_l; [exists (EAccept 7 true); split; [by vm_compute|vm_compute; reflexivity]|].
  eapply rtc_l; [exists (EAccept 8 true); split; [by vm_compute|vm_compute; reflexivity]|].
  eapply rtc_l; [exists (ENotify 0 true true); split|apply rtc_refl].
  - eexists. split; [vm_compute; reflexivity|]. by split.
  - vm_compute. reflexivity.
Qed.
End demo_server.

Section server_witnesses.
Import demo_server.
Existing Instances chunked.ops chunked.laws chunked.no_oom callbacks app_ok.

Lemma w4_inv : server_inv (λ _, True) w4.
Proof. eapply reachable_inv; [apply app_ok|exact w1_w4|]. split; [done|]. split; [done|]. eexists. apply w1_ok. Qed.
Lemma w3_ok : server_ok w3 [[]; []].
Proof.
  assert (w3 = set_threads (alter (enqueue [7; 8]) 0%nat (w_threads w1)) w1) as ->
    by (vm_compute; reflexivity).
  by apply server_ok_alter; [..|apply w1_ok].
Qed.
Lemma w4_open : ∃ ls i c, server_ok w4 ls ∧ open_in w4 i c 1.
Proof.
  destruct w4_inv as (_ & _ & ls & Hok).
  destruct (data_of_run w4 ls 1 Hok) as (i & c & _ & _ & _ & Ho); [by eexists; vm_compute|].
  by exists ls, i, c.
Qed.

Lemma server_never_faults_witness :
  ∃ w', handle (EEvent 1 17) w4 = Ok (tt, w').
Proof.
  eapply (server_never_faults LittleEndian (λ _, True) 2 "127.0.0.1" 8080 [] 1 true envs
    (Some tt) None (Some tt) (Some tt) senv w0 w1 w4);
    [apply w0_wf|reflexivity|lia|exact I|apply start_runs|apply w1_w4|by eexists; vm_compute].
Defined.

Lemma reachable_connections_consistent_witness :
  ∃ ls, length ls = length (w_threads w4) ∧
    (∀ i th l, w_threads w4 !! i = Some th → ls !! i = Some l →
       queue_ok (w_heap w4) (connect_queue th) l ∧ getCount (connect_queue th) = u64 (lenZ l)) ∧
    (∀ i l c, ls !! i = Some l → c ∈ l → ∃ b, open_in w4 i c b) ∧
    (∀ b, is_Some (w_bevs w4 !! b) → ∃ i l c, ls !! i = Some l ∧ c ∈ l ∧ open_in w4 i c b).
Proof.
  eapply (reachable_connections_consistent LittleEndian (λ _, True) 2 "127.0.0.1" 8080 [] 1 true
    envs (Some tt) None (Some tt) (Some tt) senv w0 w1 w4);
    [apply w0_wf|reflexivity|lia|exact I|apply start_runs|apply w1_w4].
Defined.

Lemma acceptCb_least_loaded_witness :
  ∃ num, least_loaded ((λ l : list ptr, lenZ l) <$> [[]; []]) num ∧
    acceptCb 7 true w1 = Ok (tt, set_threads (alter (enqueue [7]) num (w_threads w1)) w1).
Proof. apply acceptCb_least_loaded; [apply w1_ok|done|by repeat constructor]. Defined.

Lemma acceptCb_no_workers_faults_witness : acceptCb 7 true w0 = Fault OutOfBounds.
Proof. by apply acceptCb_no_workers_faults. Defined.

Lemma accept_burst_one_worker_witness :
  ∃ num, (num < length (w_threads w1))%nat ∧
    acceptAll [7; 8; 9] w1 =
      Ok (tt, set_threads (alter (enqueue [7; 8; 9]) num (w_threads w1)) w1).
Proof. by apply (accept_burst_one_worker _ [[]; []]); [apply w1_ok|..]. Defined.

Lemma notifyHandler_registers_witness :
  ∃ c b w', notifyHandler 0 true true w3 = when_set (connect_cb (w_ext w3)) (λ k, call k c) w' ∧
    server_ok w' [[c]; []] ∧ open_in w' 0 c b ∧ c ∉ ([] : list ptr) ∧
    payload <$> cells (w_heap w') !! c = Some (7, Some 0%nat, Some b, None, None) ∧
    core <$> w_threads w' = core <$> alter (set_pipe [8]) 0%nat (w_threads w3) ∧
    w_ext w' = w_ext w3.
Proof.
  eapply (notifyHandler_registers w3 [[]; []] 0);
    [apply w3_ok|vm_compute; reflexivity|vm_compute; reflexivity|done|done].
Defined.

Lemma defaultErrorCallback_closes_witness :
  ∃ ls i c w' l, defaultErrorCallback (Some c) parseError w4 = Ok (tt, w') ∧ ls !! i = Some l ∧
    server_ok w' (<[i := filter (λ x, x ≠ c) l]> ls) ∧ w_ext w' = w_ext w4 ∧ quiet w4 w' ∧
    cells (w_heap w') !! c = None ∧ w_bevs w' = delete 1%positive (w_bevs w4).
Proof.
  destruct w4_open as (ls & i & c & Hok & Ho). exists ls, i, c.
  by apply defaultErrorCallback_closes.
Defined.

Lemma bufferEventCb_closes_witness :
  ∃ c w', bufferEventCb 1 17 c w4 = Ok (tt, w') ∧ (∃ ls', server_ok w' ls') ∧
    True ∧ quiet w4 w' ∧ cells (w_heap w') !! c = None ∧ w_bevs w' !! 1%positive = None.
Proof.
  destruct w4_open as (ls & i & c & Hok & Ho). exists c.
  by apply (bufferEventCb_closes (λ _, True) w4 ls i c 1 17).
Defined.

Lemma quit_stops_workers_witness :
  ∃ w', quit (λ _, true) w3 = Ok (tt, w') ∧ base (main_base (w_ext w')) = Some (mkBase true) ∧
    ∀ i th, w_threads w3 !! i = Some th →
      ∃ w'' th', read_pipe (S (length (notify_pipe th))) i w' = Ok (tt, w'') ∧
        w_threads w'' !! i = Some th' ∧ base th' = Some (mkBase true) ∧ notify_pipe th' = [] ∧
        ∃ ls', server_ok w'' ls'.
Proof.
  apply (quit_stops_workers (λ _, True) w3 [[]; []]); [apply w3_ok|exact I|].
  vm_compute. by repeat constructor.
Defined.
End server_witnesses.
