(* ===== verification/ServerEnd.v ===== *)
(** * The end of a server: [~TcpServer]

    The destructor frees the connection objects in all queues and the event
    bases, each once.  It does not free the bufferevents of open connections:
    their sockets stay open and their callbacks refer to objects that are gone. *)

From S2P Require Import Prelude Endian ConnQueue External World Pool.
From S2P Require Import TcpServer ServerInv ServerRun ServerBoot ServerProps.

Section queues.
Context {EB : EvbufferOps} {K A : Type} {CB : Callbacks K A}.
Implicit Types (w : World EB (TcpServer K A)) (ls : list (list ptr)) (h : ConnHeap).

(** [p] belongs to the queue of one of the first [n] workers. *)
Definition in_first n w ls p : Prop :=
  ∃ i q l, (i < n)%nat ∧ owner (connect_queue <$> w_threads w) ls i q l ∧ p ∈ chain q l.

(** The queues of the first [n] workers are well formed and apart. *)
Definition first_ok n w ls : Prop :=
  (∀ i q l, (i < n)%nat → owner (connect_queue <$> w_threads w) ls i q l → queue_ok (w_heap w) q l) ∧
  (∀ i j q q' l l' p, owner (connect_queue <$> w_threads w) ls i q l →
     owner (connect_queue <$> w_threads w) ls j q' l' → p ∈ chain q l → p ∈ chain q' l' → i = j).

(** [h'] is [h] without the objects in [X]. *)
Definition frees (X : ptr → Prop) h h' : Prop :=
  ∀ p, (X p → cells h' !! p = None) ∧ (¬ X p → cells h' !! p = cells h !! p).

Lemma frees_wf X h m : (∀ p, X p ∨ ¬ X p) → frees X h (mkHeap (brk h) m) → heap_wf h → heap_wf (mkHeap (brk h) m).
Proof.
  intros Hdec Hf Hwf p Hp. simpl in *. destruct (Hf p) as [H1 H2]. simpl in H1, H2.
  destruct (Hdec p) as [HX|HX]; [rewrite H1 in Hp by done; by destruct Hp|].
  apply Hwf. by rewrite <- H2.
Qed.

(** One queue is destroyed; those that are apart from it stay well formed. *)
Lemma destroy_one h q l fuel : queue_ok h q l → (length l + 2 ≤ fuel)%nat →
  ∃ h', ConnQueue_destroy fuel q h = Ok (tt, h') ∧ frees (λ p, p ∈ chain q l) h h' ∧ heap_wf h' ∧
    ∀ q' l', queue_ok h q' l' → (∀ p, p ∈ chain q' l' → p ∉ chain q l) → queue_ok h' q' l'.
Proof.
  intros Hq Hf. destruct (queue_destroy_run h q l fuel Hq Hf) as (m & Hrun & Hm).
  assert (Hfr : frees (λ p, p ∈ chain q l) h (mkHeap (brk h) m)).
  { intros p. simpl. rewrite Hm. by destruct (decide (p ∈ chain q l)). }
  assert (Hwf : heap_wf (mkHeap (brk h) m)).
  { eapply frees_wf; [|exact Hfr|apply Hq]. intros p. destruct (decide (p ∈ chain q l)); auto. }
  exists (mkHeap (brk h) m). split_and!; [done..|]. intros q' l' Hq' Hd.
  eapply (queue_ok_frame h _ _ _ (λ p, p ∈ chain q l)); [done| |done|done].
  intros p Hp. by apply Hfr.
Qed.

(** [delete[] threads] *)
Definition destroy_queues fuel n : M (World EB (TcpServer K A)) unit :=
  for_each (rev (seq 0 n)) (λ i, th ← thread_at (Some i); on_heap (ConnQueue_destroy fuel (connect_queue th))).

Lemma destroy_queues_run fuel n w ls :
  (n ≤ length (w_threads w))%nat → length ls = length (w_threads w) → first_ok n w ls →
  (∀ i l, ls !! i = Some l → (length l + 2 ≤ fuel)%nat) →
  ∃ h', destroy_queues fuel n w = Ok (tt, set_heap h' w) ∧ frees (in_first n w ls) (w_heap w) h'.
Proof.
  intros Hn Hlen. revert w Hn Hlen. induction n as [|n IH]; intros w Hn Hlen [Hok Hd] Hf.
  { exists (w_heap w). rewrite set_heap_id. split; [done|]. intros p. split; [|done].
    intros (i & _ & _ & ? & _). lia. }
  destruct (lookup_lt_is_Some_2 (w_threads w) n) as [th Hth]; [lia|].
  destruct (lookup_lt_is_Some_2 ls n) as [l Hl]; [lia|].
  assert (Hown : owner (connect_queue <$> w_threads w) ls n (connect_queue th) l)
    by (split; [by rewrite list_lookup_fmap, Hth|done]).
  destruct (destroy_one (w_heap w) (connect_queue th) l fuel) as (h1 & Hrun1 & Hfr1 & Hwf1 & Hrest);
    [by apply (Hok n); [lia|]|by eapply Hf|].
  destruct (IH (set_heap h1 w)) as (h2 & Hrun2 & Hfr2); [simpl; lia|done| |done|].
  { split; [|exact Hd]. intros i q l' Hi Hown'. apply Hrest; [apply (Hok i); [lia|done]|].
    intros p Hp Hp'. assert (i = n) as -> by (by eapply Hd). lia. }
  exists h2. split.
  - unfold destroy_queues in *. rewrite seq_S, rev_app_distr. cbn [rev Datatypes.app for_each Nat.add].
    rewrite bind_assoc. mrun (thread_at_run _ _ _ Hth).
    erewrite bind_run by (by apply on_heap_run). exact Hrun2.
  - intros p. destruct (Hfr1 p) as [Hin1 Hout1], (Hfr2 p) as [Hin2 Hout2]. simpl in Hout2.
    change (in_first n (set_heap h1 w) ls p) with (in_first n w ls p) in *.
    destruct (decide (p ∈ chain (connect_queue th) l)) as [Hp|Hp].
    + split; [intros _|intros Hnot; destruct Hnot; by exists n, (connect_queue th), l; split; [lia|]].
      rewrite Hout2; [by apply Hin1|]. intros (i & q & l' & Hi & Ho & Hp').
      assert (i = n) as -> by (by eapply Hd). lia.
    + split.
      * intros (i & q & l' & Hi & Ho & Hp'). apply Hin2. exists i, q, l'. split; [|done].
        destruct (decide (i = n)) as [->|Hne]; [|lia]. destruct Hown, Ho. congruence.
      * intros Hnot. rewrite Hout2; [by apply Hout1|]. intros (i & q & l' & Hi & Ho & Hp').
        apply Hnot. exists i, q, l'. split; [lia|done].
Qed.

(** The bases of all workers are freed. *)
Lemma free_bases_run n w : (n ≤ length (w_threads w))%nat → Forall (λ th, base th ≠ None) (w_threads w) →
  ∀ k r, (k + r = n)%nat →
  for_each (seq k r) (λ i, th ← thread_at (Some i); free_base (base th)) w = Ok (tt, w).
Proof.
  intros Hn Hb k r. revert k. induction r as [|r IH]; intros k Hk; [done|].
  destruct (lookup_lt_is_Some_2 (w_threads w) k) as [th Hth]; [lia|].
  cbn [seq for_each]. rewrite bind_assoc. mrun (thread_at_run _ _ _ Hth).
  rewrite Forall_lookup in Hb. pose proof (Hb _ _ Hth) as Hbase.
  destruct (base th); [|done]. erewrite bind_run by reflexivity. apply IH. lia.
Qed.
End queues.

Section destructor.
Context {EB : EvbufferOps} {K A : Type} {CB : Callbacks K A}.
Context (host : endian).
Implicit Types (w : World EB (TcpServer K A)) (ls : list (list ptr)).

(** What the destructor frees: the objects and sentinels of all queues. *)
Definition in_server w ls p : Prop := p ∈ chain (main_queue w) [] ∨ in_pool w ls p.

Lemma destroy_run w ls fuel ok :
  server_ok w ls → (2 ≤ fuel)%nat → (∀ i l, ls !! i = Some l → (length l + 2 ≤ fuel)%nat) →
  ∃ w', TcpServer_destroy fuel ok w = Ok (tt, w') ∧ w_bevs w' = w_bevs w ∧ w_threads w' = [] ∧
    frees (in_server w ls) (w_heap w) (w_heap w').
Proof.
  intros Hok Hf2 Hf. destruct (quit_run ok w ls Hok) as (ts & Hquit & Hqs & Hts).
  set (w1 := set_ext _ (set_threads ts w)) in Hquit.
  assert (Hlen : length ts = length (w_threads w)) by (apply (f_equal length) in Hqs; by rewrite !length_fmap in Hqs).
  assert (Hn : Z.to_nat (thread_count (w_ext w)) = length (w_threads w)) by (rewrite (so_count _ _ Hok); lia).
  assert (Hbases : Forall (λ th, base th ≠ None) (w_threads w1)).
  { apply Forall_lookup_2. intros i th Hi. simpl in Hi. rewrite Hts in Hi.
    apply fmap_Some in Hi as (th0 & Hi & ->). pose proof (so_bases _ _ Hok) as Hb.
    rewrite Forall_lookup in Hb. specialize (Hb _ _ Hi). by destruct (ok i). }
  destruct (so_apart _ _ Hok) as [Hmq Hma].
  destruct (destroy_one (w_heap w) (main_queue w) [] fuel Hmq Hf2) as (h1 & Hrun1 & Hfr1 & Hwf1 & Hrest).
  pose proof (so_conns _ _ Hok) as Hp.
  destruct (destroy_queues_run fuel (length ts) (set_heap h1 w1) ls) as (h2 & Hrun2 & Hfr2); [done| |split|done|].
  { pose proof (ok_length _ _ _ _ _ Hp) as H. rewrite length_fmap in H. simpl. lia. }
  { simpl. rewrite Hqs. intros i q l _ Ho. apply Hrest; [by eapply ok_queue|].
    intros p Hin Hin'. apply (Hma p Hin'). by exists i, q, l. }
  { simpl. rewrite Hqs. intros i j q q' l l' p. by apply (ok_disjoint _ _ _ _ _ Hp). }
  assert (Hin : ∀ p, in_first (length ts) (set_heap h1 w1) ls p ↔ in_pool w ls p).
  { intros p. unfold in_first, in_pool. simpl. rewrite Hqs. split.
    - intros (i & q & l & _ & H). by exists i, q, l.
    - intros (i & q & l & H & Hpq). exists i, q, l. split; [|done]. destruct H as [H _].
      apply lookup_lt_Some in H. rewrite length_fmap in H. lia. }
  eexists. split; [|split_and!; [| |]].
  - unfold TcpServer_destroy. mrun Hquit. mrun.
    change (thread_count (w_ext w1)) with (thread_count (w_ext w)). rewrite Hn, <- Hlen. mrun.
    mrun (free_bases_run (length ts) w1 ltac:(simpl; lia) Hbases 0 (length ts) eq_refl).
    change (connect_queue (main_base (w_ext w1))) with (main_queue w).
    erewrite bind_run by (by apply on_heap_run). mrun Hrun2. reflexivity.
  - done.
  - done.
  - intros p. destruct (Hfr1 p) as [H1 H2], (Hfr2 p) as [H3 H4]. rewrite Hin in H3, H4. simpl in *.
    split.
    + intros [Hpm|Hpp]; [|by apply H3]. rewrite H4; [by apply H1|by apply Hma].
    + intros Hnot. rewrite H4; [apply H2; intros H; apply Hnot; by left|]. intros H. apply Hnot. by right.
Qed.

(** Events on a bufferevent whose connection object is gone. *)
Lemma dangling_events w b bv c : w_bevs w !! b = Some bv → bev_data bv = Some c → cells (w_heap w) !! c = None →
  ∀ e, (∃ inp, e = ERead b inp) ∨ (∃ out, e = EWrite b out) ∨ (∃ ev, e = EEvent b ev) →
  handle e w = Fault UseAfterFree.
Proof.
  intros Hb Hd Hc.
  assert (Hdata : data_of b w = Ok (c, w)).
  { unfold data_of. mrun (bev_at_run _ _ _ Hb). by rewrite Hd. }
  assert (Hat : ∀ (m : gmap ptr (Bufferevent EB)), conn_at c (set_bevs m w) = Fault UseAfterFree).
  { intros m. unfold conn_at. apply zoom_fault. simpl. unfold load. by rewrite Hc. }
  assert (Hup : ∀ f (m : gmap ptr (Bufferevent EB)), conn_update c f (set_bevs m w) = Fault UseAfterFree).
  { intros f m. unfold conn_update. apply zoom_fault. simpl. unfold store. by rewrite Hc. }
  intros e [[inp ->]|[[out ->]|[ev ->]]]; cbn [handle]; mrun Hdata.
  - mrun (buf_store_run w b Input bv inp Hb). unfold bufferReadCb.
    mrun (get_input_run (set_bevs _ w) b ltac:(simpl; rewrite lookup_insert_eq; by eexists)).
    apply bind_fault, Hup.
  - mrun (buf_store_run w b Output bv out Hb). unfold bufferWriteCb.
    mrun (get_input_run (set_bevs _ w) b ltac:(simpl; rewrite lookup_insert_eq; by eexists)).
    apply bind_fault, Hup.
  - unfold bufferEventCb, server_of, getThread. rewrite !bind_assoc. do 1 apply bind_fault.
    rewrite <- (set_bevs_id w). apply Hat.
Qed.

Context (app_inv : A → Prop) {SA : ServerApp app_inv}.

(** C24: the destructor of a server, in every state that its event loops reach,
    ends without a fault and frees every connection object, sentinels included,
    and nothing else.  But it closes no connection: the bufferevent of every
    open connection stays, and every event on it, read, write or error, then
    uses the freed connection object. *)
Theorem destructor_leaves_connections count ip0 port0 a self me envs r wr c e senv w0 w1 w :
  heap_wf (w_heap w0) → w_bevs w0 = ∅ → 0 < count → app_inv a →
  boot host count ip0 port0 a self me envs r wr c e senv w0 = Ok (tt, w1) →
  rtc server_step w1 w →
  ∃ n ls, server_ok w ls ∧ ∀ fuel ok, (n ≤ fuel)%nat →
  ∃ w', TcpServer_destroy fuel ok w = Ok (tt, w') ∧ w_bevs w' = w_bevs w ∧
    frees (in_server w ls) (w_heap w) (w_heap w') ∧
    ∀ b, is_Some (w_bevs w !! b) →
    ∀ e, (∃ inp, e = ERead b inp) ∨ (∃ out, e = EWrite b out) ∨ (∃ ev, e = EEvent b ev) →
      handle e w' = Fault UseAfterFree.
Proof using SA.
  intros Hwf Hbv Hc Ha Hboot Hreach.
  assert (server_inv app_inv w) as (_ & _ & ls & Hok) by (eapply reachable_inv; [done..|]; by eapply boot_inv).
  exists (2 + max_list (length <$> ls))%nat, ls. split; [done|]. intros fuel ok Hf.
  destruct (destroy_run w ls fuel ok Hok ltac:(lia)) as (w' & Hrun & Hb & _ & Hfr).
  { intros i l Hl. assert (length l ≤ max_list (length <$> ls))%nat; [|lia].
    apply max_list_elem_of_le. apply list_elem_of_fmap. exists l. split; [done|]. by eapply list_elem_of_lookup_2. }
  exists w'. split_and!; [done..|]. intros b [bv Hbv'].
  destruct (ok_bev _ _ _ _ _ (so_conns _ _ Hok) _ _ Hbv') as (_ & i & l & k & Hl & Hk & Ho).
  apply (dangling_events w' b bv k); [by rewrite Hb| |].
  - destruct Ho as (x & bv' & _ & _ & _ & _ & Hb' & Hd). congruence.
  - apply Hfr. right. by eapply open_in_pool; [apply Hok|].
Qed.
End destructor.

Section destructor_witness.
Import demo_server.
#[local] Existing Instances chunked.ops chunked.laws chunked.no_oom callbacks app_ok.

Lemma destructor_leaves_connections_witness :
  is_Some (w_bevs w4 !! 1%positive) ∧
  ∃ w', (∃ fuel, TcpServer_destroy fuel (λ _, true) w4 = Ok (tt, w')) ∧ handle (EEvent 1 17) w' = Fault UseAfterFree.
Proof.
  assert (Hb : is_Some (w_bevs w4 !! 1%positive)) by (by eexists; vm_compute). split; [exact Hb|].
  destruct (destructor_leaves_connections LittleEndian (λ _, True) 2 "127.0.0.1" 8080 [] 1 true envs
    (Some tt) None (Some tt) (Some tt) senv w0 w1 w4) as (n & ls & _ & H);
    [apply w0_wf|reflexivity|lia|exact I|apply start_runs|apply w1_w4|].
  destruct (H n (λ _, true) (Nat.le_refl n)) as (w' & Hrun & _ & _ & Hf).
  exists w'. split; [by exists n|]. apply (Hf 1%positive Hb). right. right. by exists 17.
Defined.
End destructor_witness.
