(* ===== verification/RpcChannel.v ===== *)
(** * The RPC channel: [class RpcChannel] (src/rpcChannel.h, src/rpcChannel.cpp)

    A channel sends calls over a connection and remembers what waits for their
    answers; it dispatches requests to services and sends their answers back.
    Its codec is a [ProtobufCodecLiteDerived] (src/codeClite.h) with the tag of
    src/rpcCode.cpp.  The user's messages, services and closures are parameters:
    a response, a closure and a channel are heap objects, so that what the code
    frees, and when, is part of the model. *)

From stdpp Require Import sorting.
From S2P Require Import Prelude Endian ConnQueue External World Codec ProtoWire RpcPb RpcPbParse.

#[global] Instance byte_countable : Countable Byte.byte.
Proof. by apply (inj_countable Byte.to_N Byte.of_N), Byte.of_to_N. Defined.

(** ** The user's side of protobuf: messages, services, closures *)

Class UserOps := {
  UMsg : Type;
  SerializeAsString : UMsg → bytes;
  ParseFromString : UMsg → bytes → bool * UMsg;
  MethodDescriptor : Type;
  method_name : MethodDescriptor → bytes;
  (** [method->service()->full_name()] *)
  method_service : MethodDescriptor → bytes;
  Service : Type;
  (** [service->GetDescriptor()->full_name()] *)
  service_name : Service → bytes;
  (** [service->GetDescriptor()->FindMethodByName(name)] *)
  FindMethodByName : Service → bytes → option MethodDescriptor;
  (** [service->GetRequestPrototype(method).New()], and of the response *)
  NewRequest : Service → MethodDescriptor → UMsg;
  NewResponse : Service → MethodDescriptor → UMsg;
  (** what a closure of the user stands for *)
  UserCode : Type
}.

(** ** State *)

Section state.
Context {UO : UserOps}.

Record OutstandingCall := mkOut { out_response : option ptr; out_done : option ptr }.

(** A heap-allocated [google::protobuf::Closure]: one of the user's, or
    [NewCallback(this, &RpcChannel::doneCallback, response, id)]. *)
Inductive Closure :=
  | UserClosure (u : UserCode)
  | DoneCallback (chan response : ptr) (id : Z).

(** [conn] is [None] while it is not initialised. *)
Record RpcChannel := mkChannel {
  conn : option (option ptr);
  outstandings : gmap Z OutstandingCall;
  services : option ptr
}.

Abbreviation service_map := (gmap bytes (option Service)).

(** The static [_id], the allocator and the live objects; [service_maps] are the
    maps of services that a channel may point to. *)
Record RpcState := mkRpc {
  _id : Z;
  rpc_brk : ptr;
  messages : gmap ptr UMsg;
  closures : gmap ptr Closure;
  channels : gmap ptr RpcChannel;
  service_maps : gmap ptr service_map
}.

Definition put_id v s := mkRpc v (rpc_brk s) (messages s) (closures s) (channels s) (service_maps s).
Definition set_messages x s := mkRpc (_id s) (rpc_brk s) x (closures s) (channels s) (service_maps s).
Definition set_closures x s := mkRpc (_id s) (rpc_brk s) (messages s) x (channels s) (service_maps s).
Definition set_channels x s := mkRpc (_id s) (rpc_brk s) (messages s) (closures s) x (service_maps s).
Definition set_service_maps x s := mkRpc (_id s) (rpc_brk s) (messages s) (closures s) (channels s) x.
Definition set_outstandings o c := mkChannel (conn c) o (services c).

Definition rpc_alloc : M RpcState ptr := λ s,
  Ok (rpc_brk s, mkRpc (_id s) (Pos.succ (rpc_brk s)) (messages s) (closures s) (channels s)
                   (service_maps s)).

(** Access to and deletion of an object of one of the heaps; deleting [NULL]
    does nothing. *)
Definition object_at {A} (heap : RpcState → gmap ptr A) (p : option ptr) : M RpcState A :=
  match p with
  | None => raise NullDeref
  | Some p => o ← gets (λ s, heap s !! p); expect UseAfterFree o
  end.
Definition delete_object {A} (heap : RpcState → gmap ptr A) (put : gmap ptr A → RpcState → RpcState)
    (p : option ptr) : M RpcState unit :=
  match p with
  | None => mret tt
  | Some p =>
      o ← gets (λ s, heap s !! p);
      _ ← expect DoubleFree o;
      modify (λ s, put (delete p (heap s)) s)
  end.

Definition new_message (m : UMsg) : M RpcState ptr :=
  p ← rpc_alloc; _ ← modify (λ s, set_messages (<[p := m]> (messages s)) s); mret p.
Definition NewCallback (c : Closure) : M RpcState ptr :=
  p ← rpc_alloc; _ ← modify (λ s, set_closures (<[p := c]> (closures s)) s); mret p.
Definition new_channel (c : RpcChannel) : M RpcState ptr :=
  p ← rpc_alloc; _ ← modify (λ s, set_channels (<[p := c]> (channels s)) s); mret p.

Definition message_at := object_at messages.
Definition delete_message := delete_object messages set_messages.
Definition delete_closure := delete_object closures set_closures.
Definition channel_at (p : ptr) := object_at channels (Some p).
Definition channel_update (p : ptr) (f : RpcChannel → RpcChannel) : M RpcState unit :=
  c ← channel_at p; modify (λ s, set_channels (<[p := f c]> (channels s)) s).

(** [++_id] of an [int] *)
Definition next_id : M RpcState Z :=
  i ← gets _id;
  if decide (i = INT_MAX) then raise SignedOverflow else
  _ ← modify (put_id (i + 1)); mret (i + 1).
End state.
Arguments RpcState UO : clear implicits.

(** The state of the process has the state of the channels as a part. *)
Class RpcHost (UO : UserOps) (E : Type) := {
  rpc_of : E → RpcState UO;
  set_rpc : RpcState UO → E → E;
  rpc_of_set s e : rpc_of (set_rpc s e) = s;
  set_rpc_of e : set_rpc (rpc_of e) e = e;
  set_rpc_set s s' e : set_rpc s (set_rpc s' e) = set_rpc s e
}.
#[export] Instance rpc_host_self (UO : UserOps) : RpcHost UO (RpcState UO).
Proof. by refine {| rpc_of := λ s, s; set_rpc := λ s _, s |}. Defined.

(** What the user's closures and services do. *)
Class UserClosures {EB : EvbufferOps} {UO : UserOps} (E : Type) := {
  run_user : UserCode → M (World EB E) unit
}.
Class UserServices {EB : EvbufferOps} {UO : UserOps} (E : Type) := {
  (** [service->CallMethod(method, NULL, request, response, done)] *)
  service_CallMethod : Service → MethodDescriptor → UMsg → ptr → ptr → M (World EB E) unit
}.

(** src/rpcCode.cpp *)
Definition rpctag : bytes := bytes_of_string "mRpc".

Section RpcChannel.
Context {EB : EvbufferOps} {ZL : ZlibOps} {WO : WireOps} {PO : ParseOps} {UO : UserOps}.
Context {E : Type} {RH : RpcHost UO E} {UC : UserClosures E} {US : UserServices E}.
Context (host : endian).
Abbreviation MW := (M (World EB E)).

Definition on_rpc {A} (m : M (RpcState UO) A) : MW A := on_ext (zoom rpc_of set_rpc m).

(** ** The codec: [RpcCodeDerived]

    The constructor of [ProtobufCodecLiteDerived]; the cast of the message that
    its [onRpcMessage] does is the identity here. *)
Definition RpcCodeDerived (messageCb : ptr → RpcMessage.t → MW unit) : ProtobufCodecLite EB RpcMessage.t E :=
  ProtobufCodecLite_init rpctag messageCb None (λ c e, defaultErrorCallback (Some c) e).

(** Sending reads only the tag of the codec, not its callback. *)
Definition rpcCodeDer_send (c : option ptr) (message : RpcMessage.t) : MW unit :=
  let codec := RpcCodeDerived (λ _ _, mret tt) in
  match c with
  | Some c => send host codec c message
  | None => _ ← run_local (fillEmptyBuffer host codec message) evbuffer_new; raise NullDeref
  end.

(** [this->conn] *)
Definition get_conn (chan : ptr) : MW (option ptr) :=
  c ← on_rpc (channel_at chan); expect Uninit (conn c).

(** ** Construction and destruction *)

Definition RpcChannel_init_default : MW ptr :=
  on_rpc (new_channel (mkChannel None ∅ NULL)).
Definition RpcChannel_init (c : option ptr) : MW ptr :=
  on_rpc (new_channel (mkChannel (Some c) ∅ NULL)).

(** The parameter has the name of the member: it is assigned to itself. *)
Definition setConnection (chan : ptr) (conn : option ptr) : MW unit :=
  let conn := conn in mret tt.
Definition setServices (chan : ptr) (services : option ptr) : MW unit :=
  let services := services in mret tt.

(** The outstanding calls in the order of a [std::map]. *)
Definition key_le (a b : Z * OutstandingCall) : Prop := a.1 ≤ b.1.
#[global] Instance key_le_dec : RelDecision key_le.
Proof. unfold key_le. intros a b. apply _. Defined.
Definition calls_in_order (o : gmap Z OutstandingCall) : list OutstandingCall :=
  (merge_sort key_le (map_to_list o)).*2.

Fixpoint destroy_calls (l : list OutstandingCall) : MW unit :=
  match l with
  | [] => mret tt
  | out :: l =>
      _ ← on_rpc (delete_message (out_response out));
      _ ← on_rpc (delete_closure (out_done out));
      destroy_calls l
  end.

Definition RpcChannel_destroy (chan : ptr) : MW unit :=
  c ← on_rpc (channel_at chan);
  _ ← destroy_calls (calls_in_order (outstandings c));
  on_rpc (modify (λ s, set_channels (delete chan (channels s)) s)).

(** ** Messages of the protocol *)

(** A local [RpcMessage] built by [m]. *)
Definition build (m : M RpcMessage.t unit) (from : RpcMessage.t) : MW RpcMessage.t :=
  r ← run_local m from; mret r.2.

Definition request_message (id : Z) (method : MethodDescriptor) (request : UMsg) : M RpcMessage.t unit :=
  _ ← modify (RpcMessage.set_id id);
  _ ← modify (RpcMessage.set_service (method_service method));
  _ ← modify (RpcMessage.set_method (method_name method));
  modify (RpcMessage.set_request (SerializeAsString request)).

Definition response_message (id : Z) (response : UMsg) : M RpcMessage.t unit :=
  _ ← RpcMessage.set_type RESPONSE;
  _ ← modify (RpcMessage.set_id id);
  modify (RpcMessage.set_response (SerializeAsString response)).

Definition error_message (id error : Z) : M RpcMessage.t unit :=
  _ ← RpcMessage.set_type RESPONSE;
  _ ← modify (RpcMessage.set_id id);
  RpcMessage.set_error error.

(** ** Calls *)

Definition CallMethod (chan : ptr) (method : MethodDescriptor) (request : UMsg)
    (response done : option ptr) : MW unit :=
  message ← build (_ ← modify RpcMessage.Clear; RpcMessage.set_type REQUEST) RpcMessage.init;
  id ← on_rpc next_id;
  message ← build (request_message id method request) message;
  let out := mkOut response done in
  _ ← on_rpc (channel_update chan (λ c, set_outstandings (<[id := out]> (outstandings c)) c));
  c ← get_conn chan;
  rpcCodeDer_send c message.

(** The answer of a service: sends it and frees it. *)
Definition doneCallback (chan response : ptr) (id : Z) : MW unit :=
  _ ← assert_ (bool_decide (id ≠ 0));
  r ← on_rpc (message_at (Some response));
  message ← build (response_message id r) RpcMessage.init;
  c ← get_conn chan;
  _ ← rpcCodeDer_send c message;
  on_rpc (delete_message (Some response)).

(** [done->Run()]: the closure runs and deletes itself. *)
Definition Run (closure : ptr) : MW unit :=
  k ← on_rpc (object_at closures (Some closure));
  _ ← match k with
      | UserClosure u => run_user u
      | DoneCallback chan response id => doneCallback chan response id
      end;
  on_rpc (delete_closure (Some closure)).

(** ** Received messages *)

Definition onResponse (chan : ptr) (message : RpcMessage.t) : MW unit :=
  let id := i64 (RpcMessage.id message) in
  _ ← assert_ (RpcMessage.has_response message || RpcMessage.has_error message);
  this ← on_rpc (channel_at chan);
  out ← match outstandings this !! id with
        | Some out =>
            _ ← on_rpc (channel_update chan (λ c, set_outstandings (delete id (outstandings c)) c));
            mret out
        | None => mret (mkOut NULL NULL)
        end;
  match out_response out with
  | None => mret tt
  | Some d =>
      _ ← (if RpcMessage.has_response message
           then on_rpc (r ← message_at (Some d);
                        let r' := (ParseFromString r (RpcMessage.response message)).2 in
                        modify (λ s, set_messages (<[d := r']> (messages s)) s))
           else mret tt);
      _ ← match out_done out with None => mret tt | Some done => Run done end;
      on_rpc (delete_message (Some d))
  end.

(** The part of the request branch that determines [error]. *)
Definition onRequest_call (chan : ptr) (message : RpcMessage.t) : MW Z :=
  this ← on_rpc (channel_at chan);
  match services this with
  | None => mret NO_SERVICE
  | Some p =>
      services ← on_rpc (object_at service_maps (Some p));
      match services !! RpcMessage.service message with
      | None => mret NO_SERVICE
      | Some None => raise AssertFail
      | Some (Some service) =>
          match FindMethodByName service (RpcMessage.method message) with
          | None => mret NO_METHOD
          | Some method =>
              let '(ok, request) := ParseFromString (NewRequest service method) (RpcMessage.request message) in
              if ok : bool then
                response ← on_rpc (new_message (NewResponse service method));
                let id := i64 (RpcMessage.id message) in
                done ← on_rpc (NewCallback (DoneCallback chan response id));
                _ ← service_CallMethod service method request response done;
                mret NO_ERROR
              else mret INVALID_REQUEST
          end
      end
  end.

Definition onRequest (chan : ptr) (c : ptr) (message : RpcMessage.t) : MW unit :=
  error ← onRequest_call chan message;
  if decide (error ≠ NO_ERROR) then
    response ← build (error_message (RpcMessage.id message) error) RpcMessage.init;
    rpcCodeDer_send (Some c) response
  else mret tt.

Definition onRpcMessage (chan : ptr) (c : ptr) (message : RpcMessage.t) : MW unit :=
  _ ← assert_ (bool_decide (c = c));
  if decide (RpcMessage.type message = RESPONSE) then onResponse chan message
  else if decide (RpcMessage.type message = REQUEST) then onRequest chan c message
  else mret tt.

(** [rpcCodeDer] of the channel *)
Definition rpcCodeDer (chan : ptr) : ProtobufCodecLite EB RpcMessage.t E :=
  RpcCodeDerived (onRpcMessage chan).

Definition onMessage (fuel : nat) (chan : ptr) (c : option ptr) : MW unit :=
  match c with
  | None => mret tt
  | Some c => _ ← on_rpc (channel_at chan); Codec.onMessage host fuel (rpcCodeDer chan) c
  end.
End RpcChannel.
