(* ===== verification/ChannelLemmas.v ===== *)
(** * Lemmas on channels: access to their state, frames written, messages built

    The vocabulary of the properties of [RpcChannel]: [rpc] is the state of the
    channels, [writes] says that a connection can be written to, and the three
    messages a channel sends are given by what a reader sees of them. *)

From S2P Require Import Prelude Endian ConnQueue External World Codec Decoder Wire.
From S2P Require Import ProtoWire RpcPb RpcPbProps RpcPbParse RpcChannel.

(** ** The state of the channels in the state of the process *)

Section rpc_state.
Context {EB : EvbufferOps} {UO : UserOps} {E : Type} {RH : RpcHost UO E}.
Implicit Types (w : World EB E) (s : RpcState UO).

Definition rpc w : RpcState UO := rpc_of (w_ext w).
Definition put_rpc s w : World EB E := set_ext (set_rpc s (w_ext w)) w.

Lemma rpc_put s w : rpc (put_rpc s w) = s.
Proof. unfold rpc, put_rpc. simpl. apply rpc_of_set. Qed.
Lemma put_rpc_rpc w : put_rpc (rpc w) w = w.
Proof. unfold rpc, put_rpc. rewrite set_rpc_of. by destruct w. Qed.
Lemma put_rpc_put s s' w : put_rpc s (put_rpc s' w) = put_rpc s w.
Proof. unfold put_rpc, set_ext. simpl. by rewrite set_rpc_set. Qed.

Lemma on_rpc_run {A} (m : M (RpcState UO) A) w a s :
  m (rpc w) = Ok (a, s) → on_rpc m w = Ok (a, put_rpc s w).
Proof. intros H. unfold on_rpc, on_ext, put_rpc. apply zoom_run, zoom_run, H. Qed.
Lemma on_rpc_read {A} (m : M (RpcState UO) A) w a :
  m (rpc w) = Ok (a, rpc w) → on_rpc m w = Ok (a, w).
Proof. intros H. rewrite (on_rpc_run _ _ _ _ H). by rewrite put_rpc_rpc. Qed.

Lemma object_at_run {A} (heap : RpcState UO → gmap ptr A) p a s :
  heap s !! p = Some a → object_at heap (Some p) s = Ok (a, s).
Proof. intros H. unfold object_at. mrun. by rewrite H. Qed.
Lemma delete_object_run {A} (heap : RpcState UO → gmap ptr A) put p s :
  is_Some (heap s !! p) → delete_object heap put (Some p) s = Ok (tt, put (delete p (heap s)) s).
Proof. intros [a H]. unfold delete_object. mrun. rewrite H. by mrun. Qed.

Definition channel_is w (chan : ptr) (c : RpcChannel) : Prop := channels (rpc w) !! chan = Some c.
Definition update_channel (chan : ptr) (c : RpcChannel) s : RpcState UO :=
  set_channels (<[chan := c]> (channels s)) s.

Lemma channel_at_run w chan c : channel_is w chan c → on_rpc (channel_at chan) w = Ok (c, w).
Proof. intros H. by apply on_rpc_read, object_at_run. Qed.
Lemma channel_update_run w chan c f :
  channel_is w chan c →
  on_rpc (channel_update chan f) w = Ok (tt, put_rpc (update_channel chan (f c) (rpc w)) w).
Proof.
  intros H. apply on_rpc_run. unfold channel_update.
  erewrite bind_run by (by apply object_at_run). done.
Qed.
Lemma next_id_run w :
  _id (rpc w) ≠ INT_MAX →
  on_rpc next_id w = Ok (_id (rpc w) + 1, put_rpc (put_id (_id (rpc w) + 1) (rpc w)) w).
Proof. intros H. apply on_rpc_run. unfold next_id. mrun. if_no; [|done]. by mrun. Qed.
Lemma get_conn_run w chan c p :
  channel_is w chan c → conn c = Some p → get_conn chan w = Ok (p, w).
Proof. intros H Hc. unfold get_conn. mrun (channel_at_run w chan c H). by rewrite Hc. Qed.
End rpc_state.

(** ** Writing to a connection *)

Section output.
Context {EB : EvbufferOps} {EBL : EvbufferLaws EB} {E : Type}.
Implicit Types (w : World EB E) (c q : ptr) (out : bytes).

(** The write buffer of [c] is the output buffer of the live bufferevent [q] and
    holds [out]. *)
Definition writes w c q out : Prop :=
  ∃ o b, cells (w_heap w) !! c = Some o ∧ writeBuf o = Some (mkBufref q Output) ∧
         w_bevs w !! q = Some b ∧ contents (bev_output b) = out.

(** [w'] is [w] but for the output buffer of [q]. *)
Definition output_only (q : ptr) w w' : Prop :=
  ∃ b e, w_bevs w !! q = Some b ∧ w' = set_bevs (<[q := set_side Output e b]> (w_bevs w)) w.

Lemma output_only_ext q w w' : output_only q w w' → w_ext w' = w_ext w ∧ w_heap w' = w_heap w ∧
  w_threads w' = w_threads w.
Proof. by intros (b & e & _ & ->). Qed.

Lemma output_only_reads q w w' c p bs : output_only q w w' → reads w c p bs → reads w' c p bs.
Proof.
  intros (b & e & Hb & ->) (o & b' & Ho & Hr & Hb' & Hc).
  destruct (decide (p = q)) as [->|Hne].
  - exists o, (set_side Output e b). rewrite Hb in Hb'. injection Hb' as <-.
    split_and!; [done|done|apply lookup_insert_eq|done].
  - exists o, b'. split_and!; [done|done| |done]. simpl. by rewrite lookup_insert_ne.
Qed.

Lemma writes_set_input w c q out p b e :
  writes w c q out → w_bevs w !! p = Some b → writes (set_input p b e w) c q out.
Proof.
  intros (o & b' & Ho & Hr & Hb' & Hc) Hb.
  destruct (decide (p = q)) as [->|Hne].
  - exists o, (set_side Input e b). rewrite Hb in Hb'. injection Hb' as <-.
    split_and!; [done|done|apply lookup_insert_eq|done].
  - exists o, b'. split_and!; [done|done| |done]. simpl. by rewrite lookup_insert_ne.
Qed.
End output.

Section sending.
Context {EB : EvbufferOps} {EBL : EvbufferLaws EB} {EBN : EvbufferNoOOM EB}.
Context {ZL : ZlibOps} {ZLL : ZlibLaws ZL} {Msg : Type} {PB : ProtoOps Msg} {PBL : ProtoLaws Msg PB}.
Context {E : Type} (host : endian).
Implicit Types (w : World EB E) (c q : ptr) (out : bytes).

(** [send] appends the frame of the message to the write buffer. *)
Lemma send_run (cd : ProtobufCodecLite EB Msg E) w c q out m :
  message_ok m → IsInitialized m = true → lenZ (frame_body (_tag cd) m) + checksumLen < 2 ^ 31 →
  writes w c q out →
  ∃ w', send host cd c m w = Ok (tt, w') ∧ output_only q w w' ∧
    writes w' c q (out ++ frame (_tag cd) m).
Proof using EBL EBN ZLL PBL.
  intros Hok Hi Hs (o & b & Ho & Hw & Hb & Hc).
  destruct (fillEmptyBuffer_run host cd m evbuffer_new Hok Hi Hs contents_new) as (e & Hf & He).
  destruct (add_buffer_success (bev_output b) e) as (e' & src & Hadd & Hce & _).
  exists (set_bevs (<[q := set_side Output e' b]> (w_bevs w)) w). split_and!.
  - unfold send, run_local. erewrite bind_run by (by rewrite Hf). cbn beta. cbn [snd].
    erewrite bind_run; [done|]. unfold addBufToWriteBuffer. wstep. rewrite Hw. wstep.
    simpl. rewrite Hadd. by wstep.
  - by exists b, e'.
  - exists o, (set_side Output e' b). split_and!; [done|done|apply lookup_insert_eq|].
    simpl. by rewrite Hce, Hc, He.
Qed.

(** The callback of a codec plays no part in sending. *)
Lemma send_tag (cd cd' : ProtobufCodecLite EB Msg E) c m :
  _tag cd = _tag cd' → send host cd c m = send host cd' c m.
Proof using. intros H. unfold send, fillEmptyBuffer. by rewrite H. Qed.
End sending.

(** ** What a reader of a message sees *)

Section reading.
Context {WO : WireOps}.
Implicit Types (m : RpcMessage.t) (v : view).

(** The members of a well-formed message are those of its view. *)
Lemma read_type m v : msg_wf m → view_of m = v → RpcMessage.type m = default 0 (v_type v).
Proof.
  intros [_ H _ _ _ _ _ _] <-. simpl. unfold RpcMessage.type in *.
  by destruct (RpcMessage.has_type m).
Qed.
Lemma read_id m v : msg_wf m → view_of m = v → RpcMessage.id m = default 0 (v_id v).
Proof.
  intros [_ _ [_ H] _ _ _ _ _] <-. simpl. unfold RpcMessage.id.
  destruct (RpcMessage.has_id m); [done|by apply H].
Qed.
Lemma read_service m v : msg_wf m → view_of m = v → RpcMessage.service m = default [] (v_service v).
Proof.
  intros [_ _ _ H _ _ _ _] <-. simpl. destruct (RpcMessage.has_service m); [done|by apply H].
Qed.
Lemma read_method m v : msg_wf m → view_of m = v → RpcMessage.method m = default [] (v_method v).
Proof.
  intros [_ _ _ _ H _ _ _] <-. simpl. destruct (RpcMessage.has_method m); [done|by apply H].
Qed.
Lemma read_request m v : msg_wf m → view_of m = v → RpcMessage.request m = default [] (v_request v).
Proof.
  intros [_ _ _ _ _ H _ _] <-. simpl. destruct (RpcMessage.has_request m); [done|by apply H].
Qed.
Lemma read_response m v : msg_wf m → view_of m = v → RpcMessage.response m = default [] (v_response v).
Proof.
  intros [_ _ _ _ _ _ H _] <-. simpl. destruct (RpcMessage.has_response m); [done|by apply H].
Qed.
Lemma read_has_response m v : view_of m = v → RpcMessage.has_response m = match v_response v with Some _ => true | None => false end.
Proof. intros <-. simpl. by destruct (RpcMessage.has_response m). Qed.
Lemma read_has_error m v : view_of m = v → RpcMessage.has_error m = match v_error v with Some _ => true | None => false end.
Proof. intros <-. simpl. by destruct (RpcMessage.has_error m). Qed.
End reading.

(** ** The messages a channel sends *)

Section built.
Context {WO : WireOps} {WL : WireLaws WO} {UO : UserOps}.

(** The call of [method] with the number [id], the answer [payload] to the call
    [id], and the answer [error] to it. *)
Definition call_view (id : Z) (method : MethodDescriptor) (request : UMsg) : view :=
  mkView (Some REQUEST) (Some (u64 id)) (Some (method_service method)) (Some (method_name method))
    (Some (SerializeAsString request)) None None.
Definition reply_view (id : Z) (payload : bytes) : view :=
  mkView (Some RESPONSE) (Some (u64 id)) None None None (Some payload) None.
Definition error_view (id error : Z) : view :=
  mkView (Some RESPONSE) (Some (u64 id)) None None None None (Some error).

Definition call_msg (id : Z) (method : MethodDescriptor) (request : UMsg) : RpcMessage.t :=
  RpcMessage.set_request (SerializeAsString request)
    (RpcMessage.set_method (method_name method)
      (RpcMessage.set_service (method_service method)
        (RpcMessage.set_id id (RpcMessage.put_type REQUEST RpcMessage.init)))).
Definition reply_msg (id : Z) (payload : bytes) : RpcMessage.t :=
  RpcMessage.set_response payload (RpcMessage.set_id id (RpcMessage.put_type RESPONSE RpcMessage.init)).
Definition error_msg (id error : Z) : RpcMessage.t :=
  RpcMessage.put_error error (RpcMessage.set_id id (RpcMessage.put_type RESPONSE RpcMessage.init)).

Lemma init_ok : rpc_ok RpcMessage.init.
Proof. split; [apply init_wf|apply ufs_new_empty]. Qed.
Lemma init_view : view_of RpcMessage.init = empty_view.
Proof. by apply view_no_bits. Qed.
Lemma typed_ok ty id : MessageType_IsValid ty = true →
  rpc_ok (RpcMessage.set_id id (RpcMessage.put_type ty RpcMessage.init)).
Proof. intros Ht. destruct init_ok as [Hw Hu]. split; [|done]. by apply wf_set_id, wf_put_type. Qed.
Lemma string_ok fld v m : rpc_ok m → rpc_ok (apply_string fld (SSet v) m).
Proof. intros [Hw Hu]. split; [by apply string_edit_ok|]. by destruct fld. Qed.

Lemma call_msg_ok id method request : rpc_ok (call_msg id method request).
Proof.
  apply (string_ok FRequest), (string_ok FMethod), (string_ok FService). by apply typed_ok.
Qed.
Lemma reply_msg_ok id payload : rpc_ok (reply_msg id payload).
Proof. apply (string_ok FResponse). by apply typed_ok. Qed.
Lemma error_msg_ok id error : ErrorCode_IsValid error = true → rpc_ok (error_msg id error).
Proof.
  intros He. destruct (typed_ok RESPONSE id eq_refl) as [Hw Hu].
  split; [by apply wf_put_error|exact Hu].
Qed.

Lemma call_msg_view id method request : view_of (call_msg id method request) = call_view id method request.
Proof.
  unfold call_msg. by rewrite view_set_request, view_set_method, view_set_service, view_set_id,
    view_put_type, init_view.
Qed.
Lemma reply_msg_view id payload : view_of (reply_msg id payload) = reply_view id payload.
Proof. unfold reply_msg. by rewrite view_set_response, view_set_id, view_put_type, init_view. Qed.
Lemma error_msg_view id error : view_of (error_msg id error) = error_view id error.
Proof. unfold error_msg. by rewrite view_put_error, view_set_id, view_put_type, init_view. Qed.
End built.
