(* ===== verification/RpcCalls.v ===== *)
(** * What the operations of a channel do

    Calls, answers and requests one at a time: each operation as the change it
    makes to the state of the channels, the frame it writes and the computation
    of the user it runs. *)

From S2P Require Import Prelude Endian ConnQueue External World Codec Decoder Wire.
From S2P Require Import ProtoWire RpcPb RpcPbProps RpcPbParse RpcChannel ChannelLemmas.

Section calls.
Context {EB : EvbufferOps} {EBL : EvbufferLaws EB} {EBN : EvbufferNoOOM EB}.
Context {ZL : ZlibOps} {ZLL : ZlibLaws ZL} {WO : WireOps} {WL : WireLaws WO}.
Context {PO : ParseOps} {PL : ParseLaws PO} {UO : UserOps}.
Context {E : Type} {RH : RpcHost UO E} {UC : UserClosures E} {US : UserServices E}.
Context (host : endian).
Implicit Types (w : World EB E) (s : RpcState UO) (chan c q d : ptr) (m : RpcMessage.t).

(** A service that fills the response in and runs the closure before it returns. *)
Class SyncServices := {
  answer : Service → MethodDescriptor → UMsg → UMsg;
  sync_law service method request response done w r :
    messages (rpc w) !! response = Some r →
    service_CallMethod service method request response done w =
      Run host done (put_rpc (set_messages
        (<[response := answer service method request]> (messages (rpc w))) (rpc w)) w)
}.

(** The frame of a message of the protocol, and whether it can be sent. *)
Definition rpc_frame m : bytes := frame rpctag m.
Definition fits m : Prop := lenZ (frame_body rpctag m) + checksumLen < 2 ^ 31.

(** An error says the type, the number and the error; its frame is short. *)
Lemma error_written id e : SerializeWithCachedSizesToArray (error_msg id e) =
  WriteEnumToArray 1 RESPONSE ++ WriteFixed64ToArray 2 (u64 id) ++ WriteEnumToArray 7 e.
Proof using WL.
  transitivity (WriteEnumToArray 1 RESPONSE ++ WriteFixed64ToArray 2 (u64 id) ++ [] ++ [] ++ [] ++ [] ++
    WriteEnumToArray 7 e ++ (if negb (ufs_empty ufs_new) then SerializeUnknownFieldsToArray ufs_new else [])); [done|].
  by rewrite ufs_new_empty, app_nil_r.
Qed.
Lemma error_fits id e : ErrorCode_IsValid e = true → fits (error_msg id e).
Proof using WL.
  intros He%ErrorCode_range. unfold fits, frame_body, checksumLen. rewrite error_written, !length_app, !Nat2Z.inj_add.
  rewrite !enum_size, fixed64_size by (done || lia).
  pose proof (enum_short e He). pose proof (enum_short RESPONSE ltac:(done)).
  change (lenZ rpctag) with 4. change (2 ^ 31) with 2147483648. lia.
Qed.

Lemma rpc_send_run w c q out m :
  rpc_ok m → fits m → writes w c q out →
  ∃ w', rpcCodeDer_send host (Some c) m w = Ok (tt, w') ∧ output_only q w w' ∧
    writes w' c q (out ++ rpc_frame m).
Proof using All.
  intros Hm Hf Hw. unfold rpcCodeDer_send. apply send_run; done.
Qed.

(** A channel that sends over [c]. *)
Definition sends_over w chan c : Prop := ∃ o, channel_is w chan o ∧ conn o = Some (Some c).

Lemma sends_over_run w chan c : sends_over w chan c → get_conn chan w = Ok (Some c, w).
Proof using. intros (o & Ho & Hc). by eapply get_conn_run. Qed.

Lemma writes_ext w e c q out : writes (set_ext e w) c q out ↔ writes w c q out.
Proof using. done. Qed.
Lemma reads_ext w e c p bs : reads (set_ext e w) c p bs ↔ reads w c p bs.
Proof using. done. Qed.

Lemma output_rpc q w w' : output_only q w w' → rpc w' = rpc w.
Proof using. intros (He & _)%output_only_ext. unfold rpc. by rewrite He. Qed.

(** What is written and what the state of the channels is are independent. *)
Lemma output_only_put q w w1 s s' :
  output_only q (put_rpc s w) w1 → output_only q (put_rpc s' w) (put_rpc s' w1).
Proof using.
  intros (b & e & Hb & ->). exists b, e. split; [done|].
  change (set_bevs ?m (put_rpc s w)) with (put_rpc s (set_bevs m w)). by rewrite put_rpc_put.
Qed.

(** *** [CallMethod] *)

(** The state after a call was recorded. *)
Definition record_call chan (ch : RpcChannel) (out : OutstandingCall) s : RpcState UO :=
  let id := _id s + 1 in
  update_channel chan (set_outstandings (<[id := out]> (outstandings ch)) ch) (put_id id s).

Lemma CallMethod_run w chan ch c q out method request response done :
  channel_is w chan ch → conn ch = Some (Some c) → _id (rpc w) ≠ INT_MAX →
  fits (call_msg (_id (rpc w) + 1) method request) → writes w c q out →
  ∃ w', CallMethod host chan method request response done w = Ok (tt, w') ∧
    rpc w' = record_call chan ch (mkOut response done) (rpc w) ∧
    output_only q (put_rpc (rpc w') w) w' ∧
    writes w' c q (out ++ rpc_frame (call_msg (_id (rpc w) + 1) method request)).
Proof using All.
  intros Hch Hc Hid Hf Hw. set (id := _id (rpc w) + 1) in *.
  set (w1 := put_rpc (put_id id (rpc w)) w).
  assert (Hch1 : channel_is w1 chan ch) by (unfold channel_is, w1; by rewrite rpc_put).
  set (w2 := put_rpc (record_call chan ch (mkOut response done) (rpc w)) w).
  assert (Hw2 : put_rpc (update_channel chan
      (set_outstandings (<[id:=mkOut response done]> (outstandings ch)) ch) (rpc w1)) w1 = w2)
    by (unfold w1, w2; by rewrite rpc_put, put_rpc_put).
  assert (Hch2 : sends_over w2 chan c).
  { eexists. split; [unfold channel_is, w2; rewrite rpc_put; apply lookup_insert_eq|exact Hc]. }
  destruct (rpc_send_run w2 c q out (call_msg id method request)) as (w' & Hs & Ho & Hw');
    [apply call_msg_ok|done|exact Hw|].
  assert (Hr : rpc w' = record_call chan ch (mkOut response done) (rpc w))
    by (rewrite (output_rpc _ _ _ Ho); unfold w2; by rewrite rpc_put).
  exists w'. split_and!; [|done| |done].
  - unfold CallMethod. mrun. mrun (next_id_run w Hid). fold id w1. mrun.
    erewrite bind_run by (by apply channel_update_run). cbn beta. rewrite Hw2.
    mrun (sends_over_run w2 chan c Hch2). exact Hs.
  - by rewrite Hr.
Qed.

(** *** [doneCallback] and [Run] *)

Lemma doneCallback_run w chan c q out d r id :
  id ≠ 0 → sends_over w chan c → messages (rpc w) !! d = Some r →
  fits (reply_msg id (SerializeAsString r)) → writes w c q out →
  ∃ w', doneCallback host chan d id w = Ok (tt, w') ∧
    rpc w' = set_messages (delete d (messages (rpc w))) (rpc w) ∧
    output_only q (put_rpc (rpc w') w) w' ∧
    writes w' c q (out ++ rpc_frame (reply_msg id (SerializeAsString r))).
Proof using All.
  intros Hid Hch Hd Hf Hw.
  destruct (rpc_send_run w c q out (reply_msg id (SerializeAsString r))) as (w1 & Hs & Ho & Hw1);
    [apply reply_msg_ok|done|done|].
  pose proof (output_rpc _ _ _ Ho) as Hr.
  exists (put_rpc (set_messages (delete d (messages (rpc w))) (rpc w)) w1). split_and!.
  - unfold doneCallback. rewrite bool_decide_true by done. mrun.
    mrun (on_rpc_read _ w r (object_at_run messages d r _ Hd)). mrun.
    mrun (sends_over_run w chan c Hch). mrun Hs. rewrite <- Hr.
    apply on_rpc_run, delete_object_run. by rewrite Hr, Hd.
  - apply rpc_put.
  - rewrite rpc_put. destruct Ho as (b & e & Hb & ->). by exists b, e.
  - exact Hw1.
Qed.

(** The closure of an answer runs once and is gone with the response. *)
Lemma Run_done w chan c q out k d r id :
  closures (rpc w) !! k = Some (DoneCallback chan d id) →
  id ≠ 0 → sends_over w chan c → messages (rpc w) !! d = Some r →
  fits (reply_msg id (SerializeAsString r)) → writes w c q out →
  ∃ w', Run host k w = Ok (tt, w') ∧
    rpc w' = set_closures (delete k (closures (rpc w)))
               (set_messages (delete d (messages (rpc w))) (rpc w)) ∧
    output_only q (put_rpc (rpc w') w) w' ∧
    writes w' c q (out ++ rpc_frame (reply_msg id (SerializeAsString r))).
Proof using All.
  intros Hk Hid Hch Hd Hf Hw.
  destruct (doneCallback_run w chan c q out d r id) as (w1 & Hrun & Hr & Ho & Hw1); try done.
  eexists. split_and!.
  - unfold Run. mrun (on_rpc_read _ w _ (object_at_run closures k _ _ Hk)). mrun Hrun.
    apply on_rpc_run, delete_object_run. rewrite Hr. eexists. exact Hk.
  - rewrite rpc_put. by rewrite Hr.
  - rewrite rpc_put. eapply output_only_put, Ho.
  - exact Hw1.
Qed.

Lemma Run_user w w1 k u :
  closures (rpc w) !! k = Some (UserClosure u) → run_user u w = Ok (tt, w1) →
  is_Some (closures (rpc w1) !! k) →
  Run host k w = Ok (tt, put_rpc (set_closures (delete k (closures (rpc w1))) (rpc w1)) w1).
Proof using.
  intros Hk Hu Hk1. unfold Run. mrun (on_rpc_read _ w _ (object_at_run closures k _ _ Hk)).
  mrun Hu. by apply on_rpc_run, delete_object_run.
Qed.

(** *** Responses *)

Definition forget_call chan (ch : RpcChannel) (id : Z) s : RpcState UO :=
  update_channel chan (set_outstandings (delete id (outstandings ch)) ch) s.

(** The answered message: parsed into when there is a payload. *)
Definition answered m (r : UMsg) : UMsg :=
  if RpcMessage.has_response m then (ParseFromString r (RpcMessage.response m)).2 else r.

Lemma onResponse_unknown w chan ch m :
  RpcMessage.has_response m || RpcMessage.has_error m = true →
  channel_is w chan ch → outstandings ch !! i64 (RpcMessage.id m) = None →
  onResponse host chan m w = Ok (tt, w).
Proof using.
  intros Hm Hch Ho. unfold onResponse. rewrite Hm. mrun.
  mrun (channel_at_run w chan ch Hch). rewrite Ho. by mrun.
Qed.

Lemma parse_into w d r m :
  messages (rpc w) !! d = Some r →
  (if RpcMessage.has_response m
   then on_rpc (r ← message_at (Some d);
          let r' := (ParseFromString r (RpcMessage.response m)).2 in
          modify (λ s, set_messages (<[d := r']> (messages s)) s))
   else mret tt) w =
  Ok (tt, put_rpc (set_messages (<[d := answered m r]> (messages (rpc w))) (rpc w)) w).
Proof using.
  intros Hd. unfold answered. destruct (RpcMessage.has_response m).
  - apply on_rpc_run. erewrite bind_run by (by apply object_at_run). done.
  - rewrite insert_id by done.
    assert (set_messages (messages (rpc w)) (rpc w) = rpc w) as -> by (by destruct (rpc w)).
    by rewrite put_rpc_rpc.
Qed.

Lemma onResponse_run w w1 chan ch m d done r :
  let id := i64 (RpcMessage.id m) in
  let s1 := forget_call chan ch id (rpc w) in
  let w0 := put_rpc (set_messages (<[d := answered m r]> (messages s1)) s1) w in
  RpcMessage.has_response m || RpcMessage.has_error m = true →
  channel_is w chan ch → outstandings ch !! id = Some (mkOut (Some d) done) →
  messages (rpc w) !! d = Some r →
  match done with None => mret tt | Some k => Run host k end w0 = Ok (tt, w1) →
  is_Some (messages (rpc w1) !! d) →
  onResponse host chan m w =
    Ok (tt, put_rpc (set_messages (delete d (messages (rpc w1))) (rpc w1)) w1).
Proof using.
  intros id s1 w0 Hm Hch Ho Hd Hrun Hd1. unfold onResponse. rewrite Hm. mrun.
  mrun (channel_at_run w chan ch Hch). fold id. rewrite Ho.
  rewrite bind_assoc. erewrite bind_run by (by apply channel_update_run). cbn beta.
  rewrite ret_run_bind. cbn [out_response out_done]. fold (forget_call chan ch id (rpc w)). fold s1.
  erewrite bind_run by (apply parse_into; rewrite rpc_put; exact Hd). cbn beta.
  rewrite rpc_put, put_rpc_put. fold w0. mrun Hrun. by apply on_rpc_run, delete_object_run.
Qed.

(** *** Requests *)

(** What is to be done with a request, given the services that the channel
    knows. *)
Inductive verdict :=
  | Refuse (error : Z)
  | Serve (service : Service) (method : MethodDescriptor) (request : UMsg).

Definition judge (sm : option (gmap bytes (option Service))) m : verdict :=
  match sm ≫= λ sm, sm !! RpcMessage.service m with
  | Some (Some service) =>
      match FindMethodByName service (RpcMessage.method m) with
      | Some method =>
          match ParseFromString (NewRequest service method) (RpcMessage.request m) with
          | (true, request) => Serve service method request
          | (false, _) => Refuse INVALID_REQUEST
          end
      | None => Refuse NO_METHOD
      end
  | _ => Refuse NO_SERVICE
  end.

(** The services of a channel: none, or a map without null services. *)
Definition channel_services s (ch : RpcChannel) (sm : option (gmap bytes (option Service))) : Prop :=
  match services ch with
  | None => sm = None
  | Some p => service_maps s !! p = sm ∧ ∃ x, sm = Some x ∧ ∀ n, x !! n ≠ Some None
  end.

Lemma onRequest_refused w chan ch c q out m sm e :
  channel_is w chan ch → channel_services (rpc w) ch sm → judge sm m = Refuse e →
  fits (error_msg (RpcMessage.id m) e) → writes w c q out →
  ∃ w', onRequest host chan c m w = Ok (tt, w') ∧ output_only q w w' ∧
    writes w' c q (out ++ rpc_frame (error_msg (RpcMessage.id m) e)).
Proof using All.
  intros Hch Hsm Hj Hf Hw.
  assert (Hcall : onRequest_call chan m w = Ok (e, w) ∧ e ≠ NO_ERROR ∧ ErrorCode_IsValid e = true).
  { unfold onRequest_call. mrun (channel_at_run w chan ch Hch).
    unfold channel_services, judge in *. destruct (services ch) as [p|].
    2: { subst sm. injection Hj as <-. done. }
    destruct Hsm as (Hp & x & -> & Hx). simpl in Hj.
    mrun (on_rpc_read _ w _ (object_at_run service_maps p _ _ Hp)).
    specialize (Hx (RpcMessage.service m)).
    destruct (x !! _) as [[sv|]|]; [|done|by injection Hj as <-].
    destruct (FindMethodByName sv _) as [me|]; [|by injection Hj as <-].
    destruct (ParseFromString _ _) as [[] rq]; [done|by injection Hj as <-]. }
  destruct Hcall as (Hcall & Hne & Hv).
  destruct (rpc_send_run w c q out (error_msg (RpcMessage.id m) e)) as (w' & Hs & Ho & Hw');
    [by apply error_msg_ok|done|done|].
  exists w'. split_and!; [|done|done].
  unfold onRequest. mrun Hcall. if_yes; [|done].
  assert (Hb : build (error_message (RpcMessage.id m) e) RpcMessage.init w =
                 Ok (error_msg (RpcMessage.id m) e, w)).
  { unfold build, run_local, error_message, RpcMessage.set_error. simpl. rewrite Hv. done. }
  mrun Hb. exact Hs.
Qed.

(** Addresses that the allocator has not given out are not in use. *)
Definition heap_fresh s : Prop := ∀ p, (rpc_brk s ≤ p)%positive →
  messages s !! p = None ∧ closures s !! p = None ∧ channels s !! p = None.

Definition bump s : RpcState UO :=
  mkRpc (_id s) (Pos.succ (Pos.succ (rpc_brk s))) (messages s) (closures s) (channels s) (service_maps s).

(** The state in which a service is called: a response and a closure were made. *)
Definition calling chan id (r : UMsg) s : RpcState UO :=
  let d := rpc_brk s in let k := Pos.succ d in
  mkRpc (_id s) (Pos.succ k) (<[d := r]> (messages s)) (<[k := DoneCallback chan d id]> (closures s))
    (channels s) (service_maps s).

(** A request that can be served calls the service with them. *)
Lemma onRequest_calls w chan ch c m sm sv me rq :
  channel_is w chan ch → channel_services (rpc w) ch sm → judge sm m = Serve sv me rq →
  onRequest host chan c m w = service_CallMethod sv me rq (rpc_brk (rpc w)) (Pos.succ (rpc_brk (rpc w)))
    (put_rpc (calling chan (i64 (RpcMessage.id m)) (NewResponse sv me) (rpc w)) w).
Proof using.
  intros Hch Hsm Hj. unfold channel_services, judge in *.
  destruct (services ch) as [p|] eqn:Hsv; [|by subst sm].
  destruct Hsm as (Hp & x & -> & Hx). simpl in Hj.
  destruct (x !! RpcMessage.service m) as [[sv'|]|] eqn:E1; [|done..].
  destruct (FindMethodByName sv' _) as [me'|] eqn:E2; [|done].
  destruct (ParseFromString _ _) as [[] rq'] eqn:E3; [|done]. injection Hj as -> -> ->.
  unfold onRequest. unfold onRequest_call. rewrite bind_assoc. mrun (channel_at_run w chan ch Hch). rewrite Hsv.
  rewrite bind_assoc. mrun (on_rpc_read _ w _ (object_at_run service_maps p _ _ Hp)). rewrite E1, E2, E3.
  rewrite bind_assoc. erewrite bind_run by (apply on_rpc_run; reflexivity). cbn beta.
  rewrite bind_assoc. erewrite bind_run by (apply on_rpc_run; reflexivity). cbn beta.
  rewrite rpc_put, put_rpc_put, bind_assoc. cbn [rpc_brk set_messages].
  match goal with |- (?a ≫= _) ?v = _ => destruct (a v) as [[[] w1]|f|e] eqn:Ha end.
  all: unfold mbind, M_bind; rewrite Ha; done.
Qed.

Lemma onRpcMessage_request w chan c m : RpcMessage.type m = REQUEST →
  onRpcMessage host chan c m w = onRequest host chan c m w.
Proof using. intros Ht. unfold onRpcMessage. rewrite bool_decide_true by done. mrun. if_no; [|by rewrite Ht]. by if_yes. Qed.

(** What a service does that answers the request with [a] before it returns. *)
Definition answers_with sv me (rq a : UMsg) : Prop := ∀ d k w,
  messages (rpc w) !! d = Some (NewResponse sv me) →
  service_CallMethod sv me rq d k w =
    Run host k (put_rpc (set_messages (<[d := a]> (messages (rpc w))) (rpc w)) w).

Lemma onRequest_answered w chan ch c c' q out m sm sv me rq a :
  let id := i64 (RpcMessage.id m) in
  let reply := reply_msg id (SerializeAsString a) in
  channel_is w chan ch → conn ch = Some (Some c') → channel_services (rpc w) ch sm →
  heap_fresh (rpc w) → judge sm m = Serve sv me rq → answers_with sv me rq a →
  id ≠ 0 → fits reply → writes w c' q out →
  ∃ w', onRequest host chan c m w = Ok (tt, w') ∧ rpc w' = bump (rpc w) ∧
    output_only q (put_rpc (rpc w') w) w' ∧ writes w' c' q (out ++ rpc_frame reply).
Proof using All.
  intros id reply Hch Hc Hsm Hfr Hj Hans Hid Hf Hw.
  rewrite (onRequest_calls w chan ch c m sm sv me rq Hch Hsm Hj). fold id.
  set (d := rpc_brk (rpc w)). set (k := Pos.succ d).
  destruct (Hfr d ltac:(lia)) as (Hd & _). destruct (Hfr k ltac:(lia)) as (_ & Hk & _).
  set (s1 := calling chan id (NewResponse sv me) (rpc w)).
  rewrite Hans by (rewrite rpc_put; apply lookup_insert_eq). rewrite rpc_put, put_rpc_put.
  set (s2 := set_messages _ s1).
  destruct (Run_done (put_rpc s2 w) chan c' q out k d a id)
    as (w' & Hrun & Hr & Ho & Hw'); try done.
  { rewrite rpc_put. apply lookup_insert_eq. }
  { exists ch. split; [|done]. unfold channel_is. by rewrite rpc_put. }
  { rewrite rpc_put. apply lookup_insert_eq. }
  exists w'. split_and!; [exact Hrun| |by rewrite put_rpc_put in Ho|done].
  rewrite Hr, rpc_put. unfold bump, s2, s1, calling, set_closures, set_messages. simpl.
  by rewrite insert_insert_eq, !delete_insert_id.
Qed.

(** The closure of such an answer asserts that the request had a number. *)
Lemma onRequest_unnumbered w chan ch c m sm sv me rq a :
  channel_is w chan ch → channel_services (rpc w) ch sm → judge sm m = Serve sv me rq → answers_with sv me rq a →
  i64 (RpcMessage.id m) = 0 → onRequest host chan c m w = Fault AssertFail.
Proof using.
  intros Hch Hsm Hj Hans Hid. rewrite (onRequest_calls w chan ch c m sm sv me rq Hch Hsm Hj).
  rewrite Hans by (rewrite rpc_put; apply lookup_insert_eq). rewrite rpc_put, put_rpc_put.
  unfold Run. set (s := set_messages _ _).
  erewrite bind_run by (eapply on_rpc_read, object_at_run; rewrite rpc_put; apply lookup_insert_eq).
  cbn beta iota. apply bind_fault. unfold doneCallback. by rewrite Hid, bool_decide_false by auto.
Qed.

Lemma sync_answers {SS : SyncServices} sv me rq : answers_with sv me rq (answer sv me rq).
Proof using. intros d k w1 Hd. by apply sync_law with (r := NewResponse sv me). Qed.

Lemma onRequest_served {SS : SyncServices} w chan ch c c' q out m sm sv me rq :
  let id := i64 (RpcMessage.id m) in
  let reply := reply_msg id (SerializeAsString (answer sv me rq)) in
  channel_is w chan ch → conn ch = Some (Some c') → channel_services (rpc w) ch sm →
  heap_fresh (rpc w) → judge sm m = Serve sv me rq → id ≠ 0 → fits reply → writes w c' q out →
  ∃ w', onRequest host chan c m w = Ok (tt, w') ∧ rpc w' = bump (rpc w) ∧
    output_only q (put_rpc (rpc w') w) w' ∧ writes w' c' q (out ++ rpc_frame reply).
Proof using All.
  intros id reply Hch Hc Hsm Hfr Hj. eapply onRequest_answered; [done..|apply sync_answers].
Qed.
End calls.
