(* ===== verification/RpcInv.v ===== *)
(** * The invariant of the channels of a process

    Which object belongs to which call: the response and the closure of every
    outstanding call are live and belong to no other call, and no two calls have
    the same number, whatever channels they were made on. *)

From stdpp Require Import sorting.
From S2P Require Import Prelude Endian ConnQueue External World Codec Decoder Wire.
From S2P Require Import ProtoWire RpcPb RpcPbProps RpcPbParse RpcChannel ChannelLemmas RpcCalls.

Section inv.
Context {UO : UserOps}.
Implicit Types (s : RpcState UO) (chan d k : ptr) (ch : RpcChannel) (out : OutstandingCall) (i : Z).

(** The call [i] of the channel [chan] is waiting for its answer. *)
Definition call_at s chan i out : Prop :=
  ∃ ch, channels s !! chan = Some ch ∧ outstandings ch !! i = Some out.

Definition call_live s out : Prop :=
  ∃ d k u, out = mkOut (Some d) (Some k) ∧ is_Some (messages s !! d) ∧
           closures s !! k = Some (UserClosure u).

Definition clash i out i' out' : Prop :=
  i = i' ∨ out_response out = out_response out' ∨ out_done out = out_done out'.

Record rpc_inv s : Prop := {
  inv_fresh : heap_fresh s;
  inv_id : 0 ≤ _id s ≤ INT_MAX;
  inv_services chan ch : channels s !! chan = Some ch → services ch = NULL;
  inv_call chan i out : call_at s chan i out → 1 ≤ i ≤ _id s ∧ call_live s out;
  inv_unique chan i out chan' i' out' :
    call_at s chan i out → call_at s chan' i' out' → clash i out i' out' → chan = chan' ∧ i = i'
}.

(** *** Changes of the state that keep it *)

Lemma call_at_update s chan ch0 ch chan' i out :
  channels s !! chan = Some ch0 →
  call_at (update_channel chan ch s) chan' i out →
  (chan' = chan ∧ outstandings ch !! i = Some out) ∨ (chan' ≠ chan ∧ call_at s chan' i out).
Proof.
  intros Hc (ch' & Hch & Ho). cbn [channels update_channel set_channels] in Hch.
  destruct (decide (chan' = chan)) as [->|Hne].
  - rewrite lookup_insert_eq in Hch. injection Hch as <-. by left.
  - rewrite lookup_insert_ne in Hch by done. right. split; [done|]. by exists ch'.
Qed.

Lemma fresh_update s chan ch0 ch :
  channels s !! chan = Some ch0 → heap_fresh s → heap_fresh (update_channel chan ch s).
Proof.
  intros Hc Hf p Hp. destruct (Hf p Hp) as (? & ? & Hn). split_and!; [done|done|].
  cbn [channels update_channel set_channels]. rewrite lookup_insert_ne; [done|]. congruence.
Qed.

(** Fewer calls on the channel [chan]. *)
Lemma inv_fewer s chan ch0 o :
  rpc_inv s → channels s !! chan = Some ch0 → o ⊆ outstandings ch0 →
  rpc_inv (update_channel chan (set_outstandings o ch0) s).
Proof.
  intros [Hf Hid Hsv Hcall Huniq] Hc Ho.
  assert (Hold : ∀ chan' i out, call_at (update_channel chan (set_outstandings o ch0) s) chan' i out →
    call_at s chan' i out).
  { intros chan' i out H. apply (call_at_update s chan ch0) in H as [[-> H]|[_ H]]; [|done|done].
    exists ch0. split; [done|]. by eapply lookup_weaken. }
  split.
  - by eapply fresh_update.
  - done.
  - intros chan' ch Hch. cbn [channels update_channel set_channels] in Hch.
    destruct (decide (chan' = chan)) as [->|Hne].
    + rewrite lookup_insert_eq in Hch. injection Hch as <-. simpl. by eapply Hsv.
    + rewrite lookup_insert_ne in Hch by done. by eapply Hsv.
  - intros chan' i out H. by apply (Hcall chan'), Hold.
  - intros chan1 i1 out1 chan2 i2 out2 H1 H2. by apply Huniq; apply Hold.
Qed.

(** Only messages and closures change, and no call loses its own. *)
Lemma inv_heaps s ms ks :
  rpc_inv s → heap_fresh (set_closures ks (set_messages ms s)) →
  (∀ chan i d k u, call_at s chan i (mkOut (Some d) (Some k)) → is_Some (messages s !! d) →
     closures s !! k = Some (UserClosure u) →
     is_Some (ms !! d) ∧ ∃ u, ks !! k = Some (UserClosure u)) →
  rpc_inv (set_closures ks (set_messages ms s)).
Proof.
  intros [Hf Hid Hsv Hcall Huniq] Hf' Hkeep. split; [done|done|done| |done].
  intros chan i out H. destruct (Hcall chan i out H) as (Hi & d & k & u & -> & Hd & Hk).
  split; [done|]. destruct (Hkeep chan i d k u H Hd Hk) as (Hd' & u' & Hk'). by exists d, k, u'.
Qed.

(** An object that no call owns. *)
Definition unowned_message s d : Prop := ∀ chan i out, call_at s chan i out → out_response out ≠ Some d.
Definition unowned_closure s k : Prop := ∀ chan i out, call_at s chan i out → out_done out ≠ Some k.

Lemma fresh_put s ms ks :
  heap_fresh s → (∀ p, messages s !! p = None → ms !! p = None) →
  (∀ p, closures s !! p = None → ks !! p = None) → heap_fresh (set_closures ks (set_messages ms s)).
Proof. intros Hf Hm Hk p Hp. destruct (Hf p Hp) as (? & ? & ?). split_and!; [by apply Hm|by apply Hk|done]. Qed.

Lemma inv_store_message s d r :
  rpc_inv s → is_Some (messages s !! d) → rpc_inv (set_messages (<[d := r]> (messages s)) s).
Proof.
  intros Hi Hd. change (rpc_inv (set_closures (closures s) (set_messages (<[d := r]> (messages s)) s))).
  apply inv_heaps; [done| |].
  - apply fresh_put; [apply Hi| |done]. intros p Hp. rewrite lookup_insert_ne; [done|].
    intros ->. rewrite Hp in Hd. by destruct Hd.
  - intros _ _ d' k u _ Hd' Hk. split; [|by exists u].
    destruct (decide (d = d')) as [->|Hne]; [rewrite lookup_insert_eq; by eexists|].
    by rewrite lookup_insert_ne.
Qed.
Lemma inv_delete_message s d :
  rpc_inv s → unowned_message s d → rpc_inv (set_messages (delete d (messages s)) s).
Proof.
  intros Hi Hd. change (rpc_inv (set_closures (closures s) (set_messages (delete d (messages s)) s))).
  apply inv_heaps; [done| |].
  - apply fresh_put; [apply Hi| |done]. intros p Hp. by rewrite lookup_delete_None; right.
  - intros chan i d' k u Hc Hd' Hk. split; [|by exists u]. specialize (Hd _ _ _ Hc).
    rewrite lookup_delete_ne; [done|]. intros ->. by apply Hd.
Qed.
Lemma inv_delete_closure s k :
  rpc_inv s → unowned_closure s k → rpc_inv (set_closures (delete k (closures s)) s).
Proof.
  intros Hi Hd.
  assert (set_closures (delete k (closures s)) s =
    set_closures (delete k (closures s)) (set_messages (messages s) s)) as -> by done.
  apply inv_heaps; [done| |].
  - apply fresh_put; [apply Hi|done|]. intros p Hp. by rewrite lookup_delete_None; right.
  - intros chan i d k' u Hc Hd' Hk. split; [done|]. exists u. specialize (Hd _ _ _ Hc).
    rewrite lookup_delete_ne; [done|]. intros ->. by apply Hd.
Qed.

(** *** Allocation *)

Lemma inv_new_message s r :
  rpc_inv s → ∃ s', new_message r s = Ok (rpc_brk s, s') ∧ rpc_inv s' ∧
    messages s' = <[rpc_brk s := r]> (messages s) ∧ closures s' = closures s ∧
    channels s' = channels s ∧ _id s' = _id s ∧ unowned_message s' (rpc_brk s) ∧
    messages s !! rpc_brk s = None.
Proof.
  intros [Hf Hid Hsv Hcall Huniq]. eexists. split; [reflexivity|].
  destruct (Hf (rpc_brk s) ltac:(lia)) as (Hn & _).
  split_and!; try done.
  - split; [|done|done| |done].
    + intros p Hp. simpl in Hp. destruct (Hf p ltac:(lia)) as (? & ? & ?). split_and!; [|done|done].
      simpl. rewrite lookup_insert_ne; [done|lia].
    + intros chan i out H. destruct (Hcall chan i out H) as (? & d & k & u & -> & Hd & Hk).
      split; [done|]. exists d, k, u. split_and!; [done| |done]. simpl.
      rewrite lookup_insert_ne; [done|]. intros <-. rewrite Hn in Hd. by destruct Hd.
  - intros chan i out H Hout. destruct (Hcall chan i out H) as (_ & d & k & u & -> & Hd & _).
    simpl in Hout. injection Hout as ->. rewrite Hn in Hd. by destruct Hd.
Qed.

Lemma inv_new_closure s u :
  rpc_inv s → ∃ s', NewCallback (UserClosure u) s = Ok (rpc_brk s, s') ∧ rpc_inv s' ∧
    closures s' = <[rpc_brk s := UserClosure u]> (closures s) ∧ messages s' = messages s ∧
    channels s' = channels s ∧ _id s' = _id s ∧ unowned_closure s' (rpc_brk s) ∧
    closures s !! rpc_brk s = None.
Proof.
  intros [Hf Hid Hsv Hcall Huniq]. eexists. split; [reflexivity|].
  destruct (Hf (rpc_brk s) ltac:(lia)) as (_ & Hn & _).
  split_and!; try done.
  - split; [|done|done| |done].
    + intros p Hp. simpl in Hp. destruct (Hf p ltac:(lia)) as (? & ? & ?). split_and!; [done| |done].
      simpl. rewrite lookup_insert_ne; [done|lia].
    + intros chan i out H. destruct (Hcall chan i out H) as (? & d & k & v & -> & Hd & Hk).
      split; [done|]. exists d, k, v. split_and!; [done|done|]. simpl.
      rewrite lookup_insert_ne; [done|]. intros <-. by rewrite Hn in Hk.
  - intros chan i out H Hout. destruct (Hcall chan i out H) as (_ & d & k & v & -> & _ & Hk).
    simpl in Hout. injection Hout as ->. by rewrite Hn in Hk.
Qed.

Lemma inv_new_channel s c :
  rpc_inv s → ∃ s', new_channel (mkChannel c ∅ NULL) s = Ok (rpc_brk s, s') ∧ rpc_inv s'.
Proof.
  intros [Hf Hid Hsv Hcall Huniq]. eexists. split; [reflexivity|].
  destruct (Hf (rpc_brk s) ltac:(lia)) as (_ & _ & Hn).
  assert (Hold : ∀ chan i out, call_at (set_channels (<[rpc_brk s := mkChannel c ∅ NULL]> (channels s)) s)
    chan i out → call_at s chan i out).
  { intros chan i out (ch & Hch & Ho). simpl in Hch.
    destruct (decide (chan = rpc_brk s)) as [->|Hne].
    - rewrite lookup_insert_eq in Hch. by injection Hch as <-.
    - rewrite lookup_insert_ne in Hch by done. by exists ch. }
  split; [|done| | |].
  - intros p Hp. simpl in Hp. destruct (Hf p ltac:(lia)) as (? & ? & ?). split_and!; [done|done|].
    simpl. rewrite lookup_insert_ne; [done|lia].
  - intros chan ch Hch. simpl in Hch. destruct (decide (chan = rpc_brk s)) as [->|Hne].
    + rewrite lookup_insert_eq in Hch. by injection Hch as <-.
    + rewrite lookup_insert_ne in Hch by done. by eapply Hsv.
  - intros chan i out H. by apply (Hcall chan), Hold.
  - intros chan1 i1 out1 chan2 i2 out2 H1 H2. by apply Huniq; apply Hold.
Qed.

(** A call recorded with objects of its own. *)
Lemma inv_record s chan ch d k u :
  rpc_inv s → channels s !! chan = Some ch → _id s ≠ INT_MAX →
  is_Some (messages s !! d) → unowned_message s d →
  closures s !! k = Some (UserClosure u) → unowned_closure s k →
  rpc_inv (record_call chan ch (mkOut (Some d) (Some k)) s).
Proof.
  intros [Hf Hid Hsv Hcall Huniq] Hch Hmax Hd Hdu Hk Hku. unfold record_call. set (id := _id s + 1).
  set (s1 := put_id id s). set (out0 := mkOut (Some d) (Some k)).
  assert (Hcases : ∀ chan' i out, call_at (update_channel chan (set_outstandings (<[id := out0]>
    (outstandings ch)) ch) s1) chan' i out →
    (chan' = chan ∧ i = id ∧ out = out0) ∨ (i ≠ id ∧ call_at s chan' i out)).
  { intros chan' i out H. apply (call_at_update s1 chan ch) in H as [[-> H]|[Hne H]]; [| |done].
    - simpl in H. destruct (decide (i = id)) as [->|Hi].
      + rewrite lookup_insert_eq in H. injection H as <-. by left.
      + rewrite lookup_insert_ne in H by done. right. split; [done|]. by exists ch.
    - right. split; [|done]. destruct (Hcall _ _ _ H) as [? _]. unfold id. lia. }
  split.
  - by apply (fresh_update s1 chan ch).
  - unfold id, INT_MAX in *. simpl. lia.
  - intros chan' ch' H. simpl in H. destruct (decide (chan' = chan)) as [->|Hne].
    + rewrite lookup_insert_eq in H. injection H as <-. simpl. by eapply Hsv.
    + rewrite lookup_insert_ne in H by done. by eapply Hsv.
  - intros chan' i out [(-> & -> & ->)|[Hi H]]%Hcases.
    + split; [simpl; unfold id; lia|]. by exists d, k, u.
    + destruct (Hcall _ _ _ H) as [Hr Hl]. split; [simpl; unfold id; lia|exact Hl].
  - intros c1 i1 o1 c2 i2 o2 [(-> & -> & ->)|[Hi1 H1]]%Hcases [(-> & -> & ->)|[Hi2 H2]]%Hcases Hcl;
      [done| | |by eapply Huniq].
    + destruct Hcl as [->|[Hcl|Hcl]]; [done| |]; exfalso; simpl in Hcl;
        [by eapply Hdu|by eapply Hku].
    + destruct Hcl as [->|[Hcl|Hcl]]; [done| |]; exfalso; simpl in Hcl;
        [by eapply Hdu|by eapply Hku].
Qed.
End inv.
