(* ===== verification/RpcSteps.v ===== *)
(** * A process with channels as a transition system

    The operations that a program with channels runs, in any order: making and
    destroying channels, calls, and the messages that arrive.  The invariant of
    RpcInv.v is kept and no operation faults. *)

From stdpp Require Import sorting.
From S2P Require Import Prelude Endian ConnQueue External World Codec Decoder Wire.
From S2P Require Import ProtoWire RpcPb RpcPbProps RpcPbParse RpcChannel ChannelLemmas RpcCalls RpcInv.

(** ** Deleting several objects *)

Definition without {A} (ps : list ptr) (h : gmap ptr A) : gmap ptr A := foldl (λ h p, delete p h) h ps.

Lemma without_lookup {A} ps (h : gmap ptr A) p :
  without ps h !! p = if decide (p ∈ ps) then None else h !! p.
Proof.
  revert h. induction ps as [|q ps IH]; intros h.
  - rewrite decide_False; [done|apply not_elem_of_nil].
  - change (without (q :: ps) h) with (without ps (delete q h)). rewrite IH. destruct (decide (p ∈ ps)) as [H|H].
    + rewrite decide_True; [done|by right].
    + destruct (decide (p = q)) as [->|Hne].
      * rewrite lookup_delete_eq, decide_True; [done|by left].
      * rewrite lookup_delete_ne, decide_False by (try done; by intros [?|?]%elem_of_cons). done.
Qed.

(** Values that determine their keys occur once. *)
Lemma NoDup_values {A} (g : A → option ptr) (l : list (Z * A)) :
  NoDup l.*1 → (∀ x y p, x ∈ l → y ∈ l → g x.2 = Some p → g y.2 = Some p → x.1 = y.1) →
  NoDup (omap g l.*2).
Proof.
  induction l as [|[i a] l IH]; [constructor|]. rewrite !fmap_cons.
  intros [Hi Hl]%NoDup_cons Hg. simpl.
  assert (IH' : NoDup (omap g l.*2)).
  { apply IH; [done|]. intros x y p Hx Hy. apply Hg; by right. }
  destruct (g a) as [p|] eqn:Hp; [|exact IH']. apply NoDup_cons. split; [|exact IH'].
  intros (b & Hb & Hgb)%list_elem_of_omap.
  apply list_elem_of_fmap in Hb as ([j b'] & -> & Hin). apply Hi.
  apply list_elem_of_fmap. exists (j, b'). split; [|done].
  apply (Hg (i, a) (j, b') p); [by left|by right|done|done].
Qed.

Section destroy.
Context {EB : EvbufferOps} {UO : UserOps} {E : Type} {RH : RpcHost UO E}.
Implicit Types (w : World EB E) (s : RpcState UO) (chan : ptr) (out : OutstandingCall).

Definition responses (l : list OutstandingCall) : list ptr := omap out_response l.
Definition dones (l : list OutstandingCall) : list ptr := omap out_done l.
Definition free_calls (l : list OutstandingCall) s : RpcState UO :=
  set_closures (without (dones l) (closures s)) (set_messages (without (responses l) (messages s)) s).

Lemma destroy_calls_run l w :
  Forall (call_live (rpc w)) l → NoDup (responses l) → NoDup (dones l) →
  destroy_calls l w = Ok (tt, put_rpc (free_calls l (rpc w)) w).
Proof.
  revert w. induction l as [|out l IH]; intros w Hl Hr Hd.
  { cbn. unfold free_calls. simpl.
    assert (set_closures (closures (rpc w)) (set_messages (messages (rpc w)) (rpc w)) = rpc w) as ->
      by (by destruct (rpc w)). by rewrite put_rpc_rpc. }
  rewrite Forall_cons in Hl. destruct Hl as [(d & k & u & -> & Hdm & Hkc) Hl].
  unfold responses, dones in Hr, Hd. simpl in Hr, Hd.
  rewrite NoDup_cons in Hr, Hd. destruct Hr as [Hdr Hr], Hd as [Hkd Hd].
  cbn [destroy_calls out_response out_done].
  erewrite bind_run by (by apply on_rpc_run, delete_object_run). cbn beta.
  erewrite bind_run by (apply on_rpc_run, delete_object_run; rewrite rpc_put; by eexists). cbn beta.
  rewrite rpc_put, put_rpc_put.
  set (s1 := set_closures _ _). rewrite IH; rewrite ?rpc_put; [by rewrite put_rpc_put| |done|done].
  rewrite Forall_forall in Hl |- *. intros out Hout.
  destruct (Hl out Hout) as (d' & k' & u' & -> & Hdm' & Hkc').
  exists d', k', u'. split; [done|]. unfold s1. simpl. rewrite !lookup_delete_ne; [done|..].
  - intros <-. apply Hkd. apply list_elem_of_omap. by eexists; split; [exact Hout|].
  - intros <-. apply Hdr. apply list_elem_of_omap. by eexists; split; [exact Hout|].
Qed.

Lemma calls_elem (o : gmap Z OutstandingCall) out :
  out ∈ calls_in_order o ↔ ∃ i, o !! i = Some out.
Proof.
  unfold calls_in_order. rewrite list_elem_of_fmap. split.
  - intros ([i out'] & -> & Hin). rewrite merge_sort_Permutation in Hin.
    apply elem_of_map_to_list in Hin. by exists i.
  - intros [i Hi]. exists (i, out). split; [done|]. rewrite merge_sort_Permutation.
    by apply elem_of_map_to_list.
Qed.

Lemma calls_NoDup (g : OutstandingCall → option ptr) (o : gmap Z OutstandingCall) :
  (∀ i out i' out' p, o !! i = Some out → o !! i' = Some out' → g out = Some p → g out' = Some p → i = i') →
  NoDup (omap g (calls_in_order o)).
Proof.
  intros Hg. unfold calls_in_order. apply NoDup_values.
  - rewrite merge_sort_Permutation. apply NoDup_fst_map_to_list.
  - intros [i x] [j y] p. rewrite !merge_sort_Permutation, !elem_of_map_to_list. apply Hg.
Qed.

(** The destructor frees the response and the closure of every outstanding call. *)
Lemma RpcChannel_destroy_run w chan ch :
  rpc_inv (rpc w) → channel_is w chan ch →
  let l := calls_in_order (outstandings ch) in
  let s := free_calls l (rpc w) in
  RpcChannel_destroy chan w = Ok (tt, put_rpc (set_channels (delete chan (channels s)) s) w) ∧
  rpc_inv (set_channels (delete chan (channels s)) s).
Proof.
  intros Hi Hch l s. pose proof Hi as [Hf Hid Hsv Hcall Huniq].
  assert (Hat : ∀ i out, outstandings ch !! i = Some out → call_at (rpc w) chan i out) by (by exists ch).
  split.
  - unfold RpcChannel_destroy. mrun (channel_at_run w chan ch Hch). fold l.
    erewrite bind_run by (apply destroy_calls_run;
      [ apply Forall_forall; intros out [i Ho]%calls_elem; by eapply Hcall, Hat
      | apply calls_NoDup; intros i out i' out' p H1 H2 G1 G2;
        apply (Huniq chan i out chan i' out'); [by apply Hat..|right; left; congruence]
      | apply calls_NoDup; intros i out i' out' p H1 H2 G1 G2;
        apply (Huniq chan i out chan i' out'); [by apply Hat..|right; right; congruence] ]).
    cbn beta. fold s.
    rewrite (on_rpc_run _ _ tt (set_channels (delete chan (channels s)) s)) by (by rewrite rpc_put).
    by rewrite put_rpc_put.
  - set (s0 := set_channels (delete chan (channels (rpc w))) (rpc w)).
    assert (Hold : ∀ c i out, call_at s0 c i out → c ≠ chan ∧ call_at (rpc w) c i out).
    { intros c i out (ch' & Hc & Ho). simpl in Hc. rewrite lookup_delete_Some in Hc.
      destruct Hc as [Hne Hc]. split; [done|]. by exists ch'. }
    change (rpc_inv (free_calls l s0)). apply inv_heaps.
    + split; [|done| | |].
      * intros p Hp. destruct (Hf p Hp) as (? & ? & ?). split_and!; [done|done|].
        simpl. by rewrite lookup_delete_None; right.
      * intros c ch' H. simpl in H. rewrite lookup_delete_Some in H. destruct H as [_ H]. by eapply Hsv.
      * intros c i out [_ H]%Hold. by apply (Hcall c).
      * intros c1 i1 o1 c2 i2 o2 [_ H1]%Hold [_ H2]%Hold. by apply Huniq.
    + apply fresh_put.
      * intros p Hp. destruct (Hf p Hp) as (? & ? & ?). split_and!; [done|done|].
        simpl. by rewrite lookup_delete_None; right.
      * intros p Hp. rewrite without_lookup. by case_decide.
      * intros p Hp. rewrite without_lookup. by case_decide.
    + intros c i d k u [Hne H]%Hold Hd Hk. rewrite !without_lookup. split.
      * rewrite decide_False; [done|]. intros (o & [j Hj]%calls_elem & Ho)%list_elem_of_omap.
        destruct (Huniq c i _ chan j o H (Hat _ _ Hj)) as [? _]; [right; left; by rewrite Ho|done].
      * exists u. rewrite decide_False; [done|]. intros (o & [j Hj]%calls_elem & Ho)%list_elem_of_omap.
        destruct (Huniq c i _ chan j o H (Hat _ _ Hj)) as [? _]; [right; right; by rewrite Ho|done].
Qed.
End destroy.

(** ** Operations *)

(** Closures of the user that change only the user's part of the state. *)
Class UserEffects {EB : EvbufferOps} {UO : UserOps} {E : Type} (RH : RpcHost UO E)
    (UC : UserClosures E) := {
  user_effect : UserCode → E → E;
  user_effect_run u (w : World EB E) : run_user u w = Ok (tt, set_ext (user_effect u (w_ext w)) w);
  user_effect_rpc u e : rpc_of (user_effect u e) = rpc_of e
}.

Section steps.
Context {EB : EvbufferOps} {EBL : EvbufferLaws EB} {EBN : EvbufferNoOOM EB}.
Context {ZL : ZlibOps} {ZLL : ZlibLaws ZL} {WO : WireOps} {WL : WireLaws WO}.
Context {PO : ParseOps} {PL : ParseLaws PO} {UO : UserOps}.
Context {E : Type} {RH : RpcHost UO E} {UC : UserClosures E} {US : UserServices E}.
Context {UE : UserEffects RH UC}.
Context (host : endian).
Implicit Types (w : World EB E) (s : RpcState UO) (chan c q d k : ptr) (m : RpcMessage.t).

(** [OCall]: the user allocates the response [r] and a closure for [u]. *)
Inductive op :=
  | ONew (c : option ptr)
  | ONewDefault
  | OSetConnection (chan : ptr) (c : option ptr)
  | OSetServices (chan : ptr) (sv : option ptr)
  | OCall (chan : ptr) (method : MethodDescriptor) (request r : UMsg) (u : UserCode)
  | OMessage (chan c : ptr) (m : RpcMessage.t)
  | ODestroy (chan : ptr).

Definition do_op (o : op) : M (World EB E) unit :=
  match o with
  | ONew c => _ ← RpcChannel_init c; mret tt
  | ONewDefault => _ ← RpcChannel_init_default; mret tt
  | OSetConnection chan c => setConnection chan c
  | OSetServices chan sv => setServices chan sv
  | OCall chan method request r u =>
      d ← on_rpc (new_message r);
      k ← on_rpc (NewCallback (UserClosure u));
      CallMethod host chan method request (Some d) (Some k)
  | OMessage chan c m => onRpcMessage host chan c m
  | ODestroy chan => RpcChannel_destroy chan
  end.

(** A call needs a connection that can be written to, and ids left; a response
    carries a payload or an error; a request needs a way to answer it. *)
Definition op_enabled (o : op) w : Prop :=
  match o with
  | OCall chan method request r u =>
      ∃ ch c q out, channel_is w chan ch ∧ conn ch = Some (Some c) ∧ writes w c q out ∧
        _id (rpc w) ≠ INT_MAX ∧ fits (call_msg (_id (rpc w) + 1) method request)
  | OMessage chan c m =>
      is_Some (channels (rpc w) !! chan) ∧
      (RpcMessage.type m = RESPONSE → RpcMessage.has_response m || RpcMessage.has_error m = true) ∧
      (RpcMessage.type m = REQUEST → ∃ q out, writes w c q out ∧
         fits (error_msg (RpcMessage.id m) NO_SERVICE))
  | ODestroy chan => is_Some (channels (rpc w) !! chan)
  | _ => True
  end.

Definition op_step w w' : Prop := ∃ o, op_enabled o w ∧ do_op o w = Ok (tt, w').

(** *** A response *)

Lemma forget_inv s chan ch id : rpc_inv s → channels s !! chan = Some ch → rpc_inv (forget_call chan ch id s).
Proof using. intros Hi Hc. eapply inv_fewer; [done|done|apply delete_subseteq]. Qed.

Lemma forget_not s chan ch id c i out :
  channels s !! chan = Some ch → call_at (forget_call chan ch id s) c i out →
  call_at s c i out ∧ ¬ (c = chan ∧ i = id).
Proof using.
  intros Hch H. apply (call_at_update s chan ch) in H as [[-> H]|[Hne H]]; [| |done].
  - simpl in H. apply lookup_delete_Some in H as [Hi H]. split; [by exists ch|]. intros [_ ->]. done.
  - split; [done|]. intros [-> _]. done.
Qed.

(** The answer to an outstanding call: it is forgotten, its response parsed, its
    closure run on that state, and both are freed. *)
Definition answered_state chan (ch : RpcChannel) m d (r : UMsg) s : RpcState UO :=
  let s1 := forget_call chan ch (i64 (RpcMessage.id m)) s in
  set_messages (<[d := answered m r]> (messages s1)) s1.
Definition free_call d k s : RpcState UO :=
  set_messages (delete d (messages s)) (set_closures (delete k (closures s)) s).

Lemma onResponse_answers w chan ch m d k u r :
  RpcMessage.has_response m || RpcMessage.has_error m = true →
  channel_is w chan ch → outstandings ch !! i64 (RpcMessage.id m) = Some (mkOut (Some d) (Some k)) →
  messages (rpc w) !! d = Some r → closures (rpc w) !! k = Some (UserClosure u) →
  let s := answered_state chan ch m d r (rpc w) in
  onResponse host chan m w =
    Ok (tt, put_rpc (free_call d k s)
              (set_ext (user_effect u (w_ext (put_rpc s w))) w)).
Proof using UE.
  intros Hm Hch Ho Hd Hk s.
  set (w0 := put_rpc s w). set (w2 := set_ext (user_effect u (w_ext w0)) w0).
  assert (Hr0 : rpc w0 = s) by apply rpc_put.
  assert (Hr2 : rpc w2 = s) by (unfold rpc, w2; simpl; by rewrite user_effect_rpc, rpc_of_set).
  rewrite (onResponse_run host w (put_rpc (set_closures (delete k (closures s)) s) w2) chan ch m d (Some k) r);
    try done.
  2: { pose proof (Run_user host w0 w2 k u) as Hrun. rewrite Hr2 in Hrun. apply Hrun.
       - change (closures (rpc w0) !! k = Some (UserClosure u)). by rewrite Hr0.
       - apply user_effect_run.
       - by eexists. }
  2: { rewrite rpc_put. simpl. rewrite lookup_insert_eq. by eexists. }
  rewrite rpc_put, put_rpc_put. done.
Qed.

Lemma onMessage_inv w chan c m :
  rpc_inv (rpc w) → op_enabled (OMessage chan c m) w →
  ∃ w', onRpcMessage host chan c m w = Ok (tt, w') ∧ rpc_inv (rpc w').
Proof using All.
  intros Hi ([ch Hch] & Hresp & Hreq). unfold onRpcMessage. rewrite bool_decide_true by done. mrun.
  destruct (decide (RpcMessage.type m = RESPONSE)) as [Ht|_].
  - specialize (Hresp Ht). set (id := i64 (RpcMessage.id m)).
    destruct (outstandings ch !! id) as [out|] eqn:Ho.
    2: { exists w. split; [by eapply onResponse_unknown|done]. }
    assert (Hat : call_at (rpc w) chan id out) by (by exists ch).
    destruct (inv_call _ Hi _ _ _ Hat) as (_ & d & k & u & -> & [r Hd] & Hk).
    rewrite (onResponse_answers w chan ch m d k u r) by done.
    eexists. split; [reflexivity|]. rewrite rpc_put. unfold free_call, answered_state. fold id.
    set (s1 := forget_call chan ch id (rpc w)).
    assert (Hi1 : rpc_inv s1) by (by apply forget_inv).
    assert (Hun : ∀ c' i out, call_at s1 c' i out → ¬ clash id (mkOut (Some d) (Some k)) i out).
    { intros c' i out H Hcl. apply forget_not in H as [H Hne]; [|done].
      destruct (inv_unique _ Hi _ _ _ _ _ _ Hat H Hcl) as [<- <-]. by apply Hne. }
    change (rpc_inv (set_messages (delete d (messages (set_closures (delete k (closures s1))
      (set_messages (<[d := answered m r]> (messages s1)) s1)))) (set_closures (delete k (closures s1))
      (set_messages (<[d := answered m r]> (messages s1)) s1)))).
    apply inv_delete_message; [|intros c' i out H Hout; eapply Hun; [exact H|right; left; by rewrite Hout]].
    apply (inv_delete_closure (set_messages (<[d := answered m r]> (messages s1)) s1));
      [|intros c' i out H Hout; eapply Hun; [exact H|right; right; by rewrite Hout]].
    apply inv_store_message; [done|]. by eexists.
  - destruct (decide (RpcMessage.type m = REQUEST)) as [Ht|_]; [|by exists w].
    destruct (Hreq Ht) as (q & out & Hw & Hf).
    destruct (onRequest_refused host w chan ch c q out m None NO_SERVICE) as (w' & Hrun & Ho & _);
      try done.
    { unfold channel_services. by rewrite (inv_services _ Hi _ _ Hch). }
    exists w'. split; [done|]. by rewrite (output_rpc _ _ _ Ho).
Qed.

Lemma call_inv w chan method request r u :
  rpc_inv (rpc w) → op_enabled (OCall chan method request r u) w →
  ∃ w', do_op (OCall chan method request r u) w = Ok (tt, w') ∧ rpc_inv (rpc w').
Proof using All.
  intros Hi (ch & c & q & out & Hch & Hc & Hw & Hid & Hf).
  destruct (inv_new_message (rpc w) r Hi) as (s1 & H1 & Hi1 & Hm1 & Hk1 & Hc1 & Hid1 & Hd1 & _).
  destruct (inv_new_closure s1 u Hi1) as (s2 & H2 & Hi2 & Hk2 & Hm2 & Hc2 & Hid2 & Hun2 & _).
  set (d := rpc_brk (rpc w)) in *. set (k := rpc_brk s1) in *. set (w2 := put_rpc s2 w).
  assert (Hr2 : rpc w2 = s2) by apply rpc_put.
  destruct (CallMethod_run host w2 chan ch c q out method request (Some d) (Some k))
    as (w' & Hrun & Hr & _); try done.
  - unfold channel_is. by rewrite Hr2, Hc2, Hc1.
  - by rewrite Hr2, Hid2, Hid1.
  - by rewrite Hr2, Hid2, Hid1.
  - exists w'. split.
    + cbn [do_op]. mrun (on_rpc_run _ w _ _ H1).
      erewrite bind_run by (apply on_rpc_run; rewrite rpc_put; exact H2). cbn beta.
      rewrite put_rpc_put. exact Hrun.
    + rewrite Hr, Hr2. apply (inv_record s2 chan ch d k u); try done.
      * by rewrite Hc2, Hc1.
      * by rewrite Hid2, Hid1.
      * rewrite Hm2, Hm1, lookup_insert_eq. by eexists.
      * intros c' i o (ch' & Hch' & Ho'). apply (Hd1 c' i o). exists ch'. by rewrite <- Hc2.
      * rewrite Hk2, lookup_insert_eq. done.
Qed.

Lemma op_inv o w :
  rpc_inv (rpc w) → op_enabled o w → ∃ w', do_op o w = Ok (tt, w') ∧ rpc_inv (rpc w').
Proof using All.
  intros Hi He. destruct o as [c| |chan c|chan sv|chan me rq r u|chan c m|chan].
  - destruct (inv_new_channel (rpc w) (Some c) Hi) as (s' & Hn & Hi').
    eexists. split; [cbn [do_op]; unfold RpcChannel_init; by mrun (on_rpc_run _ w _ _ Hn)|].
    by rewrite rpc_put.
  - destruct (inv_new_channel (rpc w) None Hi) as (s' & Hn & Hi').
    eexists. split; [cbn [do_op]; unfold RpcChannel_init_default; by mrun (on_rpc_run _ w _ _ Hn)|].
    by rewrite rpc_put.
  - by exists w.
  - by exists w.
  - by apply call_inv.
  - by eapply onMessage_inv.
  - destruct He as [ch Hch]. destruct (RpcChannel_destroy_run w chan ch Hi Hch) as [Hrun Hi'].
    eexists. split; [exact Hrun|]. by rewrite rpc_put.
Qed.

Lemma steps_inv w w' : rtc op_step w w' → rpc_inv (rpc w) → rpc_inv (rpc w').
Proof using All.
  induction 1 as [w|w w1 w' (o & He & Hrun) _ IH]; [done|]. intros Hi. apply IH.
  destruct (op_inv o w Hi He) as (w2 & Hrun2 & Hi2). congruence.
Qed.
End steps.
