(* ===== verification/RpcTrip.v ===== *)
(** * A call and its answer between two processes

    The frame a client's [CallMethod] writes, read by the channel of a server,
    and the frame of its answer, read by the channel of the client. *)

From S2P Require Import Prelude Endian ConnQueue External World Codec Decoder Wire Delivery.
From S2P Require Import ProtoWire RpcPb RpcPbProps RpcPbParse RpcChannel ChannelLemmas RpcCalls RpcInv RpcSteps.

(** Frames that a receiver accepts. *)
Definition deliverable {ZL : ZlibOps} {WO : WireOps} {PO : ParseOps} (m : RpcMessage.t) : Prop :=
  lenZ (frame_body rpctag m) + checksumLen ≤ maxMessageLen.

Section receive.
Context {EB : EvbufferOps} {EBL : EvbufferLaws EB} {EBN : EvbufferNoOOM EB}.
Context {ZL : ZlibOps} {ZLL : ZlibLaws ZL} {WO : WireOps} {WL : WireLaws WO}.
Context {PO : ParseOps} {PL : ParseLaws PO} {UO : UserOps}.
Context {E : Type} {RH : RpcHost UO E} {UC : UserClosures E} {US : UserServices E}.
Context (host : endian).
Implicit Types (w : World EB E) (chan c p q d k : ptr) (m : RpcMessage.t).

Lemma deliverable_fits m : deliverable m → fits m.
Proof using. unfold deliverable, fits, maxMessageLen. int_lia. Qed.

(** A channel whose input is one frame handles its message and is done. *)
Lemma receive_frame fuel w chan c p m0 (P : World EB E → Prop) :
  rpc_ok m0 → deliverable m0 → is_Some (channels (rpc w) !! chan) → reads w c p (rpc_frame m0) →
  (∀ m w1 bs, rpc_same m0 m → input_only p w w1 → reads w1 c p bs →
     ∃ w2, onRpcMessage host chan c m w1 = Ok (tt, w2) ∧ reads w2 c p bs ∧ P w2) →
  ∃ w2 w3, onMessage host (S fuel) chan (Some c) w = Ok (tt, w3) ∧ P w2 ∧ input_only p w2 w3 ∧
    reads w3 c p [].
Proof using All.
  intros Hm Hdel [ch Hch] Hr Hh.
  assert (Hwf : codec_wf (rpcCodeDer host chan)) by done.
  destruct (onMessage_frame host (rpcCodeDer host chan) c p Hwf eq_refl fuel w m0 [])
    as (m & data & w1 & Hsame & Hio & Hr1 & Hrun).
  { by split. }
  { by rewrite app_nil_r. }
  { rewrite app_nil_r. change (lenZ (frame rpctag m0) < 2 ^ 31). rewrite length_frame.
    unfold deliverable, maxMessageLen, headerLen in *. clear -Hdel. int_lia. }
  destruct (Hh m w1 (data ++ []) Hsame Hio Hr1) as (w2 & Hcb & Hr2 & HP).
  destruct (hand_over_run (rpcCodeDer host chan) c p m data []
    (onMessage_loop host fuel (rpcCodeDer host chan) c) w1 w2 Hcb Hr2) as (w3 & Hio3 & Hr3 & Hrun3).
  exists w2, w3. split_and!; [|done|done|done].
  unfold onMessage. mrun (channel_at_run w chan ch Hch). rewrite Hrun, Hrun3.
  by apply (loop_idle host _ c p Hwf fuel w3 []).
Qed.

Lemma input_only_rpc p w w1 : input_only p w w1 → w_ext w1 = w_ext w.
Proof using. by intros (b & e & _ & ->). Qed.
Lemma input_only_writes p w w1 c q out : input_only p w w1 → writes w c q out → writes w1 c q out.
Proof using. intros (b & e & Hb & ->) Hw. by apply writes_set_input. Qed.

(** *** The server *)

Definition call_id (id : Z) : Prop := 1 ≤ id ≤ INT_MAX.

Lemma call_id_wrap id : call_id id → u64 id = id ∧ i64 id = id.
Proof using. unfold call_id, INT_MAX. intros H. split; [apply wrap_small|apply swrap_small]; int_lia. Qed.

(** The verdict depends on what a reader sees. *)
Lemma judge_same sm m0 m : msg_wf m0 → rpc_same m0 m → judge sm m = judge sm m0.
Proof using.
  intros H0 [Hv Hw]. unfold judge.
  rewrite (read_service m _ Hw Hv), (read_method m _ Hw Hv), (read_request m _ Hw Hv).
  by rewrite (read_service m0 _ H0 eq_refl), (read_method m0 _ H0 eq_refl), (read_request m0 _ H0 eq_refl).
Qed.

Lemma judge_valid sm m e : judge sm m = Refuse e → ErrorCode_IsValid e = true.
Proof using.
  unfold judge. destruct (sm ≫= _) as [[sv|]|]; [|by intros [= <-]..].
  destruct (FindMethodByName _ _); [|by intros [= <-]].
  by destruct (ParseFromString _ _) as [[] rq]; [|intros [= <-]].
Qed.

Definition reply_to {SS : SyncServices host} sm id method request : RpcMessage.t :=
  match judge sm (call_msg id method request) with
  | Serve sv me rq => reply_msg id (SerializeAsString (answer host sv me rq))
  | Refuse e => error_msg id e
  end.

Lemma error_msg_u64 id e : error_msg (u64 id) e = error_msg id e.
Proof using. unfold error_msg, RpcMessage.set_id. by rewrite wrap_wrap. Qed.

Lemma server_replies {SS : SyncServices host} fuel w chan ch c p q out sm id method request :
  call_id id → deliverable (call_msg id method request) →
  channel_is w chan ch → conn ch = Some (Some c) → channel_services (rpc w) ch sm →
  heap_fresh (rpc w) → deliverable (reply_to sm id method request) →
  reads w c p (rpc_frame (call_msg id method request)) → writes w c q out →
  ∃ w', onMessage host (S fuel) chan (Some c) w = Ok (tt, w') ∧ reads w' c p [] ∧
    writes w' c q (out ++ rpc_frame (reply_to sm id method request)).
Proof using All.
  intros Hid Hdel Hch Hc Hsm Hfr Hdel' Hr Hw. destruct (call_id_wrap id Hid) as [Hu Hi].
  set (m0 := call_msg id method request) in *. set (G := rpc_frame (reply_to sm id method request)) in *.
  destruct (receive_frame fuel w chan c p m0 (λ w2, writes w2 c q (out ++ G))) as (w2 & w3 & Hrun & HP & Hio & Hr3);
    [apply call_msg_ok|done|by eexists|done| |].
  2: { exists w3. split_and!; [done|done|by eapply input_only_writes]. }
  intros m w1 bs Hsame Hio Hr1. pose proof Hsame as [Hv Hwf]. unfold m0 in Hv. rewrite call_msg_view in Hv.
  assert (Hext : w_ext w1 = w_ext w) by (by eapply input_only_rpc).
  assert (Hrpc : rpc w1 = rpc w) by (unfold rpc; by rewrite Hext).
  assert (Hch1 : channel_is w1 chan ch) by (unfold channel_is; by rewrite Hrpc).
  assert (Hw1 : writes w1 c q out) by (by eapply input_only_writes).
  assert (Hj : judge sm m = judge sm m0) by (by apply judge_same; [apply call_msg_ok|]).
  unfold onRpcMessage. rewrite bool_decide_true by done. mrun.
  rewrite (read_type m _ Hwf Hv). if_no; [|done]. if_yes; [|done].
  pose proof (read_id m _ Hwf Hv) as Hid'. simpl in Hid'.
  unfold G, reply_to in *. fold m0 in Hdel' |- *.
  destruct (judge sm m0) as [e|sv me rq].
  - destruct (onRequest_refused host w1 chan ch c q out m sm e) as (w2 & Hrun & Ho & Hw2);
      rewrite ?Hrpc, ?Hid', ?error_msg_u64 in *; try done; [by apply deliverable_fits|].
    exists w2. split_and!; [done|by eapply output_only_reads|done].
  - destruct (onRequest_served host w1 chan ch c c q out m sm sv me rq)
      as (w2 & Hrun & _ & Ho & Hw2); rewrite ?Hrpc, ?Hid', ?Hu, ?Hi in *; try done.
    { unfold call_id in Hid. lia. }
    { by apply deliverable_fits. }
    exists w2. split_and!; [done| |done]. by eapply output_only_reads.
Qed.
End receive.

(** *** The client *)

Section client.
Context {EB : EvbufferOps} {EBL : EvbufferLaws EB} {EBN : EvbufferNoOOM EB}.
Context {ZL : ZlibOps} {ZLL : ZlibLaws ZL} {WO : WireOps} {WL : WireLaws WO}.
Context {PO : ParseOps} {PL : ParseLaws PO} {UO : UserOps}.
Context {E : Type} {RH : RpcHost UO E} {UC : UserClosures E} {US : UserServices E}.
Context {UE : UserEffects RH UC}.
Context (host : endian).
Implicit Types (w : World EB E) (s : RpcState UO) (chan c p q d k : ptr) (m : RpcMessage.t).

(** The call [id] is forgotten and its response holds [r]: what the closure
    of the call sees. *)
Definition completed chan (ch : RpcChannel) (id : Z) d (r : UMsg) s : RpcState UO :=
  let s1 := forget_call chan ch id s in set_messages (<[d := r]> (messages s1)) s1.

(** The state when the call was answered and its closure [u] has run. *)
Definition after_call chan ch id d k r u (e : E) : E :=
  let s := completed chan ch id d r (rpc_of e) in
  set_rpc (free_call d k s) (user_effect u (set_rpc s e)).

(** What the payload or the error of the answer makes of the response. *)
Definition payload_read (v : view) (r : UMsg) : UMsg :=
  match v_response v with Some payload => (ParseFromString r payload).2 | None => r end.

Lemma client_completes fuel w chan ch c p id d k u r m0 :
  call_id id → rpc_ok m0 → deliverable m0 →
  v_type (view_of m0) = Some RESPONSE → v_id (view_of m0) = Some (u64 id) →
  v_response (view_of m0) ≠ None ∨ v_error (view_of m0) ≠ None →
  channel_is w chan ch → outstandings ch !! id = Some (mkOut (Some d) (Some k)) →
  messages (rpc w) !! d = Some r → closures (rpc w) !! k = Some (UserClosure u) →
  reads w c p (rpc_frame m0) →
  ∃ w', onMessage host (S fuel) chan (Some c) w = Ok (tt, w') ∧ reads w' c p [] ∧
    w_ext w' = after_call chan ch id d k (payload_read (view_of m0) r) u (w_ext w).
Proof using All.
  intros Hid Hok Hdel Ht Hi Hres Hch Ho Hd Hk Hr. destruct (call_id_wrap id Hid) as [Hu64 Hi64].
  set (X := after_call chan ch id d k (payload_read (view_of m0) r) u (w_ext w)).
  destruct (receive_frame host fuel w chan c p m0 (λ w2, w_ext w2 = X)) as (w2 & w3 & Hrun & HP & Hio & Hr3);
    [done|done|by eexists|done| |].
  2: { exists w3. split_and!; [done|done|]. by rewrite (input_only_rpc _ _ _ Hio). }
  intros m w1 bs [Hv Hwf] Hio Hr1.
  assert (Hext : w_ext w1 = w_ext w) by (by eapply input_only_rpc).
  assert (Hrpc : rpc w1 = rpc w) by (unfold rpc; by rewrite Hext).
  pose proof (read_id m _ Hwf Hv) as Hid'. rewrite Hi in Hid'. simpl in Hid'. rewrite Hu64 in Hid'.
  assert (Hhas : RpcMessage.has_response m || RpcMessage.has_error m = true).
  { rewrite (read_has_response m _ Hv), (read_has_error m _ Hv).
    destruct (v_response (view_of m0)), (v_error (view_of m0)); try done. by destruct Hres. }
  assert (Hans : answered m r = payload_read (view_of m0) r).
  { unfold answered, payload_read. rewrite (read_has_response m _ Hv), (read_response m _ Hwf Hv).
    by destruct (v_response (view_of m0)). }
  set (s := answered_state chan ch m d r (rpc w1)).
  exists (put_rpc (free_call d k s) (set_ext (user_effect u (w_ext (put_rpc s w1))) w1)). split_and!.
  - unfold onRpcMessage. rewrite bool_decide_true by done. mrun.
    rewrite (read_type m _ Hwf Hv), Ht. if_yes; [|done].
    apply onResponse_answers; rewrite ?Hrpc, ?Hid', ?Hi64; try done.
    unfold channel_is. by rewrite Hrpc.
  - done.
  - unfold X, after_call, s, answered_state, completed. simpl. rewrite Hans, Hid', Hi64.
    unfold rpc. by rewrite Hext.
Qed.
End client.
