(* ===== verification/RpcProps.v ===== *)
(** * Properties of the RPC channels

    A call from end to end, what each kind of message does to a channel, and the
    invariant and safety of programs that use channels.  The last part runs the
    properties on a concrete service. *)

From stdpp Require Import sorting.
From S2P Require Import Prelude Endian ConnQueue External World Codec Decoder Wire Delivery.
From S2P Require Import ProtoWire RpcPb RpcPbProps RpcPbParse RpcChannel ChannelLemmas RpcCalls RpcInv RpcSteps RpcTrip.

Section trip.
Context {EB : EvbufferOps} {EBL : EvbufferLaws EB} {EBN : EvbufferNoOOM EB}.
Context {ZL : ZlibOps} {ZLL : ZlibLaws ZL} {WO : WireOps} {WL : WireLaws WO}.
Context {PO : ParseOps} {PL : ParseLaws PO} {UO : UserOps}.
(** the client's process and the server's *)
Context {C : Type} {RC : RpcHost UO C} {CC : UserClosures C} {CS : UserServices C} {CE : UserEffects RC CC}.
Context {S : Type} {RS : RpcHost UO S} {SC : UserClosures S} {SS : UserServices S}.
Context (hc hs : endian) {SY : SyncServices hs}.

(** What the call makes of the response, given the services of the server. *)
Definition call_result sm (id : Z) (method : MethodDescriptor) (request r : UMsg) : UMsg :=
  match judge sm (call_msg id method request) with
  | Serve sv me rq => (ParseFromString r (SerializeAsString (answer hs sv me rq))).2
  | Refuse _ => r
  end.

(** C2: a call from end to end, between processes on hosts of either byte order.
    [CallMethod] writes one frame.  A server whose channel reads it writes one
    frame: the service's answer, or the error that says why there is none.  When
    the client reads that, its call is forgotten, the closure of the call runs
    once, on a state where the response holds the answer (or what it held
    before, after an error), and the response and the closure are freed. *)
Theorem rpc_round_trip (fuel : nat) (w : World EB C) (chan c p q d k : ptr) ch
    (method : MethodDescriptor) (request r : UMsg) (u : UserCode) sm :
  let id := _id (rpc w) + 1 in
  channel_is w chan ch → conn ch = Some (Some c) → 0 ≤ _id (rpc w) < INT_MAX →
  messages (rpc w) !! d = Some r → closures (rpc w) !! k = Some (UserClosure u) →
  writes w c q [] → deliverable (call_msg id method request) →
  deliverable (reply_to hs sm id method request) →
  ∃ w1 call, CallMethod hc chan method request (Some d) (Some k) w = Ok (tt, w1) ∧ writes w1 c q call ∧
    ∀ (v : World EB S) (schan sc sp sq : ptr) sch,
      channel_is v schan sch → conn sch = Some (Some sc) → channel_services (rpc v) sch sm →
      heap_fresh (rpc v) → writes v sc sq [] → reads v sc sp call →
      ∃ v1 reply, onMessage hs (Datatypes.S fuel) schan (Some sc) v = Ok (tt, v1) ∧ writes v1 sc sq reply ∧
        ∀ w2, w_ext w2 = w_ext w1 → reads w2 c p reply →
          ∃ w3 ch1, onMessage hc (Datatypes.S fuel) chan (Some c) w2 = Ok (tt, w3) ∧
            channel_is w1 chan ch1 ∧ outstandings ch1 = <[id := mkOut (Some d) (Some k)]> (outstandings ch) ∧
            w_ext w3 = after_call chan ch1 id d k (call_result sm id method request r) u (w_ext w1).
Proof using All.
  intros id Hch Hc Hid Hd Hk Hw Hdel Hdel2.
  assert (Hcid : call_id id) by (unfold call_id, id; lia).
  destruct (CallMethod_run hc w chan ch c q [] method request (Some d) (Some k))
    as (w1 & Hrun & Hr1 & _ & Hw1); [done|done|lia|by apply deliverable_fits|done|].
  fold id in Hw1. rewrite app_nil_l in Hw1.
  exists w1, (rpc_frame (call_msg id method request)). split_and!; [done|done|].
  intros v schan sc sp sq sch Hsch Hsc Hsm Hfr Hsw Hsr.
  destruct (server_replies hs fuel v schan sch sc sp sq [] sm id method request)
    as (v1 & Hrun1 & _ & Hv1); try done. rewrite app_nil_l in Hv1.
  exists v1, (rpc_frame (reply_to hs sm id method request)). split_and!; [done|done|].
  intros w2 Hext Hr2.
  assert (Hrpc : rpc w2 = record_call chan ch (mkOut (Some d) (Some k)) (rpc w))
    by (unfold rpc in *; by rewrite Hext).
  set (ch1 := set_outstandings (<[id := mkOut (Some d) (Some k)]> (outstandings ch)) ch).
  assert (Hch2 : channels (record_call chan ch (mkOut (Some d) (Some k)) (rpc w)) !! chan = Some ch1)
    by apply lookup_insert_eq.
  assert (Hm0 : rpc_ok (reply_to hs sm id method request) ∧
    (∃ pl er, view_of (reply_to hs sm id method request) =
       mkView (Some RESPONSE) (Some (u64 id)) None None None pl er ∧ (pl ≠ None ∨ er ≠ None)) ∧
    payload_read (view_of (reply_to hs sm id method request)) r = call_result sm id method request r).
  { unfold reply_to, call_result.
    destruct (judge sm (call_msg id method request)) as [e|sv me rq] eqn:Hj.
    - rewrite error_msg_view. apply judge_valid in Hj. split; [by apply error_msg_ok|]. split; [|done].
      exists None, (Some e). split; [done|by right].
    - rewrite reply_msg_view. split; [by apply reply_msg_ok|]. split; [|done].
      exists (Some (SerializeAsString (answer hs sv me rq))), None. split; [done|by left]. }
  destruct Hm0 as (Hok & (pl & er & Hview & Hpe) & Hpay). rewrite <- Hpay.
  destruct (client_completes hc fuel w2 chan ch1 c p id d k u r (reply_to hs sm id method request))
    as (w3 & Hrun3 & _ & Hx3); rewrite ?Hview; try done.
  - unfold channel_is. by rewrite Hrpc.
  - apply lookup_insert_eq.
  - by rewrite Hrpc.
  - by rewrite Hrpc.
  - exists w3, ch1. split_and!; [done| |done|].
    + unfold channel_is. by rewrite Hr1.
    + by rewrite Hx3, Hext, Hview.
Qed.
End trip.

Section process.
Context {EB : EvbufferOps} {EBL : EvbufferLaws EB} {EBN : EvbufferNoOOM EB}.
Context {ZL : ZlibOps} {ZLL : ZlibLaws ZL} {WO : WireOps} {WL : WireLaws WO}.
Context {PO : ParseOps} {PL : ParseLaws PO} {UO : UserOps}.
Context {E : Type} {RH : RpcHost UO E} {UC : UserClosures E} {US : UserServices E}.
Context (host : endian).
Implicit Types (w : World EB E) (s : RpcState UO) (chan c p q d k : ptr) (m : RpcMessage.t).

(** No channel yet; the maps of services are the user's. *)
Definition rpc_start (maps : gmap ptr (gmap bytes (option Service))) : RpcState UO :=
  mkRpc 0 1 ∅ ∅ ∅ maps.

Lemma start_inv maps : rpc_inv (rpc_start maps).
Proof using.
  split; try done; intros *; try by intros (ch & Hch & _).
Qed.

(** C17: [CallMethod] gives the call the next number, records what waits for the
    answer under it, and appends to the output of the channel's connection the
    frame of a message that says: request, this number, service, method and the
    serialised request. *)
Theorem CallMethod_sends_call w chan ch c q out method request response done :
  channel_is w chan ch → conn ch = Some (Some c) → _id (rpc w) ≠ INT_MAX →
  fits (call_msg (_id (rpc w) + 1) method request) → writes w c q out →
  let id := _id (rpc w) + 1 in
  ∃ w' m, CallMethod host chan method request response done w = Ok (tt, w') ∧
    _id (rpc w') = id ∧
    channel_is w' chan (mkChannel (conn ch) (<[id := mkOut response done]> (outstandings ch)) (services ch)) ∧
    writes w' c q (out ++ rpc_frame m) ∧
    view_of m = mkView (Some REQUEST) (Some (u64 id)) (Some (method_service method))
      (Some (method_name method)) (Some (SerializeAsString request)) None None.
Proof using All.
  intros Hch Hc Hid Hf Hw id.
  destruct (CallMethod_run host w chan ch c q out method request response done)
    as (w' & Hrun & Hr & _ & Hw'); try done.
  exists w', (call_msg id method request). split_and!; [done|by rewrite Hr| |done|apply call_msg_view].
  unfold channel_is. rewrite Hr. apply lookup_insert_eq.
Qed.

(** The counter of calls is an [int] that the program never resets: after
    2^31 - 1 calls, the next one overflows it. *)
Theorem call_ids_run_out w chan method request response done :
  _id (rpc w) = INT_MAX → CallMethod host chan method request response done w = Fault SignedOverflow.
Proof using.
  intros Hid. unfold CallMethod. mrun. apply bind_fault. unfold on_rpc, on_ext.
  do 2 apply zoom_fault. unfold next_id. mrun. by if_yes.
Qed.

(** A request without a number (or with the number 0) that a service can
    serve is served, and then the assertion of [doneCallback] fails: the sender
    of a message stops the server. *)
Theorem request_id_zero_aborts {SY : SyncServices host} w chan ch c m sm sv me rq :
  RpcMessage.type m = REQUEST → i64 (RpcMessage.id m) = 0 →
  channel_is w chan ch → channel_services (rpc w) ch sm →
  judge sm m = Serve sv me rq → onRpcMessage host chan c m w = Fault AssertFail.
Proof using All.
  intros Ht Hid Hch Hsm Hj. rewrite onRpcMessage_request by done.
  eapply onRequest_unnumbered; [done..|apply sync_answers|done].
Qed.

(** C16: what a request does, on a channel with the services [sm] and for
    services that fill the response in and run the closure before they return
    ([SyncServices]).  When the service or the method is unknown or the request
    does not parse, the reply is the error that says which; when all three are
    known, it is the service's answer.  Either is one frame on the connection,
    under the number of the request, and leaves nothing behind: the response and
    the closure made for the service are gone again.  But a request that a
    service can serve and whose number is 0, or missing, aborts the server: the
    assertion of [doneCallback] fails. *)
Theorem request_answered {SY : SyncServices host} w chan ch c q out m sm :
  let id := i64 (RpcMessage.id m) in
  let replied reply := ∃ w', onRpcMessage host chan c m w = Ok (tt, w') ∧
    writes w' c q (out ++ rpc_frame reply) ∧ messages (rpc w') = messages (rpc w) ∧
    closures (rpc w') = closures (rpc w) ∧ channels (rpc w') = channels (rpc w) in
  RpcMessage.type m = REQUEST → channel_is w chan ch → conn ch = Some (Some c) →
  channel_services (rpc w) ch sm → heap_fresh (rpc w) → writes w c q out →
  match judge sm m with
  | Refuse e => replied (error_msg (RpcMessage.id m) e)
  | Serve sv me rq =>
      let reply := reply_msg id (SerializeAsString (answer host sv me rq)) in
      if decide (id = 0) then onRpcMessage host chan c m w = Fault AssertFail
      else fits reply → replied reply
  end.
Proof using All.
  intros id replied Ht Hch Hc Hsm Hfr Hw.
  destruct (judge sm m) as [e|sv me rq] eqn:Hj; [|case_decide as Hid; [|intros reply Hf]].
  - destruct (onRequest_refused host w chan ch c q out m sm e) as (w' & Hrun & Ho & Hw'); try done.
    { apply error_fits. by eapply judge_valid. }
    exists w'. rewrite onRpcMessage_request by done. by rewrite (output_rpc _ _ _ Ho).
  - by eapply request_id_zero_aborts.
  - destruct (onRequest_served host w chan ch c c q out m sm sv me rq) as (w' & Hrun & Hr & _ & Hw'); try done.
    exists w'. rewrite onRpcMessage_request by done. by rewrite Hr.
Qed.

(** A response that carries neither a payload nor an error fails an
    assertion of the receiver: any peer can stop a program that waits for
    answers with one frame. *)
Theorem bare_response_aborts (fuel : nat) w chan c p m0 rest :
  rpc_ok m0 → deliverable m0 → v_type (view_of m0) = Some RESPONSE →
  v_response (view_of m0) = None → v_error (view_of m0) = None →
  is_Some (channels (rpc w) !! chan) → reads w c p (rpc_frame m0 ++ rest) →
  lenZ (rpc_frame m0 ++ rest) < 2 ^ 31 →
  onMessage host (S fuel) chan (Some c) w = Fault AssertFail.
Proof using EBL WL PL.
  intros Hok Hdel Ht Hr He [ch Hch] Hrd Hl.
  destruct (onMessage_frame host (rpcCodeDer host chan) c p ltac:(done) eq_refl fuel w m0 rest)
    as (m & data & w1 & [Hv Hwf] & _ & _ & Hrun); [by split|done|done|].
  unfold onMessage. mrun (channel_at_run w chan ch Hch). rewrite Hrun. apply bind_fault.
  change (messageCallback (rpcCodeDer host chan)) with (onRpcMessage host chan).
  unfold onRpcMessage. rewrite bool_decide_true by done. mrun.
  rewrite (read_type m _ Hwf Hv), Ht. if_yes; [|done].
  unfold onResponse. rewrite (read_has_response m _ Hv), (read_has_error m _ Hv), Hr, He. done.
Qed.

Definition set_all (chan : ptr) (cs : list (option ptr)) : M (World EB E) unit :=
  foldr (λ x rest, _ ← setConnection chan x; rest) (mret tt) cs.

(** A channel made by the default constructor never gets a connection,
    whatever [setConnection] is called with: a call on it reads the
    uninitialised member. *)
Theorem default_channel_faults w chan w1 cs method request response done :
  RpcChannel_init_default w = Ok (chan, w1) → 0 ≤ _id (rpc w) < INT_MAX →
  ∃ w2, set_all chan cs w1 = Ok (tt, w2) ∧
    CallMethod host chan method request response done w2 = Fault Uninit.
Proof using.
  intros Hnew Hid. exists w1. split; [by induction cs|].
  unfold RpcChannel_init_default in Hnew.
  erewrite on_rpc_run in Hnew by reflexivity. injection Hnew as <- <-.
  unfold CallMethod. mrun. erewrite bind_run by (apply next_id_run; rewrite rpc_put; simpl; lia).
  cbn beta. mrun. rewrite rpc_put, put_rpc_put. unfold get_conn.
  erewrite bind_run by (apply (channel_update_run _ _ (mkChannel None ∅ NULL)); unfold channel_is;
    rewrite rpc_put; apply lookup_insert_eq). cbn beta. rewrite put_rpc_put, rpc_put.
  apply bind_fault.
  erewrite bind_run by (apply channel_at_run; unfold channel_is; rewrite rpc_put; apply lookup_insert_eq).
  done.
Qed.

(** C33: destroying a channel frees exactly the response and the closure of each
    of its outstanding calls, each once and without running the closures. *)
Theorem destroy_frees_calls w chan ch :
  rpc_inv (rpc w) → channel_is w chan ch →
  ∃ w', RpcChannel_destroy chan w = Ok (tt, w') ∧ channels (rpc w') = delete chan (channels (rpc w)) ∧
    (∀ d, messages (rpc w') !! d =
       if decide (d ∈ responses (calls_in_order (outstandings ch))) then None else messages (rpc w) !! d) ∧
    (∀ k, closures (rpc w') !! k =
       if decide (k ∈ dones (calls_in_order (outstandings ch))) then None else closures (rpc w) !! k).
Proof using.
  intros Hi Hch. destruct (RpcChannel_destroy_run w chan ch Hi Hch) as [Hrun _].
  eexists. split; [exact Hrun|]. rewrite rpc_put. split_and!; [done|intros d; apply without_lookup..].
Qed.
End process.

Section reachable.
Context {EB : EvbufferOps} {EBL : EvbufferLaws EB} {EBN : EvbufferNoOOM EB}.
Context {ZL : ZlibOps} {ZLL : ZlibLaws ZL} {WO : WireOps} {WL : WireLaws WO}.
Context {PO : ParseOps} {PL : ParseLaws PO} {UO : UserOps}.
Context {E : Type} {RH : RpcHost UO E} {UC : UserClosures E} {US : UserServices E}.
Context {UE : UserEffects RH UC}.
Context (host : endian).
Implicit Types (w : World EB E) (chan c q d k : ptr) (m : RpcMessage.t).

(** [w] is reached by operations on channels from a state without any. *)
Definition reachable w : Prop :=
  ∃ w0 maps, rpc w0 = rpc_start maps ∧ rtc (op_step host) w0 w.

Lemma channels_inv w : reachable w → rpc_inv (rpc w).
Proof using All.
  intros (w0 & maps & H0 & Hsteps). eapply steps_inv; [exact Hsteps|]. rewrite H0. apply start_inv.
Qed.

(** C7: whatever a program with channels did before, in any order, every
    operation that its contract allows returns: no response, closure or channel
    is used after it was freed, or freed twice.  (A call needs a writable
    connection, a response carries a payload or an error.) *)
Theorem channels_never_fault w o :
  reachable w → op_enabled o w → ∃ w', do_op host o w = Ok (tt, w').
Proof using All.
  intros Hr He. destruct (op_inv host o w (channels_inv w Hr) He) as (w' & Hrun & _). by exists w'.
Qed.

(** C11: on every reachable state the response and the closure of each
    outstanding call are live, and two outstanding calls, on whatever channels,
    share neither their number nor the response nor the closure. *)
Theorem outstanding_calls_separate w :
  reachable w →
  (∀ chan i out, call_at (rpc w) chan i out → 1 ≤ i ≤ _id (rpc w) ∧
     ∃ d k u, out = mkOut (Some d) (Some k) ∧ is_Some (messages (rpc w) !! d) ∧
              closures (rpc w) !! k = Some (UserClosure u)) ∧
  (∀ chan i out chan' i' out', call_at (rpc w) chan i out → call_at (rpc w) chan' i' out' →
     i = i' ∨ out_response out = out_response out' ∨ out_done out = out_done out' →
     chan = chan' ∧ i = i').
Proof using All. intros Hr%channels_inv. split; [apply (inv_call _ Hr)|apply (inv_unique _ Hr)]. Qed.

(** C40: no program can give a channel services: [setServices] assigns its
    parameter to itself, and every request that reaches a channel is refused
    with [NO_SERVICE]. *)
Theorem every_request_refused w chan c q out m :
  reachable w → is_Some (channels (rpc w) !! chan) → RpcMessage.type m = REQUEST →
  writes w c q out → fits (error_msg (RpcMessage.id m) NO_SERVICE) →
  ∃ w', onRpcMessage host chan c m w = Ok (tt, w') ∧ rpc w' = rpc w ∧
    writes w' c q (out ++ rpc_frame (error_msg (RpcMessage.id m) NO_SERVICE)).
Proof using All.
  intros Hr%channels_inv [ch Hch] Ht Hw Hf.
  destruct (onRequest_refused host w chan ch c q out m None NO_SERVICE) as (w' & Hrun & Ho & Hw'); try done.
  { unfold channel_services. by rewrite (inv_services _ Hr _ _ Hch). }
  exists w'. split_and!; [by rewrite onRpcMessage_request|by apply (output_rpc q)|done].
Qed.

(** An answer is used at most once: after a response, any response with the
    same number changes nothing. *)
Theorem second_answer_ignored w w1 chan c m m2 :
  reachable w → is_Some (channels (rpc w) !! chan) →
  RpcMessage.type m = RESPONSE → RpcMessage.has_response m || RpcMessage.has_error m = true →
  onRpcMessage host chan c m w = Ok (tt, w1) →
  RpcMessage.type m2 = RESPONSE → RpcMessage.has_response m2 || RpcMessage.has_error m2 = true →
  i64 (RpcMessage.id m2) = i64 (RpcMessage.id m) →
  onRpcMessage host chan c m2 w1 = Ok (tt, w1).
Proof using All.
  intros Hr%channels_inv [ch Hch] Ht Hm Hrun Ht2 Hm2 Hid.
  unfold onRpcMessage in *. rewrite bool_decide_true in Hrun |- * by done.
  change (mbind _ (assert_ true)) with (λ w : World EB E,
    (if decide (RpcMessage.type m = RESPONSE) then onResponse host chan m
     else if decide (RpcMessage.type m = REQUEST) then onRequest host chan c m else mret tt) w) in Hrun.
  cbn beta in Hrun. rewrite if_true in Hrun by done. mrun. if_yes; [|done].
  destruct (outstandings ch !! i64 (RpcMessage.id m)) as [out|] eqn:Ho.
  - assert (Hat : call_at (rpc w) chan (i64 (RpcMessage.id m)) out) by (by exists ch).
    destruct (inv_call _ Hr _ _ _ Hat) as (_ & d & k & u & -> & [r Hd] & Hk).
    rewrite (onResponse_answers host w chan ch m d k u r) in Hrun by done. injection Hrun as <-.
    eapply onResponse_unknown; [done| |].
    + unfold channel_is. rewrite rpc_put. apply lookup_insert_eq.
    + rewrite Hid. apply lookup_delete_eq.
  - rewrite (onResponse_unknown host w chan ch m Hm Hch Ho) in Hrun. injection Hrun as <-.
    eapply onResponse_unknown; [done|exact Hch|by rewrite Hid].
Qed.
End reachable.
