(* ===== verification/RpcDemo.v ===== *)
(** * The channels on a concrete service

    An echo service and a client that logs what its closures see, on concrete
    buffers and wire primitives: the properties of RpcProps.v at these inputs,
    and a run of a whole call. *)

From S2P Require Import Prelude Endian ConnQueue External World Codec Decoder Wire Delivery.
From S2P Require Import ProtoWire RpcPb RpcPbProps RpcPbParse RpcChannel ChannelLemmas RpcCalls RpcInv RpcSteps RpcTrip RpcProps.

Module echo.
#[local] Existing Instances chunked.ops chunked.laws chunked.no_oom rfc1950.zlib rfc1950.zlib_laws.
#[local] Existing Instances base128.wire base128.wire_laws demo_message.parse_ops demo_message.parse_laws.

(** Messages are byte strings; those that start with 0xff do not parse.  A
    closure of the user is the address of the response it waits for. *)
#[export] Instance user : UserOps := {
  UMsg := bytes;
  SerializeAsString m := m;
  ParseFromString _ bs := (demo.well_formed bs, bs);
  MethodDescriptor := bytes;
  method_name m := m;
  method_service _ := bytes_of_string "Echo";
  Service := unit;
  service_name _ := bytes_of_string "Echo";
  FindMethodByName _ n := if decide (n = bytes_of_string "twice") then Some n else None;
  NewRequest _ _ := [];
  NewResponse _ _ := [];
  UserCode := positive
}.

(** The channels, and the responses that the closures saw. *)
Definition process : Type := RpcState user * list (option bytes).
#[export] Instance process_host : RpcHost user process.
Proof. by refine {| rpc_of e := e.1; set_rpc s e := (s, e.2) |}; intros; destruct_and?; try destruct e. Defined.

Definition saw (u : positive) (e : process) : process := (e.1, e.2 ++ [messages e.1 !! u]).
#[export] Instance closures : UserClosures process := { run_user u := on_ext (modify (saw u)) }.
#[export] Instance effects : UserEffects process_host closures.
Proof. by refine {| user_effect := saw : @UserCode user → process → process |}. Defined.

(** The service repeats the request, as a method that returns at once. *)
#[export] Instance services : UserServices process := {
  service_CallMethod _ _ request response done :=
    _ ← on_rpc (modify (λ s, set_messages (<[response := request ++ request]> (messages s)) s));
    Run LittleEndian done
}.
#[export] Instance sync : SyncServices LittleEndian.
Proof. by refine {| answer _ _ request := (request ++ request : @UMsg user) |}. Defined.

(** A connection, its input buffer holding [bs], its output buffer empty. *)
Definition world (bs : bytes) (s : RpcState user) : World chunked.ops process :=
  mkWorld (mkHeap 2 {[ 1%positive := set_writeBuf (Some (mkBufref 1 Output))
                                       (set_readBuf (Some (mkBufref 1 Input)) (Conn_init 5)) ]})
    2 {[ 1%positive := mkBev chunked.ops 5 (Some 1%positive) [bs] [] ]} [] (s, []).

Lemma echo_reads bs s : reads (world bs s) 1 1 bs.
Proof. do 2 eexists. split_and!; try done. simpl. by rewrite app_nil_r. Qed.
Lemma echo_writes bs s : writes (world bs s) 1 1 [].
Proof. by do 2 eexists. Qed.

(** The client has a channel (1), a response (2) and a closure for it (3). *)
Definition idle : RpcChannel := mkChannel (Some (Some 1%positive)) ∅ NULL.
Definition client_state : RpcState user :=
  mkRpc 0 4 {[ 2%positive := [] ]} {[ 3%positive := UserClosure (2%positive : @UserCode user) ]}
    {[ 1%positive := idle ]} ∅.
Definition client (bs : bytes) := world bs client_state.

(** The server's channel knows the service. *)
Definition service_map : gmap bytes (option (@Service user)) := {[ bytes_of_string "Echo" := Some tt ]}.
Definition serving : RpcChannel := mkChannel (Some (Some 1%positive)) ∅ (Some 1%positive).
Definition server_state : RpcState user :=
  mkRpc 0 2 ∅ ∅ {[ 1%positive := serving ]} {[ 1%positive := service_map ]}.
Definition server (bs : bytes) := world bs server_state.

Definition hi : bytes := bytes_of_string "hi ".
Definition twice : bytes := bytes_of_string "twice".
Definition twice_method : @MethodDescriptor user := twice.
Definition hi_request : @UMsg user := hi.

Lemma server_services : channel_services server_state serving (Some service_map).
Proof.
  split; [done|]. exists service_map. split; [done|]. intros n. unfold service_map.
  rewrite lookup_singleton_Some. by intros [].
Qed.
Lemma server_fresh : heap_fresh server_state.
Proof.
  intros p Hp. split_and!; try done. simpl. apply lookup_singleton_ne. simpl in Hp. lia.
Qed.

(** *** A whole call, run *)

Definition output (w : World chunked.ops process) : bytes :=
  match w_bevs w !! 1%positive with Some b => concat (bev_output b) | None => [] end.
Definition feed (bs : bytes) (w : World chunked.ops process) : World chunked.ops process :=
  match w_bevs w !! 1%positive with
  | Some b => set_bevs (<[1%positive := mkBev chunked.ops (bev_fd b) (bev_data b) [bs] (bev_output b)]> (w_bevs w)) w
  | None => w
  end.

(** [call] from the client, [serve] on the server, the answer back: what the
    closure saw. *)
Definition run_call (sv : RpcState user) (method request : bytes) : option (list (option bytes)) :=
  match CallMethod BigEndian 1 (method : @MethodDescriptor user) (request : @UMsg user) (Some 2%positive)
          (Some 3%positive) (client []) with
  | Ok (_, w1) =>
      match onMessage LittleEndian 9 1 (Some 1%positive) (world (output w1) sv) with
      | Ok (_, v1) =>
          match onMessage BigEndian 9 1 (Some 1%positive) (feed (output v1) w1) with
          | Ok (_, w2) => Some ((w_ext w2).2)
          | _ => None
          end
      | _ => None
      end
  | _ => None
  end.

Example call_served : run_call server_state twice hi = Some [Some (bytes_of_string "hi hi ")].
Proof. vm_compute. reflexivity. Qed.
(** without services, without the method, with a request that does not parse *)
Example call_no_service :
  run_call (set_channels {[ 1%positive := idle ]} server_state) twice hi = Some [Some []].
Proof. vm_compute. reflexivity. Qed.
Example call_no_method : run_call server_state hi hi = Some [Some []].
Proof. vm_compute. reflexivity. Qed.
Example call_bad_request : run_call server_state twice [Byte.xff] = Some [Some []].
Proof. vm_compute. reflexivity. Qed.
End echo.

(** ** The properties at these inputs *)

Module echo_witnesses.
Import echo.
#[local] Existing Instances chunked.ops chunked.laws chunked.no_oom rfc1950.zlib rfc1950.zlib_laws.
#[local] Existing Instances base128.wire base128.wire_laws demo_message.parse_ops demo_message.parse_laws.

Abbreviation W := (World chunked.ops process).

Lemma rpc_round_trip_witness :
  ∃ w1 call, CallMethod BigEndian 1 twice_method hi_request (Some 2%positive) (Some 3%positive) (client []) = Ok (tt, w1) ∧
    writes w1 1 1 call ∧ reads (server call) 1 1 call ∧
    ∃ v1 reply, onMessage LittleEndian 1 1 (Some 1%positive) (server call) = Ok (tt, v1) ∧ writes v1 1 1 reply.
Proof.
  destruct (rpc_round_trip BigEndian LittleEndian 0 (client []) 1 1 1 1 2 3 idle twice_method hi_request
    [] (2%positive : @UserCode user) (Some service_map))
    as (w1 & call & Hrun & Hw1 & Hserver).
  1-5: by vm_compute.
  1: apply echo_writes.
  1-2: by vm_compute.
  exists w1, call. split; [exact Hrun|]. split; [exact Hw1|]. split; [apply echo_reads|].
  destruct (Hserver (server call) 1%positive 1%positive 1%positive 1%positive serving)
    as (v1 & reply & Hrun1 & Hv1 & _); [done|done|apply server_services|apply server_fresh
    |apply echo_writes|apply echo_reads|].
  by exists v1, reply.
Defined.

Lemma CallMethod_sends_call_witness :
  ∃ w' m, CallMethod LittleEndian 1 twice_method hi_request (Some 2%positive) (Some 3%positive) (client []) = Ok (tt, w') ∧
    _id (rpc w') = 1 ∧ writes w' 1 1 ([] ++ rpc_frame m) ∧ v_type (view_of m) = Some REQUEST.
Proof.
  destruct (CallMethod_sends_call LittleEndian (client []) 1 idle 1 1 [] twice_method hi_request (Some 2%positive) (Some 3%positive))
    as (w' & m & Hrun & Hid & _ & Hw & Hv).
  1-4: by vm_compute.
  1: apply echo_writes.
  exists w', m. by rewrite Hv.
Defined.

Definition worn_out : W := world [] (put_id INT_MAX client_state).
Lemma call_ids_run_out_witness :
  CallMethod LittleEndian 1 twice_method hi_request NULL NULL worn_out = Fault SignedOverflow.
Proof. by apply call_ids_run_out. Defined.

Definition a_call : RpcMessage.t := call_msg 7 twice_method hi_request.
Definition no_number : RpcMessage.t := call_msg 0 twice_method hi_request.
Definition garbled : RpcMessage.t := RpcMessage.set_method [] a_call.
Lemma request_answered_witness :
  (∃ w', onRpcMessage LittleEndian 1 1 a_call (server []) = Ok (tt, w') ∧
    writes w' 1 1 ([] ++ rpc_frame (reply_msg 7 (hi ++ hi))) ∧
    messages (rpc w') = messages (rpc (server []))) ∧
  onRpcMessage LittleEndian 1 1 no_number (server []) = Fault AssertFail ∧
  ∃ w', onRpcMessage LittleEndian 1 1 garbled (server []) = Ok (tt, w') ∧
    writes w' 1 1 ([] ++ rpc_frame (error_msg 7 NO_METHOD)).
Proof.
  assert (H : ∀ m, RpcMessage.type m = REQUEST → _) by
    exact (λ m Hm, request_answered LittleEndian (server []) 1 serving 1 1 [] m (Some service_map) Hm
      eq_refl eq_refl server_services server_fresh (echo_writes _ _)).
  split_and!.
  - destruct (H a_call eq_refl) as (w' & Hrun & Hw & Hm & _); [by vm_compute|]. by exists w'.
  - exact (H no_number eq_refl).
  - destruct (H garbled eq_refl) as (w' & Hrun & Hw & _). by exists w'.
Defined.

Lemma request_id_zero_aborts_witness :
  onRpcMessage LittleEndian 1 1 no_number (server []) = Fault AssertFail.
Proof.
  apply (request_id_zero_aborts LittleEndian (server []) 1 serving 1 no_number (Some service_map) tt
    twice_method hi_request); [by vm_compute|by vm_compute|done|apply server_services|by vm_compute].
Defined.

Definition bare : RpcMessage.t := RpcMessage.put_type RESPONSE RpcMessage.init.
Lemma bare_response_aborts_witness :
  onMessage LittleEndian 1 1 (Some 1%positive) (client (rpc_frame bare ++ [])) = Fault AssertFail.
Proof.
  apply (bare_response_aborts LittleEndian 0 (client (rpc_frame bare ++ [])) 1 1 1 bare []).
  1: split; [by apply wf_put_type, init_wf|done].
  1-4: by vm_compute.
  1: by eexists.
  1: apply echo_reads.
  by vm_compute.
Defined.

Lemma default_channel_faults_witness :
  ∃ w2, set_all 4 [Some 1%positive; NULL] (put_rpc (mkRpc 0 5 {[ 2%positive := [] ]}
      {[ 3%positive := UserClosure (2%positive : @UserCode user) ]}
      (<[4%positive := mkChannel None ∅ NULL]> {[ 1%positive := idle ]}) ∅) (client [])) = Ok (tt, w2) ∧
    CallMethod LittleEndian 4 twice_method hi_request NULL NULL w2 = Fault Uninit.
Proof. by apply (default_channel_faults LittleEndian (client [])). Defined.

(** A reachable state in which a call waits for its answer. *)
Definition after (o : op) (w : W) : W :=
  match do_op LittleEndian o w with Ok (_, w') => w' | _ => w end.
Definition start : W := world [] (rpc_start ∅).
Definition a_channel : op := ONew (Some 1%positive).
Definition a_request : op := OCall 1 twice_method hi_request ([] : @UMsg user) (2%positive : @UserCode user).
Definition waiting : W := after a_request (after a_channel start).

Lemma waiting_reachable : reachable LittleEndian waiting.
Proof.
  exists start, ∅. split; [done|].
  apply (rtc_l _ _ (after a_channel start)); [by exists a_channel|].
  apply rtc_once. exists a_request. split; [|by vm_compute].
  exists (mkChannel (Some (Some 1%positive)) ∅ NULL), 1%positive, 1%positive, [].
  split; [by vm_compute|]. split; [done|]. split; [apply echo_writes|]. by vm_compute.
Qed.
Lemma start_reachable : reachable LittleEndian start.
Proof. by exists start, ∅; split; [|apply rtc_refl]. Qed.

Definition the_answer : RpcMessage.t := reply_msg 1 hi.
Definition last_answer : RpcMessage.t := error_msg 1 TIMEOUT.
Definition answered_waiting : W := after (OMessage 1 1 the_answer) waiting.

Lemma channels_never_fault_witness :
  ∃ w', do_op LittleEndian (OMessage 1 1 the_answer) waiting = Ok (tt, w').
Proof.
  apply channels_never_fault; [apply waiting_reachable|].
  split; [by eexists|]. split; [done|]. by vm_compute.
Defined.

Lemma outstanding_calls_separate_witness :
  ∃ d k u, mkOut (Some 2%positive) (Some 3%positive) = mkOut (Some d) (Some k) ∧
    is_Some (messages (rpc waiting) !! d) ∧ RpcChannel.closures (rpc waiting) !! k = Some (UserClosure u).
Proof.
  destruct (outstanding_calls_separate LittleEndian waiting waiting_reachable) as [H _].
  apply (H 1%positive 1). eexists. split; by vm_compute.
Defined.

Lemma every_request_refused_witness :
  ∃ w', onRpcMessage LittleEndian 1 1 a_call (after a_channel start) = Ok (tt, w') ∧
    writes w' 1 1 ([] ++ rpc_frame (error_msg 7 NO_SERVICE)).
Proof.
  destruct (every_request_refused LittleEndian (after a_channel start) 1 1 1 [] a_call) as (w' & Hrun & _ & Hw).
  - exists start, ∅. split; [done|]. apply rtc_once. by exists a_channel.
  - by eexists.
  - by vm_compute.
  - apply echo_writes.
  - by vm_compute.
  - by exists w'.
Defined.

Lemma second_answer_ignored_witness :
  onRpcMessage LittleEndian 1 1 last_answer answered_waiting = Ok (tt, answered_waiting).
Proof.
  apply (second_answer_ignored LittleEndian waiting answered_waiting 1 1 the_answer last_answer
    waiting_reachable); [by eexists|by vm_compute..].
Defined.

Lemma destroy_frees_calls_witness :
  ∃ w', RpcChannel_destroy 1 waiting = Ok (tt, w') ∧ messages (rpc w') !! 2%positive = None.
Proof.
  destruct (destroy_frees_calls waiting 1 (mkChannel (Some (Some 1%positive))
    {[ 1 := mkOut (Some 2%positive) (Some 3%positive) ]} NULL)) as (w' & Hrun & _ & Hm & _).
  - apply (channels_inv LittleEndian), waiting_reachable.
  - by vm_compute.
  - exists w'. split; [exact Hrun|]. rewrite Hm. by vm_compute.
Defined.
End echo_witnesses.
