(* ===== verification/RpcThreads.v ===== *)
(** * Threads that share a channel (src/rpcChannel.cpp)

    A program calls methods from its own threads while an event loop hands the
    channel the messages that arrive.  What the threads share is the static
    counter [_id], which nothing protects, the map [outstandings], which the
    mutex of the channel protects, and the heap.  [CallMethod] and
    [onRpcMessage] are cut here at their accesses to shared state: a point of
    the program ([pc]) is what a thread does next, one indivisible access at a
    time, and threads interleave at that grain.  [++_id] is a load and a store;
    [outstandings[id] = out] finds or makes the entry and then assigns to it;
    the search, the copy and the erasure of an entry are three accesses.  Local
    computations belong to the access before or after them.  The writing of a
    frame to a connection is one access, and so is the run of a closure of the
    user.

    Interleaving accesses is what the language gives to programs without data
    races.  [accesses] says which shared location each point touches, so that
    [race] can say which races a run meets. *)

From S2P Require Import Prelude Endian ConnQueue External World Codec ProtoWire RpcPb RpcPbParse RpcChannel ChannelLemmas RpcCalls.

Section threads.
Context {EB : EvbufferOps} {ZL : ZlibOps} {WO : WireOps} {PO : ParseOps} {UO : UserOps}.
Context {E : Type} {RH : RpcHost UO E} {UC : UserClosures E} {US : UserServices E}.
Context (host : endian).
Abbreviation MW := (M (World EB E)).
Abbreviation tid := nat (only parsing).

(** ** The accesses *)

(** [++_id]: the load, then the sum and the store. *)
Definition load_id : M (RpcState UO) Z := gets _id.
Definition store_id (old : Z) : M (RpcState UO) Z :=
  if decide (old = INT_MAX) then raise SignedOverflow else
  _ ← modify (put_id (old + 1)); mret (old + 1).

(** [outstandings[id]]: makes an entry with null members when there is none. *)
Definition map_index (id : Z) (o : gmap Z OutstandingCall) : gmap Z OutstandingCall :=
  match o !! id with Some _ => o | None => <[id := mkOut NULL NULL]> o end.

(** Through a reference or an iterator to the entry [id]. *)
Definition entry_at (chan : ptr) (id : Z) : MW OutstandingCall :=
  this ← on_rpc (channel_at chan); expect UseAfterFree (outstandings this !! id).
Definition update_entries (chan : ptr) (f : gmap Z OutstandingCall → gmap Z OutstandingCall) : MW unit :=
  on_rpc (channel_update chan (λ c, set_outstandings (f (outstandings c)) c)).

(** ** The points of the two functions *)

(** The arguments of a [CallMethod]. *)
Record call := mkCall {
  call_chan : ptr;
  call_method : MethodDescriptor;
  call_request : UMsg;
  call_out : OutstandingCall
}.

Inductive pc :=
  (* CallMethod *)
  | CallLoad (cl : call)
  | CallStore (cl : call) (message : RpcMessage.t) (old : Z)
  | CallLock (cl : call) (message : RpcMessage.t) (id : Z)
  | CallIndex (cl : call) (message : RpcMessage.t) (id : Z)
  | CallAssign (cl : call) (message : RpcMessage.t) (id : Z)
  | CallUnlock (cl : call) (message : RpcMessage.t) (id : Z)
  | CallSend (cl : call) (message : RpcMessage.t) (id : Z)
  (* onRpcMessage *)
  | RecvEnter (chan c : ptr) (message : RpcMessage.t)
  | RecvLock (chan : ptr) (message : RpcMessage.t)
  | RecvFind (chan : ptr) (message : RpcMessage.t)
  | RecvCopy (chan : ptr) (message : RpcMessage.t)
  | RecvErase (chan : ptr) (message : RpcMessage.t) (out : OutstandingCall)
  | RecvUnlock (chan : ptr) (message : RpcMessage.t) (out : OutstandingCall)
  | RecvParse (message : RpcMessage.t) (out : OutstandingCall)
  | RecvRun (d : ptr) (done : option ptr)
  | RecvDelete (d : ptr).

(** The next access of a thread, and where it is then: [None] when it has
    returned. *)
Definition exec (p : pc) : MW (option pc) :=
  match p with
  | CallLoad cl =>
      message ← build (_ ← modify RpcMessage.Clear; RpcMessage.set_type REQUEST) RpcMessage.init;
      old ← on_rpc load_id;
      mret (Some (CallStore cl message old))
  | CallStore cl message old =>
      id ← on_rpc (store_id old);
      message ← build (request_message id (call_method cl) (call_request cl)) message;
      mret (Some (CallLock cl message id))
  | CallLock cl message id =>
      _ ← on_rpc (channel_at (call_chan cl));
      mret (Some (CallIndex cl message id))
  | CallIndex cl message id =>
      _ ← update_entries (call_chan cl) (map_index id);
      mret (Some (CallAssign cl message id))
  | CallAssign cl message id =>
      _ ← entry_at (call_chan cl) id;
      _ ← update_entries (call_chan cl) (insert id (call_out cl));
      mret (Some (CallUnlock cl message id))
  | CallUnlock cl message id =>
      _ ← on_rpc (channel_at (call_chan cl));
      mret (Some (CallSend cl message id))
  | CallSend cl message id =>
      c ← get_conn (call_chan cl);
      _ ← rpcCodeDer_send host c message;
      mret None
  | RecvEnter chan c message =>
      _ ← assert_ (bool_decide (c = c));
      if decide (RpcMessage.type message = RESPONSE) then
        _ ← assert_ (RpcMessage.has_response message || RpcMessage.has_error message);
        mret (Some (RecvLock chan message))
      else if decide (RpcMessage.type message = REQUEST) then
        _ ← onRequest host chan c message; mret None
      else mret None
  | RecvLock chan message =>
      _ ← on_rpc (channel_at chan);
      mret (Some (RecvFind chan message))
  | RecvFind chan message =>
      this ← on_rpc (channel_at chan);
      mret (Some (match outstandings this !! i64 (RpcMessage.id message) with
                  | Some _ => RecvCopy chan message
                  | None => RecvUnlock chan message (mkOut NULL NULL)
                  end))
  | RecvCopy chan message =>
      out ← entry_at chan (i64 (RpcMessage.id message));
      mret (Some (RecvErase chan message out))
  | RecvErase chan message out =>
      _ ← entry_at chan (i64 (RpcMessage.id message));
      _ ← update_entries chan (delete (i64 (RpcMessage.id message)));
      mret (Some (RecvUnlock chan message out))
  | RecvUnlock chan message out =>
      _ ← on_rpc (channel_at chan);
      mret (Some (RecvParse message out))
  | RecvParse message out =>
      match out_response out with
      | None => mret None
      | Some d =>
          _ ← (if RpcMessage.has_response message
               then on_rpc (r ← message_at (Some d);
                            let r' := (ParseFromString r (RpcMessage.response message)).2 in
                            modify (λ s, set_messages (<[d := r']> (messages s)) s))
               else mret tt);
          mret (Some (RecvRun d (out_done out)))
      end
  | RecvRun d done =>
      _ ← match done with None => mret tt | Some k => Run host k end;
      mret (Some (RecvDelete d))
  | RecvDelete d =>
      _ ← on_rpc (delete_message (Some d));
      mret None
  end.

(** ** Locations *)

(** What threads share: the counter, the entries of a channel, the output buffer
    of a connection (which no lock of libevent protects: the bufferevents are
    made without [BEV_OPT_THREADSAFE] and its threading is never enabled), and
    the response and the closure of a call. *)
Inductive location :=
  | LId
  | LEntries (chan : ptr)
  | LOutput (c : option (option ptr))
  | LResponse (d : ptr)
  | LDone (k : ptr).

(** The locations that the next access of a thread reads and writes. *)
Record footprint := mkFoot { reads_at : list location; writes_at : list location }.

Definition accesses (s : RpcState UO) (p : pc) : footprint :=
  match p with
  | CallLoad _ => mkFoot [LId] []
  | CallStore _ _ _ => mkFoot [] [LId]
  | CallIndex cl _ _ | CallAssign cl _ _ => mkFoot [] [LEntries (call_chan cl)]
  | CallSend cl _ _ => mkFoot [] [LOutput (channels s !! call_chan cl ≫= conn)]
  | RecvEnter _ c message =>
      if decide (RpcMessage.type message = REQUEST) then mkFoot [] [LOutput (Some (Some c))] else mkFoot [] []
  | RecvFind chan _ | RecvCopy chan _ => mkFoot [LEntries chan] []
  | RecvErase chan _ _ => mkFoot [] [LEntries chan]
  | RecvParse _ out => mkFoot [] (match out_response out with Some d => [LResponse d] | None => [] end)
  | RecvRun d (Some k) => mkFoot [LResponse d] [LDone k]
  | RecvDelete d => mkFoot [] [LResponse d]
  | _ => mkFoot [] []
  end.

(** Two accesses conflict at [l] when both touch it and one of them writes. *)
Definition conflict (a b : footprint) (l : location) : Prop :=
  (l ∈ writes_at a ∧ (l ∈ writes_at b ∨ l ∈ reads_at b)) ∨ (l ∈ reads_at a ∧ l ∈ writes_at b).

(** ** The mutex of each channel *)

Inductive sync := NoSync | Acquire (chan : ptr) | Release (chan : ptr).

(** [std::lock_guard]: its construction and its destruction. *)
Definition sync_of (p : pc) : sync :=
  match p with
  | CallLock cl _ _ => Acquire (call_chan cl)
  | CallUnlock cl _ _ => Release (call_chan cl)
  | RecvLock chan _ => Acquire chan
  | RecvUnlock chan _ _ => Release chan
  | _ => NoSync
  end.

(** Which thread holds which mutex; a thread that acquires a mutex waits until
    nobody holds it. *)
Definition may_go (p : pc) (owner : gmap ptr tid) : bool :=
  match sync_of p with Acquire chan => bool_decide (owner !! chan = None) | _ => true end.
Definition sync_after (t : tid) (p : pc) (owner : gmap ptr tid) : gmap ptr tid :=
  match sync_of p with
  | NoSync => owner
  | Acquire chan => <[chan := t]> owner
  | Release chan => delete chan owner
  end.

(** ** Interleaving *)

(** [sys_threads] holds the threads that are inside one of the functions. *)
Record sys := mkSys {
  sys_world : World EB E;
  sys_owner : gmap ptr tid;
  sys_threads : gmap tid pc
}.

(** Two threads are both about to touch [l], and one of them to write it. *)
Definition race (s : sys) (l : location) : Prop :=
  ∃ t t' p p', t ≠ t' ∧ sys_threads s !! t = Some p ∧ sys_threads s !! t' = Some p' ∧
    conflict (accesses (rpc (sys_world s)) p) (accesses (rpc (sys_world s)) p') l.

(** What can be seen of a step: a request was written, an answer took the entry
    of its number out of the map (a null entry when there is none), a closure
    ran. *)
Inductive event :=
  | Sent (chan : ptr) (id : Z) (out : OutstandingCall)
  | Took (chan : ptr) (id : Z) (out : OutstandingCall)
  | Ran (done : ptr)
  | Silent.

Definition event_of (p : pc) (r : option pc) : event :=
  match p, r with
  | CallSend cl _ id, _ => Sent (call_chan cl) id (call_out cl)
  | RecvFind chan message, Some (RecvUnlock _ _ out) => Took chan (i64 (RpcMessage.id message)) out
  | RecvErase chan message out, _ => Took chan (i64 (RpcMessage.id message)) out
  | RecvRun _ (Some k), _ => Ran k
  | _, _ => Silent
  end.

(** A thread of the user allocates the response [r] and, if it wants one, a
    closure, and enters [CallMethod]. *)
Definition begin_call (chan : ptr) (method : MethodDescriptor) (request r : UMsg)
    (u : option UserCode) : MW pc :=
  d ← on_rpc (new_message r);
  done ← match u with
         | None => mret NULL
         | Some u => k ← on_rpc (NewCallback (UserClosure u)); mret (Some k)
         end;
  mret (CallLoad (mkCall chan method request (mkOut (Some d) done))).

(** A channel to call on, and a request whose frame has a length that fits; any
    message at all, on the connection of the channel. *)
Definition can_call (w : World EB E) (chan : ptr) (method : MethodDescriptor) (request : UMsg) : Prop :=
  is_Some (channels (rpc w) !! chan) ∧ ∀ id, fits (call_msg id method request).
Definition can_receive (w : World EB E) (chan c : ptr) : Prop :=
  ∃ ch, channel_is w chan ch ∧ conn ch = Some (Some c).

(** A step: an idle thread enters [CallMethod], or [onRpcMessage] with whatever
    the peer sent; or a thread makes its next access.  A thread whose access
    faults makes no step. *)
Inductive tstep : event → sys → sys → Prop :=
  | step_call t chan method request r u p s w' :
      sys_threads s !! t = None →
      can_call (sys_world s) chan method request →
      begin_call chan method request r u (sys_world s) = Ok (p, w') →
      tstep Silent s (mkSys w' (sys_owner s) (<[t := p]> (sys_threads s)))
  | step_receive t chan c m s :
      sys_threads s !! t = None →
      can_receive (sys_world s) chan c →
      tstep Silent s (mkSys (sys_world s) (sys_owner s) (<[t := RecvEnter chan c m]> (sys_threads s)))
  | step_go t p r s w' :
      sys_threads s !! t = Some p →
      may_go p (sys_owner s) = true →
      exec p (sys_world s) = Ok (r, w') →
      tstep (event_of p r) s
        (mkSys w' (sync_after t p (sys_owner s)) (partial_alter (λ _, r) t (sys_threads s))).

(** The runs from [s0] all of whose states satisfy [ok], with what was seen, the
    latest first. *)
Inductive runs (ok : sys → Prop) (s0 : sys) : list event → sys → Prop :=
  | runs_start : runs ok s0 [] s0
  | runs_step tr e s s' : runs ok s0 tr s → tstep e s s' → ok s' → runs ok s0 (e :: tr) s'.

(** The steps of a given schedule, as a function: thread after thread makes an
    access. *)
Definition tick (t : tid) (s : sys) : option (event * sys) :=
  match sys_threads s !! t with
  | Some p =>
      if may_go p (sys_owner s) then
        match exec p (sys_world s) with
        | Ok (r, w') => Some (event_of p r,
            mkSys w' (sync_after t p (sys_owner s)) (partial_alter (λ _, r) t (sys_threads s)))
        | _ => None
        end
      else None
  | None => None
  end.
Fixpoint schedule (ok : sys → bool) (ts : list tid) (tr : list event) (s : sys) : option (list event * sys) :=
  match ts with
  | [] => Some (tr, s)
  | t :: ts =>
      match tick t s with
      | Some (e, s') => if ok s' then schedule ok ts (e :: tr) s' else None
      | None => None
      end
  end.

(** One thread runs alone until it returns; nobody else holds a mutex. *)
Fixpoint alone (fuel : nat) (p : pc) : MW unit :=
  match fuel with
  | O => raise OutOfFuel
  | S fuel => r ← exec p; match r with None => mret tt | Some p' => alone fuel p' end
  end.

(** How many accesses a thread has left, at most. *)
Definition accesses_left (p : pc) : nat :=
  match p with
  | CallLoad _ => 7 | CallStore _ _ _ => 6 | CallLock _ _ _ => 5 | CallIndex _ _ _ => 4
  | CallAssign _ _ _ => 3 | CallUnlock _ _ _ => 2 | CallSend _ _ _ => 1
  | RecvEnter _ _ _ => 9 | RecvLock _ _ => 8 | RecvFind _ _ => 7 | RecvCopy _ _ => 6
  | RecvErase _ _ _ => 5 | RecvUnlock _ _ _ => 4 | RecvParse _ _ => 3 | RecvRun _ _ => 2
  | RecvDelete _ => 1
  end.
End threads.
