(* ===== verification/ThreadAlone.v ===== *)
(** * A thread that shares a channel, running alone

    What each access of RpcThreads.v does when it succeeds; and, without
    interleaving, the accesses of a function one after the other are the
    function of RpcChannel.v, faults included. *)

From S2P Require Import Prelude Endian ConnQueue External World Codec Decoder Wire.
From S2P Require Import ProtoWire RpcPb RpcPbProps RpcPbParse RpcChannel ChannelLemmas RpcCalls RpcInv RpcSteps RpcThreads.

Section alone.
Context {EB : EvbufferOps} {ZL : ZlibOps} {WO : WireOps} {PO : ParseOps} {UO : UserOps}.
Context {E : Type} {RH : RpcHost UO E} {UC : UserClosures E} {US : UserServices E}.
Context (host : endian).
Implicit Types (w : World EB E).

Lemma alone_step fuel p w : alone host (S fuel) p w =
  (exec host p ≫= λ r, match r with None => mret tt | Some p' => alone host fuel p' end) w.
Proof. done. Qed.

Lemma channel_at_cases w chan :
  (∃ ch, channel_is w chan ch ∧ on_rpc (channel_at chan) w = Ok (ch, w)) ∨
  (on_rpc (channel_at chan) w = Fault UseAfterFree ∧
   ∀ f, on_rpc (channel_update chan f) w = Fault UseAfterFree).
Proof.
  destruct (channels (rpc w) !! chan) as [ch|] eqn:H.
  - left. exists ch. split; [done|]. by apply channel_at_run.
  - right. assert (Hn : channel_at chan (rpc w) = Fault UseAfterFree)
      by (unfold channel_at, object_at; mrun; by rewrite H).
    split; [|intros f]; unfold on_rpc, on_ext; do 2 apply zoom_fault; [done|].
    unfold channel_update. by apply bind_fault.
Qed.

(** Two updates of a channel are one. *)
Lemma update_entries_run w chan ch f :
  channel_is w chan ch →
  update_entries chan f w =
    Ok (tt, put_rpc (update_channel chan (set_outstandings (f (outstandings ch)) ch) (rpc w)) w).
Proof. intros H. unfold update_entries. by rewrite (channel_update_run _ _ ch). Qed.
Lemma updated_channel_is w chan ch : channel_is (put_rpc (update_channel chan ch (rpc w)) w) chan ch.
Proof. unfold channel_is. rewrite rpc_put. apply lookup_insert_eq. Qed.
Lemma update_channel_twice w chan ch ch' :
  put_rpc (update_channel chan ch' (rpc (put_rpc (update_channel chan ch (rpc w)) w)))
    (put_rpc (update_channel chan ch (rpc w)) w) = put_rpc (update_channel chan ch' (rpc w)) w.
Proof.
  rewrite rpc_put, put_rpc_put. unfold update_channel, set_channels. simpl. by rewrite insert_insert_eq.
Qed.
Lemma map_index_insert id out (o : gmap Z OutstandingCall) : <[id := out]> (map_index id o) = <[id := out]> o.
Proof. unfold map_index. destruct (o !! id); [done|by rewrite insert_insert_eq]. Qed.
Lemma map_index_at id (o : gmap Z OutstandingCall) :
  map_index id o !! id = Some (default (mkOut NULL NULL) (o !! id)).
Proof. unfold map_index. destruct (o !! id) eqn:H; [by rewrite H|by rewrite lookup_insert_eq]. Qed.
Lemma entry_at_run w chan ch id out :
  channel_is w chan ch → outstandings ch !! id = Some out → entry_at chan id w = Ok (out, w).
Proof. intros H Ho. unfold entry_at. mrun (channel_at_run w chan ch H). by rewrite Ho. Qed.

Lemma bind_ret_tt (m : M (World EB E) unit) w : (m ≫= λ _, mret tt) w = m w.
Proof. unfold mbind, M_bind. by destruct (m w) as [[[] w']|f|e]. Qed.

(** *** Each access, when it succeeds *)

Definition call_head : RpcMessage.t := RpcMessage.put_type REQUEST RpcMessage.init.
Definition numbered (cl : call) (id : Z) : RpcMessage.t := call_msg id (call_method cl) (call_request cl).

Lemma exec_load cl w : exec host (CallLoad cl) w = Ok (Some (CallStore cl call_head (_id (rpc w))), w).
Proof.
  cbn [exec]. mrun. by erewrite bind_run by (by apply on_rpc_read).
Qed.
Lemma exec_store cl old w : old ≠ INT_MAX →
  exec host (CallStore cl call_head old) w =
    Ok (Some (CallLock cl (numbered cl (old + 1)) (old + 1)), put_rpc (put_id (old + 1) (rpc w)) w).
Proof.
  intros H. cbn [exec].
  erewrite bind_run; [|apply on_rpc_run; unfold store_id; if_no; [mrun; reflexivity|done]].
  cbn beta. by mrun.
Qed.
Lemma exec_store_max cl m w : exec host (CallStore cl m INT_MAX) w = Fault SignedOverflow.
Proof.
  cbn [exec]. apply bind_fault. unfold on_rpc, on_ext. do 2 apply zoom_fault.
  unfold store_id. by if_yes.
Qed.
Lemma exec_call_lock cl m id ch w : channel_is w (call_chan cl) ch →
  exec host (CallLock cl m id) w = Ok (Some (CallIndex cl m id), w).
Proof. intros H. cbn [exec]. by mrun (channel_at_run w _ ch H). Qed.
Lemma exec_index cl m id ch w : channel_is w (call_chan cl) ch →
  exec host (CallIndex cl m id) w = Ok (Some (CallAssign cl m id),
    put_rpc (update_channel (call_chan cl) (set_outstandings (map_index id (outstandings ch)) ch) (rpc w)) w).
Proof. intros H. cbn [exec]. by mrun (update_entries_run w _ ch _ H). Qed.
Lemma exec_assign cl m id ch w : channel_is w (call_chan cl) ch → is_Some (outstandings ch !! id) →
  exec host (CallAssign cl m id) w = Ok (Some (CallUnlock cl m id),
    put_rpc (update_channel (call_chan cl) (set_outstandings (<[id := call_out cl]> (outstandings ch)) ch) (rpc w)) w).
Proof.
  intros H [out Ho]. cbn [exec]. mrun (entry_at_run w _ ch _ _ H Ho).
  by mrun (update_entries_run w _ ch _ H).
Qed.
Lemma exec_call_unlock cl m id ch w : channel_is w (call_chan cl) ch →
  exec host (CallUnlock cl m id) w = Ok (Some (CallSend cl m id), w).
Proof. intros H. cbn [exec]. by mrun (channel_at_run w _ ch H). Qed.

Lemma exec_recv_lock chan m ch w : channel_is w chan ch →
  exec host (RecvLock chan m) w = Ok (Some (RecvFind chan m), w).
Proof. intros H. cbn [exec]. by mrun (channel_at_run w _ ch H). Qed.
Lemma exec_find chan m ch w : channel_is w chan ch →
  exec host (RecvFind chan m) w = Ok (Some (match outstandings ch !! i64 (RpcMessage.id m) with
     | Some _ => RecvCopy chan m | None => RecvUnlock chan m (mkOut NULL NULL) end), w).
Proof. intros H. cbn [exec]. by mrun (channel_at_run w _ ch H). Qed.
Lemma exec_copy chan m ch out w : channel_is w chan ch → outstandings ch !! i64 (RpcMessage.id m) = Some out →
  exec host (RecvCopy chan m) w = Ok (Some (RecvErase chan m out), w).
Proof. intros H Ho. cbn [exec]. by mrun (entry_at_run w _ ch _ _ H Ho). Qed.
Lemma exec_erase chan m ch out out' w :
  channel_is w chan ch → outstandings ch !! i64 (RpcMessage.id m) = Some out' →
  exec host (RecvErase chan m out) w = Ok (Some (RecvUnlock chan m out),
    put_rpc (forget_call chan ch (i64 (RpcMessage.id m)) (rpc w)) w).
Proof.
  intros H Ho. cbn [exec]. mrun (entry_at_run w _ ch _ _ H Ho).
  by mrun (update_entries_run w _ ch _ H).
Qed.
Lemma exec_recv_unlock chan m out ch w : channel_is w chan ch →
  exec host (RecvUnlock chan m out) w = Ok (Some (RecvParse m out), w).
Proof. intros H. cbn [exec]. by mrun (channel_at_run w _ ch H). Qed.

(** *** A thread alone *)

Lemma alone_next fuel p p' w w' : exec host p w = Ok (Some p', w') →
  alone host (S fuel) p w = alone host fuel p' w'.
Proof. intros H. rewrite alone_step. by erewrite bind_run by exact H. Qed.
Lemma alone_fault fuel p w f : exec host p w = Fault f → alone host (S fuel) p w = Fault f.
Proof. intros H. rewrite alone_step. by apply bind_fault. Qed.

Lemma next_id_on w : on_rpc next_id w =
  if decide (_id (rpc w) = INT_MAX) then Fault SignedOverflow
  else Ok (_id (rpc w) + 1, put_rpc (put_id (_id (rpc w) + 1) (rpc w)) w).
Proof.
  case_decide as H; [|by apply next_id_run].
  unfold on_rpc, on_ext. do 2 apply zoom_fault. unfold next_id. mrun. by if_yes.
Qed.

(** The accesses of [CallMethod] one after the other are [CallMethod]. *)
Lemma alone_CallMethod w chan method request response done :
  alone host 7 (CallLoad (mkCall chan method request (mkOut response done))) w =
  CallMethod host chan method request response done w.
Proof.
  set (cl := mkCall _ _ _ _). rewrite (alone_next _ _ _ _ _ (exec_load cl w)).
  unfold CallMethod. mrun. change (RpcMessage.put_type _ _) with call_head.
  destruct (decide (_id (rpc w) = INT_MAX)) as [Hm|Hm].
  { rewrite Hm, (alone_fault _ _ _ _ (exec_store_max cl _ w)). symmetry. apply bind_fault.
    rewrite next_id_on. by rewrite decide_True. }
  rewrite (alone_next _ _ _ _ _ (exec_store cl _ w Hm)). mrun (next_id_run w Hm).
  set (id := _id (rpc w) + 1). set (w1 := put_rpc _ w). mrun.
  assert (Hb : build (request_message id method request) call_head w1 = Ok (numbered cl id, w1)) by done.
  destruct (channel_at_cases w1 chan) as [(ch & Hch & _)|[Hat Hup]].
  2: { rewrite (alone_fault _ _ _ UseAfterFree) by (cbn [exec]; by apply bind_fault).
       symmetry. by apply bind_fault. }
  rewrite (alone_next _ _ _ _ _ (exec_call_lock cl _ _ ch w1 Hch)).
  rewrite (alone_next _ _ _ _ _ (exec_index cl _ _ ch w1 Hch)).
  assert (Hi : is_Some (map_index id (outstandings ch) !! id)) by (rewrite map_index_at; by eexists).
  erewrite alone_next by (eapply exec_assign; [apply updated_channel_is|exact Hi]).
  rewrite update_channel_twice. cbn [outstandings set_outstandings]. rewrite map_index_insert.
  rewrite (alone_next _ _ _ _ _ (exec_call_unlock cl _ _ _ _ (updated_channel_is _ _ _))).
  erewrite (bind_run (on_rpc (channel_update _ _))) by (by apply channel_update_run). cbn beta.
  rewrite alone_step. cbn [exec]. rewrite bind_assoc. apply bind_ext_run. intros c w3.
  rewrite bind_assoc. apply bind_ret_tt.
Qed.

(** What follows the critical section of an answer. *)
Lemma alone_parse fuel w m out :
  alone host (S (S (S fuel))) (RecvParse m out) w =
  match out_response out with
  | None => mret tt
  | Some d =>
      _ ← (if RpcMessage.has_response m
           then on_rpc (r ← message_at (Some d);
                        let r' := (ParseFromString r (RpcMessage.response m)).2 in
                        modify (λ s, set_messages (<[d := r']> (messages s)) s))
           else mret tt);
      _ ← match out_done out with None => mret tt | Some done => Run host done end;
      on_rpc (delete_message (Some d))
  end w.
Proof.
  rewrite alone_step. cbn [exec]. destruct (out_response out) as [d|]; [|done].
  rewrite bind_assoc. apply bind_ext_run. intros _ w1. rewrite ret_run_bind, alone_step.
  cbn [exec]. rewrite bind_assoc. apply bind_ext_run. intros _ w2. rewrite ret_run_bind, alone_step.
  cbn [exec]. rewrite bind_assoc. apply bind_ret_tt.
Qed.

(** The accesses of [onRpcMessage] one after the other are [onRpcMessage]. *)
Lemma alone_onRpcMessage w chan c m :
  alone host 9 (RecvEnter chan c m) w = onRpcMessage host chan c m w.
Proof.
  rewrite alone_step. cbn [exec]. unfold onRpcMessage. rewrite bind_assoc.
  apply bind_ext_run. intros _ w0.
  destruct (decide (RpcMessage.type m = RESPONSE)) as [_|_].
  2: { destruct (decide (RpcMessage.type m = REQUEST)) as [_|_]; [|done].
       rewrite bind_assoc. apply bind_ret_tt. }
  rewrite bind_assoc. unfold onResponse. apply bind_ext_run. clear w0. intros _ w0.
  rewrite ret_run_bind. set (id := i64 (RpcMessage.id m)).
  destruct (channel_at_cases w0 chan) as [(ch & Hch & Hat)|[Hat _]].
  2: { rewrite (alone_fault _ _ _ UseAfterFree) by (cbn [exec]; by apply bind_fault).
       symmetry. by apply bind_fault. }
  rewrite (alone_next _ _ _ _ _ (exec_recv_lock _ _ _ _ Hch)), (alone_next _ _ _ _ _ (exec_find _ _ _ _ Hch)).
  mrun Hat. fold id. destruct (outstandings ch !! id) as [out|] eqn:Ho.
  - rewrite (alone_next _ _ _ _ _ (exec_copy _ _ _ _ _ Hch Ho)).
    rewrite (alone_next _ _ _ _ _ (exec_erase _ _ _ _ _ _ Hch Ho)).
    erewrite alone_next by (eapply exec_recv_unlock, updated_channel_is).
    rewrite bind_assoc. erewrite bind_run by (by apply channel_update_run). cbn beta.
    rewrite ret_run_bind. fold id. apply alone_parse.
  - rewrite (alone_next _ _ _ _ _ (exec_recv_unlock _ _ _ _ _ Hch)). mrun. apply alone_parse.
Qed.

(** The mutex that an access leaves the thread with. *)
Definition inside (p : pc) : option ptr :=
  match p with
  | CallIndex cl _ _ | CallAssign cl _ _ | CallUnlock cl _ _ => Some (call_chan cl)
  | RecvFind chan _ | RecvCopy chan _ | RecvErase chan _ _ | RecvUnlock chan _ _ => Some chan
  | _ => None
  end.

Lemma exec_inside p q w w' : exec host p w = Ok (q, w') →
  match sync_of p with
  | NoSync => q ≫= inside = inside p
  | Acquire chan => inside p = None ∧ q ≫= inside = Some chan
  | Release chan => inside p = Some chan ∧ q ≫= inside = None
  end.
Proof.
  intros H. destruct p; cbn [exec sync_of inside] in *; repeat case_decide;
    repeat (apply bind_inv in H as (? & ? & _ & H)); try (by injection H as <- _).
  - injection H as <- _. by case_match.
  - destruct (out_response out); [|by injection H as <- _].
    repeat (apply bind_inv in H as (? & ? & _ & H)). by injection H as <- _.
Qed.
End alone.
