(* ===== verification/ThreadInv.v ===== *)
(** * The invariant of threads that share channels

    Who owns a response or a closure at each moment: the thread that is about to
    register the call, the entry of the map, or the thread that completes it.
    No two of them own the same object, what they own is live, and whoever is
    between locking and unlocking holds the mutex.  The accesses are first
    described by their effect on the state of the channels ([next]). *)

From S2P Require Import Prelude Endian ConnQueue External World Codec Decoder Wire.
From S2P Require Import ProtoWire RpcPb RpcPbProps RpcPbParse RpcChannel ChannelLemmas RpcCalls RpcInv RpcSteps RpcThreads ThreadAlone.

(** ** Things with one owner *)

Section exclusive.
Context {P D : Type} `{EqDecision P}.
Implicit Types (own : P → option D) (live : D → Prop) (d : D).

Record exclusive own live : Prop := {
  ex_live a d : own a = Some d → live d;
  ex_one a b d : own a = Some d → own b = Some d → a = b
}.

(** Things stay, move from owner to owner, or lose theirs. *)
Lemma exclusive_move (f : P → P) own own' live live' :
  Inj (=) (=) f → exclusive own live →
  (∀ a d, own' a = Some d → own (f a) = Some d) →
  (∀ a d, own' a = Some d → live d → live' d) → exclusive own' live'.
Proof using.
  intros Hf [Hl H1] Hown Hlive. split.
  - intros a d Ha. eapply Hlive; [done|]. by eapply Hl, Hown.
  - intros a b d Ha Hb. apply Hf. eapply H1; by apply Hown.
Qed.

(** A new thing gets its owner. *)
Lemma exclusive_new a0 d0 own own' live live' :
  exclusive own live → ¬ live d0 → live' d0 →
  own' a0 = Some d0 → (∀ a d, a ≠ a0 → own' a = Some d → own a = Some d) →
  (∀ d, live d → live' d) → exclusive own' live'.
Proof using All.
  intros [Hl H1] Hn Hd0 Ha0 Hown Hlive. split.
  - intros a d Ha. destruct (decide (a = a0)) as [->|Hne].
    + congruence.
    + by eapply Hlive, Hl, Hown.
  - intros a b d Ha Hb. destruct (decide (a = a0)) as [->|Hna], (decide (b = a0)) as [->|Hnb].
    + done.
    + destruct Hn. apply (Hl b). apply Hown; [done|congruence].
    + destruct Hn. apply (Hl a). apply Hown; [done|congruence].
    + eapply H1; by apply Hown.
Qed.

(** Two owners change places. *)
Definition swap (a b x : P) : P := if decide (x = a) then b else if decide (x = b) then a else x.
#[export] Instance swap_inj a b : Inj (=) (=) (swap a b).
Proof using. intros x y. unfold swap. repeat case_decide; congruence. Qed.
Lemma swap_l a b : swap a b a = b.
Proof using. unfold swap. by rewrite decide_True. Qed.
Lemma swap_r a b : swap a b b = a.
Proof using. unfold swap. case_decide; [done|]. by rewrite decide_True. Qed.
Lemma swap_other a b x : x ≠ a → x ≠ b → swap a b x = x.
Proof using. intros. unfold swap. by rewrite !decide_False. Qed.
End exclusive.

Section inv.
Context {EB : EvbufferOps} {ZL : ZlibOps} {WO : WireOps} {PO : ParseOps} {UO : UserOps}.
Implicit Types (s : RpcState UO) (chan d k : ptr) (p : pc) (cl : call) (m : RpcMessage.t) (t : nat).

(** ** The entries and the connections of the channels *)

Definition entry s chan (i : Z) : option OutstandingCall := channels s !! chan ≫= λ ch, outstandings ch !! i.
Definition change_entries chan (f : gmap Z OutstandingCall → gmap Z OutstandingCall) s : RpcState UO :=
  set_channels (alter (λ ch, set_outstandings (f (outstandings ch)) ch) chan (channels s)) s.
(** What no access changes: the channels there are, their connections and services. *)
Definition wiring s : gmap ptr (option (option ptr) * option ptr) :=
  (λ ch, (conn ch, services ch)) <$> channels s.

Lemma wiring_change chan f s : wiring (change_entries chan f s) = wiring s.
Proof using.
  unfold wiring, change_entries. simpl. apply map_eq. intros c. rewrite !lookup_fmap.
  destruct (decide (c = chan)) as [->|Hne]; [|by rewrite lookup_alter_ne].
  rewrite lookup_alter_eq. by destruct (channels s !! chan).
Qed.
Lemma entry_change chan f s i : entry (change_entries chan f s) chan i =
  channels s !! chan ≫= λ ch, f (outstandings ch) !! i.
Proof using.
  unfold entry, change_entries. simpl. rewrite lookup_alter_eq. by destruct (channels s !! chan).
Qed.
Lemma entry_change_ne chan f s c i : c ≠ chan → entry (change_entries chan f s) c i = entry s c i.
Proof using. intros H. unfold entry, change_entries. simpl. by rewrite lookup_alter_ne. Qed.
Lemma wired_channel s chan : is_Some (wiring s !! chan) → ∃ ch, channels s !! chan = Some ch.
Proof using. unfold wiring. rewrite lookup_fmap. destruct (channels s !! chan); [by eexists|by intros []]. Qed.
Lemma entry_wired s chan i out : entry s chan i = Some out → is_Some (wiring s !! chan).
Proof using. unfold entry, wiring. rewrite lookup_fmap. destruct (channels s !! chan); [by eexists|done]. Qed.
Lemma change_update s chan ch f : channels s !! chan = Some ch →
  change_entries chan f s = update_channel chan (set_outstandings (f (outstandings ch)) ch) s.
Proof using.
  intros H. unfold change_entries, update_channel. f_equal. apply map_eq. intros c.
  destruct (decide (c = chan)) as [->|Hne].
  - by rewrite lookup_alter_eq, lookup_insert_eq, H.
  - by rewrite lookup_alter_ne, lookup_insert_ne.
Qed.

(** ** The accesses as changes of the state of the channels *)

Definition next p s : option pc * RpcState UO :=
  match p with
  | CallLoad cl => (Some (CallStore cl call_head (_id s)), s)
  | CallStore cl _ old => (Some (CallLock cl (numbered cl (old + 1)) (old + 1)), put_id (old + 1) s)
  | CallLock cl m id => (Some (CallIndex cl m id), s)
  | CallIndex cl m id => (Some (CallAssign cl m id), change_entries (call_chan cl) (map_index id) s)
  | CallAssign cl m id => (Some (CallUnlock cl m id), change_entries (call_chan cl) (insert id (call_out cl)) s)
  | CallUnlock cl m id => (Some (CallSend cl m id), s)
  | CallSend cl m id => (None, s)
  | RecvEnter chan c m =>
      (if decide (RpcMessage.type m = RESPONSE) then Some (RecvLock chan m) else None, s)
  | RecvLock chan m => (Some (RecvFind chan m), s)
  | RecvFind chan m =>
      (Some (match entry s chan (i64 (RpcMessage.id m)) with
             | Some _ => RecvCopy chan m | None => RecvUnlock chan m (mkOut NULL NULL) end), s)
  | RecvCopy chan m =>
      (Some (RecvErase chan m (default (mkOut NULL NULL) (entry s chan (i64 (RpcMessage.id m))))), s)
  | RecvErase chan m out =>
      (Some (RecvUnlock chan m out), change_entries chan (delete (i64 (RpcMessage.id m))) s)
  | RecvUnlock chan m out => (Some (RecvParse m out), s)
  | RecvParse m out =>
      match out_response out with
      | None => (None, s)
      | Some d => (Some (RecvRun d (out_done out)), set_messages (alter (answered m) d (messages s)) s)
      end
  | RecvRun d done =>
      (Some (RecvDelete d),
       match done with None => s | Some k => set_closures (delete k (closures s)) s end)
  | RecvDelete d => (None, set_messages (delete d (messages s)) s)
  end.

(** ** Who owns what *)

(** The two objects of a call; which of them an entry and a thread own. *)
Inductive object := Response | Done.
Definition out_object (o : object) (out : OutstandingCall) : option ptr :=
  match o with Response => out_response out | Done => out_done out end.
Definition held (o : object) p : option ptr :=
  match p with
  | CallLoad cl | CallStore cl _ _ | CallLock cl _ _ | CallIndex cl _ _ | CallAssign cl _ _ =>
      out_object o (call_out cl)
  | RecvUnlock _ _ out | RecvParse _ out => out_object o out
  | RecvRun d done => out_object o (mkOut (Some d) done)
  | RecvDelete d => out_object o (mkOut (Some d) NULL)
  | _ => None
  end.

Abbreviation place := (nat + ptr * Z)%type.
Definition owns (o : object) s (th : gmap nat pc) (a : place) : option ptr :=
  match a with
  | inl t => th !! t ≫= held o
  | inr (chan, i) => entry s chan i ≫= out_object o
  end.
Definition live (o : object) s d : Prop :=
  match o with
  | Response => is_Some (messages s !! d)
  | Done => ∃ u, closures s !! d = Some (UserClosure u)
  end.

(** ** What each point knows *)

Definition sendable cl : Prop := ∀ id, fits (numbered cl id).
Definition pc_ok s p : Prop :=
  match p with
  | CallLoad cl => is_Some (wiring s !! call_chan cl) ∧ sendable cl
  | CallStore cl m old =>
      is_Some (wiring s !! call_chan cl) ∧ sendable cl ∧ m = call_head ∧ 0 ≤ old ≤ INT_MAX
  | CallLock cl m id | CallIndex cl m id | CallUnlock cl m id | CallSend cl m id =>
      is_Some (wiring s !! call_chan cl) ∧ sendable cl ∧ m = numbered cl id
  | CallAssign cl m id =>
      is_Some (entry s (call_chan cl) id) ∧ sendable cl ∧ m = numbered cl id
  | RecvEnter chan c m => ∃ sv, wiring s !! chan = Some (Some (Some c), sv)
  | RecvLock chan m | RecvFind chan m | RecvUnlock chan m _ => is_Some (wiring s !! chan)
  | RecvCopy chan m => is_Some (entry s chan (i64 (RpcMessage.id m)))
  | RecvErase chan m out => entry s chan (i64 (RpcMessage.id m)) = Some out
  | RecvParse _ _ | RecvRun _ _ | RecvDelete _ => True
  end.

(** The two points that cannot be passed: the number after the last one is about
    to be stored; a response carries neither a payload nor an error, which the
    receiver asserts not to happen. *)
Definition overflows p : bool := match p with CallStore _ _ old => bool_decide (old = INT_MAX) | _ => false end.
Definition aborts p : bool :=
  match p with
  | RecvEnter _ _ m => bool_decide (RpcMessage.type m = RESPONSE) && negb (RpcMessage.has_response m || RpcMessage.has_error m)
  | _ => false
  end.
Definition stops p : bool := overflows p || aborts p.

Lemma store_stops cl m old : old ≠ INT_MAX → stops (CallStore cl m old) = false.
Proof using. intros H. unfold stops, overflows. by rewrite bool_decide_false. Qed.

Record thread_inv s (owner : gmap ptr nat) (th : gmap nat pc) : Prop := {
  ti_fresh : heap_fresh s;
  ti_id : 0 ≤ _id s ≤ INT_MAX;
  ti_points t p : th !! t = Some p → pc_ok s p;
  ti_lock t chan : owner !! chan = Some t ↔ th !! t ≫= inside = Some chan;
  ti_owned o : exclusive (owns o s th) (live o s)
}.

(** ** Every access keeps it *)

(** The threads after [t] moved to [r]. *)
Definition moved t (r : option pc) (th : gmap nat pc) : gmap nat pc := partial_alter (λ _, r) t th.
Lemma moved_eq t r th : moved t r th !! t = r.
Proof using. unfold moved. apply lookup_partial_alter_eq. Qed.
Lemma moved_ne t t' r th : t ≠ t' → moved t r th !! t' = th !! t'.
Proof using. apply lookup_partial_alter_ne. Qed.

Lemma next_wiring p s : wiring (next p s).2 = wiring s.
Proof using.
  destruct p; simpl; rewrite ?wiring_change; try done.
  - by destruct (out_response out).
  - by destruct done.
Qed.

(** Only a thread inside changes the entries of a channel. *)
Lemma next_entries p s chan i : inside p ≠ Some chan → entry (next p s).2 chan i = entry s chan i.
Proof using.
  intros H. destruct p; simpl in *; rewrite ?entry_change_ne by congruence; try done.
  - by destruct (out_response out).
  - by destruct done.
Qed.

Lemma pc_ok_stable s s' p :
  wiring s' = wiring s → (∀ chan i, inside p = Some chan → entry s' chan i = entry s chan i) →
  pc_ok s p → pc_ok s' p.
Proof using.
  intros Hw He. destruct p; simpl in *; rewrite ?Hw; try done; by rewrite He.
Qed.

Lemma fresh_heaps s s' :
  heap_fresh s → rpc_brk s' = rpc_brk s →
  (∀ d, messages s !! d = None → messages s' !! d = None) →
  (∀ d, closures s !! d = None → closures s' !! d = None) →
  (∀ d, channels s !! d = None → channels s' !! d = None) → heap_fresh s'.
Proof using.
  intros Hf Hb Hm Hk Hc d Hd. rewrite Hb in Hd. destruct (Hf d Hd) as (? & ? & ?). split_and!; eauto.
Qed.

Lemma next_fresh p s : heap_fresh s → heap_fresh (next p s).2.
Proof using.
  intros Hf. destruct p; simpl; try done;
    try (apply (fresh_heaps s); [done|done|done|done|]; intros d Hd; simpl; by rewrite lookup_alter_None).
  - destruct (out_response out); [|done]. apply (fresh_heaps s); try done. intros d Hd. simpl.
    by rewrite lookup_alter_None.
  - destruct done; [|done]. apply (fresh_heaps s); try done. intros d' Hd. simpl.
    by rewrite lookup_delete_None; right.
  - apply (fresh_heaps s); try done. intros d' Hd. simpl. by rewrite lookup_delete_None; right.
Qed.

(** The mutex follows the thread that locks and unlocks it. *)
Lemma next_inside p s :
  match sync_of p with
  | NoSync => (next p s).1 ≫= inside = inside p
  | Acquire chan => inside p = None ∧ (next p s).1 ≫= inside = Some chan
  | Release chan => inside p = Some chan ∧ (next p s).1 ≫= inside = None
  end.
Proof using.
  destruct p; simpl; try done.
  - by case_decide.
  - by destruct (entry s chan _).
  - by destruct (out_response out).
Qed.

Lemma next_lock p s owner th t :
  (∀ t chan, owner !! chan = Some t ↔ th !! t ≫= inside = Some chan) →
  th !! t = Some p → may_go p owner = true →
  ∀ t' chan, sync_after t p owner !! chan = Some t' ↔ moved t (next p s).1 th !! t' ≫= inside = Some chan.
Proof using.
  intros Hl Ht Hgo t' chan. pose proof (next_inside p s) as Hin. unfold may_go, sync_after in *.
  assert (Hp : ∀ c, owner !! c = Some t ↔ inside p = Some c) by (intros c; rewrite Hl, Ht; done).
  destruct (decide (t' = t)) as [->|Hne]; [rewrite moved_eq|rewrite moved_ne by done; rewrite <- Hl];
    destruct (sync_of p) as [|c|c].
  - by rewrite Hin.
  - destruct Hin as [Hin ->]. destruct (decide (c = chan)) as [->|Hc]; [by rewrite lookup_insert_eq|].
    rewrite lookup_insert_ne by done. rewrite Hp, Hin. split; congruence.
  - destruct Hin as [Hin ->]. rewrite lookup_delete_Some, Hp, Hin. split; [|done]. intros [? ?]. congruence.
  - done.
  - apply bool_decide_eq_true in Hgo. destruct (decide (c = chan)) as [->|Hc];
      [rewrite lookup_insert_eq, Hgo; split; congruence|by rewrite lookup_insert_ne].
  - destruct Hin as [Hin _]. rewrite lookup_delete_Some. split; [by intros []|]. intros H.
    split; [|done]. intros ->. apply Hp in Hin. congruence.
Qed.

(** Registering a call hands its objects to the entry, erasing an entry hands
    them to the thread; everything else stays where it is or loses its owner. *)
Definition shuffle p t : place → place :=
  match p with
  | CallAssign cl _ id => swap (inl t) (inr (call_chan cl, id))
  | RecvErase chan m _ => swap (inl t) (inr (chan, i64 (RpcMessage.id m)))
  | _ => id
  end.
#[export] Instance shuffle_inj p t : Inj (=) (=) (shuffle p t).
Proof using. destruct p; simpl; apply _. Qed.

Definition erases p : bool := match p with RecvErase _ _ _ => true | _ => false end.
Definition assigns p : bool := match p with CallAssign _ _ _ => true | _ => false end.

Lemma next_held o p s d : erases p = false → (next p s).1 ≫= held o = Some d → held o p = Some d.
Proof using.
  intros He. destruct p; simpl in *; try done; try by destruct o.
  - by case_decide.
  - destruct (entry s chan _); [done|by destruct o].
  - destruct (out_response out) as [d'|] eqn:Hd; [|done]. destruct out. simpl in *. subst. by destruct o.
Qed.

Lemma next_kept o p s chan i d : assigns p = false →
  entry (next p s).2 chan i ≫= out_object o = Some d → entry s chan i ≫= out_object o = Some d.
Proof using.
  intros Ha. destruct (decide (inside p = Some chan)) as [Hin|Hin]; [|by rewrite next_entries].
  destruct p; simpl in *; try done; injection Hin as <-; rewrite entry_change; unfold entry;
    (destruct (channels s !! _) as [ch|]; [|done]); simpl.
  - unfold map_index. destruct (outstandings ch !! id) eqn:Hi; [done|].
    destruct (decide (i = id)) as [->|Hne]; [|by rewrite lookup_insert_ne].
    rewrite lookup_insert_eq. by destruct o.
  - destruct (decide (i = i64 (RpcMessage.id message))) as [->|Hne]; [by rewrite lookup_delete_eq|].
    by rewrite lookup_delete_ne.
Qed.

Lemma next_owns o p s th t a d : th !! t = Some p → pc_ok s p →
  owns o (next p s).2 (moved t (next p s).1 th) a = Some d → owns o s th (shuffle p t a) = Some d.
Proof using.
  intros Ht Hok.
  assert (Hth : ∀ t', t' ≠ t → moved t (next p s).1 th !! t' = th !! t') by (intros; by apply moved_ne).
  destruct (erases p) eqn:He; [|destruct (assigns p) eqn:Ha].
  - destruct p; try done. cbn [shuffle next fst snd] in *. set (i0 := i64 _) in *.
    destruct a as [t'|[c i]].
    + destruct (decide (t' = t)) as [->|Hne].
      * rewrite swap_l. cbn [owns]. rewrite moved_eq. cbn [pc_ok] in Hok. fold i0 in Hok. by rewrite Hok.
      * rewrite swap_other by congruence. cbn [owns]. by rewrite Hth.
    + destruct (decide ((c, i) = (chan, i0))) as [[= -> ->]|Hne].
      * cbn [owns]. rewrite entry_change. destruct (channels s !! chan); [|done]. simpl. by rewrite lookup_delete_eq.
      * rewrite swap_other by congruence. by apply (next_kept o (RecvErase chan message out)).
  - destruct p; try done. cbn [shuffle next fst snd] in *. destruct a as [t'|[c i]].
    + destruct (decide (t' = t)) as [->|Hne].
      * cbn [owns]. by rewrite moved_eq.
      * rewrite swap_other by congruence. cbn [owns]. by rewrite Hth.
    + destruct (decide ((c, i) = (call_chan cl, id))) as [[= -> ->]|Hne].
      * rewrite swap_r. cbn [owns]. rewrite entry_change, Ht. destruct (channels s !! _); [|done]. simpl.
        by rewrite lookup_insert_eq.
      * rewrite swap_other by congruence. cbn [owns]. destruct (decide (c = call_chan cl)) as [->|Hc];
          [|by rewrite entry_change_ne].
        rewrite entry_change. unfold entry. destruct (channels s !! _); [|done]. simpl.
        rewrite lookup_insert_ne; [done|congruence].
  - assert (shuffle p t a = a) as -> by (by destruct p).
    destruct a as [t'|[c i]]; [|by apply next_kept].
    cbn [owns]. destruct (decide (t' = t)) as [->|Hne]; [|by rewrite Hth].
    rewrite moved_eq, Ht. by apply next_held.
Qed.

Lemma next_live o p s th t a d :
  th !! t = Some p → pc_ok s p → exclusive (owns o s th) (live o s) →
  owns o (next p s).2 (moved t (next p s).1 th) a = Some d → live o s d → live o (next p s).2 d.
Proof using.
  intros Ht Hok [_ H1] Ha Hd. pose proof (next_owns o p s th t a d Ht Hok Ha) as Hold.
  assert (Hmine : held o p = Some d → shuffle p t = id → a = inl t).
  { intros Hh Hs. rewrite Hs in Hold. apply (H1 _ _ d); [done|]. cbn [owns]. by rewrite Ht. }
  destruct p; try (by destruct o); cbn [next snd fst] in *.
  - destruct (out_response out); [|done]. destruct o; [|done]. simpl. apply lookup_alter_is_Some, Hd.
  - destruct done as [k|]; [|done]. destruct o; [done|]. simpl in *. rewrite lookup_delete_ne; [done|].
    intros ->. rewrite (Hmine eq_refl eq_refl) in Ha. cbn [owns] in Ha. by rewrite moved_eq in Ha.
  - destruct o; [|done]. simpl in *. rewrite lookup_delete_ne; [done|].
    intros ->. rewrite (Hmine eq_refl eq_refl) in Ha. cbn [owns] in Ha. by rewrite moved_eq in Ha.
Qed.

(** The point a thread reaches is what the next access expects. *)
Lemma next_ok p s : 0 ≤ _id s ≤ INT_MAX → pc_ok s p →
  ∀ p', (next p s).1 = Some p' → pc_ok (next p s).2 p'.
Proof using.
  intros Hid Hok p'. destruct p; simpl in *; try (intros [= <-]; simpl; destruct_and?; by split_and?).
  - intros [= <-]. simpl. destruct Hok as ([ch Hch]%wired_channel & ? & ->).
    rewrite entry_change, Hch. simpl. rewrite map_index_at. split_and!; [by eexists|done|done].
  - intros [= <-]. simpl. rewrite wiring_change. destruct Hok as ([out Ho] & ? & ?).
    split_and!; [by eapply entry_wired|done|done].
  - case_decide; [|done]. intros [= <-]. simpl. destruct Hok as (sv & Hw). by eexists.
  - intros [= <-]. destruct (entry s chan _) eqn:He; simpl; [by rewrite He|done].
  - intros [= <-]. simpl. destruct Hok as [out Ho]. by rewrite Ho.
  - intros [= <-]. simpl. rewrite wiring_change. by eapply entry_wired.
  - destruct (out_response out); [|done]. by intros [= <-].
Qed.

Lemma next_inv p s owner th t :
  thread_inv s owner th → th !! t = Some p → may_go p owner = true →
  stops p = false →
  thread_inv (next p s).2 (sync_after t p owner) (moved t (next p s).1 th).
Proof using.
  intros [Hf Hid Hp Hl Ho] Ht Hgo [Hmax _]%orb_false_iff. pose proof (Hp t p Ht) as Hok. split.
  - by apply next_fresh.
  - destruct p; simpl in *; try done.
    + destruct Hok as (_ & _ & _ & ?). apply bool_decide_eq_false in Hmax. lia.
    + by destruct (out_response out).
    + by destruct done.
  - intros t' p' Ht'. destruct (decide (t = t')) as [<-|Hne].
    + rewrite moved_eq in Ht'. by eapply next_ok.
    + rewrite moved_ne in Ht' by done. apply (pc_ok_stable s); [apply next_wiring| |by eapply Hp].
      intros chan i Hin. apply next_entries. intros Hin'.
      assert (H1 : owner !! chan = Some t) by (apply Hl; by rewrite Ht).
      assert (H2 : owner !! chan = Some t') by (apply Hl; by rewrite Ht'). congruence.
  - by apply next_lock.
  - intros o. apply (exclusive_move (shuffle p t) (owns o s th) _ (live o s)); [apply _|apply Ho| |].
    + intros a d. by apply next_owns.
    + intros a d. by apply next_live.
Qed.
End inv.
