(* ===== verification/ThreadSteps.v ===== *)
(** * Threads that share channels: every run keeps the invariant

    Each access that the invariant allows succeeds and has the effect that
    [next] gives it; entering [CallMethod] or [onRpcMessage] keeps the
    invariant too. *)

From S2P Require Import Prelude Endian ConnQueue External World Codec Decoder Wire.
From S2P Require Import ProtoWire RpcPb RpcPbProps RpcPbParse RpcChannel ChannelLemmas RpcCalls RpcInv RpcSteps RpcThreads ThreadAlone ThreadInv.

Section steps.
Context {EB : EvbufferOps} {EBL : EvbufferLaws EB} {EBN : EvbufferNoOOM EB}.
Context {ZL : ZlibOps} {ZLL : ZlibLaws ZL} {WO : WireOps} {WL : WireLaws WO}.
Context {PO : ParseOps} {PL : ParseLaws PO} {UO : UserOps}.
Context {E : Type} {RH : RpcHost UO E} {UC : UserClosures E} {US : UserServices E}.
Context {UE : UserEffects RH UC}.
Context (host : endian).
Implicit Types (w : World EB E) (chan c q d k : ptr) (p : pc) (m : RpcMessage.t) (t : nat).

(** ** Connections stay *)

Definition still_writes w w' : Prop := ∀ c q out, writes w c q out → ∃ out', writes w' c q out'.

Lemma still_writes_rpc w r : still_writes w (put_rpc r w).
Proof using. intros c q out H. by exists out. Qed.
Lemma still_writes_output w w' q : output_only q w w' → still_writes w w'.
Proof using.
  intros (b & e & Hb & ->) c q' out (o & b' & Ho & Hr & Hb' & Hc).
  destruct (decide (q = q')) as [->|Hne].
  - exists (contents e), o, (set_side Output e b). split_and!; [done|done|apply lookup_insert_eq|done].
  - exists out, o, b'. split_and!; [done|done| |done]. simpl. by rewrite lookup_insert_ne.
Qed.

(** Every channel is on a connection that can be written to and, as
    [setServices] sets nothing, has no services. *)
Definition connected w : Prop :=
  ∀ chan x, wiring (rpc w) !! chan = Some x →
    x.2 = NULL ∧ ∃ c q out, x.1 = Some (Some c) ∧ writes w c q out.

Lemma connected_stays w w' :
  connected w → wiring (rpc w') = wiring (rpc w) → still_writes w w' → connected w'.
Proof using.
  intros Hc Hw Hs chan x Hx. rewrite Hw in Hx. destruct (Hc chan x Hx) as (? & c & q & out & ? & Hq).
  destruct (Hs c q out Hq) as [out' Hq']. split; [done|]. by exists c, q, out'.
Qed.

Lemma connected_channel w chan ch :
  connected w → channel_is w chan ch →
  services ch = NULL ∧ ∃ c q out, conn ch = Some (Some c) ∧ writes w c q out.
Proof using.
  intros Hc Hch. apply (Hc chan (conn ch, services ch)).
  unfold wiring. rewrite lookup_fmap. unfold channel_is in Hch. by rewrite Hch.
Qed.
Lemma wired_is w chan : is_Some (wiring (rpc w) !! chan) → ∃ ch, channel_is w chan ch.
Proof using. apply wired_channel. Qed.

(** ** An access succeeds with the effect of [next] *)

Definition does w p : Prop :=
  ∃ w', exec host p w = Ok ((next p (rpc w)).1, w') ∧ rpc w' = (next p (rpc w)).2 ∧ still_writes w w'.

Lemma does_nothing w p r : exec host p w = Ok (r, w) → next p (rpc w) = (r, rpc w) → does w p.
Proof using. intros H Hn. exists w. rewrite Hn. split_and!; [done|done|]. intros c q out ?. by exists out. Qed.
Lemma does_rpc w p r x : exec host p w = Ok (r, put_rpc x w) → next p (rpc w) = (r, x) → does w p.
Proof using.
  intros H Hn. exists (put_rpc x w). rewrite Hn. split_and!; [done|apply rpc_put|apply still_writes_rpc].
Qed.

Lemma entry_channel w chan i out : entry (rpc w) chan i = Some out →
  ∃ ch, channel_is w chan ch ∧ outstandings ch !! i = Some out.
Proof using. unfold entry. intros (ch & Hch & Ho)%bind_Some. by exists ch. Qed.

Lemma does_send w cl id : connected w → is_Some (wiring (rpc w) !! call_chan cl) → sendable cl →
  does w (CallSend cl (numbered cl id) id).
Proof using EBL EBN ZLL WL PL.
  intros Hc [ch Hch]%wired_is Hs.
  destruct (connected_channel w _ ch Hc Hch) as (_ & c & q & out & Hcn & Hw).
  destruct (rpc_send_run host w c q out (numbered cl id)) as (w' & Hrun & Ho & _);
    [apply call_msg_ok|apply Hs|done|].
  exists w'. split_and!.
  - cbn [exec]. mrun (get_conn_run w _ ch _ Hch Hcn). by mrun Hrun.
  - apply (output_rpc _ _ _ Ho).
  - by eapply still_writes_output.
Qed.

(** The assertion of a response that says nothing, and no other, fails. *)
Lemma exec_aborts w p : aborts p = true → exec host p w = Fault AssertFail.
Proof using.
  destruct p as [| | | | | | |chan c m| | | | | | | |]; try done. cbn [aborts exec].
  intros [Ht%bool_decide_eq_true Hm%negb_true_iff]%andb_prop. rewrite bool_decide_true by done. mrun.
  if_yes; [|done]. by rewrite Hm.
Qed.

Lemma does_enter w chan c m : connected w → pc_ok (rpc w) (RecvEnter chan c m) →
  aborts (RecvEnter chan c m) = false → does w (RecvEnter chan c m).
Proof using EBL EBN ZLL WL PL.
  intros Hc (sv & Hw) Hab. cbn [aborts] in Hab.
  assert (Hn : next (RecvEnter chan c m) (rpc w) =
    (if decide (RpcMessage.type m = RESPONSE) then Some (RecvLock chan m) else None, rpc w)) by done.
  assert (Hx : exec host (RecvEnter chan c m) w =
    (if decide (RpcMessage.type m = RESPONSE) then
       _ ← assert_ (RpcMessage.has_response m || RpcMessage.has_error m); mret (Some (RecvLock chan m))
     else if decide (RpcMessage.type m = REQUEST) then _ ← onRequest host chan c m; mret None
     else mret None) w) by (cbn [exec]; by rewrite bool_decide_true).
  destruct (decide (RpcMessage.type m = RESPONSE)) as [Ht|_].
  { rewrite bool_decide_true in Hab by done. apply negb_false_iff in Hab.
    eapply does_nothing; [|exact Hn]. rewrite Hx, Hab. by mrun. }
  destruct (decide (RpcMessage.type m = REQUEST)) as [Ht|_]; [|by eapply does_nothing].
  destruct (Hc chan _ Hw) as (Hsv & c' & q & out & [= <-] & Hq). simpl in Hsv. subst sv.
  destruct (wired_is w chan) as [ch Hch]; [by rewrite Hw|].
  destruct (connected_channel w _ ch Hc Hch) as (Hsv & _).
  destruct (onRequest_refused host w chan ch c q out m None NO_SERVICE) as (w' & Hrun & Ho & _); [done| |done|by apply error_fits|done|].
  { unfold channel_services. by rewrite Hsv. }
  exists w'. rewrite Hn, Hx. split_and!; [by mrun Hrun|by apply (output_rpc _ _ _ Ho)|].
  by eapply still_writes_output.
Qed.

Lemma does_parse w m out :
  (∀ d, out_response out = Some d → is_Some (messages (rpc w) !! d)) → does w (RecvParse m out).
Proof using.
  intros Hd. destruct (out_response out) as [d|] eqn:Ho.
  2: { eapply does_nothing; cbn [exec next]; by rewrite Ho. }
  destruct (Hd d eq_refl) as [r Hr]. eapply does_rpc; cbn [exec next]; rewrite Ho.
  - by mrun (parse_into w d r m Hr).
  - do 2 f_equal. apply map_eq. intros d'.
    destruct (decide (d' = d)) as [->|Hne]; [by rewrite lookup_insert_eq, lookup_alter_eq, Hr|].
    by rewrite lookup_insert_ne, lookup_alter_ne.
Qed.

Lemma does_run w d done :
  (∀ k, done = Some k → ∃ u, closures (rpc w) !! k = Some (UserClosure u)) → does w (RecvRun d done).
Proof using UE.
  intros Hk. destruct done as [k|]; [|by eapply does_nothing].
  destruct (Hk k eq_refl) as [u Hu]. set (w1 := set_ext (user_effect u (w_ext w)) w).
  assert (Hr : rpc w1 = rpc w) by (unfold rpc, w1; simpl; apply user_effect_rpc).
  exists (put_rpc (set_closures (delete k (closures (rpc w))) (rpc w)) w1). split_and!.
  - cbn [exec next]. pose proof (Run_user host w w1 k u Hu (user_effect_run u w)) as Hrun.
    rewrite Hr in Hrun. mrun (Hrun ltac:(by eexists)). done.
  - apply rpc_put.
  - intros c q out Hw. by exists out.
Qed.

Lemma exec_next w p :
  connected w → pc_ok (rpc w) p → (∀ o d, held o p = Some d → live o (rpc w) d) →
  stops p = false → does w p.
Proof using EBL EBN ZLL WL PL UE.
  intros Hc Hok Hlive [Hmax Hab]%orb_false_iff. destruct p; cbn [pc_ok] in Hok.
  - eapply does_nothing; [apply exec_load|done].
  - destruct Hok as (_ & _ & -> & _). eapply does_rpc; [apply exec_store|done].
    by apply bool_decide_eq_false in Hmax.
  - destruct Hok as ([ch Hch]%wired_is & _). by eapply does_nothing; [eapply exec_call_lock|].
  - destruct Hok as ([ch Hch]%wired_is & _). eapply does_rpc; [by eapply exec_index|].
    cbn [next]. by rewrite (change_update _ _ ch).
  - destruct Hok as ([out (ch & Hch & Ho)%entry_channel] & _).
    eapply does_rpc; [by eapply exec_assign|]. cbn [next]. by rewrite (change_update _ _ ch).
  - destruct Hok as ([ch Hch]%wired_is & _). by eapply does_nothing; [eapply exec_call_unlock|].
  - destruct Hok as (? & ? & ->). by apply does_send.
  - by apply does_enter.
  - apply wired_is in Hok as [ch Hch]. by eapply does_nothing; [eapply exec_recv_lock|].
  - apply wired_is in Hok as [ch Hch]. eapply does_nothing; [by eapply exec_find|].
    cbn [next]. unfold entry. unfold channel_is in Hch. by rewrite Hch.
  - destruct Hok as [out Ho]. pose proof Ho as (ch & Hch & Hi)%entry_channel.
    eapply does_nothing; [by eapply exec_copy|]. cbn [next]. by rewrite Ho.
  - destruct (entry_channel _ _ _ _ Hok) as (ch & Hch & Hi).
    eapply does_rpc; [by eapply exec_erase|]. cbn [next]. by rewrite (change_update _ _ ch).
  - apply wired_is in Hok as [ch Hch]. by eapply does_nothing; [eapply exec_recv_unlock|].
  - apply does_parse. intros d. apply (Hlive Response).
  - apply does_run. intros k. apply (Hlive Done).
  - destruct (Hlive Response d eq_refl) as [r Hr]. eapply does_rpc; [|done]. cbn [exec].
    erewrite bind_run by (apply on_rpc_run, delete_object_run; by eexists). done.
Qed.

(** ** Entering [CallMethod] *)

(** The objects of a new call. *)
Definition new_done (u : option UserCode) (r : RpcState UO) : option ptr :=
  match u with None => NULL | Some _ => Some (Pos.succ (rpc_brk r)) end.
Definition new_objects (x : UMsg) (u : option UserCode) (r : RpcState UO) : RpcState UO :=
  let d := rpc_brk r in let k := Pos.succ d in
  match u with
  | None => mkRpc (_id r) k (<[d := x]> (messages r)) (closures r) (channels r) (service_maps r)
  | Some u => mkRpc (_id r) (Pos.succ k) (<[d := x]> (messages r)) (<[k := UserClosure u]> (closures r))
                (channels r) (service_maps r)
  end.
Definition new_call chan method request (u : option UserCode) (r : RpcState UO) : call :=
  mkCall chan method request (mkOut (Some (rpc_brk r)) (new_done u r)).

Lemma begin_call_run w chan method request x u :
  begin_call chan method request x u w =
    Ok (CallLoad (new_call chan method request u (rpc w)), put_rpc (new_objects x u (rpc w)) w).
Proof using.
  unfold begin_call. erewrite bind_run by (apply on_rpc_run; reflexivity). cbn beta.
  destruct u as [u|]; [|by mrun]. rewrite bind_assoc.
  erewrite bind_run by (apply on_rpc_run; rewrite rpc_put; reflexivity). cbn beta.
  rewrite put_rpc_put. by mrun.
Qed.

Lemma new_fresh x u r : heap_fresh r → heap_fresh (new_objects x u r).
Proof using.
  intros Hf p Hp. unfold new_objects in *. destruct u; simpl in *;
    (destruct (Hf p ltac:(lia)) as (? & ? & ?)); rewrite ?lookup_insert_ne by lia; done.
Qed.
Lemma new_wiring x u r : wiring (new_objects x u r) = wiring r.
Proof using. by destruct u. Qed.
Lemma new_entry x u r chan i : entry (new_objects x u r) chan i = entry r chan i.
Proof using. by destruct u. Qed.

Lemma new_owned o x u r th t chan method request :
  heap_fresh r → th !! t = None → exclusive (owns o r th) (live o r) →
  let r' := new_objects x u r in
  exclusive (owns o r' (<[t := CallLoad (new_call chan method request u r)]> th)) (live o r').
Proof using.
  intros Hf Ht Ho r'. set (th' := <[t := _]> th).
  destruct (Hf (rpc_brk r) ltac:(lia)) as (Hm & _). destruct (Hf (Pos.succ (rpc_brk r)) ltac:(lia)) as (_ & Hk & _).
  assert (Hother : ∀ a d, a ≠ inl t → owns o r' th' a = Some d → owns o r th a = Some d).
  { intros [t'|[c i]] d Hne; cbn [owns].
    - unfold th'. rewrite lookup_insert_ne by congruence. done.
    - unfold r'. by rewrite new_entry. }
  assert (Hlive : ∀ d, live o r d → live o r' d).
  { intros d Hd. unfold r', new_objects. destruct u, o; simpl in *; try done;
      (rewrite lookup_insert_ne; [done|]); intros <-; rewrite ?Hm, ?Hk in Hd; by destruct Hd. }
  assert (Hmine : owns o r' th' (inl t) = out_object o (mkOut (Some (rpc_brk r)) (new_done u r)))
    by (cbn [owns]; unfold th'; by rewrite lookup_insert_eq).
  destruct o; [|destruct u as [u|]].
  - apply (exclusive_new (inl t) (rpc_brk r) (owns Response r th) _ (live Response r)); try done.
    + simpl. rewrite Hm. by intros [].
    + unfold r', new_objects. simpl. destruct u; simpl; rewrite lookup_insert_eq; by eexists.
  - apply (exclusive_new (inl t) (Pos.succ (rpc_brk r)) (owns Done r th) _ (live Done r)); try done.
    + simpl. rewrite Hk. by intros [].
    + simpl. rewrite lookup_insert_eq. by eexists.
  - apply (exclusive_move id (owns Done r th) _ (live Done r)); [apply _|done| |intros a d _; apply Hlive].
    intros a d Ha. destruct (decide (a = inl t)) as [->|Hne]; [|by apply Hother]. by rewrite Hmine in Ha.
Qed.

(** ** The invariant of a run *)

Definition sys_inv (s : sys) : Prop :=
  thread_inv (rpc (sys_world s)) (sys_owner s) (sys_threads s) ∧ connected (sys_world s).

(** A thread enters one of the functions with a point that holds no mutex. *)
Lemma enter_inv r r' owner th t p :
  thread_inv r owner th → th !! t = None → inside p = None →
  heap_fresh r' → _id r' = _id r → wiring r' = wiring r → (∀ chan i, entry r' chan i = entry r chan i) →
  pc_ok r' p → (∀ o, exclusive (owns o r' (<[t := p]> th)) (live o r')) →
  thread_inv r' owner (<[t := p]> th).
Proof using.
  intros [Hf Hid Hp Hl Ho] Ht Hin Hf' Hid' Hw He Hok Ho'. split; [done|by rewrite Hid'| | |done].
  - intros t' p'. destruct (decide (t = t')) as [<-|Hne].
    + rewrite lookup_insert_eq. by intros [= <-].
    + rewrite lookup_insert_ne by done. intros Ht'. apply (pc_ok_stable r); [done|done|by eapply Hp].
  - intros t' chan. rewrite Hl. destruct (decide (t = t')) as [<-|Hne].
    + rewrite lookup_insert_eq, Ht. simpl. by rewrite Hin.
    + by rewrite lookup_insert_ne.
Qed.

(** An access that was made was the one [next] describes. *)
Lemma access_result w owner th t p r w' :
  thread_inv (rpc w) owner th → connected w → th !! t = Some p → exec host p w = Ok (r, w') →
  r = (next p (rpc w)).1 ∧ rpc w' = (next p (rpc w)).2 ∧ still_writes w w' ∧
  stops p = false.
Proof using EBL EBN ZLL WL PL UE.
  intros Hi Hc Ht Hrun.
  assert (Hstop : stops p = false).
  { destruct (stops p) eqn:Hs; [|done]. apply orb_prop in Hs as [Hs|Hs]; [|by rewrite exec_aborts in Hrun].
    destruct p; try done. apply bool_decide_eq_true in Hs as ->. by rewrite exec_store_max in Hrun. }
  destruct (exec_next w p) as (w1 & Hrun1 & Hr & Hw); [done|by eapply Hi| |done|].
  { intros o d Hd. apply (ex_live _ _ (ti_owned _ _ _ Hi o) (inl t)). cbn [owns]. by rewrite Ht. }
  rewrite Hrun1 in Hrun. by injection Hrun as <- <-.
Qed.

Lemma tstep_inv e s s' : tstep host e s s' → sys_inv s → sys_inv s'.
Proof using All.
  intros Hstep [Hi Hc]. destruct Hstep as [t chan method request x u p s w' Ht Hcan Hrun
    |t chan c m s Ht Hcan|t p r s w' Ht Hgo Hrun]; unfold sys_inv; cbn [sys_world sys_owner sys_threads].
  - rewrite begin_call_run in Hrun. injection Hrun as <- <-. rewrite rpc_put.
    destruct Hcan as [Hch Hfit]. split.
    + pose proof Hi as [Hf _ _ _ Ho].
      apply (enter_inv (rpc (sys_world s))); try done; [by apply new_fresh|by destruct u|apply new_wiring
        |intros; apply new_entry| |intros o; by apply new_owned].
      simpl. rewrite new_wiring. split; [|exact Hfit]. unfold wiring. rewrite lookup_fmap.
      destruct Hch as [ch ->]. by eexists.
    + eapply connected_stays; [done| |apply still_writes_rpc]. rewrite rpc_put. apply new_wiring.
  - split; [|done]. destruct Hcan as (ch & Hch & Hcn).
    apply (enter_inv (rpc (sys_world s))); try done; [apply Hi| |].
    + simpl. exists (services ch). unfold wiring. rewrite lookup_fmap.
      unfold channel_is in Hch. by rewrite Hch, <- Hcn.
    + intros o. apply (exclusive_move id (owns o (rpc (sys_world s)) (sys_threads s)) _ (live o (rpc (sys_world s))));
        [apply _|apply Hi| |done].
      intros [t'|[chan' i]] d; [|done]. cbn [owns id]. destruct (decide (t = t')) as [<-|Hne].
      * by rewrite lookup_insert_eq.
      * by rewrite lookup_insert_ne.
  - destruct (access_result (sys_world s) _ _ t p r w' Hi Hc Ht Hrun) as (-> & Hr & Hw & Hmax).
    rewrite Hr. split; [by apply next_inv|].
    eapply connected_stays; [done| |done]. rewrite Hr. apply next_wiring.
Qed.

Lemma runs_inv ok s0 tr s : runs host ok s0 tr s → sys_inv s0 → sys_inv s.
Proof using All. intros Hr Hi. induction Hr; [done|]. by eapply tstep_inv, IHHr. Qed.

(** A process none of whose threads is inside a channel. *)
Definition quiet w : sys := mkSys w ∅ ∅.

Lemma quiet_inv w : rpc_inv (rpc w) → connected w → sys_inv (quiet w).
Proof using.
  intros [Hf Hid Hsv Hcall Huniq] Hc. split; [|done]. split; [done|done|done| |].
  - intros t chan. cbn. rewrite !lookup_empty. done.
  - intros o.
    assert (Hat : ∀ chan i d, owns o (rpc w) ∅ (inr (chan, i)) = Some d →
      ∃ out, call_at (rpc w) chan i out ∧ out_object o out = Some d).
    { intros chan i d. cbn [owns]. unfold entry. intros (out & (ch & Hch & Ho)%bind_Some & Hd)%bind_Some.
      exists out. split; [by exists ch|done]. }
    split.
    + intros [t|[chan i]] d Ha; [done|]. destruct (Hat _ _ _ Ha) as (out & H & Hd).
      destruct (Hcall _ _ _ H) as (_ & d' & k & u & -> & Hm & Hk).
      destruct o; simpl in *; injection Hd as <-; [done|by exists u].
    + intros [t|[chan i]] [t'|[chan' i']] d Ha Hb; try done.
      destruct (Hat _ _ _ Ha) as (out & H & Hd). destruct (Hat _ _ _ Hb) as (out' & H' & Hd').
      destruct (Huniq chan i out chan' i' out' H H') as [-> ->]; [|done].
      right. destruct o; [left|right]; simpl in *; congruence.
Qed.
End steps.
