(* ===== verification/ThreadNumbers.v ===== *)
(** * The numbers of calls whose increments do not overlap

    [++_id] is a load and a store.  As long as no thread loads while another is
    between the two, every call has a number of its own, and the answer to a
    call that was sent finds its entry: the call is registered before it is
    sent, and no other call is registered under its number. *)

From S2P Require Import Prelude Endian ConnQueue External World Codec Decoder Wire.
From S2P Require Import ProtoWire RpcPb RpcPbProps RpcPbParse RpcChannel ChannelLemmas RpcCalls RpcInv RpcSteps RpcThreads ThreadAlone ThreadInv ThreadSteps.

Section numbers.
Context {EB : EvbufferOps} {EBL : EvbufferLaws EB} {EBN : EvbufferNoOOM EB}.
Context {ZL : ZlibOps} {ZLL : ZlibLaws ZL} {WO : WireOps} {WL : WireLaws WO}.
Context {PO : ParseOps} {PL : ParseLaws PO} {UO : UserOps}.
Context {E : Type} {RH : RpcHost UO E} {UC : UserClosures E} {US : UserServices E}.
Context {UE : UserEffects RH UC}.
Context (host : endian).
Implicit Types (w : World EB E) (r : RpcState UO) (chan c d k : ptr) (p : pc) (m : RpcMessage.t) (t : nat).
Implicit Types (th : gmap nat pc) (tr : list event) (out : OutstandingCall).

(** At most one thread is between the load and the store of [++_id]. *)
Definition stores p : bool := match p with CallStore _ _ _ => true | _ => false end.
Definition apart th : Prop :=
  ∀ t t' p p', th !! t = Some p → th !! t' = Some p' → stores p → stores p' → t = t'.
Definition serial (s : sys (EB:=EB) (E:=E)) : Prop := apart (sys_threads s).

(** The number of a call, from the store until its entry exists; then the entry
    has it. *)
Definition number_of p : option Z :=
  match p with CallLock _ _ id | CallIndex _ _ id => Some id | _ => None end.
Definition uses r th (a : nat + ptr * Z) : option Z :=
  match a with
  | inl t => th !! t ≫= number_of
  | inr (chan, i) => entry r chan i ≫= λ _, Some i
  end.

(** A call that is registered: its entry is there until an answer takes it. *)
Definition registered tr r chan (id : Z) out : Prop :=
  out_response out ≠ None ∧ (Took chan id out ∈ tr ∨ entry r chan id = Some out).

Definition call_of p : option call :=
  match p with
  | CallLoad cl | CallStore cl _ _ | CallLock cl _ _ | CallIndex cl _ _ | CallAssign cl _ _ => Some cl
  | _ => None
  end.

Record number_inv r th tr : Prop := {
  ni_old t cl m old : th !! t = Some (CallStore cl m old) → old = _id r;
  ni_used : exclusive (uses r th) (λ i, 1 ≤ i ≤ _id r);
  ni_null t cl m id : th !! t = Some (CallAssign cl m id) → entry r (call_chan cl) id = Some (mkOut NULL NULL);
  ni_call t p cl : th !! t = Some p → call_of p = Some cl → out_response (call_out cl) ≠ None;
  ni_point t p cl m id : th !! t = Some p → p = CallUnlock cl m id ∨ p = CallSend cl m id →
    registered tr r (call_chan cl) id (call_out cl);
  ni_sent chan id out : Sent chan id out ∈ tr → registered tr r chan id out;
  ni_took chan id out : Took chan id out ∈ tr → out_response out ≠ None →
    1 ≤ id ≤ _id r ∧ ∀ a, uses r th a ≠ Some id
}.

(** ** An access keeps it *)

(** The number goes from the thread to the entry it makes. *)
Definition reshuffle p t : nat + ptr * Z → nat + ptr * Z :=
  match p with CallIndex cl _ id => swap (inl t) (inr (call_chan cl, id)) | _ => id end.
#[local] Instance reshuffle_inj p t : Inj (=) (=) (reshuffle p t).
Proof using. destruct p; simpl; apply _. Qed.

Lemma next_keeps_id p r : stores p = false → _id (next p r).2 = _id r.
Proof using. destruct p; try done; simpl; intros _; [by destruct (out_response out)|by destruct done]. Qed.
Lemma next_number p r i : stores p = false → (next p r).1 ≫= number_of = Some i → number_of p = Some i.
Proof using.
  destruct p; simpl; try done; intros _.
  - by case_decide.
  - by destruct (entry r chan _).
  - by destruct (out_response out).
Qed.
Lemma next_call p r cl : (next p r).1 ≫= call_of = Some cl → call_of p = Some cl.
Proof using.
  destruct p; simpl; try done.
  - by case_decide.
  - by destruct (entry r chan _).
  - by destruct (out_response out).
Qed.

(** No access but the first makes an entry. *)
Definition indexes p : bool := match p with CallIndex _ _ _ => true | _ => false end.
Lemma next_entry_there p r chan i : pc_ok r p → indexes p = false →
  is_Some (entry (next p r).2 chan i) → is_Some (entry r chan i).
Proof using.
  intros Hok Hx. destruct (decide (inside p = Some chan)) as [Hin|Hin]; [|by rewrite next_entries].
  destruct p; simpl in *; try done; injection Hin as <-; rewrite entry_change.
  - destruct (decide (i = id)) as [->|Hne]; [by intros _; apply Hok|].
    unfold entry. destruct (channels r !! _); [|done]. simpl. by rewrite lookup_insert_ne.
  - unfold entry. destruct (channels r !! _); [|done]. simpl.
    by intros [_ ?]%lookup_delete_is_Some.
Qed.

Lemma entry_uses r th chan i : uses r th (inr (chan, i)) = Some i ↔ is_Some (entry r chan i).
Proof using. cbn [uses]. destruct (entry r chan i); [by split|]. split; [done|by intros []]. Qed.
Lemma uses_entry r th chan i j : uses r th (inr (chan, i)) = Some j → j = i ∧ is_Some (entry r chan i).
Proof using. cbn [uses]. destruct (entry r chan i); [|done]. by intros [= ->]. Qed.

Lemma next_uses p r th t a i : th !! t = Some p → pc_ok r p → stores p = false →
  uses (next p r).2 (moved t (next p r).1 th) a = Some i → uses r th (reshuffle p t a) = Some i.
Proof using.
  intros Ht Hok Hs Ha.
  assert (Hth : ∀ t', a = inl t' → t' ≠ t → uses r th a = Some i).
  { intros t' -> Hne. cbn [uses] in *. by rewrite moved_ne in Ha. }
  assert (Hme : a = inl t → number_of p = Some i).
  { intros ->. cbn [uses] in Ha. rewrite moved_eq in Ha. by eapply next_number. }
  destruct (indexes p) eqn:Hx.
  - destruct p; try done. cbn [reshuffle]. destruct a as [t'|[c j]].
    + destruct (decide (t' = t)) as [->|Hne]; [by cbn [uses] in Ha; rewrite moved_eq in Ha|].
      rewrite swap_other by congruence. by eapply Hth.
    + apply uses_entry in Ha as [-> He].
      destruct (decide ((c, j) = (call_chan cl, id))) as [[= -> ->]|Hne].
      * rewrite swap_r. cbn [uses]. by rewrite Ht.
      * rewrite swap_other by congruence. apply entry_uses. revert He. cbn [next snd].
        destruct (decide (c = call_chan cl)) as [->|Hc]; [|by rewrite entry_change_ne].
        rewrite entry_change. unfold entry. destruct (channels r !! _) as [ch|]; [|done]. simpl.
        unfold map_index. destruct (outstandings ch !! id); [done|].
        rewrite lookup_insert_ne; [done|congruence].
  - assert (reshuffle p t a = a) as -> by (by destruct p).
    destruct a as [t'|[c j]].
    + destruct (decide (t' = t)) as [->|Hne]; [|by eapply Hth]. cbn [uses]. rewrite Ht. by apply Hme.
    + apply uses_entry in Ha as [-> He]. apply entry_uses. by eapply next_entry_there.
Qed.

(** The store of [++_id] gives the next number. *)
Lemma store_uses cl m r th t a i :
  let p := CallStore cl m (_id r) in
  th !! t = Some p → uses (next p r).2 (moved t (next p r).1 th) a = Some i →
  (a = inl t ∧ i = _id r + 1) ∨ (a ≠ inl t ∧ uses r th a = Some i).
Proof using.
  intros p Ht. destruct a as [t'|[c j]]; cbn [uses].
  - destruct (decide (t' = t)) as [->|Hne].
    + rewrite moved_eq. simpl. intros [= <-]. by left.
    + rewrite moved_ne by done. right. split; [congruence|done].
  - intros H. right. split; [done|exact H].
Qed.

Lemma next_used p r th t tr :
  th !! t = Some p → pc_ok r p → number_inv r th tr →
  exclusive (uses (next p r).2 (moved t (next p r).1 th)) (λ i, 1 ≤ i ≤ _id (next p r).2) ∧
  ∀ a i, i ≤ _id r → uses (next p r).2 (moved t (next p r).1 th) a = Some i → uses r th (reshuffle p t a) = Some i.
Proof using.
  intros Ht Hok [Hold Hu _ _ _ _ _]. destruct (stores p) eqn:Hs.
  - destruct p; try done. pose proof (Hold _ _ _ _ Ht) as ->.
    assert (Hid : 0 ≤ _id r) by (apply Hok).
    split.
    + apply (exclusive_new (inl t) (_id r + 1) (uses r th) _ (λ i, 1 ≤ i ≤ _id r)); try done; simpl; try lia.
      * by rewrite moved_eq.
      * intros a i Hne Ha. destruct (store_uses _ _ _ _ _ _ _ Ht Ha) as [[-> _]|[_ ?]]; [done|done].
    + intros a i Hi Ha. destruct (store_uses _ _ _ _ _ _ _ Ht Ha) as [[_ ->]|[_ ?]]; [lia|done].
  - split; [|intros a i _; by apply next_uses].
    apply (exclusive_move (reshuffle p t) (uses r th) _ (λ i, 1 ≤ i ≤ _id r)); [apply _|done| |].
    + intros a i. by apply next_uses.
    + intros a i _. by rewrite next_keeps_id.
Qed.

(** A registered call stays registered. *)
Lemma next_registered p r owner th t tr chan id out :
  thread_inv r owner th → number_inv r th tr → th !! t = Some p → registered tr r chan id out →
  registered (event_of p (next p r).1 :: tr) (next p r).2 chan id out.
Proof using.
  intros Hi Hn Ht [Hne Hr]. split; [done|]. destruct Hr as [Hr|Hr]; [left; by right|].
  pose proof (ti_points _ _ _ Hi t p Ht) as Hok.
  destruct (decide (inside p = Some chan)) as [Hin|Hin]; [|right; by rewrite next_entries].
  destruct p; try discriminate Hin; try (right; exact Hr); injection Hin as <-; cbn [next fst snd event_of].
  - right. rewrite entry_change. unfold entry in Hr. apply bind_Some in Hr as (ch & Hch & Ho).
    rewrite Hch. simpl. unfold map_index. destruct (outstandings ch !! id0) eqn:He; [done|].
    rewrite lookup_insert_ne; [done|congruence].
  - right. destruct (decide (id = id0)) as [->|Hid].
    + rewrite (ni_null _ _ _ Hn _ _ _ _ Ht) in Hr. injection Hr as <-. done.
    + rewrite entry_change. unfold entry in Hr. apply bind_Some in Hr as (ch & Hch & Ho).
      rewrite Hch. simpl. by rewrite lookup_insert_ne.
  - cbn [pc_ok] in Hok. destruct (decide (id = i64 (RpcMessage.id message))) as [->|Hid].
    + left. assert (out0 = out) as -> by congruence. by left.
    + right. rewrite entry_change. unfold entry in Hr. apply bind_Some in Hr as (ch & Hch & Ho).
      rewrite Hch. simpl. by rewrite lookup_delete_ne.
Qed.

(** An answer that takes an entry leaves its number unused. *)
Lemma next_took p r owner th t tr chan id out :
  thread_inv r owner th → number_inv r th tr → th !! t = Some p →
  event_of p (next p r).1 = Took chan id out → out_response out ≠ None →
  1 ≤ id ≤ _id r ∧ ∀ a, uses (next p r).2 (moved t (next p r).1 th) a ≠ Some id.
Proof using.
  intros Hi Hn Ht He Hne. pose proof (ti_points _ _ _ Hi t p Ht) as Hok.
  destruct (next_used p r th t tr Ht Hok Hn) as [_ Huse].
  assert (Hp : ∃ m, p = RecvErase chan m out ∧ id = i64 (RpcMessage.id m)).
  { destruct p; try done; cbn [next fst event_of] in He.
    - destruct (entry r chan0 _); [done|]. by injection He as <- <- <-.
    - injection He as <- <- <-. by exists message.
    - by destruct done. }
  destruct Hp as (m & -> & ->). cbn [pc_ok] in Hok. set (id := i64 (RpcMessage.id m)) in *.
  assert (Hu : uses r th (inr (chan, id)) = Some id) by (apply entry_uses; by eexists).
  assert (Hb : 1 ≤ id ≤ _id r) by (by apply (ex_live _ _ (ni_used _ _ _ Hn) _ _ Hu)).
  split; [exact Hb|]. intros a Ha. pose proof (Huse a id ltac:(lia) Ha) as Ha'. change (uses r th a = Some id) in Ha'.
  rewrite (ex_one _ _ (ni_used _ _ _ Hn) _ _ _ Ha' Hu) in Ha. apply uses_entry in Ha as [_ [o Ho]].
  cbn [next snd] in Ho. fold id in Ho. rewrite entry_change in Ho.
  destruct (channels r !! chan); [|done]. simpl in Ho. by rewrite lookup_delete_eq in Ho.
Qed.

Lemma next_null p r th t tr cl m id :
  th !! t = Some p → number_inv r th tr → pc_ok r p →
  (next p r).1 = Some (CallAssign cl m id) → entry (next p r).2 (call_chan cl) id = Some (mkOut NULL NULL).
Proof using.
  intros Ht Hn Hok He. destruct p; simpl in He; try done.
  - injection He as -> -> ->. destruct Hok as ([ch Hch]%wired_channel & _ & _).
    cbn [next snd]. rewrite entry_change, Hch. simpl. rewrite map_index_at.
    destruct (outstandings ch !! id) as [o|] eqn:Ho; [|done]. exfalso.
    assert (Hu : uses r th (inr (call_chan cl, id)) = Some id).
    { apply entry_uses. exists o. unfold entry. by rewrite Hch. }
    assert (Hu' : uses r th (inl t) = Some id) by (cbn [uses]; by rewrite Ht).
    by pose proof (ex_one _ _ (ni_used _ _ _ Hn) _ _ _ Hu Hu').
  - by case_decide.
  - by destruct (entry r chan _).
  - by destruct (out_response out).
Qed.

Lemma next_numbers p r owner th t tr :
  thread_inv r owner th → number_inv r th tr → th !! t = Some p →
  (∀ t' p', th !! t' = Some p' → stores p → stores p' → t = t') →
  number_inv (next p r).2 (moved t (next p r).1 th) (event_of p (next p r).1 :: tr).
Proof using.
  intros Hi Hn Ht Hser. pose proof (ti_points _ _ _ Hi t p Ht) as Hok.
  destruct (next_used p r th t tr Ht Hok Hn) as [Hu Huse].
  pose proof Hn as [Hold _ Hnull Hcall Hpoint Hsent Htook].
  assert (Hmono : _id r ≤ _id (next p r).2).
  { destruct (stores p) eqn:Hs; [|by rewrite next_keeps_id]. destruct p; try done.
    rewrite (Hold _ _ _ _ Ht). simpl. lia. }
  split; [| exact Hu | | | | |].
  - intros t' cl m old Ht'. destruct (decide (t = t')) as [<-|Hne].
    + rewrite moved_eq in Ht'. destruct p; simpl in Ht'; try done.
      * by injection Ht' as <- <- <-.
      * by case_decide.
      * by destruct (entry r chan _).
      * by destruct (out_response out).
    + rewrite moved_ne in Ht' by done. rewrite next_keeps_id; [by eapply Hold|].
      destruct (stores p) eqn:Hs; [|done]. destruct Hne. by apply (Hser t' _ Ht').
  - intros t' cl m id Ht'. destruct (decide (t = t')) as [<-|Hne].
    + rewrite moved_eq in Ht'. by eapply (next_null p r th t tr).
    + rewrite moved_ne in Ht' by done. rewrite next_entries; [by eapply Hnull|].
      intros Hin. apply Hne. pose proof (ti_lock _ _ _ Hi) as Hl.
      assert (H1 : owner !! call_chan cl = Some t) by (apply Hl; by rewrite Ht).
      assert (H2 : owner !! call_chan cl = Some t') by (apply Hl; by rewrite Ht'). congruence.
  - intros t' p' cl Ht' Hc. destruct (decide (t = t')) as [<-|Hne].
    + rewrite moved_eq in Ht'. eapply Hcall; [exact Ht|]. apply (next_call p r). by rewrite Ht'.
    + rewrite moved_ne in Ht' by done. by eapply Hcall.
  - intros t' p' cl m id Ht' Hc. destruct (decide (t = t')) as [<-|Hne].
    2: { rewrite moved_ne in Ht' by done. eapply next_registered; [done..|by eapply Hpoint]. }
    rewrite moved_eq in Ht'. destruct p; simpl in Ht';
      try (by repeat case_match; simplify_eq/=; destruct Hc).
    + injection Ht' as <-. destruct Hc as [[= <- <- <-]|]; [|done]. split; [by eapply Hcall|].
      right. cbn [next snd]. destruct Hok as ([o (ch & Hch & _)%bind_Some] & _ & _).
      rewrite entry_change, Hch. simpl. by rewrite lookup_insert_eq.
    + injection Ht' as <-. destruct Hc as [|[= <- <- <-]]; [done|].
      eapply next_registered; [done..|]. eapply Hpoint; [exact Ht|by left].
  - intros chan id out [He|Hin]%elem_of_cons; [|eapply next_registered; [done..|by eapply Hsent]].
    eapply next_registered; [done..|]. symmetry in He.
    destruct p; simpl in He; try done; try (by repeat case_match; simplify_eq/=).
    injection He as <- <- <-. eapply Hpoint; [exact Ht|by right].
  - intros chan id out [He|Hin]%elem_of_cons Hne.
    + destruct (next_took p r owner th t tr chan id out) as [Hb Hf]; try done. split; [lia|done].
    + destruct (Htook chan id out Hin Hne) as [Hb Hf]. split; [lia|]. intros a Ha.
      apply (Hf (reshuffle p t a)). apply Huse; [lia|done].
Qed.

(** ** Runs *)

(** Points at which a function is entered. *)
Definition first p : Prop := (∃ cl, p = CallLoad cl ∧ out_response (call_out cl) ≠ None) ∨ ∃ chan c m, p = RecvEnter chan c m.

Lemma enter_numbers r r' th t p tr :
  number_inv r th tr → th !! t = None → first p →
  _id r' = _id r → (∀ chan i, entry r' chan i = entry r chan i) →
  number_inv r' (<[t := p]> th) (Silent :: tr).
Proof using.
  intros [Hold Hu Hnull Hcall Hpoint Hsent Htook] Ht Hf Hid He.
  assert (Hother : ∀ t' p', <[t := p]> th !! t' = Some p' → first p' ∨ th !! t' = Some p').
  { intros t' p'. destruct (decide (t = t')) as [<-|Hne].
    - rewrite lookup_insert_eq. intros [= <-]. by left.
    - rewrite lookup_insert_ne by done. by right. }
  assert (Hreg : ∀ chan id out, registered tr r chan id out → registered (Silent :: tr) r' chan id out).
  { intros chan id out [Hn [H|H]]; (split; [done|]); [left; by right|right; by rewrite He]. }
  assert (Huse : ∀ a i, uses r' (<[t := p]> th) a = Some i → uses r th a = Some i).
  { intros [t'|[c j]] i; cbn [uses]; [|by rewrite He]. destruct (decide (t = t')) as [<-|Hne].
    - rewrite lookup_insert_eq. by destruct Hf as [(cl & -> & _)|(? & ? & ? & ->)].
    - by rewrite lookup_insert_ne. }
  split.
  - intros t' cl m old [[(? & ? & _)|(? & ? & ? & ?)]|H]%Hother; [done..|]. rewrite Hid. by eapply Hold.
  - apply (exclusive_move (λ a, a) (uses r th) _ (λ i, 1 ≤ i ≤ _id r)); [by intros ? ?|done|done|].
    intros a i _. by rewrite Hid.
  - intros t' cl m id [[(? & ? & _)|(? & ? & ? & ?)]|H]%Hother; [done..|]. rewrite He. by eapply Hnull.
  - intros t' p' cl [[(cl' & -> & Hn)|(? & ? & ? & ->)]|H]%Hother Hc; [|done|by eapply Hcall].
    by injection Hc as <-.
  - intros t' p' cl m id [[(cl' & -> & Hn)|(? & ? & ? & ->)]|H]%Hother Hc; [by destruct Hc..|].
    by eapply Hreg, Hpoint.
  - intros chan id out [?|H]%elem_of_cons; [done|]. by apply Hreg, Hsent.
  - intros chan id out [?|H]%elem_of_cons Hn; [done|]. destruct (Htook chan id out H Hn) as [Hb Hf'].
    rewrite Hid. split; [done|]. intros a Ha. by apply (Hf' a), Huse.
Qed.

Definition sys_numbers (s : sys (EB:=EB) (E:=E)) tr : Prop :=
  number_inv (rpc (sys_world s)) (sys_threads s) tr.

Lemma tstep_numbers e (s s' : sys (EB:=EB) (E:=E)) tr :
  tstep host e s s' → sys_inv s → serial s → sys_numbers s tr → sys_numbers s' (e :: tr).
Proof using All.
  unfold sys_numbers. intros Hstep [Hi Hc] Hser Hn. destruct Hstep as [t chan method request x u p s w' Ht Hcan Hrun
    |t chan c m s Ht Hcan|t p r s w' Ht Hgo Hrun]; cbn [sys_world sys_threads].
  - rewrite begin_call_run in Hrun. injection Hrun as <- <-. rewrite rpc_put.
    eapply enter_numbers; [done|done|left; by eexists|by destruct u|intros; apply new_entry].
  - eapply enter_numbers; [done|done|right; by do 3 eexists|done|done].
  - destruct (access_result host (sys_world s) (sys_owner s) (sys_threads s) t p r w') as (-> & Hr & _); try done.
    rewrite Hr. eapply next_numbers; [done..|]. intros t' p' Ht'. by apply (Hser t t' p p').
Qed.

Lemma runs_numbers s0 tr (s : sys (EB:=EB) (E:=E)) :
  runs host serial s0 tr s → sys_inv s0 → serial s0 → sys_numbers s0 [] → sys_numbers s tr.
Proof using All.
  intros Hr Hi Hs Hn.
  enough (serial s ∧ sys_numbers s tr) by naive_solver.
  induction Hr as [|tr e s s' Hr IH Hstep Hok]; [done|]. split; [done|].
  destruct IH as [Hs' Hn']. eapply tstep_numbers; [done| |done|done]. by eapply runs_inv.
Qed.

Lemma quiet_serial w : serial (quiet w).
Proof using. by intros t t' p p'. Qed.
Lemma quiet_numbers w : rpc_inv (rpc w) → sys_numbers (quiet w) [].
Proof using.
  intros [Hf Hid Hsv Hcall Huniq].
  assert (Hat : ∀ chan i, is_Some (entry (rpc w) chan i) → ∃ out, call_at (rpc w) chan i out).
  { intros chan i [out (ch & Hch & Ho)%bind_Some]. exists out. by exists ch. }
  split; try done; try (by intros ? ? ? ?%elem_of_nil).
  split.
  - intros [t|[chan i]] j; [done|]. intros [-> [out H]%Hat]%uses_entry. by eapply Hcall.
  - intros [t|[chan i]] [t'|[chan' i']] j; [done..|].
    intros [-> [out H]%Hat]%uses_entry [-> [out' H']%Hat]%uses_entry.
    destruct (Huniq chan _ out chan' _ out' H H') as [-> _]; [by left|done].
Qed.
End numbers.
