(* ===== verification/ThreadProps.v ===== *)
(** * Properties of threads that share a channel

    Of every interleaving of threads that call and threads that receive: no
    access faults but for the overflow of [_id] and an assertion about the
    peer's message, critical sections exclude each other, every function
    returns, a closure runs at most once.  With increments of [_id] that do not
    overlap, the answer to a call finds it.  With increments that do, a call is
    lost for good. *)

From S2P Require Import Prelude Endian ConnQueue External World Codec Decoder Wire.
From S2P Require Import ProtoWire RpcPb RpcPbProps RpcPbParse RpcChannel ChannelLemmas RpcCalls RpcInv RpcSteps RpcThreads ThreadAlone ThreadInv ThreadSteps ThreadNumbers.

Section props.
Context {EB : EvbufferOps} {EBL : EvbufferLaws EB} {EBN : EvbufferNoOOM EB}.
Context {ZL : ZlibOps} {ZLL : ZlibLaws ZL} {WO : WireOps} {WL : WireLaws WO}.
Context {PO : ParseOps} {PL : ParseLaws PO} {UO : UserOps}.
Context {E : Type} {RH : RpcHost UO E} {UC : UserClosures E} {US : UserServices E}.
Context {UE : UserEffects RH UC}.
Context (host : endian).
Implicit Types (w : World EB E) (chan c d k : ptr) (p : pc) (m : RpcMessage.t) (t : nat).
Implicit Types (th : gmap nat pc) (tr : list event) (out : OutstandingCall).
Abbreviation system := (sys (EB:=EB) (E:=E)).
Implicit Types (s : system).

(** Any interleaving. *)
Definition any s : Prop := True.

Lemma runs_weaken {ok : system → Prop} {s0 tr s} : runs host ok s0 tr s → runs host any s0 tr s.
Proof using. intros H. induction H; econstructor; eauto. done. Qed.

(** The process starts in a state that sequential code can leave, all of whose
    channels are on connections that can be written to. *)
Definition ready w : Prop := rpc_inv (rpc w) ∧ connected w.

Lemma ready_inv w ok tr s : ready w → runs host ok (quiet w) tr s → sys_inv s.
Proof using All. intros [Hi Hc] Hr. eapply runs_inv; [done|]. by apply quiet_inv. Qed.

Lemma can_go s t p : sys_inv s → sys_threads s !! t = Some p → stops p = false →
  ∃ w', exec host p (sys_world s) = Ok ((next p (rpc (sys_world s))).1, w') ∧
    rpc w' = (next p (rpc (sys_world s))).2.
Proof using All.
  intros [Hi Hc] Ht Ho.
  destruct (exec_next host (sys_world s) p) as (w' & Hrun & Hr & _); [done|by eapply Hi| |done|by exists w'].
  intros o d Hd. apply (ex_live _ _ (ti_owned _ _ _ Hi o) (inl t)). cbn [owns]. by rewrite Ht.
Qed.

(** C8: however the threads that call and the threads that receive interleave
    and whatever the peer sends, a thread at any access makes it, except at two
    points: the overflow of [_id] after 2^31 - 1 calls, and a response without
    payload and error, at which the assertion of [onRpcMessage] aborts the
    process.  So there is no null or dangling pointer, no double free, no
    iterator to an erased entry. *)
Theorem threads_never_fault w tr s t p :
  ready w → runs host any (quiet w) tr s → sys_threads s !! t = Some p →
  (∃ r w', exec host p (sys_world s) = Ok (r, w')) ∨
  (overflows p = true ∧ exec host p (sys_world s) = Fault SignedOverflow) ∨
  (aborts p = true ∧ exec host p (sys_world s) = Fault AssertFail).
Proof using All.
  intros Hw Hr Ht. destruct (stops p) eqn:Hs.
  - right. apply orb_prop in Hs as [Hs|Hs]; [left|right; by split; [|apply exec_aborts]]. split; [done|].
    destruct p; try done. apply bool_decide_eq_true in Hs as ->. apply exec_store_max.
  - left. destruct (can_go s t p) as (w' & Hrun & _); [by eapply ready_inv|done|done|by do 2 eexists].
Qed.

(** At most one thread is between the locking and the unlocking of the mutex
    of a channel, and only such a thread's access can change the entries of the
    channel. *)
Theorem critical_sections_exclusive w tr s chan :
  ready w → runs host any (quiet w) tr s →
  (∀ t t' p p', sys_threads s !! t = Some p → sys_threads s !! t' = Some p' →
     inside p = Some chan → inside p' = Some chan → t = t') ∧
  (∀ t p r w' i, sys_threads s !! t = Some p → exec host p (sys_world s) = Ok (r, w') →
     inside p ≠ Some chan → entry (rpc w') chan i = entry (rpc (sys_world s)) chan i).
Proof using All.
  intros Hw Hr. destruct (ready_inv w any tr s Hw Hr) as [Hi Hc]. split.
  - intros t t' p p' Ht Ht' Hp Hp'. pose proof (ti_lock _ _ _ Hi) as Hl.
    assert (H1 : sys_owner s !! chan = Some t) by (apply Hl; by rewrite Ht).
    assert (H2 : sys_owner s !! chan = Some t') by (apply Hl; by rewrite Ht'). congruence.
  - intros t p r w' i Ht Hrun Hin.
    destruct (access_result host _ _ _ t p r w' Hi Hc Ht Hrun) as (_ & -> & _). by apply next_entries.
Qed.

(** ** Data races *)

(** What a thread touches of the entries, it touches inside; what it touches of
    a response or a closure, it owns. *)
Lemma touches_own (r : RpcState UO) p l : l ∈ reads_at (accesses r p) ∨ l ∈ writes_at (accesses r p) →
  match l with
  | LEntries chan => inside p = Some chan
  | LResponse d => held Response p = Some d
  | LDone k => held Done p = Some k
  | LId | LOutput _ => True
  end.
Proof using.
  intros H. destruct p; simpl in H; repeat case_match; simpl in H;
    rewrite ?elem_of_nil, ?list_elem_of_singleton in H; destruct H as [H|H]; try done; subst l; simpl; congruence.
Qed.

(** C12: the only locations that threads race on are the counter and the output
    buffers of connections.  The entries of a channel are protected by its
    mutex, and the response and the closure of a call are handed from the caller
    to the entry to the thread that completes the call. *)
Theorem races_confined w tr s l :
  ready w → runs host any (quiet w) tr s → race s l → l = LId ∨ ∃ buf, l = LOutput buf.
Proof using All.
  intros Hw Hr (t & t' & p & p' & Hne & Ht & Ht' & Hc).
  destruct (ready_inv w any tr s Hw Hr) as [Hi _].
  assert (Hp : l ∈ reads_at (accesses (rpc (sys_world s)) p) ∨ l ∈ writes_at (accesses (rpc (sys_world s)) p))
    by (destruct Hc as [[? _]|[? _]]; auto).
  assert (Hp' : l ∈ reads_at (accesses (rpc (sys_world s)) p') ∨ l ∈ writes_at (accesses (rpc (sys_world s)) p'))
    by (destruct Hc as [[_ [?|?]]|[_ ?]]; auto).
  apply touches_own in Hp, Hp'.
  assert (Hown : ∀ o d, held o p = Some d → held o p' = Some d → False).
  { intros o d Hd Hd'. apply Hne. assert (inl t = inl t' :> nat + ptr * Z) as [= ->]; [|done].
    apply (ex_one _ _ (ti_owned _ _ _ Hi o) _ _ d); cbn [owns]; [by rewrite Ht|by rewrite Ht']. }
  destruct l as [|chan|buf|d|k]; [by left| |right; by exists buf|exfalso; by eapply Hown..].
  exfalso. apply Hne. by apply (proj1 (critical_sections_exclusive w tr s chan Hw Hr) t t' p p').
Qed.

(** ** Sequential runs *)

(** Without interleaving the accesses of [CallMethod] and of [onRpcMessage]
    one after the other are these functions, in every state and faults included:
    cutting them at their accesses changed nothing else. *)
Theorem functions_alone w :
  (∀ chan method request response done,
     alone host 7 (CallLoad (mkCall chan method request (mkOut response done))) w =
     CallMethod host chan method request response done w) ∧
  (∀ chan c m, alone host 9 (RecvEnter chan c m) w = onRpcMessage host chan c m w).
Proof using. split; intros; [apply alone_CallMethod|apply alone_onRpcMessage]. Qed.

(** ** Every function returns *)

(** A thread makes an access. *)
Definition go s s' : Prop := ∃ t p r w', sys_threads s !! t = Some p ∧ may_go p (sys_owner s) = true ∧
  exec host p (sys_world s) = Ok (r, w') ∧
  s' = mkSys w' (sync_after t p (sys_owner s)) (moved t r (sys_threads s)).

Lemma go_step s s' : go s s' → ∃ e, tstep host e s s'.
Proof using. intros (t & p & r & w' & Ht & Hg & Hx & ->). eexists. by eapply step_go. Qed.

(** The mutex a thread holds, as the only one that is held. *)
Definition holds t p : gmap ptr nat := match inside p with Some chan => {[ chan := t ]} | None => ∅ end.

Lemma alone_go fuel t p th w w' : th !! t = Some p → alone host fuel p w = Ok (tt, w') →
  rtc go (mkSys w (holds t p) th) (mkSys w' ∅ (moved t None th)).
Proof using.
  revert p th w. induction fuel as [|fuel IH]; intros p th w Ht Hrun; [done|].
  rewrite alone_step in Hrun. apply bind_inv in Hrun as (q & w1 & Hx & Hrun).
  pose proof (exec_inside host p q w w1 Hx) as Hin.
  assert (Hg : may_go p (holds t p) = true ∧
    sync_after t p (holds t p) = match q with Some p' => holds t p' | None => ∅ end).
  { unfold may_go, sync_after, holds. destruct (sync_of p) as [|chan|chan].
    - rewrite <- Hin. by destruct q.
    - destruct Hin as [-> Hin]. rewrite bool_decide_true by done. split; [done|].
      destruct q as [p'|]; [|done]. simpl in Hin. by rewrite Hin.
    - destruct Hin as [-> Hin]. split; [done|]. rewrite delete_singleton_eq.
      destruct q as [p'|]; [|done]. simpl in Hin. by rewrite Hin. }
  destruct Hg as [Hg Hs].
  eapply rtc_l; [by exists t, p, q, w1|]. cbn [sys_world sys_owner sys_threads]. rewrite Hs.
  destruct q as [p'|].
  - assert (moved t None th = moved t None (moved t (Some p') th)) as ->.
    { apply map_eq. intros t'. destruct (decide (t = t')) as [<-|Hne]; [by rewrite !moved_eq|].
      by rewrite !moved_ne. }
    apply IH; [apply moved_eq|exact Hrun].
  - cbn in Hrun. injection Hrun as <-. apply rtc_refl.
Qed.

(** What a call or a received message does to the process sequentially is a
    schedule of the threads, whatever the other threads are at, as long as none
    of them holds a mutex. *)
Theorem sequential_is_a_schedule w w' th t :
  th !! t = None →
  (∀ chan method request response done, CallMethod host chan method request response done w = Ok (tt, w') →
     rtc go (mkSys w ∅ (<[t := CallLoad (mkCall chan method request (mkOut response done))]> th)) (mkSys w' ∅ th)) ∧
  (∀ chan c m, onRpcMessage host chan c m w = Ok (tt, w') →
     rtc go (mkSys w ∅ (<[t := RecvEnter chan c m]> th)) (mkSys w' ∅ th)).
Proof using.
  intros Ht.
  assert (Hgo : ∀ fuel p, inside p = None → alone host fuel p w = Ok (tt, w') →
    rtc go (mkSys w ∅ (<[t := p]> th)) (mkSys w' ∅ th)).
  { intros fuel p Hp Hrun. pose proof (alone_go fuel t p (<[t := p]> th) w w' (lookup_insert_eq _ _ _) Hrun) as H.
    unfold holds in H. rewrite Hp in H.
    assert (moved t None (<[t := p]> th) = th) as Hm; [|by rewrite Hm in H].
    apply map_eq. intros t'. destruct (decide (t = t')) as [<-|Hne]; [by rewrite moved_eq|].
    rewrite moved_ne by done. by apply lookup_insert_ne. }
  split; intros * Hrun; eapply Hgo; try done;
    [erewrite alone_CallMethod; exact Hrun|erewrite alone_onRpcMessage; exact Hrun].
Qed.

(** The accesses that all threads have left, at most. *)
Definition work th : nat := map_fold (λ _ p n, (accesses_left p + n)%nat) 0%nat th.

Lemma work_insert t p th : th !! t = None → work (<[t := p]> th) = (accesses_left p + work th)%nat.
Proof using. intros H. unfold work. rewrite map_fold_insert_L; [done| |done]. intros; lia. Qed.
Lemma work_moved t p r th : th !! t = Some p →
  (work (moved t r th) + accesses_left p = work th + match r with Some p' => accesses_left p' | None => 0 end)%nat.
Proof using.
  intros Ht. assert (Hd : delete t th !! t = None) by apply lookup_delete_eq.
  rewrite <- (insert_delete_id th t p Ht) at 2. rewrite work_insert by done.
  assert (moved t r th = match r with Some p' => <[t := p']> (delete t th) | None => delete t th end) as ->.
  { apply map_eq. intros t'. unfold moved. destruct (decide (t = t')) as [<-|Hne].
    - rewrite lookup_partial_alter_eq. destruct r; [by rewrite lookup_insert_eq|by rewrite lookup_delete_eq].
    - rewrite lookup_partial_alter_ne by done.
      destruct r; rewrite ?lookup_insert_ne by done; by rewrite lookup_delete_ne. }
  destruct r; [rewrite work_insert by done|]; lia.
Qed.

Lemma next_less p r p' : (next p r).1 = Some p' → (accesses_left p' < accesses_left p)%nat.
Proof using.
  destruct p; simpl; repeat case_match; intros; simplify_eq/=; lia.
Qed.

Lemma go_less s s' : sys_inv s → go s s' → (work (sys_threads s') < work (sys_threads s))%nat.
Proof using All.
  intros [Hi Hc] (t & p & r & w' & Ht & Hg & Hx & ->). cbn [sys_threads].
  destruct (access_result host _ _ _ t p r w' Hi Hc Ht Hx) as (Hr & _).
  pose proof (work_moved t p r (sys_threads s) Ht) as Hwork. destruct r as [p'|].
  - pose proof (next_less p _ p' (eq_sym Hr)). lia.
  - assert (0 < accesses_left p)%nat by (destruct p; simpl; lia). lia.
Qed.
Lemma go_inv s s' : sys_inv s → go s s' → sys_inv s'.
Proof using All. intros Hi [e He]%go_step. by eapply tstep_inv. Qed.

(** Who waits for a mutex waits for a thread that can go on. *)
Lemma someone_goes s t p : sys_inv s → sys_threads s !! t = Some p → stops p = false → ∃ s', go s s'.
Proof using All.
  intros Hi Ht Ho.
  assert (Hgo : ∀ t p, sys_threads s !! t = Some p → stops p = false → may_go p (sys_owner s) = true → ∃ s', go s s').
  { clear t p Ht Ho. intros t p Ht Ho Hg. destruct (can_go s t p Hi Ht Ho) as (w' & Hrun & _).
    eexists. by exists t, p, (next p (rpc (sys_world s))).1, w'. }
  destruct (may_go p (sys_owner s)) eqn:Hg; [by eapply Hgo|].
  unfold may_go in Hg. destruct (sync_of p) as [|chan|]; [done| |done].
  apply bool_decide_eq_false in Hg. destruct (sys_owner s !! chan) as [t'|] eqn:Hown; [|done].
  destruct Hi as [Hi _].
  pose proof (proj1 (ti_lock _ _ _ Hi t' chan) Hown) as (p' & Ht' & Hin)%bind_Some.
  apply (Hgo t' p' Ht'); [by destruct p'|].
  unfold may_go. pose proof (next_inside p' (rpc (sys_world s))) as Hn.
  destruct (sync_of p'); [done| |done]. destruct Hn as [Hn _]. congruence.
Qed.

(** C14: every function returns.  From any reachable state, however the threads
    are scheduled, they make at most [work] accesses; when no thread can go on,
    every thread has returned, except for those at which [_id] overflows or the
    assertion fails (no deadlock); and a schedule that leads there exists. *)
Theorem threads_always_finish w tr s :
  ready w → runs host any (quiet w) tr s →
  (∀ n s', nsteps go n s s' → (n ≤ work (sys_threads s))%nat) ∧
  (∀ s', rtc go s s' → (∀ s'', ¬ go s' s'') → map_Forall (λ _ p, stops p = true) (sys_threads s')) ∧
  ∃ s', rtc go s s' ∧ map_Forall (λ _ p, stops p = true) (sys_threads s').
Proof using All.
  intros Hw Hr. pose proof (ready_inv w any tr s Hw Hr) as Hi. clear Hw Hr. split_and!.
  - intros n s' Hn. revert Hi. induction Hn as [s|n s s1 s' Hg _ IH]; intros Hi; [lia|].
    pose proof (go_less s s1 Hi Hg). specialize (IH (go_inv s s1 Hi Hg)). lia.
  - intros s' Hs Hstuck t p Ht.
    assert (Hi' : sys_inv s') by (clear Hstuck Ht; induction Hs; eauto using go_inv).
    destruct (stops p) eqn:Ho; [done|]. exfalso.
    destruct (someone_goes s' t p Hi' Ht Ho) as [s'' Hg]. by eapply Hstuck.
  - remember (work (sys_threads s)) as n eqn:Hn. revert s Hi Hn.
    induction (lt_wf n) as [n _ IH]. intros s Hi ->.
    destruct (decide (map_Forall (λ _ p, stops p = true) (sys_threads s))) as [Ha|Ha].
    { by exists s. }
    apply map_not_Forall in Ha as (t & p & Ht & Ho%not_true_is_false); [|apply _].
    destruct (someone_goes s t p Hi Ht Ho) as [s1 Hg].
    destruct (IH _ (go_less s s1 Hi Hg) s1 (go_inv s s1 Hi Hg) eq_refl) as (s' & Hs & Ha').
    exists s'. split; [by eapply rtc_l|done].
Qed.

(** ** Closures *)

(** The closure [k] was made, and no thread and no entry has it. *)
Definition gone k s : Prop :=
  (k < rpc_brk (rpc (sys_world s)))%positive ∧ ∀ a, owns Done (rpc (sys_world s)) (sys_threads s) a ≠ Some k.

Lemma next_brk p (r : RpcState UO) : rpc_brk (next p r).2 = rpc_brk r.
Proof using. destruct p; try done; simpl; [by destruct (out_response out)|by destruct done]. Qed.
Lemma run_event p (q : option pc) k : event_of p q = Ran k → ∃ d, p = RecvRun d (Some k).
Proof using.
  destruct p as [| | | | | | | | |? ?| | | | |d [k'|]|]; simpl; try done.
  - by destruct q as [[]|].
  - intros [= ->]. by exists d.
Qed.

Lemma gone_stays e s s' k : tstep host e s s' → sys_inv s → gone k s → gone k s' ∧ e ≠ Ran k.
Proof using All.
  intros Hstep [Hi Hc] [Hk Hown]. unfold gone. destruct Hstep as [t chan method request x u p s w' Ht Hcan Hrun
    |t chan c m s Ht Hcan|t p r s w' Ht Hgo Hrun]; cbn [sys_world sys_threads].
  - rewrite begin_call_run in Hrun. injection Hrun as <- <-. rewrite rpc_put.
    split; [|done]. split; [destruct u; simpl in *; lia|].
    intros [t'|[c i]]; cbn [owns]; [|rewrite new_entry; apply (Hown (inr (c, i)))].
    destruct (decide (t = t')) as [<-|Hne].
    + rewrite lookup_insert_eq. simpl. destruct u; simpl; [|done]. intros [= Hx]. simpl in *. lia.
    + rewrite lookup_insert_ne by done. apply (Hown (inl t')).
  - split; [|done]. split; [done|]. intros [t'|[c' i]]; cbn [owns]; [|apply (Hown (inr (c', i)))].
    destruct (decide (t = t')) as [<-|Hne]; [by rewrite lookup_insert_eq|].
    rewrite lookup_insert_ne by done. apply (Hown (inl t')).
  - destruct (access_result host _ _ _ t p r w' Hi Hc Ht Hrun) as (-> & Hr & _). rewrite Hr, next_brk.
    split; [split; [done|]|].
    + intros a Ha. eapply Hown, next_owns; [exact Ht|by eapply Hi|exact Ha].
    + intros [d ->]%run_event. apply (Hown (inl t)). cbn [owns]. by rewrite Ht.
Qed.

Lemma ran_gone s s' k : tstep host (Ran k) s s' → sys_inv s → gone k s'.
Proof using All.
  intros Hstep [Hi Hc]. remember (Ran k) as e eqn:He. destruct Hstep as [|
    |t p r s w' Ht Hgo Hrun]; try done.
  apply run_event in He as [d ->].
  destruct (access_result host _ _ _ t _ r w' Hi Hc Ht Hrun) as (-> & Hr & _).
  assert (Hk : owns Done (rpc (sys_world s)) (sys_threads s) (inl t) = Some k) by (cbn [owns]; by rewrite Ht).
  pose proof (ti_owned _ _ _ Hi Done) as Ho. split; cbn [sys_world sys_threads]; rewrite Hr.
  - rewrite next_brk. destruct (ex_live _ _ Ho _ _ Hk) as [u Hu]. apply Pos.lt_nle. intros Hb.
    destruct (ti_fresh _ _ _ Hi k Hb) as (_ & Hn & _). congruence.
  - intros a Ha. pose proof (next_owns Done _ _ _ _ a k Ht I Ha) as Ha'.
    assert (a = inl t) as -> by (by eapply (ex_one _ _ Ho)).
    cbn [owns] in Ha. fold (moved t (next (RecvRun d (Some k)) (rpc (sys_world s))).1 (sys_threads s)) in Ha.
    by rewrite moved_eq in Ha.
Qed.

Definition ran tr : list ptr := omap (λ e, match e with Ran k => Some k | _ => None end) tr.

Lemma gone_never_runs ok s0 tr s k : runs host ok s0 tr s → sys_inv s0 → gone k s0 → gone k s ∧ k ∉ ran tr.
Proof using All.
  intros Hr Hi Hg. induction Hr as [|tr e s s' Hr IH Hstep _]; [split; [done|apply not_elem_of_nil]|].
  destruct IH as [Hg' Hn]. destruct (gone_stays e s s' k Hstep) as [Hg2 He]; [by eapply runs_inv|done|].
  split; [done|]. destruct e; simpl; try done. rewrite not_elem_of_cons. split; [congruence|done].
Qed.

(** C15: no closure runs twice, in any interleaving and whatever the peer
    answers, more than once or under a number it made up: a closure that ran
    is no longer in the reach of any thread or channel. *)
Theorem closures_run_once w tr s :
  ready w → runs host any (quiet w) tr s → NoDup (ran tr) ∧ ∀ k, k ∈ ran tr → gone k s.
Proof using All.
  intros Hw Hr. induction Hr as [|tr e s s' Hr IH Hstep _].
  { split; [constructor|]. intros k ?%elem_of_nil. done. }
  destruct IH as [Hnd Hgone]. assert (Hi : sys_inv s) by (by eapply ready_inv).
  assert (Hold : ∀ k, k ∈ ran tr → gone k s' ∧ e ≠ Ran k) by (intros k Hk; by eapply gone_stays, Hgone).
  destruct e as [| |k|]; try (split; [done|]; intros k Hk; by apply Hold).
  split.
  - constructor; [|done]. intros Hk. by apply Hold in Hk as [_ ?].
  - intros k' [->|Hk]%elem_of_cons; [by eapply ran_gone|by apply Hold].
Qed.

(** ** Answers *)

(** What an answer takes is what the entry of its number holds. *)
Lemma took_entry s s' chan id out : tstep host (Took chan id out) s s' → sys_inv s →
  out = default (mkOut NULL NULL) (entry (rpc (sys_world s)) chan id).
Proof using All.
  intros Hstep [Hi Hc]. remember (Took chan id out) as e eqn:He. destruct Hstep as [|
    |t p r s w' Ht Hgo Hrun]; try done.
  destruct (access_result host _ _ _ t _ r w' Hi Hc Ht Hrun) as (-> & _).
  pose proof (ti_points _ _ _ Hi t p Ht) as Hok.
  destruct p; cbn [next fst event_of] in He; try done.
  - destruct (entry _ chan0 _) eqn:Hx; [done|]. injection He as <- <- <-. by rewrite Hx.
  - injection He as <- <- <-. cbn [pc_ok] in Hok. by rewrite Hok.
  - by destruct done.
Qed.

(** C9: as long as no two threads are in the increment of [_id] at the same time,
    an answer to a call that was sent finds that call, the first time, and
    nothing the second time: a call is registered before it is sent, so that no
    answer overtakes it, and nobody else takes or replaces its entry. *)
Theorem answers_find_calls w tr s s' chan id out out' :
  ready w → runs host serial (quiet w) tr s →
  Sent chan id out ∈ tr → tstep host (Took chan id out') s s' →
  (Took chan id out ∉ tr ∧ out' = out) ∨ (Took chan id out ∈ tr ∧ out' = mkOut NULL NULL).
Proof using All.
  intros Hw Hr Hsent Htook. pose proof (ready_inv w _ tr s Hw Hr) as Hi. destruct Hw as [Hrpc Hc].
  assert (Hn : sys_numbers s tr).
  { eapply runs_numbers; [done|by apply quiet_inv|apply quiet_serial|by apply quiet_numbers]. }
  rewrite (took_entry s s' chan id out' Htook Hi).
  destruct (ni_sent _ _ _ Hn chan id out Hsent) as [Hne Hreg].
  assert (Hnone : Took chan id out ∈ tr → entry (rpc (sys_world s)) chan id = None).
  { intros Ht. destruct (ni_took _ _ _ Hn chan id out Ht Hne) as [_ Hu].
    destruct (entry _ chan id) as [o|] eqn:He; [|done]. exfalso.
    eapply (Hu (inr (chan, id))). apply entry_uses. by eexists. }
  destruct Hreg as [Ht|He].
  - right. split; [done|]. by rewrite Hnone.
  - left. split; [|by rewrite He]. intros Ht. rewrite Hnone in He; done.
Qed.
End props.
