(* ===== verification/ThreadRace.v ===== *)
(** * The race on the counter of calls

    [int64_t id = ++_id] of src/rpcChannel.cpp is outside the mutex and [_id] is
    a plain [int]: two threads can load the same value and store the same
    number.  The second call then replaces the entry of the first.  The schedule
    is built here on the descriptions of the accesses by [next]. *)

From S2P Require Import Prelude Endian ConnQueue External World Codec Decoder Wire.
From S2P Require Import ProtoWire RpcPb RpcPbProps RpcPbParse RpcChannel ChannelLemmas RpcCalls RpcInv RpcSteps RpcThreads ThreadAlone ThreadInv ThreadSteps ThreadNumbers ThreadProps.

Section race.
Context {EB : EvbufferOps} {EBL : EvbufferLaws EB} {EBN : EvbufferNoOOM EB}.
Context {ZL : ZlibOps} {ZLL : ZlibLaws ZL} {WO : WireOps} {WL : WireLaws WO}.
Context {PO : ParseOps} {PL : ParseLaws PO} {UO : UserOps}.
Context {E : Type} {RH : RpcHost UO E} {UC : UserClosures E} {US : UserServices E}.
Context {UE : UserEffects RH UC}.
Context (host : endian).
Implicit Types (w : World EB E) (r : RpcState UO) (chan c d k : ptr) (p : pc) (m : RpcMessage.t) (t : nat).
Implicit Types (th : gmap nat pc) (tr : list event) (out : OutstandingCall).
Abbreviation system := (sys (EB:=EB) (E:=E)).
Implicit Types (s : system).

(** ** A closure without owner is never freed *)

Lemma gone_kept e s s' k : tstep host e s s' → sys_inv s → gone k s →
  closures (rpc (sys_world s')) !! k = closures (rpc (sys_world s)) !! k.
Proof using All.
  intros Hstep [Hi Hc] [Hk Hown]. destruct Hstep as [t chan method request x u p s w' Ht Hcan Hrun
    |t chan c m s Ht Hcan|t p q s w' Ht Hgo Hrun]; cbn [sys_world sys_threads]; [|done|].
  - rewrite begin_call_run in Hrun. injection Hrun as <- <-. rewrite rpc_put.
    destruct u; [|done]. simpl. rewrite lookup_insert_ne; [done|]. intros <-. lia.
  - destruct (access_result host _ _ _ t p q w' Hi Hc Ht Hrun) as (_ & -> & _).
    destruct p; try done; simpl; [by destruct (out_response out)|].
    destruct done as [k'|]; [|done]. simpl. rewrite lookup_delete_ne; [done|]. intros ->.
    apply (Hown (inl t)). cbn [owns]. by rewrite Ht.
Qed.

Lemma gone_leaks ok s0 tr s k : runs host ok s0 tr s → sys_inv s0 → gone k s0 →
  closures (rpc (sys_world s)) !! k = closures (rpc (sys_world s0)) !! k.
Proof using All.
  intros Hr Hi Hg. induction Hr as [|tr e s s' Hr IH Hstep _]; [done|]. rewrite <- IH.
  eapply gone_kept; [done|by eapply runs_inv|]. by eapply gone_never_runs.
Qed.

(** Two updates of the entries of a channel. *)
Lemma change_twice chan f g r : change_entries chan g (change_entries chan f r) = change_entries chan (λ o, g (f o)) r.
Proof using.
  unfold change_entries, set_channels. simpl. f_equal. apply map_eq. intros c.
  destruct (decide (c = chan)) as [->|Hne].
  - rewrite !lookup_alter_eq. by destruct (channels r !! chan).
  - by rewrite !lookup_alter_ne.
Qed.
Lemma change_ext chan f g r : (∀ o, f o = g o) → change_entries chan f r = change_entries chan g r.
Proof using.
  intros H. unfold change_entries. f_equal. apply map_eq. intros c.
  destruct (decide (c = chan)) as [->|Hne].
  - rewrite !lookup_alter_eq. destruct (channels r !! chan); [|done]. simpl. by rewrite H.
  - by rewrite !lookup_alter_ne.
Qed.

Lemma moved_moved t (q q' : option pc) th : moved t q' (moved t q th) = moved t q' th.
Proof using.
  apply map_eq. intros t'. destruct (decide (t = t')) as [<-|Hne]; [by rewrite !moved_eq|].
  by rewrite !moved_ne.
Qed.

(** ** Schedules

    Some run, all of whose threads satisfy [ok], ends with these threads, these
    mutexes and this state of the channels. *)

Section schedules.
Context (ok : gmap nat pc → Prop).

Definition reaches s0 tr r (owner : gmap ptr nat) th : Prop :=
  ∃ w, runs host (λ s, ok (sys_threads s)) s0 tr (mkSys w owner th) ∧ rpc w = r.

Lemma reaches_go s0 tr r owner th t p :
  sys_inv s0 → reaches s0 tr r owner th → th !! t = Some p → may_go p owner = true → stops p = false →
  ok (moved t (next p r).1 th) →
  reaches s0 (event_of p (next p r).1 :: tr) (next p r).2 (sync_after t p owner) (moved t (next p r).1 th).
Proof using All.
  intros Hi0 (w & Hr & <-) Ht Hg Ho Hok. assert (Hi : sys_inv (mkSys w owner th)) by (by eapply runs_inv).
  destruct (can_go host (mkSys w owner th) t p Hi Ht Ho) as (w' & Hrun & Hr'). exists w'. split; [|exact Hr'].
  eapply runs_step; [exact Hr| |done]. by eapply step_go.
Qed.

Lemma reaches_call s0 tr r owner th t chan method request x u :
  reaches s0 tr r owner th → th !! t = None → is_Some (channels r !! chan) →
  (∀ id, fits (call_msg id method request)) →
  ok (moved t (Some (CallLoad (new_call chan method request u r))) th) →
  reaches s0 (Silent :: tr) (new_objects x u r) owner
    (moved t (Some (CallLoad (new_call chan method request u r))) th).
Proof using.
  intros (w & Hr & <-) Ht Hch Hfit Hok. exists (put_rpc (new_objects x u (rpc w)) w). split; [|apply rpc_put].
  eapply runs_step; [exact Hr| |done].
  apply (step_call host t chan method request x u _ (mkSys w owner th)); [done|by split|apply begin_call_run].
Qed.

(** A thread registers its call while nobody holds a mutex. *)
Lemma reaches_register s0 tr r th t cl m id :
  sys_inv s0 → reaches s0 tr r ∅ th → th !! t = Some (CallLock cl m id) → (∀ p, ¬ stores p → ok (moved t (Some p) th)) →
  ∃ tr', reaches s0 (tr' ++ tr) (change_entries (call_chan cl) (insert id (call_out cl)) r) ∅
    (moved t (Some (CallSend cl m id)) th).
Proof using All.
  intros Hi H0 Ht Hok.
  pose proof (reaches_go _ _ _ _ _ t _ Hi H0 Ht eq_refl eq_refl) as H1. cbn in H1.
  specialize (H1 ltac:(apply Hok; intros [])).
  pose proof (reaches_go _ _ _ _ _ t _ Hi H1 (moved_eq _ _ _) eq_refl eq_refl) as H2. cbn in H2.
  rewrite moved_moved in H2. specialize (H2 ltac:(apply Hok; intros [])).
  pose proof (reaches_go _ _ _ _ _ t _ Hi H2 (moved_eq _ _ _) eq_refl eq_refl) as H3. cbn in H3.
  rewrite moved_moved, change_twice in H3. specialize (H3 ltac:(apply Hok; intros [])).
  rewrite (change_ext _ _ (insert id (call_out cl)) _ (map_index_insert _ _)) in H3.
  pose proof (reaches_go _ _ _ _ _ t _ Hi H3 (moved_eq _ _ _) eq_refl eq_refl) as H4. cbn in H4.
  rewrite moved_moved in H4. specialize (H4 ltac:(apply Hok; intros [])).
  unfold sync_after in H4. cbn in H4. rewrite delete_insert_id in H4 by apply lookup_empty.
  exists [Silent; Silent; Silent; Silent]. exact H4.
Qed.

(** A thread goes from the load of the number to the sending of the request. *)
Lemma reaches_send s0 tr r th t cl :
  sys_inv s0 → reaches s0 tr r ∅ th → th !! t = Some (CallLoad cl) → _id r ≠ INT_MAX →
  (∀ p, ok (moved t (Some p) th)) →
  let id := _id r + 1 in
  ∃ tr' m, reaches s0 tr' (change_entries (call_chan cl) (insert id (call_out cl)) (put_id id r)) ∅
    (moved t (Some (CallSend cl m id)) th).
Proof using All.
  intros Hi H0 Ht Hmax Hok id.
  pose proof (reaches_go _ _ _ _ _ t _ Hi H0 Ht eq_refl eq_refl) as H1. cbn in H1.
  specialize (H1 ltac:(by apply Hok)).
  assert (Ho : stops (CallStore cl call_head (_id r)) = false) by by apply store_stops.
  pose proof (reaches_go _ _ _ _ _ t _ Hi H1 (moved_eq _ _ _) eq_refl Ho) as H2. cbn in H2.
  rewrite moved_moved in H2. specialize (H2 ltac:(by apply Hok)).
  destruct (reaches_register _ _ _ _ t _ _ _ Hi H2 (moved_eq _ _ _)) as [tr' H3].
  { intros p _. rewrite moved_moved. by apply Hok. }
  rewrite moved_moved in H3. by do 2 eexists.
Qed.
End schedules.

(** All runs. *)
Abbreviation reaches_any := (reaches (λ _, True)).
Lemma reaches_next s0 tr r owner th t p :
  sys_inv s0 → reaches_any s0 tr r owner th → th !! t = Some p → may_go p owner = true → stops p = false →
  reaches_any s0 (event_of p (next p r).1 :: tr) (next p r).2 (sync_after t p owner) (moved t (next p r).1 th).
Proof using All. intros. by apply reaches_go. Qed.

(** A thread registers and sends its call while nobody holds a mutex. *)
Lemma reaches_finish s0 tr r th t cl m id :
  sys_inv s0 → reaches_any s0 tr r ∅ th → th !! t = Some (CallLock cl m id) →
  ∃ tr', reaches_any s0 (Sent (call_chan cl) id (call_out cl) :: tr' ++ tr)
    (change_entries (call_chan cl) (insert id (call_out cl)) r) ∅ (moved t None th).
Proof using All.
  intros Hi H0 Ht. destruct (reaches_register _ _ _ _ _ t _ _ _ Hi H0 Ht) as [tr' H1]; [done|].
  pose proof (reaches_next _ _ _ _ _ t _ Hi H1 (moved_eq _ _ _) eq_refl eq_refl) as H2. cbn in H2.
  rewrite moved_moved in H2. exists tr'. exact H2.
Qed.

(** ** Two threads *)

Definition both (a b : option pc) : gmap nat pc := moved 0%nat a (moved 1%nat b ∅).
Lemma both_0 a b : both a b !! 0%nat = a.
Proof using. apply moved_eq. Qed.
Lemma both_1 a b : both a b !! 1%nat = b.
Proof using. unfold both. rewrite moved_ne by done. apply moved_eq. Qed.
Lemma both_ext th a b :
  th !! 0%nat = a → th !! 1%nat = b → (∀ t, t ≠ 0%nat → t ≠ 1%nat → th !! t = None) → th = both a b.
Proof using.
  intros H0 H1 H. apply map_eq. intros t.
  destruct (decide (t = 0%nat)) as [->|Hn0]; [by rewrite both_0|].
  destruct (decide (t = 1%nat)) as [->|Hn1]; [by rewrite both_1|].
  unfold both. rewrite H, !moved_ne by done. by rewrite lookup_empty.
Qed.
Lemma moved_0 q a b : moved 0%nat q (both a b) = both q b.
Proof using. apply moved_moved. Qed.
Lemma moved_1 q a b : moved 1%nat q (both a b) = both a q.
Proof using.
  apply both_ext; [by rewrite moved_ne, both_0|apply moved_eq|].
  intros t H0 H1. unfold both. by rewrite !moved_ne, lookup_empty.
Qed.
Lemma both_none : both None None = ∅.
Proof using. symmetry. by apply both_ext. Qed.

(** Both threads load the number before either stores. *)
Lemma reaches_same_number w tr r cl1 cl2 :
  sys_inv (quiet w) → _id r ≠ INT_MAX →
  reaches_any (quiet w) tr r ∅ (both (Some (CallLoad cl1)) (Some (CallLoad cl2))) →
  let id := _id r + 1 in
  ∃ tr', reaches_any (quiet w) tr' (put_id id r) ∅
    (both (Some (CallLock cl1 (numbered cl1 id) id)) (Some (CallLock cl2 (numbered cl2 id) id))).
Proof using All.
  intros Hi Hmax H0 id.
  pose proof (reaches_next _ _ _ _ _ 0 _ Hi H0 (both_0 _ _) eq_refl eq_refl) as H1. cbn in H1.
  rewrite moved_0 in H1.
  pose proof (reaches_next _ _ _ _ _ 1 _ Hi H1 (both_1 _ _) eq_refl eq_refl) as H2. cbn in H2.
  rewrite moved_1 in H2.
  assert (Ho : ∀ cl, stops (CallStore cl call_head (_id r)) = false)
    by (intros cl; by apply store_stops).
  pose proof (reaches_next _ _ _ _ _ 0 _ Hi H2 (both_0 _ _) eq_refl (Ho _)) as H3. cbn in H3.
  rewrite moved_0 in H3.
  pose proof (reaches_next _ _ _ _ _ 1 _ Hi H3 (both_1 _ _) eq_refl (Ho _)) as H4. cbn in H4.
  rewrite moved_1 in H4. eexists. exact H4.
Qed.

(** C10: two threads that call at the same time can get one number: the second
    call then replaces the entry of the first.  Both requests are sent under the
    number; the map keeps only the second.  From then on no schedule and no
    answer of the peer runs the closure of the first call, or frees it. *)
Theorem racing_calls_lose_one w chan method1 request1 (x1 : UMsg) (u1 : UserCode) method2 request2 (x2 : UMsg)
    (u2 : option UserCode) :
  ready w → _id (rpc w) ≠ INT_MAX →
  can_call w chan method1 request1 → can_call w chan method2 request2 →
  let id := _id (rpc w) + 1 in
  ∃ tr w' out1 out2 k,
    runs host any (quiet w) tr (quiet w') ∧
    Sent chan id out1 ∈ tr ∧ Sent chan id out2 ∈ tr ∧
    out_done out1 = Some k ∧ out_done out2 ≠ Some k ∧
    entry (rpc w') chan id = Some out2 ∧
    ∀ tr' s, runs host any (quiet w') tr' s →
      k ∉ ran tr' ∧ closures (rpc (sys_world s)) !! k = Some (UserClosure u1).
Proof using All.
  intros Hw Hmax [Hch Hfit1] [_ Hfit2] id.
  assert (Hi : sys_inv (quiet w)) by (apply quiet_inv; apply Hw).
  assert (H0 : reaches_any (quiet w) [] (rpc w) ∅ (both None None)).
  { exists w. split; [|done]. rewrite both_none. apply runs_start. }
  pose proof (reaches_call _ _ _ _ _ _ 0 chan method1 request1 x1 (Some u1) H0 (both_0 _ _) Hch Hfit1 I) as H1.
  rewrite moved_0 in H1. set (cl1 := new_call chan method1 request1 (Some u1) (rpc w)) in *.
  set (r1 := new_objects x1 (Some u1) (rpc w)) in *.
  pose proof (reaches_call _ _ _ _ _ _ 1 chan method2 request2 x2 u2 H1 (both_1 _ _) Hch Hfit2 I) as H2.
  rewrite moved_1 in H2. set (cl2 := new_call chan method2 request2 u2 r1) in *.
  set (r2 := new_objects x2 u2 r1) in *.
  assert (Hid2 : _id r2 = _id (rpc w)) by (unfold r2; by destruct u2).
  destruct (reaches_same_number w _ r2 cl1 cl2 Hi ltac:(by rewrite Hid2) H2) as [tr3 H3].
  rewrite Hid2 in H3. fold id in H3.
  destruct (reaches_finish _ _ _ _ 0 _ _ _ Hi H3 (both_0 _ _)) as [tr4 H4]. rewrite moved_0 in H4.
  destruct (reaches_finish _ _ _ _ 1 _ _ _ Hi H4 (both_1 _ _)) as [tr5 H5]. rewrite moved_1, both_none in H5.
  change (call_chan cl1) with chan in H5. change (call_chan cl2) with chan in H5.
  destruct H5 as (w' & Hrun & Hr'). set (k := Pos.succ (rpc_brk (rpc w))).
  assert (Hi' : sys_inv (quiet w')) by (by eapply runs_inv).
  assert (Hr2 : closures r2 !! k = Some (UserClosure u1)).
  { unfold r2, new_objects, r1, k. destruct u2; simpl; [rewrite lookup_insert_ne by lia|];
      by rewrite lookup_insert_eq. }
  assert (Hk2 : out_done (call_out cl2) ≠ Some k).
  { unfold cl2, new_call, k. destruct u2; simpl; [|done]. intros [= H]. lia. }
  destruct Hch as [ch Hch].
  assert (Hchan : channels (put_id id r2) !! chan = Some ch) by (unfold r2; by destruct u2).
  assert (Hent : ∀ c i, entry (rpc w') c i =
    if decide (c = chan ∧ i = id) then Some (call_out cl2) else entry (rpc w) c i).
  { intros c i. rewrite Hr', change_twice. case_decide as Hd.
    - destruct Hd as [-> ->]. rewrite entry_change, Hchan. simpl. by rewrite lookup_insert_eq.
    - destruct (decide (c = chan)) as [->|Hne].
      + rewrite entry_change, Hchan. unfold entry. rewrite Hch. simpl.
        rewrite !lookup_insert_ne by naive_solver. done.
      + rewrite entry_change_ne by done. unfold r2. by destruct u2. }
  assert (Hg : gone k (quiet w')).
  { split; [unfold quiet; cbn [sys_world]; rewrite Hr'; unfold k, r2; destruct u2; simpl; lia|].
    intros [t|[c i]]; [done|]. cbn [owns quiet sys_world]. rewrite Hent. case_decide as Hd; [exact Hk2|].
    intros Hk. destruct Hi as [Hi _]. 
    destruct (ex_live _ _ (ti_owned _ _ _ Hi Done) (inr (c, i)) k Hk) as [u Hu].
    destruct (ti_fresh _ _ _ Hi k ltac:(unfold k; simpl; lia)) as (_ & Hn & _). congruence. }
  exists (Sent chan id (call_out cl2) :: tr5 ++ Sent chan id (call_out cl1) :: tr4 ++ tr3), w',
    (call_out cl1), (call_out cl2), k.
  split_and!; [exact Hrun| |by left|done|exact Hk2| |].
  - right. apply elem_of_app. right. by left.
  - rewrite Hent. by rewrite decide_True.
  - intros tr' s Hs. split; [by eapply gone_never_runs|].
    rewrite (gone_leaks any (quiet w') tr' s k Hs Hi' Hg). cbn [quiet sys_world]. by rewrite Hr'.
Qed.
(** ** The races *)

Lemma apart_both a b :
  (∀ p, a = Some p → ¬ stores p) ∨ (∀ p, b = Some p → ¬ stores p) → apart (both a b).
Proof using.
  intros H t t' p p' Ht Ht' Hp Hp'.
  assert (Hb : ∀ t p, both a b !! t = Some p → stores p → (t = 0%nat ∧ a = Some p) ∨ (t = 1%nat ∧ b = Some p)).
  { clear. intros t p Ht Hp. destruct (decide (t = 0%nat)) as [->|H0]; [rewrite both_0 in Ht; by left|].
    destruct (decide (t = 1%nat)) as [->|H1]; [rewrite both_1 in Ht; by right|].
    unfold both in Ht. by rewrite !moved_ne in Ht. }
  destruct (Hb t p Ht Hp) as [[-> Ha]|[-> Ha]], (Hb t' p' Ht' Hp') as [[-> Ha']|[-> Ha']]; try done;
    destruct H as [H|H]; exfalso; naive_solver.
Qed.

(** C13: the races that are left are real: two threads that call on one channel
    can be at the store and the load of the counter at the same time, and, even
    when they increment it in turn, at the writing of their requests to the one
    output buffer of the connection: [CallMethod] sends after it has released
    the mutex. *)
Theorem calls_race w chan method1 request1 (x1 : UMsg) (u1 : option UserCode) method2 request2 (x2 : UMsg)
    (u2 : option UserCode) :
  ready w → _id (rpc w) + 2 ≤ INT_MAX →
  can_call w chan method1 request1 → can_call w chan method2 request2 →
  (∃ tr s, runs host any (quiet w) tr s ∧ race s LId) ∧
  (∃ tr s, runs host serial (quiet w) tr s ∧ race s (LOutput (channels (rpc w) !! chan ≫= conn))).
Proof using All.
  intros Hw Hmax [Hch Hfit1] [_ Hfit2].
  assert (Hi : sys_inv (quiet w)) by (apply quiet_inv; apply Hw).
  assert (Hstart : ∃ r cl1 cl2, call_chan cl1 = chan ∧ call_chan cl2 = chan ∧ _id r = _id (rpc w) ∧
    channels r = channels (rpc w) ∧
    ∃ tr, reaches apart (quiet w) tr r ∅ (both (Some (CallLoad cl1)) (Some (CallLoad cl2)))).
  { assert (H0 : reaches apart (quiet w) [] (rpc w) ∅ (both None None)).
    { exists w. split; [|done]. rewrite both_none. apply runs_start. }
    pose proof (reaches_call _ _ _ _ _ _ 0 chan method1 request1 x1 u1 H0 (both_0 _ _) Hch Hfit1) as H1.
    rewrite moved_0 in H1. specialize (H1 ltac:(apply apart_both; right; intros ? [=])).
    pose proof (reaches_call _ _ _ _ _ _ 1 chan method2 request2 x2 u2 H1 (both_1 _ _)) as H2.
    specialize (H2 ltac:(by destruct u1) Hfit2).
    rewrite moved_1 in H2. specialize (H2 ltac:(apply apart_both; left; intros ? [= <-] [])).
    do 3 eexists. split_and!; [..|eexists; exact H2]; try done; by destruct u1, u2. }
  destruct Hstart as (r & cl1 & cl2 & Hc1 & Hc2 & Hid & Hchans & tr & H0). split.
  - pose proof (reaches_go _ _ _ _ _ _ 0 _ Hi H0 (both_0 _ _) eq_refl eq_refl) as H1. cbn in H1.
    rewrite moved_0 in H1. specialize (H1 ltac:(apply apart_both; right; intros ? [= <-] [])).
    destruct H1 as (w1 & Hrun & _). eexists _, _. split; [by eapply runs_weaken|].
    exists 0%nat, 1%nat. do 2 eexists. split_and!; [done|apply both_0|apply both_1|].
    left. split; [by left|right; by left].
  - destruct (reaches_send _ _ _ _ _ 0 _ Hi H0 (both_0 _ _)) as (tr1 & m1 & H1); [rewrite Hid; lia| |].
    { intros p. rewrite moved_0. apply apart_both. right. intros ? [= <-] []. }
    rewrite moved_0 in H1.
    destruct (reaches_send _ _ _ _ _ 1 _ Hi H1 (both_1 _ _)) as (tr2 & m2 & H2); [simpl; rewrite Hid; lia| |].
    { intros p. rewrite moved_1. apply apart_both. left. intros ? [= <-] []. }
    rewrite moved_1 in H2. destruct H2 as (w2 & Hrun & Hr2).
    assert (Hbuf : channels (rpc w2) !! chan ≫= conn = channels (rpc w) !! chan ≫= conn).
    { rewrite Hr2, Hc1, Hc2. simpl. rewrite !lookup_alter_eq, Hchans. by destruct (channels (rpc w) !! chan). }
    eexists _, _. split; [exact Hrun|].
    exists 0%nat, 1%nat. do 2 eexists. split_and!; [done|apply both_0|apply both_1|].
    left. cbn [accesses writes_at sys_world]. rewrite Hc1, Hc2, Hbuf. split; [by left|left; by left].
Qed.
End race.
