(* ===== verification/ThreadDemo.v ===== *)
(** * Threads on a concrete channel

    Schedules of the echo client of RpcDemo.v: the properties of ThreadProps.v
    and ThreadRace.v at reachable states, and the race on [_id] run to its end. *)

From S2P Require Import Prelude Endian ConnQueue External World Codec Decoder Wire Delivery.
From S2P Require Import ProtoWire RpcPb RpcPbProps RpcPbParse RpcChannel ChannelLemmas RpcCalls RpcInv RpcSteps RpcTrip RpcProps RpcDemo.
From S2P Require Import RpcThreads ThreadAlone ThreadInv ThreadSteps ThreadNumbers ThreadProps ThreadRace.

Section schedule.
Context {EB : EvbufferOps} {ZL : ZlibOps} {WO : WireOps} {PO : ParseOps} {UO : UserOps}.
Context {E : Type} {RH : RpcHost UO E} {UC : UserClosures E} {US : UserServices E}.
Context (host : endian).
Abbreviation system := (sys (EB:=EB) (E:=E)).

Lemma tick_step t (s : system) e s' : tick host t s = Some (e, s') → tstep host e s s'.
Proof.
  unfold tick. destruct (sys_threads s !! t) as [p|] eqn:Ht; [|done].
  destruct (may_go p (sys_owner s)) eqn:Hg; [|done].
  destruct (exec host p (sys_world s)) as [[r w']|f|what] eqn:Hx; [|done..].
  intros [= <- <-]. by apply step_go.
Qed.

(** The step of a thread, by what is seen of it. *)
Definition ticked (t : nat) (s : system) : system := match tick host t s with Some (_, s') => s' | None => s end.
Lemma ticked_step t s e : fst <$> tick host t s = Some e → tstep host e s (ticked t s).
Proof.
  unfold ticked. destruct (tick host t s) as [[e' s']|] eqn:Ht; [|done].
  intros [= <-]. by apply (tick_step t).
Qed.

Lemma schedule_runs (ok : system → Prop) (okb : system → bool) s0 ts tr s tr' s' :
  (∀ s, okb s = true → ok s) → runs host ok s0 tr s →
  schedule host okb ts tr s = Some (tr', s') → runs host ok s0 tr' s'.
Proof.
  intros Hok. revert tr s. induction ts as [|t ts IH]; intros tr s Hr; simpl.
  { by intros [= <- <-]. }
  destruct (tick host t s) as [[e s1]|] eqn:Ht; [|done].
  destruct (okb s1) eqn:H1; [|done]. apply IH. eapply runs_step; [done|by eapply tick_step|by apply Hok].
Qed.

(** The state a schedule leads to, if it can be followed. *)
Definition scheduled (ok : system → bool) (ts : list nat) (x : list event * system) : list event * system :=
  default x (schedule host ok ts x.1 x.2).
Lemma scheduled_runs (ok : system → Prop) (okb : system → bool) s0 ts x :
  (∀ s, okb s = true → ok s) → runs host ok s0 x.1 x.2 →
  runs host ok s0 (scheduled okb ts x).1 (scheduled okb ts x).2.
Proof.
  intros Hok Hr. unfold scheduled. destruct (schedule host okb ts x.1 x.2) as [[tr' s']|] eqn:Hs; [|done].
  by eapply schedule_runs.
Qed.

(** [serial], decided. *)
Definition serialb (s : system) : bool :=
  bool_decide (map_Forall (λ t p, map_Forall (λ t' p', stores p → stores p' → t = t') (sys_threads s)) (sys_threads s)).
Lemma serialb_serial s : serialb s = true → serial s.
Proof. intros H%bool_decide_eq_true t t' p p' Ht Ht'. exact (H t p Ht t' p' Ht'). Qed.
End schedule.

Module threads_witnesses.
Import echo echo_witnesses.
#[local] Existing Instances chunked.ops chunked.laws chunked.no_oom rfc1950.zlib rfc1950.zlib_laws.
#[local] Existing Instances base128.wire base128.wire_laws demo_message.parse_ops demo_message.parse_laws.

(** Evaluation without normalising the types. *)
Ltac vm_refl := match goal with |- _ = ?b => vm_cast_no_check (eq_refl b) end.

(** A client with one channel (1), on the connection 1. *)
Definition client_world : W := after a_channel start.
Abbreviation client_sys := (sys (EB:=chunked.ops) (E:=process)).

Lemma client_ready : ready client_world.
Proof.
  split.
  - apply (channels_inv LittleEndian). exists start, ∅. split; [done|]. apply rtc_once. by exists a_channel.
  - intros chan x Hx. assert (Hw : wiring (rpc client_world) = {[ 1%positive := (Some (Some 1%positive), NULL) ]})
      by (by vm_compute).
    rewrite Hw in Hx. apply lookup_singleton_Some in Hx as [<- <-]. split; [done|].
    exists 1%positive, 1%positive, []. split; [done|]. apply echo_writes.
Qed.

Lemma twice_fits id : fits (call_msg id twice_method hi_request).
Proof. unfold fits. vm_compute. done. Qed.

(** Thread 0 calls; thread 1 receives the answer. *)
Definition begun (s : client_sys) (t : nat) (u : UserCode) : client_sys :=
  match begin_call 1 twice_method hi_request ([] : UMsg) (Some u) (sys_world s) with
  | Ok (p, w') => mkSys w' (sys_owner s) (<[t := p]> (sys_threads s))
  | _ => s
  end.
Definition received (s : client_sys) (t : nat) (m : RpcMessage.t) : client_sys :=
  mkSys (sys_world s) (sys_owner s) (<[t := RecvEnter 1 1 m]> (sys_threads s)).
Definition always (s : client_sys) : bool := true.

Definition s_call : client_sys := begun (quiet client_world) 0 2%positive.
Definition x_sent : list event * client_sys := scheduled LittleEndian serialb [0; 0; 0; 0; 0; 0; 0]%nat ([Silent], s_call).
Definition s_answer : client_sys := received x_sent.2 1 the_answer.
Definition x_erase : list event * client_sys := scheduled LittleEndian serialb [1; 1; 1; 1]%nat (Silent :: x_sent.1, s_answer).
Definition x_done : list event * client_sys := scheduled LittleEndian serialb [1; 1; 1; 1; 1]%nat x_erase.


Definition visible : list event → list event := omap (λ e, match e with Silent => None | _ => Some e end).
Lemma visible_elem e tr : e ∈ visible tr → e ∈ tr.
Proof. intros (e' & He & Heq)%list_elem_of_omap. by destruct e'; simplify_eq/=. Qed.
Definition the_call : OutstandingCall := mkOut (Some 2%positive) (Some 3%positive).
Example a_whole_call :
  visible x_done.1 = [Ran 3; Took 1 1 the_call; Sent 1 1 the_call] ∧
  size (sys_threads x_done.2) = 0%nat ∧ sys_owner x_done.2 = ∅ ∧ (w_ext (sys_world x_done.2)).2 = [Some hi].
Proof. by vm_compute. Qed.

(** Two threads call at the same time: two frames with the number 1, one entry. *)
Definition s_race : client_sys := begun s_call 1 4%positive.
Definition x_race : list event * client_sys :=
  scheduled LittleEndian always [0; 1; 0; 1; 0; 0; 0; 0; 0; 1; 1; 1; 1; 1]%nat ([], s_race).
Definition other_call : OutstandingCall := mkOut (Some 4%positive) (Some 5%positive).
Example a_race :
  visible x_race.1 = [Sent 1 1 other_call; Sent 1 1 the_call] ∧
  size (sys_threads x_race.2) = 0%nat ∧ outstandings <$> channels (rpc (sys_world x_race.2)) = {[ 1%positive := {[ 1 := other_call ]} ]}.
Proof. by vm_compute. Qed.
(** The answers to both calls reach the second one, and only its closure. *)
Definition x_race_answered : list event * client_sys :=
  scheduled LittleEndian always (repeat 1%nat 9) (scheduled LittleEndian always (repeat 0%nat 9)
    (x_race.1, received (received x_race.2 0 the_answer) 1 the_answer)).
Example a_race_answered :
  ran x_race_answered.1 = [5%positive] ∧ (w_ext (sys_world x_race_answered.2)).2 = [Some hi] ∧
  RpcChannel.closures (rpc (sys_world x_race_answered.2)) !! 3%positive = Some (UserClosure (2%positive : @UserCode user)).
Proof. by vm_compute. Qed.

(** ** The runs *)

Lemma client_calls : can_call client_world 1 twice_method hi_request.
Proof. split; [by eexists|apply twice_fits]. Qed.

Lemma call_runs (ok : client_sys → Prop) : ok s_call → runs LittleEndian ok (quiet client_world) [Silent] s_call.
Proof.
  intros H. eapply runs_step; [apply runs_start| |exact H].
  by eapply (step_call LittleEndian 0 1 twice_method hi_request [] (Some 2%positive) _ (quiet client_world));
    [|apply client_calls|].
Qed.
Lemma sent_runs : runs LittleEndian serial (quiet client_world) x_sent.1 x_sent.2.
Proof.
  apply (scheduled_runs LittleEndian serial serialb _ _ ([Silent], s_call)); [apply serialb_serial|].
  apply call_runs, serialb_serial. vm_refl.
Qed.
(** The connection of the channel hands it a message. *)
Lemma sent_receives : can_receive (sys_world x_sent.2) 1 1.
Proof.
  exists (mkChannel (Some (Some 1%positive)) {[ 1 := the_call ]} NULL). split; [|done]. unfold channel_is. vm_refl.
Qed.
Lemma erase_runs : runs LittleEndian serial (quiet client_world) x_erase.1 x_erase.2.
Proof.
  apply (scheduled_runs LittleEndian serial serialb _ _ (Silent :: x_sent.1, s_answer)); [apply serialb_serial|].
  eapply runs_step; [apply sent_runs| |apply serialb_serial; vm_refl].
  apply (step_receive LittleEndian 1 1 1 the_answer x_sent.2); [vm_refl|apply sent_receives].
Qed.
(** The answer that says nothing, to the same call. *)
Definition s_bare : client_sys := received x_sent.2 1 bare.
Lemma bare_runs : runs LittleEndian any (quiet client_world) (Silent :: x_sent.1) s_bare.
Proof.
  eapply runs_step; [apply (runs_weaken LittleEndian sent_runs)| |done].
  apply (step_receive LittleEndian 1 1 1 bare x_sent.2); [vm_refl|apply sent_receives].
Qed.
Lemma threads_never_fault_witness :
  (∃ r w', exec LittleEndian (RecvErase 1 the_answer the_call) (sys_world x_erase.2) = Ok (r, w')) ∧
  exec LittleEndian (RecvEnter 1 1 bare) (sys_world s_bare) = Fault AssertFail.
Proof.
  split.
  - destruct (threads_never_fault LittleEndian client_world _ _ 1 (RecvErase 1 the_answer the_call) client_ready
      (runs_weaken LittleEndian erase_runs)) as [H|[[H _]|[H _]]]; [vm_refl|exact H|done..].
  - destruct (threads_never_fault LittleEndian client_world _ _ 1 (RecvEnter 1 1 bare) client_ready bare_runs)
      as [(r & w' & H)|[[H _]|[_ H]]]; [vm_refl|by rewrite exec_aborts in H|done|exact H].
Defined.

Lemma critical_sections_exclusive_witness :
  inside <$> sys_threads x_erase.2 !! 1%nat = Some (Some 1%positive) ∧
  inside <$> sys_threads x_erase.2 !! 0%nat ≠ Some (Some 1%positive).
Proof.
  split; [vm_refl|]. intros (p & Ht & Hp)%fmap_Some.
  destruct (critical_sections_exclusive LittleEndian client_world _ _ 1 client_ready (runs_weaken LittleEndian erase_runs)) as [H _].
  assert (Hne : 0%nat = 1%nat); [|done].
  apply (H 0%nat 1%nat p (RecvErase 1 the_answer the_call) Ht); [vm_refl|by rewrite <- Hp|done].
Defined.

(** Two threads about to write their requests. *)
Definition x_both : list event * client_sys :=
  scheduled LittleEndian serialb [0; 0; 0; 0; 0; 0; 1; 1; 1; 1; 1; 1]%nat ([Silent; Silent], s_race).
Lemma both_runs : runs LittleEndian serial (quiet client_world) x_both.1 x_both.2.
Proof.
  apply (scheduled_runs LittleEndian serial serialb _ _ ([Silent; Silent], s_race)); [apply serialb_serial|].
  eapply runs_step; [apply call_runs, serialb_serial; vm_refl| |apply serialb_serial; vm_refl].
  apply (step_call LittleEndian 1 1 twice_method hi_request [] (Some 4%positive) _ s_call); [vm_refl| |vm_refl].
  split; [by eexists|apply twice_fits].
Qed.
Definition the_output : location := LOutput (Some (Some 1%positive)).
Definition send_point (id : Z) (out : OutstandingCall) : pc :=
  CallSend (mkCall 1 twice_method hi_request out) (call_msg id twice_method hi_request) id.
Lemma both_race : race x_both.2 the_output.
Proof.
  exists 0%nat, 1%nat, (send_point 1 the_call), (send_point 2 other_call). split_and!; [done|vm_refl|vm_refl|].
  assert (Hb : channels (rpc (sys_world x_both.2)) !! 1%positive ≫= conn = Some (Some 1%positive)) by vm_refl.
  left. unfold accesses, send_point. cbn [writes_at call_chan]. rewrite Hb. split; [by left|left; by left].
Qed.

Lemma races_confined_witness :
  race x_both.2 the_output ∧ (the_output = LId ∨ ∃ buf, the_output = LOutput buf).
Proof.
  split; [apply both_race|].
  apply (races_confined LittleEndian client_world _ _ the_output client_ready
    (runs_weaken LittleEndian both_runs) both_race).
Defined.

Lemma threads_always_finish_witness :
  ∃ s', rtc (go LittleEndian) s_call s' ∧ map_Forall (λ _ p, stops p = true) (sys_threads s').
Proof.
  by apply (threads_always_finish LittleEndian client_world _ _ client_ready (call_runs any I)).
Defined.

Lemma sequential_is_a_schedule_witness :
  rtc (go LittleEndian) (received (quiet waiting) 0 the_answer) (quiet answered_waiting).
Proof.
  apply (sequential_is_a_schedule LittleEndian waiting answered_waiting ∅ 0 (lookup_empty _)). by vm_compute.
Defined.

Lemma done_runs : runs LittleEndian serial (quiet client_world) x_done.1 x_done.2.
Proof.
  apply (scheduled_runs LittleEndian serial serialb _ _ x_erase); [apply serialb_serial|apply erase_runs].
Qed.
Lemma closures_run_once_witness : ran x_done.1 = [3%positive] ∧ gone 3 x_done.2.
Proof.
  split; [vm_refl|].
  apply (proj2 (closures_run_once LittleEndian client_world _ _ client_ready (runs_weaken LittleEndian done_runs))).
  assert (ran x_done.1 = [3%positive]) as -> by vm_refl. by left.
Defined.

Lemma answers_find_calls_witness :
  Took 1 1 the_call ∉ x_erase.1 ∨ the_call = mkOut NULL NULL.
Proof.
  destruct (answers_find_calls LittleEndian client_world x_erase.1 x_erase.2
    (ticked LittleEndian 1 x_erase.2) 1 1 the_call the_call client_ready erase_runs) as [[H _]|[_ H]].
  - assert (Hv : visible x_erase.1 = [Sent 1 1 the_call]) by vm_refl.
    apply visible_elem. rewrite Hv. by left.
  - apply (ticked_step LittleEndian 1). vm_refl.
  - by left.
  - by right.
Defined.

Lemma client_fresh : _id (rpc client_world) ≠ INT_MAX.
Proof. assert (_id (rpc client_world) = 0) as -> by vm_refl. done. Qed.
Lemma racing_calls_lose_one_witness :
  ∃ tr w' k, runs LittleEndian any (quiet client_world) tr (quiet w') ∧
    ∀ tr' s, runs LittleEndian any (quiet w') tr' s → k ∉ ran tr'.
Proof.
  destruct (racing_calls_lose_one LittleEndian client_world 1 twice_method hi_request ([] : @UMsg user) (2%positive : @UserCode user)
    twice_method hi_request ([] : @UMsg user) None client_ready client_fresh client_calls client_calls)
    as (tr & w' & out1 & out2 & k & Hr & _ & _ & _ & _ & _ & H).
  exists tr, w', k. split; [exact Hr|]. intros tr' s Hs. by apply (H tr' s).
Defined.

Lemma calls_race_witness :
  (∃ tr s, runs LittleEndian any (quiet client_world) tr s ∧ race s LId) ∧
  (∃ tr s, runs LittleEndian serial (quiet client_world) tr s ∧ race s the_output).
Proof.
  assert (Hb : channels (rpc client_world) !! 1%positive ≫= conn = Some (Some 1%positive)) by vm_refl.
  unfold the_output. rewrite <- Hb.
  apply (calls_race LittleEndian client_world 1 twice_method hi_request ([] : @UMsg user) (Some (2%positive : @UserCode user))
    twice_method hi_request ([] : @UMsg user) None client_ready); [|apply client_calls..].
  assert (_id (rpc client_world) = 0) as -> by vm_refl. done.
Defined.
End threads_witnesses.
