(* ===== verification/RpcServer.v ===== *)
(** * The RPC server: [class RpcServer] (src/rpcServer.h, src/rpcServer.cpp)

    A [TcpServer] whose connection callback makes a channel for the connection
    and routes what is read to it.  The state behind the server's callbacks is
    the state of the channels; the map of registered services is at a fixed
    address. *)

From S2P Require Import Prelude Endian ConnQueue External World Codec ProtoWire RpcPb RpcPbParse RpcChannel.
From S2P Require Import TcpServer.

(** The bound member functions that serve as callbacks. *)
Inductive rpc_callback :=
  | OnConnection
  | OnMessage (chan : ptr).

#[export] Instance rpc_host_server (UO : UserOps) (K : Type) : RpcHost UO (TcpServer K (RpcState UO)).
Proof. by refine {| rpc_of := app; set_rpc := set_app |}; intros; try destruct e. Defined.

(** The member [services] of the server. *)
Definition services_at : ptr := 1.

Section RpcServer.
Context {EB : EvbufferOps} {ZL : ZlibOps} {WO : WireOps} {PO : ParseOps} {UO : UserOps}.
Abbreviation server := (TcpServer rpc_callback (RpcState UO)).
Context {UC : UserClosures server} {US : UserServices server}.
Context (host : endian) (fuel : nat).
Abbreviation MW := (M (World EB server)).

(** The log line reads the descriptor and the thread.  The channel is owned by
    the local [shared_ptr] alone, so that it is destroyed when the function
    returns; the read callback is that of the whole server. *)
Definition onConnection (conn : option ptr) : MW unit :=
  match conn with
  | None => mret tt
  | Some c =>
      _ ← getFd c;
      t ← getThread c;
      _ ← thread_at t;
      channel ← RpcChannel_init (Some c);
      _ ← setServices channel (Some services_at);
      _ ← on_ext (modify (setReadCallback (Some (OnMessage channel))));
      RpcChannel_destroy channel
  end.

#[export] Instance rpc_callbacks : Callbacks rpc_callback (RpcState UO) := {
  call k c := match k with
    | OnConnection => onConnection (Some c)
    | OnMessage chan => onMessage host fuel chan (Some c)
    end;
  call_event _ _ _ := mret tt
}.

(** No channel yet, no service registered. *)
Definition no_channels : RpcState UO := mkRpc 0 1 ∅ ∅ ∅ {[ services_at := ∅ ]}.

Definition RpcServer_init (threads : Z) (ip0 : string) (port0 : Z) (self : Z) (main_env : bool)
    (envs : nat → thread_env) : MW unit :=
  _ ← TcpServer_init threads ip0 port0 no_channels self main_env envs;
  on_ext (modify (setConnectionCallback (Some OnConnection))).

(** [services[desc->full_name()] = service] *)
Definition registerService (service : option Service) : MW unit :=
  match service with
  | None => mret tt
  | Some sv =>
      on_rpc (m ← object_at service_maps (Some services_at);
              modify (λ s, set_service_maps (<[services_at := <[service_name sv := Some sv]> m]> (service_maps s)) s))
  end.

Definition start (env : start_env) : MW unit := startRun host env.
End RpcServer.
