(* ===== verification/RpcServerProps.v ===== *)
(** * Properties of the RPC server (src/rpcServer.cpp)

    It accepts and registers connections, and the channel that it makes for one is
    destroyed before the first bytes arrive. *)

From S2P Require Import Prelude Endian ConnQueue External World Pool Codec ProtoWire RpcPb RpcPbParse.
From S2P Require Import RpcChannel ChannelLemmas RpcCalls RpcInv RpcSteps.
From S2P Require Import TcpServer ServerInv ServerRun ServerBoot ServerProps RpcServer.
From S2P Require Import RpcDemo.

Section rpc_server.
Context {EB : EvbufferOps} {ZL : ZlibOps} {WO : WireOps} {PO : ParseOps} {UO : UserOps}.
Abbreviation server := (TcpServer rpc_callback (RpcState UO)).
Context {UC : UserClosures server} {US : UserServices server}.
Context (host : endian) (fuel : nat).
Implicit Types (w : World EB server) (s : RpcState UO) (c b : ptr).
#[local] Instance callbacks : Callbacks rpc_callback (RpcState UO) := rpc_callbacks host fuel.

Definition bump_one s : RpcState UO :=
  mkRpc (_id s) (Pos.succ (rpc_brk s)) (messages s) (closures s) (channels s) (service_maps s).

(** The channel of a new connection is gone when [onConnection] returns; the
    callback that refers to it stays. *)
Lemma onConnection_run w ls i c b :
  conns_ok w ls → open_in w i c b → channels (rpc w) !! rpc_brk (rpc w) = None →
  onConnection (Some c) w = Ok (tt, set_ext (setReadCallback (Some (OnMessage (rpc_brk (rpc w))))
    (set_app (bump_one (rpc w)) (w_ext w))) w).
Proof.
  intros Hok Ho Hfr. destruct (open_object _ _ _ _ Ho) as (o & bv & Hc & Ht & _).
  destruct (conns_thread _ _ _ _ _ Hok Ho) as (th & l & Hth & _).
  unfold onConnection, getFd, getThread. rewrite bind_assoc. mrun (conn_at_run w c o Hc). rewrite ret_run_bind.
  rewrite bind_assoc. mrun (conn_at_run w c o Hc). rewrite ret_run_bind, Ht.
  mrun (thread_at_run w i th Hth).
  set (chan := rpc_brk (rpc w)). unfold RpcChannel_init.
  erewrite bind_run by (apply on_rpc_run; reflexivity). cbn beta. fold chan. mrun.
  erewrite bind_run by reflexivity. cbn beta.
  unfold RpcChannel_destroy.
  erewrite bind_run by (apply channel_at_run; apply lookup_insert_eq). cbn beta.
  assert (calls_in_order ∅ = []) as Hnil by (vm_compute; reflexivity). cbn [outstandings].
  rewrite Hnil. cbn [destroy_calls]. mrun.
  erewrite (on_rpc_run _ _ tt) by reflexivity. do 2 f_equal.
  unfold put_rpc, set_ext, bump_one, set_channels, setReadCallback, set_callbacks. simpl.
  by rewrite delete_insert_id.
Qed.

Lemma server_ok_ext w e ls :
  thread_count e = thread_count (w_ext w) → main_base e = main_base (w_ext w) →
  server_ok w ls → server_ok (set_ext e w) ls.
Proof.
  intros Hc Hm [? Ha ? ? ?]. split; simpl; try done; try congruence.
  unfold main_apart, main_queue in *. simpl. by rewrite Hm.
Qed.

(** A read callback that refers to a channel that is gone. *)
Lemma read_dangling w ls b e chan :
  server_ok w ls → is_Some (w_bevs w !! b) → read_cb (w_ext w) = Some (OnMessage chan) →
  channels (rpc w) !! chan = None → handle (ERead b e) w = Fault UseAfterFree.
Proof.
  intros Hok Hb Hcb Hch.
  destruct (data_of_run w ls b Hok Hb) as (i & c & bv & Hbv & Hd & Ho).
  destruct (buf_store_ok w ls b bv Input e i c Hok Hbv Ho) as (w1 & H1 & Hok1 & Hx1 & Ho1).
  destruct (store_bufs_run w1 ls i c b (so_conns _ _ Hok1) Ho1) as (h & H2 & Hc2 & Ho2 & _).
  unfold handle. mrun Hd. mrun H1.
  transitivity ((_ ← store_bufs b c; s ← server_of c; when_set (read_cb s) (λ k, call k c)) w1).
  { unfold bufferReadCb, store_bufs. rewrite !bind_assoc. apply bind_ext_run. intros inp w2.
    rewrite !bind_assoc. apply bind_ext_run. intros _ w3. by rewrite !bind_assoc. }
  mrun H2. mrun (server_of_run _ ls i c b Hc2 Ho2). simpl w_ext. rewrite Hx1, Hcb.
  cbn [when_set call callbacks rpc_callbacks]. unfold onMessage. apply bind_fault.
  unfold on_rpc, on_ext. do 2 apply zoom_fault. simpl. rewrite Hx1.
  change (channel_at chan (rpc w) = Fault UseAfterFree).
  unfold channel_at, object_at. mrun. by rewrite Hch.
Qed.

(** The worker that registers a connection makes a channel for it, destroys the
    channel again and keeps the callback that refers to it. *)
Lemma notify_dangles w ls i th fd0 rest :
  server_ok w ls → connect_cb (w_ext w) = Some OnConnection → heap_fresh (rpc w) →
  w_threads w !! i = Some th → notify_pipe th = fd0 :: rest → fd0 ≠ EXIT_CODE →
  ∃ w', handle (ENotify i true true) w = Ok (tt, w') ∧ (∃ c b, open_in w' i c b) ∧
    ∀ b e, is_Some (w_bevs w' !! b) → handle (ERead b e) w' = Fault UseAfterFree.
Proof.
  intros Hok Hcb Hfr Hth Hp Hfd.
  destruct (lookup_lt_is_Some_2 ls i) as [l Hl].
  { pose proof (ok_length _ _ _ _ _ (so_conns _ _ Hok)) as Hlen. rewrite length_fmap in Hlen.
    rewrite <- Hlen. by eapply lookup_lt_Some. }
  destruct (notifyHandler_run w ls i th fd0 rest l Hok Hth Hp Hfd Hl)
    as (c & b & w1 & Hrun & Hok1 & Ho1 & _ & _ & _ & Hext).
  assert (Hr : rpc w1 = rpc w) by (unfold rpc; by rewrite Hext).
  destruct (Hfr (rpc_brk (rpc w)) (Pos.le_refl _)) as (_ & _ & Hnone).
  pose proof (onConnection_run w1 _ i c b (so_conns _ _ Hok1) Ho1) as Hconn.
  rewrite Hr in Hconn. specialize (Hconn Hnone).
  eexists. split; [|split].
  - cbn [handle]. rewrite Hrun, Hcb. cbn [when_set call callbacks rpc_callbacks]. exact Hconn.
  - exists c, b. exact Ho1.
  - intros b2 e Hb2. eapply (read_dangling _ (<[i := c :: l]> ls)); [|exact Hb2|reflexivity|exact Hnone].
    by apply server_ok_ext.
Qed.

(** *** From construction on *)

Fixpoint registerAll (l : list (option Service)) : M (World EB server) unit :=
  match l with [] => mret tt | sv :: l => _ ← registerService sv; registerAll l end.

Definition rpc_boot threads ip0 port0 self me envs svs senv : M (World EB server) unit :=
  _ ← RpcServer_init threads ip0 port0 self me envs;
  _ ← registerAll svs;
  start host senv.

(** What registration changes: the map of services. *)
Lemma registerAll_run svs w sm :
  service_maps (rpc w) !! services_at = Some sm →
  ∃ maps, registerAll svs w = Ok (tt, put_rpc (set_service_maps maps (rpc w)) w).
Proof.
  revert w sm. induction svs as [|[sv|] svs IH]; intros w sm Hm.
  - exists (service_maps (rpc w)). cbn [registerAll].
    assert (set_service_maps (service_maps (rpc w)) (rpc w) = rpc w) as -> by (by destruct (rpc w)).
    by rewrite put_rpc_rpc.
  - cbn [registerAll].
    set (s1 := set_service_maps (<[services_at := <[service_name sv := Some sv]> sm]> (service_maps (rpc w))) (rpc w)).
    destruct (IH (put_rpc s1 w) (<[service_name sv := Some sv]> sm)) as (maps & Hrun).
    { rewrite rpc_put. apply lookup_insert_eq. }
    exists maps. erewrite bind_run; [|apply on_rpc_run; erewrite bind_run by (by apply object_at_run);
      reflexivity]. cbn beta. fold s1. rewrite Hrun, rpc_put, put_rpc_put. done.
  - cbn [registerAll]. by apply (IH w sm).
Qed.

Lemma rpc_boot_ok threads ip0 port0 self me envs svs senv w0 w1 :
  heap_wf (w_heap w0) → w_bevs w0 = ∅ →
  rpc_boot threads ip0 port0 self me envs svs senv w0 = Ok (tt, w1) →
  server_ok w1 (replicate (Z.to_nat threads) []) ∧ connect_cb (w_ext w1) = Some OnConnection ∧
  heap_fresh (rpc w1) ∧ thread_count (w_ext w1) = Z.of_nat (Z.to_nat threads) ∧
  ∀ i th, w_threads w1 !! i = Some th → notify_pipe th = [].
Proof.
  intros Hwf Hbv Hboot. unfold rpc_boot, RpcServer_init in Hboot.
  apply bind_inv in Hboot as ([] & s2 & Hb1 & Hboot).
  apply bind_inv in Hb1 as ([] & s1 & Hb1 & Hb2).
  apply bind_inv in Hboot as ([] & s3 & Hb3 & Hb4).
  destruct (TcpServer_init_spec w0 threads ip0 port0 no_channels self me envs Hwf Hbv)
    as [[? ?]|(w2 & H2 & _ & Hs)]; [congruence|]. assert (s1 = w2) as -> by congruence.
  pose proof Hs as (_ & Hlen & Hcnt & _ & Happ & _ & _ & Hpipes). apply setting_up_server_ok in Hs.
  injection Hb2 as <-. set (w3 := set_ext _ w2) in Hb3.
  destruct (registerAll_run svs w3 ∅) as (maps & H3).
  { unfold rpc, w3. simpl. by rewrite Happ. }
  assert (s3 = put_rpc (set_service_maps maps (rpc w3)) w3) as -> by congruence.
  assert (Hok3 : server_ok (put_rpc (set_service_maps maps (rpc w3)) w3) (replicate (Z.to_nat threads) []))
    by (by apply server_ok_ext; [..|apply server_ok_ext]).
  destruct (startRun_spec host _ _ senv Hok3) as [[? ?]|(w4 & H4 & Hok4 & Ha4 & Hc4 & _ & Hcb4 & Hp4)];
    [unfold start in Hb4; congruence|]. assert (w1 = w4) as -> by (unfold start in Hb4; congruence).
  split_and!; [done|by rewrite Hcb4| |by rewrite Hc4|].
  - assert (rpc w4 = set_service_maps maps (rpc w3)) as -> by exact Ha4.
    unfold rpc, w3. simpl. rewrite Happ. by intros p _.
  - intros i th Hi. assert (Hl : (notify_pipe <$> w_threads w4) !! i = Some (notify_pipe th))
      by (by rewrite list_lookup_fmap, Hi).
    rewrite Hp4, list_lookup_fmap in Hl. apply fmap_Some in Hl as (th0 & Hi0 & ->).
    by apply (Hpipes i).
Qed.

(** The next connection of a server that was just started. *)
Lemma first_connection_dangles w1 n fd0 :
  server_ok w1 (replicate n []) → connect_cb (w_ext w1) = Some OnConnection → heap_fresh (rpc w1) →
  0 < thread_count (w_ext w1) → (∀ i th, w_threads w1 !! i = Some th → notify_pipe th = []) → fd0 ≠ EXIT_CODE →
  ∃ i w2 w3, handle (EAccept fd0 true) w1 = Ok (tt, w2) ∧
    handle (ENotify i true true) w2 = Ok (tt, w3) ∧ (∃ c b, open_in w3 i c b) ∧
    ∀ b e, is_Some (w_bevs w3 !! b) → handle (ERead b e) w3 = Fault UseAfterFree.
Proof.
  intros Hok Hcb Hfr Hcnt Hpipe Hfd.
  destruct (acceptCb_run w1 fd0 true (so_count _ _ Hok) Hcnt) as (i & (m & Hm & _) & Hacc).
  destruct (counts_thread _ _ _ Hm) as (th & Hth & _).
  rewrite (notify_write_any _ _ _ _ _ Hth) in Hacc. set (w2 := set_threads _ w1) in Hacc.
  destruct (notify_dangles w2 (replicate n []) i (append_pipe fd0 th) fd0 [])
    as (w3 & Hrun & Hopen & Hread); try done.
  - by apply server_ok_alter.
  - unfold w2. simpl. by rewrite list_lookup_alter_eq, Hth.
  - unfold append_pipe. simpl. by rewrite (Hpipe i th Hth).
  - by exists i, w2, w3.
Qed.

(** C38: an RPC server cannot serve any connection.  Whatever services were
    registered: it accepts a connection, a worker registers it, makes a channel
    for it, destroys the channel again and keeps the callback that refers to it;
    the first bytes that then arrive use the freed channel. *)
Theorem rpc_server_read_dangles threads ip0 port0 self me envs svs senv w0 w1 fd0 :
  heap_wf (w_heap w0) → w_bevs w0 = ∅ → 0 < threads → fd0 ≠ EXIT_CODE →
  rpc_boot threads ip0 port0 self me envs svs senv w0 = Ok (tt, w1) →
  ∃ i w2 w3, handle (EAccept fd0 true) w1 = Ok (tt, w2) ∧
    handle (ENotify i true true) w2 = Ok (tt, w3) ∧ (∃ c b, open_in w3 i c b) ∧
    ∀ b e, is_Some (w_bevs w3 !! b) → handle (ERead b e) w3 = Fault UseAfterFree.
Proof.
  intros Hwf Hbv Hn Hfd Hboot.
  destruct (rpc_boot_ok _ _ _ _ _ _ _ _ _ _ Hwf Hbv Hboot) as (Hok & Hcb & Hfr & Hcnt & Hpipe).
  apply (first_connection_dangles w1 (Z.to_nat threads)); try done. lia.
Qed.

(** What was registered is found: [registerService] adds the service under
    its full name and keeps the others; [NULL] is ignored. *)
Theorem registerService_registers w sm sv :
  service_maps (rpc w) !! services_at = Some sm →
  ∃ w', registerService (Some sv) w = Ok (tt, w') ∧
    service_maps (rpc w') !! services_at = Some (<[service_name sv := Some sv]> sm) ∧
    registerService None w = Ok (tt, w).
Proof.
  intros Hm. eexists. split_and!; [|rewrite rpc_put|done].
  - unfold registerService. apply on_rpc_run.
    erewrite bind_run by (by apply object_at_run). reflexivity.
  - simpl. apply lookup_insert_eq.
Qed.
End rpc_server.

(** ** A concrete server, of the service of RpcDemo.v *)

Module demo_rpc_server.
#[local] Existing Instances chunked.ops rfc1950.zlib base128.wire demo_message.parse_ops echo.user.
Abbreviation E := (TcpServer rpc_callback (RpcState echo.user)).

#[export] Instance user_closures : UserClosures E := { run_user _ := mret tt }.
#[export] Instance user_services : UserServices E := {
  service_CallMethod _ _ _ _ done := Run LittleEndian done
}.

Definition w0 : World chunked.ops E := mkWorld (mkHeap 1 ∅) 1 ∅ []
  (mkServer None None None None 0 0 "" (mkThread 0 None false 0 0 [] (mkQueue 0 1 1)) None no_channels).
Definition echo_service : @Service echo.user := tt.
Definition known : gmap bytes (option (@Service echo.user)) :=
  {[ bytes_of_string "Echo" := Some echo_service ]}.
Definition svs : list (option (@Service echo.user)) := [Some tt; None].
Definition envs (i : nat) : thread_env := mkThreadEnv true (Some (10, 11)) true.
Definition senv : start_env := mkStartEnv (λ _, Some 16777343) true (λ i, Some (Z.of_nat i)).
Definition boot : M (World chunked.ops E) unit :=
  rpc_boot LittleEndian 2 "127.0.0.1" 8009 1 true envs svs senv.
Definition w1 : World chunked.ops E := match boot w0 with Ok (_, w) => w | _ => w0 end.

Lemma boot_runs : boot w0 = Ok (tt, w1).
Proof. vm_compute. reflexivity. Qed.
Lemma rpc_w0_wf : heap_wf (w_heap w0).
Proof. intros p [c Hc]. simpl in Hc. by rewrite lookup_empty in Hc. Qed.
End demo_rpc_server.

Section witnesses.
Import demo_rpc_server.
Existing Instances chunked.ops rfc1950.zlib base128.wire demo_message.parse_ops echo.user.
#[local] Instance cbs : Callbacks rpc_callback (RpcState echo.user) := callbacks LittleEndian 9.

Lemma rpc_server_read_dangles_witness :
  ∃ i w2 w3, handle (EAccept 7 true) w1 = Ok (tt, w2) ∧
    handle (ENotify i true true) w2 = Ok (tt, w3) ∧ (∃ c b, open_in w3 i c b) ∧
    ∀ b e, is_Some (w_bevs w3 !! b) → handle (ERead b e) w3 = Fault UseAfterFree.
Proof.
  exact (rpc_server_read_dangles LittleEndian 9 2 "127.0.0.1" 8009 1 true envs svs senv w0 w1 7
    rpc_w0_wf eq_refl eq_refl ltac:(done) boot_runs).
Defined.

Lemma w1_services : service_maps (rpc w1) !! services_at = Some known.
Proof. vm_compute. reflexivity. Qed.
Lemma registerService_registers_witness :
  ∃ w', registerService (Some echo_service) w1 = Ok (tt, w') ∧
    service_maps (rpc w') !! services_at = Some (<[service_name echo_service := Some echo_service]> known) ∧
    registerService None w1 = Ok (tt, w1).
Proof. exact (registerService_registers w1 known echo_service w1_services). Defined.
End witnesses.
