(* ===== verification/TcpClient.v ===== *)
(** * The client: [class TcpClient] (src/tcpClient.h, src/tcpClient.cpp)

    One connection, a member of the client, on one event loop.  As for the
    server, the handlers are computations on the state of the process, the
    answers of the system are arguments, and the loop is a relation whose steps
    are whole handlers.  The loop's [LibeventThread] is the thread 0. *)

From S2P Require Import Prelude Endian ConnQueue External World Codec.

Module TcpClient.

(** [conn_] is the address of the member; [peer] what a connection was asked
    for, port and address in network order. *)
Record TcpClient {K A : Type} := mkClient {
  read_cb : option K;
  write_cb : option K;
  connect_cb : option K;
  event_cb : option K;
  port : Z;
  ip : string;
  conn_ : ptr;
  peer : option (Z * Z);
  app : A
}.
Arguments TcpClient K A : clear implicits.
Arguments mkClient {K A} _ _ _ _ _ _ _ _ _.

Section setters.
Context {K A : Type}.
Implicit Types (c : TcpClient K A).

Definition set_callbacks r w n e c : TcpClient K A :=
  mkClient r w n e (port c) (ip c) (conn_ c) (peer c) (app c).
Definition set_peer p c : TcpClient K A :=
  mkClient (read_cb c) (write_cb c) (connect_cb c) (event_cb c) (port c) (ip c) (conn_ c) p (app c).
Definition set_app a c : TcpClient K A :=
  mkClient (read_cb c) (write_cb c) (connect_cb c) (event_cb c) (port c) (ip c) (conn_ c) (peer c) a.

Definition setReadCallback (cb : option K) c : TcpClient K A :=
  set_callbacks cb (write_cb c) (connect_cb c) (event_cb c) c.
Definition setWriteCallback (cb : option K) c : TcpClient K A :=
  set_callbacks (read_cb c) cb (connect_cb c) (event_cb c) c.
Definition setConnectionCallback (cb : option K) c : TcpClient K A :=
  set_callbacks (read_cb c) (write_cb c) cb (event_cb c) c.
Definition setEventCallback (cb : option K) c : TcpClient K A :=
  set_callbacks (read_cb c) (write_cb c) (connect_cb c) cb c.
End setters.

(** What the codes of the callbacks do. *)
Class Callbacks {EB : EvbufferOps} (K A : Type) := {
  call : K → ptr → M (World EB (TcpClient K A)) unit;
  call_event : K → ptr → Z → M (World EB (TcpClient K A)) unit
}.

(** libevent's event flags (event2/bufferevent.h). *)
Definition BEV_EVENT_READING : Z := 0x01.
Definition BEV_EVENT_WRITING : Z := 0x02.
Definition BEV_EVENT_EOF : Z := 0x10.
Definition BEV_EVENT_ERROR : Z := 0x20.
Definition BEV_EVENT_TIMEOUT : Z := 0x40.
Definition BEV_EVENT_CONNECTED : Z := 0x80.
Definition flag (events f : Z) : bool := negb (Z.land events f =? 0).

(** What the system answers to [startRun]. *)
Record start_env := mkStartEnv {
  env_inet_pton : string → option Z;
  env_bufferevent : bool;
  env_connect : bool
}.

Section TcpClient.
Context {EB : EvbufferOps} {K A : Type} {CB : Callbacks K A}.
Context (host : endian).
Abbreviation W := (World EB (TcpClient K A)).
Abbreviation MW := (M (World EB (TcpClient K A))).

(** [conn_] is constructed before [main_base]. *)
Definition TcpClient_init (ip0 : string) (port0 : Z) (a : A) (self : Z) (base_ok : bool) : MW unit :=
  c ← on_heap (new_Conn 0);
  mb ← on_heap LibeventThread_init;
  _ ← modify (λ w, set_threads [set_thread_id self mb]
        (set_ext (mkClient None None None None port0 ip0 c None a) w));
  _ ← conn_update c (set_thread (Some 0%nat));
  if base_ok then thread_update 0 (set_base (Some (mkBase false)))
  else throw "Client event_base_new error:".

(** [conn->getThread()->tcp_client] *)
Definition client_of (conn : ptr) : MW (TcpClient K A) :=
  t ← getThread conn;
  _ ← thread_at t;
  gets w_ext.

Definition when_set (cb : option K) (run : K → MW unit) : MW unit :=
  match cb with None => mret tt | Some k => run k end.

Definition bufferReadCb (b data : ptr) : MW unit :=
  inp ← bufferevent_get_input (Some b);
  _ ← conn_update data (set_readBuf (Some inp));
  out ← bufferevent_get_output (Some b);
  _ ← conn_update data (set_writeBuf (Some out));
  s ← client_of data;
  when_set (read_cb s) (λ k, call k data).

Definition bufferWriteCb (b data : ptr) : MW unit :=
  inp ← bufferevent_get_input (Some b);
  _ ← conn_update data (set_readBuf (Some inp));
  out ← bufferevent_get_output (Some b);
  _ ← conn_update data (set_writeBuf (Some out));
  s ← client_of data;
  when_set (write_cb s) (λ k, call k data).

(** The tests before the one for [BEV_EVENT_CONNECTED] only choose a log line. *)
Definition is_connected (events : Z) : bool :=
  negb (flag events BEV_EVENT_EOF || flag events BEV_EVENT_READING || flag events BEV_EVENT_WRITING
        || flag events BEV_EVENT_TIMEOUT || flag events BEV_EVENT_ERROR)
  && flag events BEV_EVENT_CONNECTED.

(** [sock] is the descriptor the bufferevent has got by now. *)
Definition bufferEventCb (b : ptr) (events : Z) (data : ptr) (sock : Z) : MW unit :=
  if is_connected events then
    _ ← bev_at (Some b);
    _ ← conn_update data (set_fd sock);
    inp ← bufferevent_get_input (Some b);
    _ ← conn_update data (set_readBuf (Some inp));
    out ← bufferevent_get_output (Some b);
    _ ← conn_update data (set_writeBuf (Some out));
    s ← client_of data;
    when_set (connect_cb s) (λ k, call k data)
  else
    s ← client_of data;
    _ ← when_set (event_cb s) (λ k, call_event k data events);
    bufferevent_free (Some b).

(** [startRun] up to the loop; it may also return without one. *)
Definition startRun (env : start_env) : MW unit :=
  s ← gets w_ext;
  addr ← (if decide (ip s = "") then mret 0
          else match env_inet_pton env (ip s) with
               | None => throw "sokcet ip error!"
               | Some a => mret a
               end);
  bev ← bufferevent_socket_new (env_bufferevent env) (-1);
  _ ← conn_update (conn_ s) (set_bev bev);
  match bev with
  | None => throw "New bufferevent socket error:"
  | Some b =>
      _ ← bufferevent_setcb (Some b) (conn_ s);
      if env_connect env
      then on_ext (modify (set_peer (Some (htobe host 2 (u16 (port s)), addr))))
      else o ← conn_at (conn_ s); bufferevent_free (ConnQueue.bev o)
  end.

(** [event_base_loopexit] *)
Definition loopexit : MW unit :=
  th ← thread_at (Some 0%nat);
  match base th with
  | None => raise NullDeref
  | Some _ => thread_update 0 (set_base (Some (mkBase true)))
  end.

Definition quit : MW unit :=
  s ← gets w_ext;
  o ← conn_at (conn_ s);
  _ ← bufferevent_free (ConnQueue.bev o);
  loopexit.

(** The members are destroyed after the body: [main_base], then [conn_]. *)
Definition TcpClient_destroy (fuel : nat) : MW unit :=
  _ ← quit;
  th ← thread_at (Some 0%nat);
  _ ← match base th with None => raise NullDeref | Some _ => mret tt end;
  _ ← on_heap (ConnQueue_destroy fuel (connect_queue th));
  s ← gets w_ext;
  _ ← on_heap (delete_Conn (Some (conn_ s)));
  modify (set_threads []).

(** *** The event loop *)

Inductive event :=
  | ERead (b : ptr) (input : evbuffer)
  | EWrite (b : ptr) (output : evbuffer)
  | EEvent (b : ptr) (events sock : Z)
  | EQuit.

Definition data_of (b : ptr) : MW ptr :=
  bv ← bev_at (Some b); expect Uninit (bev_data bv).

Definition handle (e : event) : MW unit :=
  match e with
  | ERead b e =>
      c ← data_of b; _ ← buf_store (Some (mkBufref b Input)) e; bufferReadCb b c
  | EWrite b e =>
      c ← data_of b; _ ← buf_store (Some (mkBufref b Output)) e; bufferWriteCb b c
  | EEvent b ev sock => c ← data_of b; bufferEventCb b ev c sock
  | EQuit => quit
  end.

Definition enabled (e : event) (w : W) : Prop :=
  match e with
  | ERead b _ | EWrite b _ | EEvent b _ _ => is_Some (w_bevs w !! b)
  | EQuit => True
  end.

Definition client_step (w w' : W) : Prop := ∃ e, enabled e w ∧ handle e w = Ok (tt, w').
End TcpClient.
End TcpClient.
