(* ===== verification/ClientProps.v ===== *)
(** * Properties of the client

    The life of its one connection: from construction over [startRun] and the
    events of the loop to its end, and what happens to a client that goes on
    after the connection was closed. *)

From S2P Require Import Prelude Endian ConnQueue External World Codec TcpClient.
Import TcpClient.

Section client.
Context {EB : EvbufferOps} {K A : Type} {CB : Callbacks K A}.
Context (host : endian).
Implicit Types (w : World EB (TcpClient K A)) (b c : ptr) (o : Conn).

(** ** The phases of a client *)

(** Never started, its bufferevent live, its bufferevent freed. *)
Inductive phase :=
  | Fresh
  | Live (b : ptr)
  | Gone (b : ptr).

Definition phase_bev (ph : phase) : option ptr :=
  match ph with Fresh => NULL | Live b | Gone b => Some b end.
Definition bevs_ok (ph : phase) c (m : gmap ptr (Bufferevent EB)) : Prop :=
  match ph with
  | Live b => ∃ bv, m = {[ b := bv ]} ∧ bev_data bv = Some c
  | _ => m = ∅
  end.

Record client_ok (ph : phase) w : Prop := {
  co_conn : ∃ o, cells (w_heap w) !! conn_ (w_ext w) = Some o ∧ ConnQueue.thread o = Some 0%nat ∧
              pre o = NULL ∧ ConnQueue.bev o = phase_bev ph;
  co_bevs : bevs_ok ph (conn_ (w_ext w)) (w_bevs w);
  co_thread : ∃ th, w_threads w = [th] ∧ base th ≠ None ∧
                queue_ok (w_heap w) (connect_queue th) [] ∧
                conn_ (w_ext w) ∉ chain (connect_queue th) []
}.

(** A change of the connection that keeps its thread and its links. *)
Lemma queue_other h q c o o' :
  queue_ok h q [] → c ∉ chain q [] → cells h !! c = Some o →
  queue_ok (mkHeap (brk h) (<[c := o']> (cells h))) q [].
Proof.
  intros [Hwf Hnd Hl Ht] Hc Ho. split; [|done| |done].
  - apply heap_wf_insert; [apply Hwf; by eexists|]. by destruct h.
  - by apply dseg_insert_out.
Qed.

Lemma client_update ph ph' w f :
  client_ok ph w → bevs_ok ph' (conn_ (w_ext w)) (w_bevs w) →
  (∀ o, ConnQueue.thread (f o) = ConnQueue.thread o ∧ pre (f o) = pre o) →
  (∀ o, ConnQueue.bev o = phase_bev ph → ConnQueue.bev (f o) = phase_bev ph') →
  ∃ w', conn_update (conn_ (w_ext w)) f w = Ok (tt, w') ∧ client_ok ph' w' ∧
    w_ext w' = w_ext w ∧ w_bevs w' = w_bevs w ∧
    ∀ o, cells (w_heap w) !! conn_ (w_ext w) = Some o →
      cells (w_heap w') !! conn_ (w_ext w) = Some (f o).
Proof.
  intros [(o & Ho & Ht & Hp & Hb) _ (th & Hth & Hbase & Hq & Hn)] Hbevs Hf Hbev.
  destruct (Hf o) as [Hft Hfp]. eexists. split; [by apply conn_update_run|].
  split; [|split; [done|split; [done|]]].
  2: { intros o' Ho'. simpl. rewrite Ho in Ho'. injection Ho' as <-. apply lookup_insert_eq. }
  split; [|done|].
  - exists (f o). simpl. rewrite lookup_insert_eq, Hft, Hfp, Ht, Hp. split_and!; auto.
  - exists th. split_and!; [done|done| |done]. by eapply queue_other.
Qed.

(** ** Construction and [startRun] *)

Lemma TcpClient_init_run w ip0 port0 (a : A) self :
  heap_wf (w_heap w) → w_bevs w = ∅ →
  ∃ w', TcpClient_init ip0 port0 a self true w = Ok (tt, w') ∧ client_ok Fresh w' ∧
    app (w_ext w') = a ∧ ip (w_ext w') = ip0.
Proof.
  intros Hwf Hbv. set (c := brk (w_heap w)).
  set (h1 := mkHeap (Pos.succ c) (<[c := Conn_init 0]> (cells (w_heap w)))).
  assert (Hwf1 : heap_wf h1).
  { unfold h1. apply heap_wf_new. exact Hwf. }
  destruct (ConnQueue_init_spec h1 Hwf1) as (q & h2 & H2 & Hq & Hhd & Htl & _ & Hout).
  assert (Hc : c ∉ chain q []).
  { unfold chain. simpl. rewrite Hhd, Htl, !not_elem_of_cons. unfold h1. simpl.
    split_and!; [lia|lia|apply not_elem_of_nil]. }
  assert (Hcell : cells h2 !! c = Some (Conn_init 0)).
  { rewrite Hout by done. apply lookup_insert_eq. }
  set (o := set_thread (Some 0%nat) (Conn_init 0)).
  set (th := set_base (Some (mkBase false)) (set_thread_id self (mkThread 0 None false 0 0 [] q))).
  exists (mkWorld (mkHeap (brk h2) (<[c := o]> (cells h2))) (w_bev_brk w) (w_bevs w) [th]
    (mkClient None None None None port0 ip0 c None a)).
  split; [|split; [|done]].
  - unfold TcpClient_init. erewrite bind_run by (apply on_heap_run; reflexivity). cbn beta. fold c h1.
    erewrite bind_run by (apply on_heap_run; unfold LibeventThread_init; mrun H2; reflexivity). cbn beta.
    mrun. erewrite bind_run by (apply conn_update_run; exact Hcell). cbn beta. reflexivity.
  - split.
    + exists o. simpl. split; [apply lookup_insert_eq|done].
    + exact Hbv.
    + exists th. simpl. split_and!; [done|done| |exact Hc]. by eapply queue_other.
Qed.

(** [startRun] asks for the connection, or closes it at once. *)
Lemma startRun_run w env addr :
  client_ok Fresh w → env_bufferevent env = true →
  ip (w_ext w) = "" ∧ addr = 0 ∨ ip (w_ext w) ≠ "" ∧ env_inet_pton env (ip (w_ext w)) = Some addr →
  ∃ b w', startRun host env w = Ok (tt, w') ∧
    client_ok (if env_connect env then Live b else Gone b) w' ∧ app (w_ext w') = app (w_ext w) ∧
    (env_connect env = true → peer (w_ext w') = Some (htobe host 2 (u16 (port (w_ext w))), addr)) ∧
    connect_cb (w_ext w') = connect_cb (w_ext w) ∧ event_cb (w_ext w') = event_cb (w_ext w).
Proof.
  intros Hok Hbev Haddr. set (c := conn_ (w_ext w)). set (b := w_bev_brk w).
  assert (Hbevs : w_bevs w = ∅) by apply (co_bevs _ _ Hok).
  set (w1 := mkWorld (w_heap w) (Pos.succ b) (<[b := mkBev EB (-1) None evbuffer_new evbuffer_new]> (w_bevs w))
    (w_threads w) (w_ext w)).
  assert (Hok1 : client_ok Fresh (set_bevs ∅ w1)) by (destruct Hok; split; done).
  destruct Hok as [(o & Ho & Ht & Hp & Hb) _ (th & Hth & Hbase & Hq & Hn)].
  set (o1 := set_bev (Some b) o). set (h1 := mkHeap (brk (w_heap w)) (<[c := o1]> (cells (w_heap w)))).
  set (bv := mkBev EB (-1) (Some c) evbuffer_new evbuffer_new).
  set (w2 := mkWorld h1 (Pos.succ b) {[ b := bv ]} (w_threads w) (w_ext w)).
  assert (Hok2 : ∀ ph m e, phase_bev ph = Some b → bevs_ok ph c m → conn_ e = c →
    client_ok ph (mkWorld h1 (Pos.succ b) m (w_threads w) e)).
  { intros ph m e Hph Hm He. split; simpl; rewrite ?He.
    - exists o1. split; [apply lookup_insert_eq|]. by split_and!.
    - done.
    - exists th. split_and!; [done|done| |done]. by eapply queue_other. }
  assert (Hrun : startRun host env w = (if env_connect env
      then on_ext (modify (set_peer (Some (htobe host 2 (u16 (port (w_ext w))), addr))))
      else o ← conn_at c; bufferevent_free (ConnQueue.bev o)) w2).
  { unfold startRun. mrun. fold c.
    assert (Hip : (if decide (ip (w_ext w) = "") then mret 0
      else match env_inet_pton env (ip (w_ext w)) with
           | None => throw "sokcet ip error!" | Some a => mret a end) w = Ok (addr, w)).
    { destruct Haddr as [[-> ->]|[Hne ->]]; [by rewrite decide_True|by rewrite decide_False]. }
    mrun Hip. rewrite Hbev. mrun. fold b w1.
    erewrite bind_run by (apply conn_update_run; exact Ho). cbn beta.
    unfold bufferevent_setcb. rewrite bind_assoc.
    erewrite bind_run by (apply bev_at_run; apply lookup_insert_eq). cbn beta.
    mrun. unfold w2, w1, set_bevs, set_heap. simpl. by rewrite insert_insert_eq, Hbevs. }
  exists b. rewrite Hrun. destruct (env_connect env).
  - eexists. split; [reflexivity|]. split; [|done]. apply Hok2; [done| |done]. by exists bv.
  - exists (set_bevs (delete b (w_bevs w2)) w2). split; [|split; [|done]].
    + erewrite bind_run by (apply conn_at_run; apply lookup_insert_eq). cbn beta.
      apply (bufferevent_free_run w2 b). simpl. rewrite lookup_singleton_eq. by eexists.
    + apply Hok2; [done| |done]. simpl. by rewrite delete_singleton_eq.
Qed.

(** ** Closing *)

Lemma quit_start ph w :
  client_ok ph w → quit w = (_ ← bufferevent_free (phase_bev ph); loopexit) w.
Proof.
  intros [(o & Ho & _ & _ & Hb) _ _]. unfold quit. mrun. mrun (conn_at_run w _ o Ho). by rewrite Hb.
Qed.

Lemma loopexit_run ph w : client_ok ph w →
  ∃ th, w_threads w = [th] ∧
    let w' := set_threads [set_base (Some (mkBase true)) th] w in loopexit w = Ok (tt, w') ∧ client_ok ph w'.
Proof.
  intros [Ho Hb (th & Hth & Hbase & Hq & Hn)].
  set (th' := set_base (Some (mkBase true)) th). exists th. split; [done|]. cbn zeta. fold th'. split.
  - unfold loopexit. mrun (thread_at_run w 0 th ltac:(by rewrite Hth)).
    destruct (base th); [|done]. unfold thread_update. rewrite modify_run, Hth. done.
  - split; [done|done|]. by exists th'.
Qed.

Lemma free_live b w : client_ok (Live b) w →
  bufferevent_free (Some b) w = Ok (tt, set_bevs ∅ w) ∧ client_ok (Gone b) (set_bevs ∅ w).
Proof.
  intros [Ho (bv & Hbv & _) Hth]. split; [|by split].
  rewrite (bufferevent_free_run w b) by (rewrite Hbv, lookup_singleton_eq; by eexists).
  by rewrite Hbv, delete_singleton_eq.
Qed.

Lemma quit_live b w : client_ok (Live b) w →
  ∃ th, w_threads w = [th] ∧
    let w' := set_threads [set_base (Some (mkBase true)) th] (set_bevs ∅ w) in
    quit w = Ok (tt, w') ∧ client_ok (Gone b) w'.
Proof.
  intros Hok. rewrite (quit_start (Live b) w Hok). destruct (free_live b w Hok) as [Hf Hok'].
  erewrite bind_run by exact Hf. cbn beta.
  exact (loopexit_run _ _ Hok').
Qed.

Lemma quit_gone b w : client_ok (Gone b) w → quit w = Fault DoubleFree.
Proof.
  intros Hok. rewrite (quit_start _ w Hok). apply bind_fault. unfold bufferevent_free. simpl.
  by rewrite (co_bevs _ _ Hok).
Qed.
Lemma destroy_faults fuel w f : quit w = Fault f → TcpClient_destroy fuel w = Fault f.
Proof. intros Hq. unfold TcpClient_destroy. by apply bind_fault. Qed.


End client.

(** ** The handlers *)

Section contract.
Context {EB : EvbufferOps} {K A : Type} {CB : Callbacks K A}.
Implicit Types (w : World EB (TcpClient K A)) (b c : ptr).

(** The client's connection is still there: live, or just closed. *)
Definition ran (app_inv : A → Prop) (m : M (World EB (TcpClient K A)) unit) b w : Prop :=
  ∃ w' ph, m w = Ok (tt, w') ∧ (ph = Live b ∨ ph = Gone b) ∧ client_ok ph w' ∧ app_inv (app (w_ext w')).

Definition bufs_set w b c : Prop := ∃ o, cells (w_heap w) !! c = Some o ∧
  readBuf o = Some (mkBufref b Input) ∧ writeBuf o = Some (mkBufref b Output).

(** The callbacks return and keep the client's state; they may call [quit],
    except the event callback, after which the client closes the connection. *)
Class ClientApp (app_inv : A → Prop) : Prop := {
  connect_handled k w b :
    connect_cb (w_ext w) = Some k → client_ok (Live b) w → bufs_set w b (conn_ (w_ext w)) →
    app_inv (app (w_ext w)) → ran app_inv (call k (conn_ (w_ext w))) b w;
  data_handled k w b :
    read_cb (w_ext w) = Some k ∨ write_cb (w_ext w) = Some k →
    client_ok (Live b) w → bufs_set w b (conn_ (w_ext w)) →
    app_inv (app (w_ext w)) → ran app_inv (call k (conn_ (w_ext w))) b w;
  event_handled k w b events :
    event_cb (w_ext w) = Some k → client_ok (Live b) w → app_inv (app (w_ext w)) →
    ∃ w', call_event k (conn_ (w_ext w)) events w = Ok (tt, w') ∧ client_ok (Live b) w' ∧
      app_inv (app (w_ext w'))
}.
End contract.

Section handlers.
Context {EB : EvbufferOps} {K A : Type} {CB : Callbacks K A}.
Context (app_inv : A → Prop) {CA : ClientApp app_inv}.
Implicit Types (w : World EB (TcpClient K A)) (b c : ptr).

Lemma ran_when_set (cb : option K) (run : K → M (World EB (TcpClient K A)) unit) b w :
  (∀ k, cb = Some k → ran app_inv (run k) b w) → client_ok (Live b) w → app_inv (app (w_ext w)) →
  ran app_inv (when_set cb run) b w.
Proof using.
  intros Hk Hok Ha. destruct cb as [k|]; [by apply Hk|]. exists w, (Live b). split_and!; auto.
Qed.

Lemma live_bev b w : client_ok (Live b) w → is_Some (w_bevs w !! b).
Proof using. intros [_ (bv & -> & _) _]. rewrite lookup_singleton_eq. by eexists. Qed.

Lemma client_of_run b w : client_ok (Live b) w → client_of (conn_ (w_ext w)) w = Ok (w_ext w, w).
Proof using.
  intros [(o & Ho & Ht & _) _ (th & Hth & _)]. unfold client_of, getThread. rewrite bind_assoc.
  mrun (conn_at_run w _ o Ho). rewrite ret_run_bind, Ht.
  by mrun (thread_at_run w 0 th ltac:(by rewrite Hth)).
Qed.

(** The buffer pointers are stored. *)
Definition store_bufs b c : M (World EB (TcpClient K A)) unit :=
  inp ← bufferevent_get_input (Some b);
  _ ← conn_update c (set_readBuf (Some inp));
  out ← bufferevent_get_output (Some b);
  conn_update c (set_writeBuf (Some out)).

Lemma client_store_run b w : client_ok (Live b) w →
  ∃ w', store_bufs b (conn_ (w_ext w)) w = Ok (tt, w') ∧ client_ok (Live b) w' ∧ w_ext w' = w_ext w ∧
    ∀ o, cells (w_heap w) !! conn_ (w_ext w) = Some o → cells (w_heap w') !! conn_ (w_ext w) =
      Some (set_writeBuf (Some (mkBufref b Output)) (set_readBuf (Some (mkBufref b Input)) o)).
Proof using.
  intros Hok. destruct (live_bev b w Hok) as [bv Hbv].
  destruct (client_update (Live b) (Live b) w (set_readBuf (Some (mkBufref b Input))) Hok
    (co_bevs _ _ Hok)) as (w1 & H1 & Hok1 & Hx1 & Hb1 & Ho1); [done|done|].
  assert (Hbevs1 := co_bevs _ _ Hok1).
  destruct (client_update (Live b) (Live b) w1 (set_writeBuf (Some (mkBufref b Output))) Hok1 Hbevs1)
    as (w2 & H2 & Hok2 & Hx2 & _ & Ho2); [done|done|].
  rewrite Hx1 in H2, Ho2. exists w2. split_and!; [|done|congruence|by auto].
  unfold store_bufs, bufferevent_get_input, bufferevent_get_output. rewrite bind_assoc.
  mrun (bev_at_run w b bv Hbv). mrun. mrun H1. rewrite bind_assoc.
  mrun (bev_at_run w1 b bv ltac:(by rewrite Hb1)). mrun. exact H2.
Qed.

(** Store the buffer pointers, then run a callback of the client. *)
Lemma client_callback_run b w (sel : TcpClient K A → option K) :
  client_ok (Live b) w → app_inv (app (w_ext w)) →
  (∀ w k, sel (w_ext w) = Some k → client_ok (Live b) w → bufs_set w b (conn_ (w_ext w)) →
     app_inv (app (w_ext w)) → ran app_inv (call k (conn_ (w_ext w))) b w) →
  ran app_inv (_ ← store_bufs b (conn_ (w_ext w)); s ← client_of (conn_ (w_ext w));
               when_set (sel s) (λ k, call k (conn_ (w_ext w)))) b w.
Proof using.
  intros Hok Ha Hsel. destruct (client_store_run b w Hok) as (w1 & H1 & Hok1 & Hx & Hcell).
  assert (Hset : bufs_set w1 b (conn_ (w_ext w))).
  { destruct Hok as [(o & Ho & _) _ _]. eexists. split; [by apply Hcell|done]. }
  assert (Hran : ran app_inv (when_set (sel (w_ext w)) (λ k, call k (conn_ (w_ext w)))) b w1).
  { apply ran_when_set; [|done|by rewrite Hx]. intros k Hk. rewrite <- Hx.
    apply Hsel; rewrite ?Hx; done. }
  destruct Hran as (w2 & ph & H2 & Hph & Hok2 & Ha2). exists w2, ph. split_and!; [|done..].
  mrun H1. rewrite <- Hx. rewrite (bind_run _ _ _ _ _ (client_of_run b w1 Hok1)). by rewrite Hx.
Qed.

Lemma regroup b c {B} (k : M (World EB (TcpClient K A)) B) w :
  (inp ← bufferevent_get_input (Some b);
   _ ← conn_update c (set_readBuf (Some inp));
   out ← bufferevent_get_output (Some b);
   _ ← conn_update c (set_writeBuf (Some out)); k) w = (_ ← store_bufs b c; k) w.
Proof using.
  unfold store_bufs. rewrite !bind_assoc. apply bind_ext_run. intros inp w1.
  rewrite !bind_assoc. apply bind_ext_run. intros _ w2. by rewrite !bind_assoc.
Qed.

Lemma when_set_event b w events : client_ok (Live b) w → app_inv (app (w_ext w)) →
  ∃ w1, when_set (event_cb (w_ext w)) (λ k, call_event k (conn_ (w_ext w)) events) w = Ok (tt, w1) ∧
    client_ok (Live b) w1 ∧ app_inv (app (w_ext w1)).
Proof using CA.
  intros Hok Ha. destruct (event_cb (w_ext w)) as [k|] eqn:Hk; [by apply event_handled|by exists w].
Qed.

Lemma bufferEventCb_run b w events sock :
  client_ok (Live b) w → app_inv (app (w_ext w)) →
  ran app_inv (bufferEventCb b events (conn_ (w_ext w)) sock) b w.
Proof using CA.
  intros Hok Ha. unfold ran, bufferEventCb. destruct (is_connected events).
  - destruct (live_bev b w Hok) as [bv Hbv].
    destruct (client_update (Live b) (Live b) w (set_fd sock) Hok (co_bevs _ _ Hok))
      as (w1 & H1 & Hok1 & Hx1 & _ & _); [done|done|].
    destruct (client_callback_run b w1 connect_cb Hok1) as (w2 & ph & H2 & H); [by rewrite Hx1| |].
    { intros w' k. apply connect_handled. }
    exists w2, ph. split; [|exact H]. rewrite Hx1 in H2. rewrite <- H2.
    mrun (bev_at_run w b bv Hbv). mrun H1. apply regroup.
  - destruct (when_set_event b w events Hok Ha) as (w1 & H1 & Hok1 & Ha1). destruct (free_live b w1 Hok1) as [H2 Hok2].
    exists (set_bevs ∅ w1), (Gone b). split_and!; [|by right|done|done].
    mrun (client_of_run b w Hok). mrun H1. exact H2.
Qed.

(** An event on the live connection: its buffers change first. *)
Lemma event_ready b w s e : client_ok (Live b) w →
  data_of b w = Ok (conn_ (w_ext w), w) ∧
  ∃ w', buf_store (Some (mkBufref b s)) e w = Ok (tt, w') ∧ client_ok (Live b) w' ∧ w_ext w' = w_ext w.
Proof using.
  intros Hok. pose proof Hok as [Hc (bv & Hbv & Hd) Hth].
  assert (Hl : w_bevs w !! b = Some bv) by (by rewrite Hbv, lookup_singleton_eq). split.
  - unfold data_of. mrun (bev_at_run w b bv Hl). by rewrite Hd.
  - eexists. split; [by apply buf_store_run|]. split; [|done]. split; [done| |done].
    exists (set_side s e bv). simpl. rewrite Hbv. split; [apply insert_singleton_eq|by destruct s].
Qed.

Lemma handle_live b w e : client_ok (Live b) w → app_inv (app (w_ext w)) → enabled e w →
  ran app_inv (handle e) b w.
Proof using CA.
  intros Hok Ha He.
  assert (Heq : ∀ b', is_Some (w_bevs w !! b') → b' = b).
  { intros b' Hb'. destruct Hok as [_ (bv & Hbv & _) _]. rewrite Hbv in Hb'. destruct Hb' as [x Hx].
    by apply lookup_singleton_Some in Hx as [-> _]. }
  unfold ran. destruct e as [b' e|b' e|b' ev sock|]; simpl in He; [rewrite (Heq b' He)..|]; cbn [handle].
  - destruct (event_ready b w Input e Hok) as (Hd & w1 & H1 & Hok1 & Hx).
    destruct (client_callback_run b w1 read_cb Hok1) as (w2 & ph & H2 & H); [by rewrite Hx| |].
    { intros w' k Hk. apply data_handled. by left. }
    exists w2, ph. split; [|exact H]. rewrite Hx in H2. rewrite <- H2. mrun Hd. mrun H1.
    unfold bufferReadCb. apply regroup.
  - destruct (event_ready b w Output e Hok) as (Hd & w1 & H1 & Hok1 & Hx).
    destruct (client_callback_run b w1 write_cb Hok1) as (w2 & ph & H2 & H); [by rewrite Hx| |].
    { intros w' k Hk. apply data_handled. by right. }
    exists w2, ph. split; [|exact H]. rewrite Hx in H2. rewrite <- H2. mrun Hd. mrun H1.
    unfold bufferWriteCb. apply regroup.
  - destruct (event_ready b w Input evbuffer_new Hok) as (Hd & _).
    destruct (bufferEventCb_run b w ev sock Hok Ha) as (w2 & ph & H2 & H).
    exists w2, ph. split; [|exact H]. by mrun Hd.
  - destruct (quit_live b w Hok) as (th & _ & H1 & Hok1).
    eexists _, (Gone b). by split_and!; [exact H1|right|exact Hok1|].
Qed.


(** The client's state along a run of the loop. *)
Definition client_inv b w : Prop :=
  (client_ok (Live b) w ∧ app_inv (app (w_ext w))) ∨ client_ok (Gone b) w.

Lemma client_steps b w w' : rtc client_step w w' → client_inv b w → client_inv b w'.
Proof using CA.
  induction 1 as [|w w1 w' (e & He & Hrun) _ IH]; [done|]. intros [[Hok Ha]|Hok]; apply IH.
  - destruct (handle_live b w e Hok Ha He) as (w2 & ph & Hrun2 & [->| ->] & Hok2 & Ha2);
      assert (w2 = w1) as -> by congruence; [by left|by right].
  - pose proof (co_bevs _ _ Hok) as Hb. simpl in Hb. destruct e; simpl in He;
      try (rewrite Hb, lookup_empty in He; by destruct He).
    simpl in Hrun. rewrite (quit_gone b w Hok) in Hrun. done.
Qed.
End handlers.

(** ** Properties *)

Section properties.
Context {EB : EvbufferOps} {K A : Type} {CB : Callbacks K A}.
Context (host : endian).
Implicit Types (w : World EB (TcpClient K A)).

Definition set_all (r wr n e : option K) : M (World EB (TcpClient K A)) unit :=
  _ ← on_ext (modify (setReadCallback r));
  _ ← on_ext (modify (setWriteCallback wr));
  _ ← on_ext (modify (setConnectionCallback n));
  on_ext (modify (setEventCallback e)).

(** Construction and the setters. *)
Definition prepared ip0 port0 (a : A) self r wr n e : M (World EB (TcpClient K A)) unit :=
  _ ← TcpClient_init ip0 port0 a self true;
  set_all r wr n e.

Lemma prepared_run w ip0 port0 a self r wr n e :
  heap_wf (w_heap w) → w_bevs w = ∅ →
  ∃ w', prepared ip0 port0 a self r wr n e w = Ok (tt, w') ∧ client_ok Fresh w' ∧
    app (w_ext w') = a ∧ ip (w_ext w') = ip0.
Proof.
  intros Hwf Hbv. destruct (TcpClient_init_run w ip0 port0 a self Hwf Hbv) as (w1 & H1 & Hok & Ha & Hip).
  exists (set_ext (set_callbacks r wr n e (w_ext w1)) w1). split_and!.
  - unfold prepared. mrun H1. by destruct w1 as [? ? ? ? [? ? ? ? ? ? ? ? ?]].
  - destruct Hok. by split.
  - done.
  - done.
Qed.

(** The address is empty or one that [inet_pton] reads. *)
Definition address_ok (env : start_env) ip0 : Prop := ip0 = "" ∨ env_inet_pton env ip0 ≠ None.

Lemma address_found env w : address_ok env (ip (w_ext w)) →
  ∃ addr, ip (w_ext w) = "" ∧ addr = 0 ∨ ip (w_ext w) ≠ "" ∧ env_inet_pton env (ip (w_ext w)) = Some addr.
Proof.
  intros Hip. destruct (decide (ip (w_ext w) = "")) as [He|He]; [by exists 0; left|].
  destruct Hip as [?|Hp]; [done|]. destruct (env_inet_pton env _) as [a|]; [|done]. exists a. by right.
Qed.

Lemma started_run w env :
  client_ok Fresh w → env_bufferevent env = true → address_ok env (ip (w_ext w)) →
  ∃ b w', startRun host env w = Ok (tt, w') ∧
    client_ok (if env_connect env then Live b else Gone b) w' ∧ app (w_ext w') = app (w_ext w).
Proof.
  intros Hok Hb Hip.
  destruct (address_found env w Hip) as [addr Haddr].
  destruct (startRun_run host w env addr Hok Hb Haddr) as (b & w' & H & H2 & H3 & _). by exists b, w'.
Qed.

(** C27: a started client handles every event of its connection, whatever came
    before, until the connection is closed (by [quit], by an error event, or
    because connecting failed); from then on its bufferevent is gone, no event
    occurs any more, and [quit] and the destructor free it a second time. *)
Theorem client_runs_until_closed (app_inv : A → Prop) {CA : ClientApp app_inv}
    w0 ip0 port0 a self r wr n e env :
  heap_wf (w_heap w0) → w_bevs w0 = ∅ → app_inv a →
  env_bufferevent env = true → address_ok env ip0 →
  ∃ w1 w2, prepared ip0 port0 a self r wr n e w0 = Ok (tt, w1) ∧ startRun host env w1 = Ok (tt, w2) ∧
    ∀ w, rtc client_step w2 w →
      (w_bevs w ≠ ∅ → ∀ ev, enabled ev w → ∃ w', handle ev w = Ok (tt, w')) ∧
      (w_bevs w = ∅ → handle EQuit w = Fault DoubleFree ∧
         ∀ fuel, TcpClient_destroy fuel w = Fault DoubleFree).
Proof.
  intros Hwf Hbv Ha Henv Hip.
  destruct (prepared_run w0 ip0 port0 a self r wr n e Hwf Hbv) as (w1 & H1 & Hok1 & Ha1 & Hip1).
  destruct (started_run w1 env Hok1 Henv ltac:(by rewrite Hip1)) as (b & w2 & H2 & Hok2 & Ha2).
  exists w1, w2. split_and!; [done|done|]. intros w Hsteps.
  assert (Hinv : client_inv app_inv b w).
  { eapply client_steps; [exact CA|exact Hsteps|].
    destruct (env_connect env); [left|by right]. split; [done|]. by rewrite Ha2, Ha1. }
  destruct Hinv as [[Hok Haw]|Hok]; (split; [intros Hne|intros Hnil]).
  - intros ev He. destruct (handle_live app_inv b w ev Hok Haw He) as (w' & ph & Hrun & _). by exists w'.
  - destruct (live_bev b w Hok) as [bv Hl]. by rewrite Hnil in Hl.
  - by rewrite (co_bevs _ _ Hok) in Hne.
  - split; [apply (quit_gone b w Hok)|]. intros fuel. by apply destroy_faults, (quit_gone b).
Qed.


(** A client that uses the codec with its default error callback does not
    survive a damaged frame: the callback unlinks the connection from a queue
    that the client's connection is in none of, through a null pointer. *)
Theorem client_bad_frame_faults b w (err : ErrorCode) :
  client_ok (Live b) w →
  defaultErrorCallback (Some (conn_ (w_ext w))) err w = Fault NullDeref.
Proof.
  intros Hok. destruct (free_live b w Hok) as [Hfree _].
  destruct Hok as [(o & Ho & Ht & Hp & Hb) _ (th & Hth & _)].
  unfold defaultErrorCallback, getBufferevent. rewrite bind_assoc. mrun (conn_at_run w _ o Ho).
  rewrite ret_run_bind, Hb. mrun Hfree. unfold thread_deleteConn, getThread. rewrite bind_assoc.
  mrun (conn_at_run (set_bevs ∅ w) _ o Ho). rewrite ret_run_bind, Ht.
  mrun (thread_at_run (set_bevs ∅ w) 0 th ltac:(simpl; by rewrite Hth)).
  apply bind_fault. unfold on_heap. apply zoom_fault. unfold deleteConn.
  mrun (load_run (w_heap w) _ o Ho). by rewrite Hp.
Qed.

Lemma connected_run b w ev sock :
  client_ok (Live b) w → is_connected ev = true →
  ∃ o w1, handle (EEvent b ev sock) w =
      when_set (connect_cb (w_ext w)) (λ k, call k (conn_ (w_ext w))) w1 ∧
    client_ok (Live b) w1 ∧ w_ext w1 = w_ext w ∧
    cells (w_heap w1) !! conn_ (w_ext w) = Some o ∧ ConnQueue.fd o = sock ∧
    readBuf o = Some (mkBufref b Input) ∧ writeBuf o = Some (mkBufref b Output).
Proof.
  intros Hok Hev. pose proof Hok as [(o & Ho & _) _ _]. destruct (live_bev b w Hok) as [bv Hbv].
  destruct (event_ready b w Input evbuffer_new Hok) as (Hd & _).
  destruct (client_update (Live b) (Live b) w (set_fd sock) Hok (co_bevs _ _ Hok))
    as (w1 & H1 & Hok1 & Hx1 & _ & Ho1); [done|done|].
  destruct (client_store_run b w1 Hok1) as (w2 & H2 & Hok2 & Hx2 & Ho2). rewrite Hx1 in H2, Hx2, Ho2.
  eexists _, w2. split; [|split; [exact Hok2|split; [exact Hx2|split; [by apply Ho2, Ho1|done]]]].
  unfold handle. mrun Hd. unfold bufferEventCb. rewrite Hev.
  mrun (bev_at_run w b bv Hbv). mrun H1. rewrite regroup. mrun H2.
  rewrite <- Hx2. by rewrite (bind_run _ _ _ _ _ (client_of_run b w2 Hok2)).
Qed.
(** Connecting: when the connection is there, the client's object gets the
    descriptor and both buffers of its bufferevent, and the connection callback
    runs on that state. *)
Theorem client_connected b w sock :
  client_ok (Live b) w →
  ∃ o w1, handle (EEvent b BEV_EVENT_CONNECTED sock) w =
      when_set (connect_cb (w_ext w)) (λ k, call k (conn_ (w_ext w))) w1 ∧
    client_ok (Live b) w1 ∧ w_ext w1 = w_ext w ∧
    cells (w_heap w1) !! conn_ (w_ext w) = Some o ∧ ConnQueue.fd o = sock ∧
    readBuf o = Some (mkBufref b Input) ∧ writeBuf o = Some (mkBufref b Output).
Proof. intros Hok. by apply connected_run. Qed.
End properties.

(** ** A concrete client *)

Module demo_client.
#[local] Existing Instances chunked.ops.

(** Callbacks that log the event they were called for. *)
Definition log_call (ev : Z) : M (World chunked.ops (TcpClient unit (list Z))) unit :=
  on_ext (modify (λ s, set_app (app s ++ [ev]) s)).
#[export] Instance callbacks : Callbacks unit (list Z) := {
  call _ _ := log_call 0;
  call_event _ _ ev := log_call ev
}.

#[export] Instance app_ok : ClientApp (λ _ : list Z, True).
Proof.
  assert (Hlog : ∀ (w : World chunked.ops (TcpClient unit (list Z))) b ev, client_ok (Live b) w →
    ∃ w', log_call ev w = Ok (tt, w') ∧ client_ok (Live b) w' ∧ True).
  { intros w b ev [? ? ?]. eexists. split; [reflexivity|]. by split. }
  split; unfold ran.
  - intros k w b _ Hok _ _. destruct (Hlog w b 0 Hok) as (w' & ? & ? & _). exists w', (Live b). by split_and!; [|left| |].
  - intros k w b _ Hok _ _. destruct (Hlog w b 0 Hok) as (w' & ? & ? & _). exists w', (Live b). by split_and!; [|left| |].
  - intros k w b ev _ Hok _. by apply Hlog.
Qed.

Definition w0 : World chunked.ops (TcpClient unit (list Z)) :=
  mkWorld (mkHeap 1 ∅) 1 ∅ [] (mkClient None None None None 0 "" 1 None []).
Definition env (ok : bool) : start_env := mkStartEnv (λ _, Some 16777343) true ok.

Lemma client_w0_wf : heap_wf (w_heap w0).
Proof. intros p [c Hc]. simpl in Hc. by rewrite lookup_empty in Hc. Qed.

Definition started : World chunked.ops (TcpClient unit (list Z)) :=
  match (_ ← prepared "127.0.0.1" 8009 [] 7 (Some tt) None (Some tt) (Some tt); startRun LittleEndian (env true)) w0 with
  | Ok (_, w) => w
  | _ => w0
  end.
Lemma started_ok : client_ok (Live 1) started.
Proof.
  destruct (prepared_run w0 "127.0.0.1" 8009 [] 7 (Some tt) None (Some tt) (Some tt) client_w0_wf eq_refl)
    as (w1 & H1 & Hok1 & _ & Hip1).
  destruct (started_run LittleEndian w1 (env true) Hok1 eq_refl) as (b & w2 & H2 & Hok2 & _);
    [by right|].
  assert (started = w2) as ->.
  { unfold started. erewrite bind_run by exact H1. cbn beta. by rewrite H2. }
  assert (w_bevs w2 !! 1%positive ≠ None) as Hb.
  { assert (started = w2) as <-; [unfold started; erewrite bind_run by exact H1; cbn beta; by rewrite H2|].
    by vm_compute. }
  pose proof (co_bevs _ _ Hok2) as (bv & Hbv & _). rewrite Hbv in Hb.
  destruct (decide (b = 1%positive)) as [->|Hne]; [done|]. by rewrite lookup_singleton_ne in Hb.
Qed.
End demo_client.

Module client_witnesses.
Import demo_client.
#[local] Existing Instances chunked.ops demo_client.callbacks demo_client.app_ok.

Lemma env_address : address_ok (env true) "127.0.0.1".
Proof. by right. Qed.
Lemma client_runs_until_closed_witness :
  ∃ w1 w2, prepared "127.0.0.1" 8009 [] 7 (Some tt) None (Some tt) (Some tt) w0 = Ok (tt, w1) ∧
    startRun LittleEndian (env true) w1 = Ok (tt, w2) ∧
    ∀ w, rtc client_step w2 w →
      (w_bevs w ≠ ∅ → ∀ ev, enabled ev w → ∃ w', handle ev w = Ok (tt, w')) ∧
      (w_bevs w = ∅ → handle EQuit w = Fault DoubleFree ∧
         ∀ fuel, TcpClient_destroy fuel w = Fault DoubleFree).
Proof.
  exact (client_runs_until_closed LittleEndian (λ _, True) w0 "127.0.0.1" 8009 [] 7 (Some tt) None
    (Some tt) (Some tt) (env true) client_w0_wf eq_refl I eq_refl env_address).
Defined.


Lemma client_bad_frame_faults_witness :
  defaultErrorCallback (Some (conn_ (w_ext started))) parseError started = Fault NullDeref.
Proof. exact (client_bad_frame_faults 1 started parseError started_ok). Defined.

Lemma client_connected_witness :
  ∃ o w1, handle (EEvent 1 BEV_EVENT_CONNECTED 9) started =
      when_set (connect_cb (w_ext started)) (λ k, call k (conn_ (w_ext started))) w1 ∧
    client_ok (Live 1) w1 ∧ w_ext w1 = w_ext started ∧
    cells (w_heap w1) !! conn_ (w_ext started) = Some o ∧ ConnQueue.fd o = 9 ∧
    readBuf o = Some (mkBufref 1 Input) ∧ writeBuf o = Some (mkBufref 1 Output).
Proof. exact (client_connected 1 started 9 started_ok). Defined.
End client_witnesses.
