(* ===== verification/ExampleClient.v ===== *)
(** * The example client (test/client.cpp)

    A [TcpClient] with a channel: when the connection is there it makes a call
    on the channel and, when the answer arrives, quits.  The example refers to
    generated names ([evrpc], [EkvCmd_Stub]) that differ from those of
    test/rpc.proto; the messages and the stub are parameters here.  A stub
    forwards a call to the [CallMethod] of its channel. *)

From S2P Require Import Prelude Endian ConnQueue External World Codec ProtoWire RpcPb RpcPbParse RpcChannel ChannelLemmas.
From S2P Require Import RpcCalls Delivery RpcDemo TcpClient ClientProps.
Import TcpClient.

(** What the example uses of its generated messages: new ones, the addition of
    a site with a key and a value, and the descriptor of [Put]; and the code of
    a closure over [RpcClient::solved]. *)
Class EvrpcOps {UO : UserOps} := {
  PutRequest_new : UMsg;
  add_site : bytes → bytes → UMsg → UMsg;
  PutResult_new : UMsg;
  Put_method : MethodDescriptor;
  solved_code : ptr → UserCode
}.

(** The member [channel_], and the state of all channels. *)
Record RpcClient {UO : UserOps} := mkRpcClient { channel_ : option ptr; client_rpc : RpcState UO }.
Arguments RpcClient UO : clear implicits.

Inductive client_callback :=
  | OnConnection
  | OnMessage (chan : ptr).

#[export] Instance rpc_host_client (UO : UserOps) (K : Type) : RpcHost UO (TcpClient K (RpcClient UO)).
Proof.
  refine {| rpc_of e := client_rpc (app e); set_rpc s e := set_app (mkRpcClient UO (channel_ (app e)) s) e |};
    intros; try done; by destruct e as [? ? ? ? ? ? ? ? []].
Defined.

Section RpcClient.
Context {EB : EvbufferOps} {ZL : ZlibOps} {WO : WireOps} {PO : ParseOps} {UO : UserOps} {EO : EvrpcOps}.
Abbreviation client := (TcpClient client_callback (RpcClient UO)).
Context {UC : UserClosures client} {US : UserServices client}.
Context (host : endian) (fuel : nat).
Abbreviation MW := (M (World EB client)).

Definition get_channel : MW ptr := c ← gets (λ w, channel_ (app (w_ext w))); expect NullDeref c.

(** [stub_.Put(NULL, &request, result, done)] *)
Definition Put (request : UMsg) (result done : option ptr) : MW unit :=
  chan ← get_channel; CallMethod host chan Put_method request result done.

Definition onConnection (conn : option ptr) : MW unit :=
  chan ← get_channel;
  _ ← setConnection chan conn;
  let request := add_site (bytes_of_string "key test 1") (bytes_of_string "value test 1") PutRequest_new in
  result ← on_rpc (new_message PutResult_new);
  done ← on_rpc (NewCallback (UserClosure (solved_code result)));
  Put request (Some result) (Some done).

Definition solved (resp : ptr) : MW unit :=
  _ ← on_rpc (message_at (Some resp));
  quit.

#[export] Instance client_callbacks : Callbacks client_callback (RpcClient UO) := {
  call k c := match k with
    | OnConnection => onConnection (Some c)
    | OnMessage chan => RpcChannel.onMessage host fuel chan (Some c)
    end;
  call_event _ _ _ := mret tt
}.

(** No call yet, no channel. *)
Definition no_calls : RpcState UO := mkRpc 0 1 ∅ ∅ ∅ ∅.

Definition RpcClient_init (ip0 : string) (port0 self : Z) (base_ok : bool) : MW unit :=
  _ ← TcpClient_init ip0 port0 (mkRpcClient UO NULL no_calls) self base_ok;
  chan ← RpcChannel_init_default;
  _ ← on_ext (modify (λ e, set_app (mkRpcClient UO (Some chan) (client_rpc (app e))) e));
  _ ← on_ext (modify (setConnectionCallback (Some OnConnection)));
  on_ext (modify (setReadCallback (Some (OnMessage chan)))).

Definition connect (env : start_env) : MW unit := startRun host env.

(** The members, the last one first; only [channel_] owns the channel. *)
Definition RpcClient_destroy (fuel : nat) : MW unit :=
  chan ← get_channel;
  _ ← RpcChannel_destroy chan;
  TcpClient_destroy fuel.
End RpcClient.

(** ** What becomes of it *)

Section example.
Context {EB : EvbufferOps} {ZL : ZlibOps} {WO : WireOps} {PO : ParseOps} {UO : UserOps} {EO : EvrpcOps}.
Abbreviation client := (TcpClient client_callback (RpcClient UO)).
Context {UC : UserClosures client} {US : UserServices client}.
Context (host : endian) (fuel : nat).
#[local] Instance callbacks : Callbacks client_callback (RpcClient UO) := client_callbacks host fuel.
Implicit Types (w : World EB client) (b : ptr).

(** The channel of the example has no connection. *)
Definition unconnected w : Prop :=
  channel_ (app (w_ext w)) = Some 1%positive ∧
  client_rpc (app (w_ext w)) = mkRpc 0 2 ∅ ∅ {[ 1%positive := mkChannel None ∅ NULL ]} ∅.

Lemma RpcClient_init_run w ip0 port0 self :
  heap_wf (w_heap w) → w_bevs w = ∅ →
  ∃ w', RpcClient_init ip0 port0 self true w = Ok (tt, w') ∧ client_ok Fresh w' ∧ unconnected w' ∧
    connect_cb (w_ext w') = Some OnConnection ∧ ip (w_ext w') = ip0.
Proof using.
  intros Hwf Hbv.
  destruct (TcpClient_init_run w ip0 port0 (mkRpcClient UO NULL no_calls) self Hwf Hbv) as (w1 & H1 & Hok & Ha & Hip).
  destruct w1 as [h bb m ts [r wr n e p i c pr a]]. simpl in Ha, Hip. subst a i. eexists. split; [|split_and!].
  - unfold RpcClient_init. mrun H1. reflexivity.
  - destruct Hok as [Ho Hb Ht]. by split.
  - done.
  - done.
  - done.
Qed.

(** The call of the connection callback reads the connection of the channel. *)
Lemma onConnection_faults w c : unconnected w → onConnection host c w = Fault Uninit.
Proof using.
  intros [Hch Hrpc]. destruct w as [h bb m ts [r wr n e p i cn pr [ch s]]]. simpl in Hch, Hrpc. subst ch s.
  unfold onConnection. do 2 (erewrite bind_run by reflexivity).
  do 2 (erewrite bind_run by reflexivity). cbn beta. unfold Put.
  erewrite bind_run by reflexivity. unfold CallMethod.
  do 4 (erewrite bind_run by reflexivity). by apply bind_fault.
Qed.

Lemma unconnected_ext w w' : app (w_ext w') = app (w_ext w) → unconnected w → unconnected w'.
Proof using. unfold unconnected. by intros ->. Qed.

(** The destructor: the channel has no calls to free. *)
Lemma RpcClient_destroy_gone w b n :
  client_ok (Gone b) w → unconnected w → RpcClient_destroy n w = Fault DoubleFree.
Proof using.
  intros Hok [Hch Hrpc].
  destruct w as [h bb m ts [r wr nc e p i cn pr [ch s]]]. simpl in Hch, Hrpc. subst ch s.
  unfold RpcClient_destroy. erewrite bind_run by reflexivity. erewrite bind_run by reflexivity.
  apply destroy_faults, (quit_gone b). destruct Hok as [Ho Hb Ht]. by split.
Qed.

(** C25: the example client fails whatever happens on its connection: when the
    connection is there, its connection callback makes a call on a channel
    whose connection [setConnection] has not set; when it cannot be had, now or
    later, the bufferevent is freed by the client and again by its destructor. *)
Theorem example_client_fails w0 ip0 port0 self env :
  heap_wf (w_heap w0) → w_bevs w0 = ∅ →
  env_bufferevent env = true → address_ok env ip0 →
  ∃ w1 w2, RpcClient_init ip0 port0 self true w0 = Ok (tt, w1) ∧ connect host env w1 = Ok (tt, w2) ∧
    if env_connect env then
      ∃ b, is_Some (w_bevs w2 !! b) ∧ ∀ ev sock,
        if is_connected ev then handle (EEvent b ev sock) w2 = Fault Uninit
        else ∃ w3, handle (EEvent b ev sock) w2 = Ok (tt, w3) ∧
               ∀ n, RpcClient_destroy n w3 = Fault DoubleFree
    else ∀ n, RpcClient_destroy n w2 = Fault DoubleFree.
Proof using.
  intros Hwf Hbv Henv Hip.
  destruct (RpcClient_init_run w0 ip0 port0 self Hwf Hbv) as (w1 & H1 & Hok1 & Hu1 & Hcb & Hip1).
  rewrite <- Hip1 in Hip. destruct (address_found env w1 Hip) as [addr Haddr].
  destruct (startRun_run host w1 env addr Hok1 Henv Haddr) as (b & w2 & H2 & Hok2 & Ha & _ & Hn & _).
  assert (Hu2 : unconnected w2) by (by apply (unconnected_ext w1)).
  exists w1, w2. split; [exact H1|]. split; [exact H2|].
  destruct (env_connect env); [|intros n; by apply (RpcClient_destroy_gone _ b)].
  exists b. split; [by apply live_bev|]. intros ev sock. destruct (is_connected ev) eqn:Hev.
  - destruct (connected_run b w2 ev sock Hok2 Hev) as (o & w3 & Hrun & _ & Hx & _).
    rewrite Hrun, Hn, Hcb. apply onConnection_faults, (unconnected_ext w2); [by rewrite Hx|done].
  - destruct (event_ready b w2 Input evbuffer_new Hok2) as (Hd & _).
    destruct (free_live b w2 Hok2) as [Hf Hok3]. exists (set_bevs ∅ w2). split.
    + cbn [handle]. mrun Hd. unfold bufferEventCb. rewrite Hev.
      mrun (client_of_run b w2 Hok2). erewrite bind_run; [exact Hf|]. by destruct (event_cb (w_ext w2)).
    + intros n. apply (RpcClient_destroy_gone _ b); [exact Hok3|by apply (unconnected_ext w2)].
Qed.
End example.

(** ** A concrete run *)

Module example_demo.
Import echo.
#[local] Existing Instances chunked.ops rfc1950.zlib base128.wire demo_message.parse_ops echo.user.

#[export] Instance evrpc : EvrpcOps := {
  PutRequest_new := ([] : @UMsg user);
  add_site k v m := ((m : bytes) ++ k ++ v : @UMsg user);
  PutResult_new := ([] : @UMsg user);
  Put_method := twice_method;
  solved_code r := (r : @UserCode user)
}.
Abbreviation client_state := (TcpClient client_callback (RpcClient user)).
#[export] Instance client_closures : UserClosures client_state := { run_user r := solved (r : positive) }.
#[export] Instance client_services : UserServices client_state := { service_CallMethod _ _ _ _ _ := mret tt }.

Definition nothing : World chunked.ops client_state :=
  mkWorld (mkHeap 1 ∅) 1 ∅ [] (mkClient None None None None 0 "" 1 None (mkRpcClient user NULL no_calls)).
Definition localhost (ok : bool) : start_env := mkStartEnv (λ _, Some 16777343) true ok.

Lemma nothing_wf : heap_wf (w_heap nothing).
Proof. intros p [c Hc]. simpl in Hc. by rewrite lookup_empty in Hc. Qed.

Lemma example_client_fails_witness :
  (∃ w1 w2 b, RpcClient_init "127.0.0.1" 8009 7 true nothing = Ok (tt, w1) ∧
     connect LittleEndian (localhost true) w1 = Ok (tt, w2) ∧
     handle (CB := client_callbacks LittleEndian 9) (EEvent b BEV_EVENT_CONNECTED 5) w2 = Fault Uninit) ∧
  ∃ w1 w2, RpcClient_init "127.0.0.1" 8009 7 true nothing = Ok (tt, w1) ∧
     connect LittleEndian (localhost false) w1 = Ok (tt, w2) ∧ RpcClient_destroy 2 w2 = Fault DoubleFree.
Proof.
  split.
  - destruct (example_client_fails LittleEndian 9 nothing "127.0.0.1" 8009 7 (localhost true)) as (w1 & w2 & H1 & H2 & b & _ & H);
      [apply nothing_wf|done|done|by right|].
    exists w1, w2, b. split_and!; [exact H1|exact H2|exact (H BEV_EVENT_CONNECTED 5)].
  - destruct (example_client_fails LittleEndian 9 nothing "127.0.0.1" 8009 7 (localhost false)) as (w1 & w2 & H1 & H2 & H);
      [apply nothing_wf|done|done|by right|].
    exists w1, w2. split_and!; [exact H1|exact H2|exact (H 2%nat)].
Defined.
End example_demo.
