(* ===== verification/ExampleServer.v ===== *)
(** * The example server (test/server.cpp, test/rpc.proto)

    [TestMessageImpl] implements the two methods of the service [TestMessage].
    The messages are records as test/rpc.proto declares them; what protoc
    generates from it (serialization, parsing, the dispatch of
    [TestMessage::CallMethod] to the methods) is a parameter. *)

From S2P Require Import Prelude Endian ConnQueue External World Codec Decoder Wire.
From S2P Require Import ProtoWire RpcPb RpcPbProps RpcPbParse RpcChannel ChannelLemmas RpcCalls.
From S2P Require Import ServerInv ServerBoot RpcServer RpcServerProps.
From S2P Require TcpServer.

(** ** The messages *)

Record Rvalue := mkRvalue { success : bool; errmsg : bytes }.
Record Site := mkSite { key : bytes; value : bytes }.
Record PutRequest := mkPutRequest { put_sites : list Site }.
Record PutResult := mkPutResult { put_rvals : list Rvalue }.
Record GetRequest := mkGetRequest { keys : list bytes }.
Record GetResult := mkGetResult { get_rvals : option Rvalue; get_sites : list Site }.

Inductive test_message :=
  | MPutRequest (m : PutRequest)
  | MPutResult (m : PutResult)
  | MGetRequest (m : GetRequest)
  | MGetResult (m : GetResult).

Inductive TestMethod := Put | Get.
#[export] Instance TestMethod_eq_dec : EqDecision TestMethod.
Proof. solve_decision. Defined.

Definition TestMethod_name (me : TestMethod) : bytes :=
  bytes_of_string (match me with Put => "Put" | Get => "Get" end).
Definition TestMessage_name : bytes := bytes_of_string "mRpc.TestMessage".

(** The generated code: the bytes of a message, and the message of each type
    that bytes are parsed to, if they are. *)
Class TestMessagePb := {
  test_SerializeAsString : test_message → bytes;
  parse_PutRequest : bytes → option PutRequest;
  parse_PutResult : bytes → option PutResult;
  parse_GetRequest : bytes → option GetRequest;
  parse_GetResult : bytes → option GetResult
}.

Definition test_ParseFromString {PB : TestMessagePb} (m : test_message) (bs : bytes) : bool * test_message :=
  let parsed {A} (make : A → test_message) (x : option A) :=
    match x with Some x => (true, make x) | None => (false, m) end in
  match m with
  | MPutRequest _ => parsed MPutRequest (parse_PutRequest bs)
  | MPutResult _ => parsed MPutResult (parse_PutResult bs)
  | MGetRequest _ => parsed MGetRequest (parse_GetRequest bs)
  | MGetResult _ => parsed MGetResult (parse_GetResult bs)
  end.

(** The one service, [TestMessageImpl]; the server makes no closures itself. *)
#[export] Instance test_user {PB : TestMessagePb} : UserOps := {
  UMsg := test_message;
  SerializeAsString := test_SerializeAsString;
  ParseFromString := test_ParseFromString;
  MethodDescriptor := TestMethod;
  method_name := TestMethod_name;
  method_service _ := TestMessage_name;
  Service := unit;
  service_name _ := TestMessage_name;
  FindMethodByName _ n := list_find (λ me, TestMethod_name me = n) [Put; Get] ≫= λ x, Some x.2;
  NewRequest _ me := match me with Put => MPutRequest (mkPutRequest []) | Get => MGetRequest (mkGetRequest []) end;
  NewResponse _ me := match me with Put => MPutResult (mkPutResult []) | Get => MGetResult (mkGetResult None []) end;
  UserCode := Empty_set
}.

(** ** The methods *)

Section TestMessageImpl.
Context {EB : EvbufferOps} {ZL : ZlibOps} {WO : WireOps} {PO : ParseOps} {PB : TestMessagePb}.
Context {E : Type} {RH : RpcHost test_user E}.
Context (host : endian).
Abbreviation MW := (M (World EB E)).

#[export] Instance no_closures : UserClosures E := { run_user (u : @UserCode test_user) := match u : Empty_set with end }.

(** Through the pointers that the casts give. *)
Definition put_result (response : ptr) : MW PutResult :=
  m ← on_rpc (message_at (Some response));
  match m : test_message with MPutResult x => mret x | _ => raise AssertFail end.
Definition get_result (response : ptr) : MW GetResult :=
  m ← on_rpc (message_at (Some response));
  match m : test_message with MGetResult x => mret x | _ => raise AssertFail end.
Definition store_result (response : ptr) (m : test_message) : MW unit :=
  on_rpc (modify (λ s, set_messages (<[response := (m : @UMsg test_user)]> (messages s)) s)).

(** [response->add_rvals()], and the members of the new element *)
Definition TestMessageImpl_Put (request : PutRequest) (response done : ptr) : MW unit :=
  x ← put_result response;
  _ ← store_result response (MPutResult (mkPutResult (put_rvals x ++ [mkRvalue true (bytes_of_string "no error!")])));
  Run host done.

(** [response->add_sites()]; then [request->keys(1)], the second key *)
Definition TestMessageImpl_Get (request : GetRequest) (response done : ptr) : MW unit :=
  x ← get_result response;
  k ← expect OutOfBounds (keys request !! 1%nat);
  _ ← store_result response (MGetResult (mkGetResult (get_rvals x)
        (get_sites x ++ [mkSite k (bytes_of_string "value1")])));
  Run host done.

(** The generated [TestMessage::CallMethod] casts the request and the response to
    the types of the method and calls it. *)
Class TestMessageDispatch {US : UserServices E} : Prop := {
  dispatch_Put (rq : PutRequest) response done :
    service_CallMethod (tt : @Service test_user) (Put : @MethodDescriptor test_user) (MPutRequest rq : @UMsg test_user)
      response done = TestMessageImpl_Put rq response done;
  dispatch_Get (rq : GetRequest) response done :
    service_CallMethod (tt : @Service test_user) (Get : @MethodDescriptor test_user) (MGetRequest rq : @UMsg test_user)
      response done = TestMessageImpl_Get rq response done
}.
End TestMessageImpl.

(** ** What a request gets *)

(** What the methods make of the bytes of a request. *)
Inductive outcome := Reply (answer : test_message) | Invalid | Crash.
Definition test_outcome {PB : TestMessagePb} (me : TestMethod) (bs : bytes) : outcome :=
  match me with
  | Put => match parse_PutRequest bs with
           | Some _ => Reply (MPutResult (mkPutResult [mkRvalue true (bytes_of_string "no error!")]))
           | None => Invalid
           end
  | Get => match parse_GetRequest bs with
           | Some (mkGetRequest (_ :: k :: _)) =>
               Reply (MGetResult (mkGetResult None [mkSite k (bytes_of_string "value1")]))
           | Some _ => Crash
           | None => Invalid
           end
  end.

Section replies.
Context {EB : EvbufferOps} {EBL : EvbufferLaws EB} {EBN : EvbufferNoOOM EB}.
Context {ZL : ZlibOps} {ZLL : ZlibLaws ZL} {WO : WireOps} {WL : WireLaws WO}.
Context {PO : ParseOps} {PL : ParseLaws PO} {PB : TestMessagePb}.
Context {E : Type} {RH : RpcHost test_user E}.
Context {US : UserServices E} (host : endian) {TD : TestMessageDispatch host}.
Implicit Types (w : World EB E) (chan c d k : ptr) (m : RpcMessage.t).

Lemma put_result_run w d x : messages (rpc w) !! d = Some (MPutResult x) → put_result d w = Ok (x, w).
Proof using.
  intros H. unfold put_result.
  erewrite bind_run by (by apply on_rpc_read, (object_at_run (UO := test_user) messages d (MPutResult x))). done.
Qed.
Lemma get_result_run w d x : messages (rpc w) !! d = Some (MGetResult x) → get_result d w = Ok (x, w).
Proof using.
  intros H. unfold get_result.
  erewrite bind_run by (by apply on_rpc_read, (object_at_run (UO := test_user) messages d (MGetResult x))). done.
Qed.

Lemma Put_answers rq : answers_with host tt Put (MPutRequest rq)
  (MPutResult (mkPutResult [mkRvalue true (bytes_of_string "no error!")])).
Proof using TD.
  intros d k w Hd. rewrite (dispatch_Put host). unfold TestMessageImpl_Put. mrun (put_result_run w d _ Hd).
  by erewrite bind_run by (apply on_rpc_run; reflexivity).
Qed.
Lemma Get_answers a b l : answers_with host tt Get (MGetRequest (mkGetRequest (a :: b :: l)))
  (MGetResult (mkGetResult None [mkSite b (bytes_of_string "value1")])).
Proof using TD.
  intros d k w Hd. rewrite (dispatch_Get host). unfold TestMessageImpl_Get. mrun (get_result_run w d _ Hd). mrun.
  by erewrite bind_run by (apply on_rpc_run; reflexivity).
Qed.

(** What the channel decides about a request for the service. *)
Lemma test_judge (sm : option (gmap bytes (option Service))) m me :
  RpcMessage.service m = TestMessage_name → RpcMessage.method m = TestMethod_name me →
  judge sm m =
    match sm ≫= λ sm, sm !! TestMessage_name with
    | Some (Some tt) =>
        match me with
        | Put => match parse_PutRequest (RpcMessage.request m) with
                 | Some rq => Serve tt Put (MPutRequest rq) | None => Refuse INVALID_REQUEST end
        | Get => match parse_GetRequest (RpcMessage.request m) with
                 | Some rq => Serve tt Get (MGetRequest rq) | None => Refuse INVALID_REQUEST end
        end
    | _ => Refuse NO_SERVICE
    end.
Proof using.
  intros Hs Hm. unfold judge. rewrite Hs.
  assert (Hf : @FindMethodByName test_user tt (RpcMessage.method m) = Some (me : @MethodDescriptor test_user)).
  { rewrite Hm. by destruct me; vm_compute. }
  destruct (sm ≫= _) as [[[]|]|]; [|done..]. rewrite Hf.
  by destruct me; simpl; [destruct (parse_PutRequest _)|destruct (parse_GetRequest _)].
Qed.

(** C26: what a request for a method of the example's service does, by the
    services of the channel it reaches.  Where they hold the service, a request
    whose bytes parse is answered with one frame, if its number is not 0: [Put]
    with one result that says "no error!", [Get] with one site for the second
    key; with the number 0 the answer aborts the server; bytes that do not parse
    are refused; and a [Get] with fewer than two keys reads past the end of the
    keys.  Where they do not hold the service, and no channel of a program that
    calls [setServices] has any, the request is refused with [NO_SERVICE]. *)
Theorem test_service_replies w chan (ch : RpcChannel) c (q : ptr) (out : bytes) m
    (sm : option (gmap bytes (option Service))) (me : TestMethod) :
  let id := i64 (RpcMessage.id m) in
  RpcMessage.type m = REQUEST → channel_is w chan ch → conn ch = Some (Some c) →
  channel_services (rpc w) ch sm →
  RpcMessage.service m = TestMessage_name → RpcMessage.method m = TestMethod_name me →
  heap_fresh (rpc w) → writes w c q out →
  let replied reply := ∃ w', onRpcMessage host chan c m w = Ok (tt, w') ∧
    writes w' c q (out ++ rpc_frame reply) ∧ messages (rpc w') = messages (rpc w) ∧
    closures (rpc w') = closures (rpc w) ∧ channels (rpc w') = channels (rpc w) in
  match sm ≫= λ sm, sm !! TestMessage_name with
  | Some (Some tt) =>
      match test_outcome me (RpcMessage.request m) with
      | Reply a =>
          let reply := reply_msg id (test_SerializeAsString a) in
          if decide (id = 0) then onRpcMessage host chan c m w = Fault AssertFail else fits reply → replied reply
      | Invalid => replied (error_msg (RpcMessage.id m) INVALID_REQUEST)
      | Crash => onRpcMessage host chan c m w = Fault OutOfBounds
      end
  | _ => replied (error_msg (RpcMessage.id m) NO_SERVICE)
  end.
Proof using All.
  intros id Ht Hch Hc Hsv Hs Hm Hfr Hw replied.
  pose proof (test_judge sm m me Hs Hm) as Hj.
  pose proof (onRpcMessage_request host w chan c m Ht) as Hreq.
  assert (Href : ∀ e, ErrorCode_IsValid e = true → judge sm m = Refuse e → replied (error_msg (RpcMessage.id m) e)).
  { intros e He Hr. destruct (onRequest_refused host w chan ch c q out m sm e) as (w' & Hrun & Ho & Hw'); try done.
    { by apply error_fits. }
    exists w'. by rewrite Hreq, (output_rpc _ _ _ Ho). }
  destruct (sm ≫= _) as [[[]|]|]; [|by apply Href..].
  assert (Hrep : ∀ rq a, judge sm m = Serve tt me rq → answers_with host tt me rq a →
    let reply := reply_msg id (test_SerializeAsString a) in
    if decide (id = 0) then onRpcMessage host chan c m w = Fault AssertFail else fits reply → replied reply).
  { intros rq a Hr Ha reply. case_decide as Hid; [|intros Hf].
    { rewrite Hreq. by eapply onRequest_unnumbered. }
    destruct (onRequest_answered host w chan ch c c q out m sm tt me rq a Hch Hc Hsv Hfr Hr Ha Hid Hf Hw)
      as (w' & Hrun & Hrw & _ & Hw'). exists w'. by rewrite Hreq, Hrw. }
  destruct me; unfold test_outcome.
  - destruct (parse_PutRequest _) as [rq|]; [by eapply Hrep, Put_answers|by apply Href].
  - destruct (parse_GetRequest _) as [[[|k1 [|k2 l]]]|]; [| |by eapply Hrep, Get_answers|by apply Href].
    all: rewrite Hreq, (onRequest_calls host w chan ch c m _ _ _ _ Hch Hsv Hj), (dispatch_Get host); unfold TestMessageImpl_Get.
    all: erewrite bind_run by (apply get_result_run; rewrite rpc_put; apply lookup_insert_eq); by apply bind_fault.
Qed.
End replies.

(** ** The program *)

Section main.
Context {EB : EvbufferOps} {ZL : ZlibOps} {WO : WireOps} {PO : ParseOps} {PB : TestMessagePb}.
Abbreviation server := (TcpServer.TcpServer rpc_callback (RpcState test_user)).
Context {US : UserServices server} (host : endian) (fuel : nat).
#[local] Instance main_callbacks : TcpServer.Callbacks rpc_callback (RpcState test_user) := rpc_callbacks host fuel.

(** [main] up to the loops of the server. *)
Definition main (self : Z) (main_env : bool) (envs : nat → TcpServer.thread_env) (senv : TcpServer.start_env) :
    M (World EB server) unit :=
  _ ← RpcServer_init 4 "127.0.0.1" 8009 self main_env envs;
  _ ← registerService (Some (tt : @Service test_user));
  start host senv.

(** The example registers its service and, like every RPC server, fails at the
    first bytes of its first connection. *)
Theorem example_server_fails self me envs senv w0 w1 fd0 :
  heap_wf (w_heap w0) → w_bevs w0 = ∅ → fd0 ≠ TcpServer.EXIT_CODE →
  main self me envs senv w0 = Ok (tt, w1) →
  ∃ i w2 w3, TcpServer.handle (TcpServer.EAccept fd0 true) w1 = Ok (tt, w2) ∧
    TcpServer.handle (TcpServer.ENotify i true true) w2 = Ok (tt, w3) ∧
    ∀ b e, is_Some (w_bevs w3 !! b) → TcpServer.handle (TcpServer.ERead b e) w3 = Fault UseAfterFree.
Proof.
  intros Hwf Hbv Hfd Hmain.
  destruct (rpc_boot_ok host 4 "127.0.0.1" 8009 self me envs [Some (tt : @Service test_user)] senv w0 w1 Hwf Hbv)
    as (Hok & Hcb & Hfr & Hcnt & Hpipe).
  { rewrite <- Hmain. unfold rpc_boot, main. apply bind_ext_run. intros _ w. cbn [registerAll].
    rewrite bind_assoc. apply bind_ext_run. intros _ w'. by rewrite ret_run_bind. }
  destruct (first_connection_dangles host fuel w1 4 fd0) as (i & w2 & w3 & H1 & H2 & _ & H3); try done; [lia|].
  by exists i, w2, w3.
Qed.
End main.

(** ** Concrete requests *)

Module test_demo.
#[local] Existing Instances chunked.ops chunked.laws chunked.no_oom rfc1950.zlib rfc1950.zlib_laws.
#[local] Existing Instances base128.wire base128.wire_laws demo_message.parse_ops demo_message.parse_laws.

(** Keys of one byte each. *)
Definition demo_bytes (m : test_message) : bytes :=
  match m with
  | MPutRequest m => concat (key <$> put_sites m)
  | MPutResult m => concat (errmsg <$> put_rvals m)
  | MGetRequest m => concat (keys m)
  | MGetResult m => concat ((λ s, key s ++ value s) <$> get_sites m)
  end.
#[export] Instance demo_pb : TestMessagePb := {
  test_SerializeAsString := demo_bytes;
  parse_PutRequest bs := Some (mkPutRequest [mkSite bs bs]);
  parse_PutResult bs := Some (mkPutResult [mkRvalue true bs]);
  parse_GetRequest bs := Some (mkGetRequest ((λ b, [b]) <$> bs));
  parse_GetResult bs := Some (mkGetResult None [mkSite bs bs])
}.
#[local] Instance demo_services : UserServices (RpcState test_user) := {
  service_CallMethod _ (me : @MethodDescriptor test_user) (rq : @UMsg test_user) response done :=
    match (me : TestMethod), (rq : test_message) with
    | Put, MPutRequest rq => TestMessageImpl_Put LittleEndian rq response done
    | Get, MGetRequest rq => TestMessageImpl_Get LittleEndian rq response done
    | _, _ => raise AssertFail
    end
}.
#[local] Instance demo_dispatch : TestMessageDispatch LittleEndian.
Proof. done. Qed.

Definition known : gmap bytes (option (@Service test_user)) := {[ TestMessage_name := Some (tt : @Service test_user) ]}.
Definition serving : RpcChannel := mkChannel (Some (Some 1%positive)) ∅ (Some 1%positive).
Definition server : World chunked.ops (RpcState test_user) :=
  mkWorld (mkHeap 2 {[ 1%positive := set_writeBuf (Some (mkBufref 1 Output))
                                       (set_readBuf (Some (mkBufref 1 Input)) (Conn_init 5)) ]})
    2 {[ 1%positive := mkBev chunked.ops 5 (Some 1%positive) [] [] ]} []
    (mkRpc 0 2 ∅ ∅ {[ 1%positive := serving ]} {[ 1%positive := known ]}).
Definition get_keys (id : Z) (ks : bytes) : RpcMessage.t :=
  call_msg id (Get : @MethodDescriptor test_user) (MGetRequest (mkGetRequest [ks]) : @UMsg test_user).

Lemma server_known : channel_services (rpc server) serving (Some known).
Proof.
  split; [done|]. exists known. split; [done|]. intros n. unfold known. rewrite lookup_singleton_Some. by intros [].
Qed.
Lemma test_server_fresh : heap_fresh (rpc server).
Proof. intros p Hp. split_and!; try done. simpl. apply lookup_singleton_ne. simpl in Hp. lia. Qed.
Lemma server_writes : writes server 1 1 [].
Proof. by do 2 eexists. Qed.

(** The connection of a channel that was given no services. *)
Definition unset : RpcChannel := mkChannel (Some (Some 1%positive)) ∅ NULL.
Definition server_unset : World chunked.ops (RpcState test_user) :=
  put_rpc (mkRpc 0 2 ∅ ∅ {[ 1%positive := unset ]} {[ 1%positive := known ]}) server.
Lemma unset_fresh : heap_fresh (rpc server_unset).
Proof. intros p Hp. split_and!; try done. simpl. apply lookup_singleton_ne. simpl in Hp. lia. Qed.

Lemma serving_channel : channel_is server 1 serving.
Proof. by vm_compute. Qed.
Lemma unset_channel : channel_is server_unset 1 unset.
Proof. by vm_compute. Qed.

Lemma test_service_replies_witness :
  onRpcMessage LittleEndian 1 1 (get_keys 5 (bytes_of_string "a")) server = Fault OutOfBounds ∧
  onRpcMessage LittleEndian 1 1 (get_keys 0 (bytes_of_string "ab")) server = Fault AssertFail ∧
  (∃ w', onRpcMessage LittleEndian 1 1 (get_keys 5 (bytes_of_string "ab")) server = Ok (tt, w') ∧
    writes w' 1 1 (rpc_frame (reply_msg 5 (bytes_of_string "bvalue1")))) ∧
  ∃ w', onRpcMessage LittleEndian 1 1 (get_keys 5 (bytes_of_string "ab")) server_unset = Ok (tt, w') ∧
    writes w' 1 1 (rpc_frame (error_msg 5 NO_SERVICE)).
Proof.
  split_and!.
  - by apply (test_service_replies LittleEndian server 1 serving 1 1 [] (get_keys 5 (bytes_of_string "a")) (Some known) Get
      eq_refl serving_channel eq_refl server_known eq_refl eq_refl test_server_fresh server_writes).
  - by apply (test_service_replies LittleEndian server 1 serving 1 1 [] (get_keys 0 (bytes_of_string "ab")) (Some known) Get
      eq_refl serving_channel eq_refl server_known eq_refl eq_refl test_server_fresh server_writes).
  - destruct (test_service_replies LittleEndian server 1 serving 1 1 [] (get_keys 5 (bytes_of_string "ab")) (Some known) Get
      eq_refl serving_channel eq_refl server_known eq_refl eq_refl test_server_fresh server_writes)
      as (w' & Hrun & Hw & _); [by vm_compute|].
    exists w'. split; [exact Hrun|exact Hw].
  - destruct (test_service_replies LittleEndian server_unset 1 unset 1 1 [] (get_keys 5 (bytes_of_string "ab")) None Get
      eq_refl unset_channel eq_refl eq_refl eq_refl eq_refl unset_fresh server_writes) as (w' & Hrun & Hw & _).
    exists w'. split; [exact Hrun|exact Hw].
Defined.
End test_demo.
