(* ===== verification/Preproc.v ===== *)
(** * The C preprocessor, as far as the compiler identification programs use it

    The two programs under [src/src/build/CMakeFiles/3.10.2/] are decided almost
    entirely by the preprocessor: they test the macros that the compiler
    predefines, define a few macros of their own and lay them out in strings.
    This file holds the part of the C language that they use: predefined macros
    and their replacement lists, integer literals, the conditions of [#if],
    constant expressions, and [#define] under [#if]/[#elif]/[#else] cascades. *)

From Stdlib Require Import Ascii.
From S2P Require Import Prelude.

(** The predefined macros: a name and its replacement list.  A compiler's
    predefined macros expand to nothing or to one preprocessing token, which is
    not itself a macro; the identification programs' own names are not among
    them. *)
Abbreviation macros := (gmap string string).

(** ** Integer literals *)

Section literals.

(** A digit of a literal in base [base]. *)
Definition digit_in (base : Z) (c : ascii) : option Z :=
  let n := Z.of_N (Ascii.N_of_ascii c) in
  d ← (if bool_decide (48 ≤ n ≤ 57) then Some (n - 48)
       else if bool_decide (97 ≤ n ≤ 102) then Some (n - 87)
       else if bool_decide (65 ≤ n ≤ 70) then Some (n - 55)
       else None);
  if bool_decide (d < base) then Some d else None.

(** The longest run of digits at the head of [s], its value added to [acc], and
    what follows it. *)
Fixpoint digits (base acc : Z) (s : string) : Z * string :=
  match s with
  | EmptyString => (acc, s)
  | String c s' =>
      match digit_in base c with
      | Some d => digits base (base * acc + d) s'
      | None => (acc, s)
      end
  end.

Definition integer_suffixes : list string :=
  [""; "u"; "U"; "l"; "L"; "ll"; "LL";
   "ul"; "uL"; "Ul"; "UL"; "lu"; "lU"; "Lu"; "LU";
   "ull"; "uLL"; "Ull"; "ULL"; "llu"; "llU"; "LLu"; "LLU"].

(** Digits in base [base], at least one, then a suffix; the value has to fit the
    widest integer type. *)
Definition literal_in (base : Z) (s : string) : option Z :=
  match s with
  | EmptyString => None
  | String c _ =>
      match digit_in base c with
      | None => None
      | Some _ =>
          let '(v, rest) := digits base 0 s in
          if bool_decide (rest ∈ integer_suffixes) && bool_decide (v < 2 ^ 64)
          then Some v else None
      end
  end.

(** Decimal, octal and hexadecimal integer literals. *)
Definition int_literal (s : string) : option Z :=
  match s with
  | String c s' =>
      if Ascii.eqb c "0" then
        match s' with
        | String x s'' =>
            if Ascii.eqb x "x" || Ascii.eqb x "X" then literal_in 16 s'' else literal_in 8 s
        | EmptyString => literal_in 8 s
        end
      else literal_in 10 s
  | EmptyString => None
  end.

(** A string none of whose characters is the bracket that closes an INFO text. *)
Fixpoint unbracketed (s : string) : bool :=
  match s with
  | EmptyString => true
  | String c s' => negb (Ascii.eqb c "]") && unbracketed s'
  end.

Lemma unbracketed_app s1 s2 :
  unbracketed (s1 +:+ s2) = unbracketed s1 && unbracketed s2.
Proof.
  induction s1 as [|c s1 IH]; [done|].
  change (String c s1 +:+ s2) with (String c (s1 +:+ s2)). cbn. by rewrite IH, andb_assoc.
Qed.

Lemma digit_in_range base c d : digit_in base c = Some d → 0 ≤ d < base.
Proof. unfold digit_in. intros H. repeat (case_bool_decide; simplify_eq/=); lia. Qed.

Lemma digit_in_unbracketed base c d : digit_in base c = Some d → c ≠ "]"%char.
Proof. by intros H ->. Qed.

Lemma digits_unbracketed base acc s v rest :
  digits base acc s = (v, rest) → unbracketed rest = true → unbracketed s = true.
Proof.
  revert acc. induction s as [|c s IH]; intros acc; cbn; [done|].
  destruct (digit_in base c) as [d|] eqn:E; [|intros [= <- <-]; done].
  intros H Hrest. apply digit_in_unbracketed in E.
  rewrite (IH _ H Hrest), andb_true_r. by destruct (Ascii.eqb_spec c "]").
Qed.

Lemma digits_nonneg base acc s v rest :
  0 ≤ base → 0 ≤ acc → digits base acc s = (v, rest) → 0 ≤ v.
Proof.
  intros Hb. revert acc. induction s as [|c s IH]; intros acc Ha; cbn.
  { intros [= <- <-]. lia. }
  destruct (digit_in base c) as [d|] eqn:E; [|intros [= <- <-]; lia].
  apply digit_in_range in E. apply IH. nia.
Qed.

Lemma literal_in_value base s v :
  0 ≤ base → literal_in base s = Some v → 0 ≤ v < 2 ^ 64 ∧ unbracketed s = true.
Proof.
  unfold literal_in. intros Hb. destruct s as [|c s]; [done|].
  destruct (digit_in base c) as [d|] eqn:Ed; [|done].
  destruct (digits base 0 (String c s)) as [v' rest] eqn:E.
  destruct (bool_decide (rest ∈ _)) eqn:Hs; [|done].
  destruct (bool_decide (v' < _)) eqn:Hv; [|done]. cbn. intros [= <-].
  apply bool_decide_eq_true in Hs, Hv.
  assert (0 ≤ v') by (by eapply digits_nonneg; [..|exact E]).
  split; [lia|]. apply (digits_unbracketed base 0 (String c s) v' rest E).
  revert Hs. unfold integer_suffixes. rewrite !elem_of_cons, elem_of_nil.
  intros Hs. by destruct_or! Hs; subst.
Qed.

(** A literal has a value of the widest unsigned type and no bracket. *)
Lemma int_literal_value s v :
  int_literal s = Some v → 0 ≤ v < 2 ^ 64 ∧ unbracketed s = true.
Proof.
  destruct s as [|c s']; cbn [int_literal]; [done|].
  destruct (Ascii.eqb_spec c "0") as [->|_]; [|by apply literal_in_value].
  destruct s' as [|x s'']; [by apply literal_in_value|].
  destruct (_ || _) eqn:Hx; [|by apply literal_in_value].
  intros [? Hu]%literal_in_value; [|done]. split; [done|].
  apply orb_true_iff in Hx as [->%Ascii.eqb_eq| ->%Ascii.eqb_eq]; exact Hu.
Qed.

(** An identifier: a letter or an underscore, then these and digits. *)
Definition id_start (c : ascii) : bool :=
  let n := Z.of_N (Ascii.N_of_ascii c) in
  bool_decide (65 ≤ n ≤ 90) || bool_decide (97 ≤ n ≤ 122) || bool_decide (n = 95).
Fixpoint id_rest (s : string) : bool :=
  match s with
  | EmptyString => true
  | String c s' => (id_start c || bool_decide (48 ≤ Z.of_N (Ascii.N_of_ascii c) ≤ 57)) && id_rest s'
  end.
Definition is_identifier (s : string) : bool :=
  match s with EmptyString => false | String c s' => id_start c && id_rest s' end.

(** No literal is one, and none has a bracket. *)
Lemma literal_no_identifier s v : int_literal s = Some v → is_identifier s = false.
Proof.
  destruct s as [|c s']; [done|]. cbn [int_literal is_identifier].
  destruct (Ascii.eqb_spec c "0") as [->|_]; [done|]. unfold literal_in.
  destruct (digit_in 10 c) as [d|] eqn:Hd; [|done]. intros _.
  assert (id_start c = false) as ->; [|done]. unfold digit_in, id_start in *.
  repeat (case_bool_decide; simplify_eq/=); lia.
Qed.
Lemma id_rest_unbracketed s : id_rest s = true → unbracketed s = true.
Proof.
  induction s as [|c s IH]; [done|]. cbn [id_rest unbracketed]. intros [Hc Hs]%andb_true_iff.
  rewrite (IH Hs), andb_true_r. destruct (Ascii.eqb_spec c "]") as [->|]; done.
Qed.
Lemma identifier_unbracketed s : is_identifier s = true → unbracketed s = true.
Proof.
  destruct s as [|c s']; [done|]. intros [Hc Hs]%andb_true_iff. apply id_rest_unbracketed.
  cbn [id_rest]. by rewrite Hc, Hs.
Qed.

End literals.

(** ** Conditions and constant expressions

    The operands of [#if] and of the initialisers are literals and macros.  In
    [#if] an identifier that is left after expansion, an undefined macro or the
    token that a macro expands to, is 0; in an initialiser it is an undeclared
    identifier, which does not compile.  Other tokens have their value only if
    they are integer literals: a macro that expands to a character constant is
    not modelled.  [None] is a diagnosed program. *)

Definition condition : Type := option bool.

Definition lift2 {A B C : Type} (f : A → B → C) (a : option A) (b : option B) : option C :=
  x ← a; y ← b; Some (f x y).

Lemma lift2_Some {A B C} (f : A → B → C) a b c :
  lift2 f a b = Some c ↔ ∃ x y, a = Some x ∧ b = Some y ∧ f x y = c.
Proof.
  unfold lift2. rewrite bind_Some. split.
  - intros (x & Hx & Hy). apply bind_Some in Hy as (y & Hy & [= <-]). eauto 6.
  - intros (x & y & -> & -> & <-). exists x. split; [done|]. apply bind_Some. eauto.
Qed.

Declare Scope cond_scope.
Delimit Scope cond_scope with cond.
Notation "a || b" := (lift2 orb a b) : cond_scope.
Notation "a && b" := (lift2 andb a b) : cond_scope.
Notation "! a" := (negb <$> a) (at level 35, right associativity) : cond_scope.
Notation "a < n" := ((λ v, v <? n%Z) <$> a) : cond_scope.
Notation "a >= n" := ((λ v, n%Z <=? v) <$> a) : cond_scope.
Notation "a > n" := ((λ v, n%Z <? v) <$> a) : cond_scope.
Notation "a == n" := ((λ v, v =? n%Z) <$> a) (at level 70) : cond_scope.

(** Operators of constant expressions; the right operand is always a literal. *)
Declare Scope cexpr_scope.
Delimit Scope cexpr_scope with cexpr.
Notation "a / n" := ((λ v, Z.quot v n%Z) <$> a) : cexpr_scope.
Notation "a % n" := ((λ v, Z.rem v n%Z) <$> a) (at level 40, left associativity) : cexpr_scope.
Notation "a - n" := ((λ v, v - n%Z)%Z <$> a) : cexpr_scope.
Notation "a >> n" := ((λ v, Z.shiftr v n%Z) <$> a) (at level 54, left associativity) : cexpr_scope.
Notation "a & n" := ((λ v, Z.land v n%Z) <$> a) (at level 56, left associativity) : cexpr_scope.

Section operands.
Context (m : macros).

Definition is_defined (x : string) : bool := bool_decide (is_Some (m !! x)).

(** [defined(x)] *)
Definition defined (x : string) : condition := Some (is_defined x).

(** A macro as an operand of [#if]. *)
Definition pp_value (x : string) : option Z :=
  match m !! x with
  | None => Some 0
  | Some s => if is_identifier s then Some 0 else int_literal s
  end.

(** A macro as an operand of an initialiser. *)
Definition value (x : string) : option Z :=
  match m !! x with None => None | Some s => int_literal s end.

(** [#x] after expansion: the spelling of the replacement list. *)
Definition spelling (x : string) : string := default x (m !! x).

Lemma value_defined x v : value x = Some v → is_defined x = true.
Proof.
  unfold value, is_defined. destruct (m !! x) eqn:E; [|done]. intros _.
  apply bool_decide_eq_true. eauto.
Qed.

Lemma value_pp x v : value x = Some v → pp_value x = Some v.
Proof.
  unfold value, pp_value. destruct (m !! x) as [s|]; [|done]. intros H.
  by rewrite (literal_no_identifier s v H).
Qed.

Lemma value_range x v : value x = Some v → 0 ≤ v < 2 ^ 64.
Proof.
  unfold value. destruct (m !! x) as [s|]; [|done].
  intros H. by apply int_literal_value in H as [? _].
Qed.

Lemma spelling_unbracketed x v :
  is_defined x = true → pp_value x = Some v → unbracketed (spelling x) = true.
Proof.
  unfold is_defined, pp_value, spelling. intros [s ->]%bool_decide_eq_true. simpl.
  destruct (is_identifier s) eqn:Hs; [intros _; by apply identifier_unbracketed|].
  intros H. by apply int_literal_value in H as [_ ?].
Qed.

Lemma undefined_is_zero x : is_defined x = false → pp_value x = Some 0.
Proof.
  unfold is_defined, pp_value. intros H%bool_decide_eq_false.
  destruct (m !! x); [|done]. exfalso. eauto.
Qed.

End operands.

(** ** Directives

    A directive acts on the table of the macros that the program defines. *)

Section directives.
Context {T : Type}.

Definition directive : Type := T → option T.

Fixpoint run (ds : list directive) : directive := λ t,
  match ds with
  | [] => Some t
  | d :: ds => t' ← d t; run ds t'
  end.

(** A group of [#if] or [#elif]: its condition and its lines. *)
Definition branch : Type := (condition * list directive)%type.

(** The whole cascade: the first group whose condition holds, else [els]; the
    conditions that follow it are not evaluated. *)
Fixpoint cascade (bs : list branch) (els : list directive) : directive := λ t,
  match bs with
  | [] => run els t
  | (Some true, ds) :: _ => run ds t
  | (Some false, _) :: bs => cascade bs els t
  | (None, _) :: _ => None
  end.

(** [#if] without alternative, and [#if]/[#else]. *)
Definition pp_if (c : condition) (ds : list directive) : directive := cascade [(c, ds)] [].
Definition pp_if_else (c : condition) (ds els : list directive) : directive :=
  cascade [(c, ds)] els.

(** ** Reasoning about directives

    [safe P d]: the directive [d] keeps the property [P] of tables.  In a
    cascade, a group runs with its condition true and the conditions of the
    groups before it false. *)

Definition safe (P : T → Prop) (d : directive) : Prop :=
  ∀ t t', P t → d t = Some t' → P t'.

Section safe.
Context (P : T → Prop).

Lemma safe_run_nil : safe P (run []).
Proof. by intros t t' Ht [= <-]. Qed.

Lemma safe_run_cons d ds : safe P d → safe P (run ds) → safe P (run (d :: ds)).
Proof.
  intros Hd Hds t t' Ht. cbn. rewrite bind_Some. intros (t1 & H1 & H2).
  by eapply Hds, H2; eapply Hd.
Qed.

Lemma safe_cascade_nil els : safe P (run els) → safe P (cascade [] els).
Proof. done. Qed.

Lemma safe_cascade_cons c ds bs els :
  (c = Some true → safe P (run ds)) →
  (c = Some false → safe P (cascade bs els)) →
  safe P (cascade ((c, ds) :: bs) els).
Proof.
  intros H1 H2 t t' Ht. cbn [cascade].
  destruct c as [[]|]; [apply H1|apply H2|]; done.
Qed.
End safe.

(** Two cascades that agree group by group. *)
Lemma cascade_cons_ext c1 c2 ds1 ds2 bs1 bs2 els1 els2 t :
  c1 = c2 →
  (c1 = Some true → run ds1 t = run ds2 t) →
  (c1 = Some false → cascade bs1 els1 t = cascade bs2 els2 t) →
  cascade ((c1, ds1) :: bs1) els1 t = cascade ((c2, ds2) :: bs2) els2 t.
Proof. intros <- H1 H2. cbn [cascade]. destruct c1 as [[]|]; auto. Qed.

Lemma cascade_skip (b : branch) bs els t :
  b.1 = Some false → cascade (b :: bs) els t = cascade bs els t.
Proof. destruct b as [c ds]. cbn [fst]. by intros ->. Qed.

Lemma cascade_take (b : branch) bs els t :
  b.1 = Some true → cascade (b :: bs) els t = run b.2 t.
Proof. destruct b as [c ds]. cbn [fst snd]. by intros ->. Qed.

Lemma run_app ds1 ds2 t : run (ds1 ++ ds2) t = run ds1 t ≫= run ds2.
Proof.
  revert t. induction ds1 as [|d ds1 IH]; intros t; [done|]. cbn.
  destruct (d t); [apply IH|done].
Qed.

End directives.
Arguments directive T : clear implicits.
Arguments branch T : clear implicits.

(** [walk] splits the claim that a directive is safe into one goal for each
    [#define], with the conditions under which it is reached in the context. *)
Ltac walk_step :=
  lazymatch goal with
  | |- safe _ (cascade [] _) => apply safe_cascade_nil
  | |- safe _ (cascade (_ :: _) _) => apply safe_cascade_cons; intros ?
  | |- safe _ (run []) => apply safe_run_nil
  | |- safe _ (run (_ :: _)) => apply safe_run_cons
  | |- safe _ (pp_if _ _) => unfold pp_if
  | |- safe _ (pp_if_else _ _ _) => unfold pp_if_else
  end.
Ltac walk := repeat walk_step.

Create HintDb preproc.
