(* ===== verification/CompilerInfo.v ===== *)
(** * What both compiler identification programs say: the INFO strings

    The macros that [CMakeCCompilerId.c] and [CMakeCXXCompilerId.cpp] define, the
    digit macros [DEC] and [HEX], the strings built from them and the reader's
    side: the text between the brackets and the components of a version. *)

From Stdlib Require Import Ascii.
From S2P Require Import Prelude Preproc.

(** ** The macros of the programs *)

Inductive name :=
  | COMPILER_ID
  | SIMULATE_ID
  | COMPILER_VERSION_MAJOR
  | COMPILER_VERSION_MINOR
  | COMPILER_VERSION_PATCH
  | COMPILER_VERSION_TWEAK
  | COMPILER_VERSION_INTERNAL
  | SIMULATE_VERSION_MAJOR
  | SIMULATE_VERSION_MINOR
  | SIMULATE_VERSION_PATCH
  | SIMULATE_VERSION_TWEAK
  | PLATFORM_ID
  | ARCHITECTURE_ID
  | C_DIALECT.

#[global] Instance name_eq_dec : EqDecision name.
Proof. solve_decision. Defined.

(** Replacement lists: string literals, nothing, or a digit macro applied to an
    expression, which is evaluated where the macro is used: [None] there is an
    expression that does not compile. *)
Inductive replacement :=
  | Str (s : string)
  | Blank
  | DEC (n : option Z)
  | HEX (n : option Z).

Definition table : Type := name → option replacement.
Definition no_macros : table := λ _, None.

(** [# define n r] *)
Definition define (n : name) (r : replacement) : directive table :=
  λ t, Some (λ n', if decide (n' = n) then Some r else t n').

Definition is_def (t : table) (n : name) : bool := bool_decide (is_Some (t n)).

(** ** Digit macros *)

(** The character ['0' + d]. *)
Definition digit (d : Z) : ascii := ascii_of_N (Z.to_N (48 + d)).

Fixpoint string_of (cs : list ascii) : string :=
  match cs with [] => EmptyString | c :: cs => String c (string_of cs) end.

(** Convert integer to decimal digit literals. *)
Definition DEC_chars (n : Z) : list ascii :=
  [ digit (Z.rem (Z.quot n 10000000) 10);
    digit (Z.rem (Z.quot n 1000000) 10);
    digit (Z.rem (Z.quot n 100000) 10);
    digit (Z.rem (Z.quot n 10000) 10);
    digit (Z.rem (Z.quot n 1000) 10);
    digit (Z.rem (Z.quot n 100) 10);
    digit (Z.rem (Z.quot n 10) 10);
    digit (Z.rem n 10) ].

(** Convert integer to hex digit literals. *)
Definition HEX_chars (n : Z) : list ascii :=
  [ digit (Z.land (Z.shiftr n 28) 15);
    digit (Z.land (Z.shiftr n 24) 15);
    digit (Z.land (Z.shiftr n 20) 15);
    digit (Z.land (Z.shiftr n 16) 15);
    digit (Z.land (Z.shiftr n 12) 15);
    digit (Z.land (Z.shiftr n 8) 15);
    digit (Z.land (Z.shiftr n 4) 15);
    digit (Z.land n 15) ].

(** A macro in a sequence of string literals, and in a list of characters. *)
Definition text (r : option replacement) : option string :=
  match r with
  | Some (Str s) => Some s
  | Some Blank => Some ""
  | _ => None
  end.

Definition chars (r : option replacement) : option string :=
  match r with
  | Some (DEC e) => n ← e; Some (string_of (DEC_chars n))
  | Some (HEX e) => n ← e; Some (string_of (HEX_chars n))
  | _ => None
  end.

(** ** The strings *)

Section strings.
Context (m : macros) (t : table).

(** ["INFO" ":" "key[" ID "]"] *)
Definition info_text (key : string) (id : option replacement) : option string :=
  s ← text id; Some ("INFO" +:+ ":" +:+ key +:+ "[" +:+ s +:+ "]").

Definition info_compiler : option string := info_text "compiler" (t COMPILER_ID).

(** An object that is declared under [#ifdef]: [None] when it does not compile,
    [Some None] when it is absent. *)
Definition under_ifdef (b : bool) (s : option string) : option (option string) :=
  if b then Some <$> s else Some None.

Definition info_simulate : option (option string) :=
  under_ifdef (is_def t SIMULATE_ID) (info_text "simulate" (t SIMULATE_ID)).

Definition qnxnto : option string :=
  if is_defined m "__QNXNTO__" then Some ("INFO" +:+ ":" +:+ "qnxnto[]") else None.

Definition info_cray : option string :=
  if is_defined m "__CRAYXE" || is_defined m "__CRAYXC"
  then Some ("INFO" +:+ ":" +:+ "compiler_wrapper[CrayPrgEnv]") else None.

(** [.C] when the component and those before it are defined. *)
Definition dotted (n : name) (rest : option string) : option string :=
  if is_def t n then c ← chars (t n); r ← rest; Some ("." +:+ c +:+ r) else Some "".

(** The array [info_version]. *)
Definition info_version : option (option string) :=
  under_ifdef (is_def t COMPILER_VERSION_MAJOR)
    (v ← chars (t COMPILER_VERSION_MAJOR);
     r ← dotted COMPILER_VERSION_MINOR
           (dotted COMPILER_VERSION_PATCH
              (dotted COMPILER_VERSION_TWEAK (Some "")));
     Some ("INFO:" +:+ "compiler_version[" +:+ v +:+ r +:+ "]")).

(** The array [info_version_internal]. *)
Definition info_version_internal : option (option string) :=
  under_ifdef (is_def t COMPILER_VERSION_INTERNAL)
    (v ← chars (t COMPILER_VERSION_INTERNAL);
     Some ("INFO:" +:+ "compiler_version_" +:+ "internal[" +:+ v +:+ "]")).

(** The array [info_simulate_version]. *)
Definition info_simulate_version : option (option string) :=
  under_ifdef (is_def t SIMULATE_VERSION_MAJOR)
    (v ← chars (t SIMULATE_VERSION_MAJOR);
     r ← dotted SIMULATE_VERSION_MINOR
           (dotted SIMULATE_VERSION_PATCH
              (dotted SIMULATE_VERSION_TWEAK (Some "")));
     Some ("INFO:" +:+ "simulate_version[" +:+ v +:+ r +:+ "]")).

Definition info_platform : option string := info_text "platform" (t PLATFORM_ID).
Definition info_arch : option string := info_text "arch" (t ARCHITECTURE_ID).

Definition info_language_dialect_default : option string :=
  info_text "dialect_default" (t C_DIALECT).

(** [STRINGIFY(x)] for a macro [x]. *)
Definition STRINGIFY (x : string) : string := spelling m x.

End strings.

(** ** The compiled program and its [main] *)

Record program := Program {
  p_compiler : string;
  p_simulate : option string;
  p_qnxnto : option string;
  p_cray : option string;
  p_version : option string;
  p_version_internal : option string;
  p_simulate_version : option string;
  p_platform : string;
  p_arch : string;
  p_dialect : string
}.

(** The objects of the translation unit that has these macros. *)
Definition objects (m : macros) (t : table) : option program :=
  c ← info_compiler t;
  s ← info_simulate t;
  v ← info_version t;
  vi ← info_version_internal t;
  sv ← info_simulate_version t;
  p ← info_platform t;
  a ← info_arch t;
  d ← info_language_dialect_default t;
  Some (Program c s (qnxnto m) (info_cray m) v vi sv p a d).

(** The strings in the order of the source: what a reader finds in the object
    file. *)
Definition info_strings (p : program) : list string :=
  [p_compiler p] ++ option_list (p_simulate p) ++ option_list (p_qnxnto p) ++
  option_list (p_cray p) ++ option_list (p_version p) ++
  option_list (p_version_internal p) ++ option_list (p_simulate_version p) ++
  [p_platform p; p_arch p; p_dialect p].

(** [s[i]]: the characters, the NUL that ends them, and nothing beyond; [char]
    is signed and eight bits wide. *)
Definition char_at (s : string) (i : Z) : option Z :=
  if bool_decide (0 ≤ i) then
    match String.get (Z.to_nat i) s with
    | Some c => Some (swrap 8 (Z.of_N (N_of_ascii c)))
    | None => if bool_decide (i = Z.of_nat (String.length s)) then Some 0 else None
    end
  else None.

(** [require += s[argc]]; the state is the local [require]. *)
Definition require_char (s : string) (argc : Z) : M Z unit :=
  c ← expect OutOfBounds (char_at s argc);
  require ← get_state;
  if bool_decide (- 2 ^ 31 ≤ require + c < 2 ^ 31)
  then put_state (require + c) else raise SignedOverflow.

Definition require_opt (s : option string) (argc : Z) : M Z unit :=
  match s with Some s => require_char s argc | None => mret tt end.

(** ** The reader's side *)

(** The text between the first [[] and the first []] after it. *)
Fixpoint until_bracket (s : string) : option string :=
  match s with
  | EmptyString => None
  | String c s' =>
      if Ascii.eqb c "]" then Some "" else String c <$> until_bracket s'
  end.

Fixpoint between_brackets (s : string) : option string :=
  match s with
  | EmptyString => None
  | String c s' => if Ascii.eqb c "[" then until_bracket s' else between_brackets s'
  end.

(** The decimal numbers of a dotted version, [acc] the one being read. *)
Fixpoint read_dotted (acc : Z) (s : string) : option (list Z) :=
  match s with
  | EmptyString => Some [acc]
  | String c s' =>
      if Ascii.eqb c "." then cons acc <$> read_dotted 0 s'
      else d ← digit_in 10 c; read_dotted (10 * acc + d) s'
  end.

Definition read_version (s : string) : option (list Z) :=
  v ← between_brackets s; read_dotted 0 v.
