(* ===== verification/CompilerRead.v ===== *)
(** * Reading the INFO strings back

    The digits that [DEC] and [HEX] print are those of the number; the text
    between the brackets of an INFO string is what was put there; a dotted
    version reads as its components. *)

From Stdlib Require Import Ascii.
From S2P Require Import Prelude Preproc CompilerInfo.

(** ** Strings *)

Lemma string_app_nil s : s +:+ "" = s.
Proof. induction s as [|c s IH]; [done|]. change (String c (s +:+ "") = String c s). by rewrite IH. Qed.

Lemma string_app_assoc s1 s2 s3 : (s1 +:+ s2) +:+ s3 = s1 +:+ s2 +:+ s3.
Proof.
  induction s1 as [|c s1 IH]; [done|].
  change (String c ((s1 +:+ s2) +:+ s3) = String c (s1 +:+ s2 +:+ s3)). by rewrite IH.
Qed.

Lemma string_app_length s1 s2 :
  String.length (s1 +:+ s2) = (String.length s1 + String.length s2)%nat.
Proof.
  induction s1 as [|c s1 IH]; [done|].
  change (S (String.length (s1 +:+ s2)) = S (String.length s1 + String.length s2)).
  by rewrite IH.
Qed.

Lemma until_bracket_app s rest :
  unbracketed s = true → until_bracket (s +:+ String "]" rest) = Some s.
Proof.
  induction s as [|c s IH]; [done|]. cbn [unbracketed]. intros [Hc Hs]%andb_true_iff.
  change (String c s +:+ String "]" rest) with (String c (s +:+ String "]" rest)).
  cbn [until_bracket]. destruct (Ascii.eqb c "]"); [done|]. by rewrite IH.
Qed.

(** ** Digits *)

Section digits.

Lemma digit_cases (P : Z → Prop) d :
  0 ≤ d < 16 →
  P 0 → P 1 → P 2 → P 3 → P 4 → P 5 → P 6 → P 7 → P 8 → P 9 → P 10 → P 11 → P 12 →
  P 13 → P 14 → P 15 → P d.
Proof.
  intros Hd **.
  assert (d = 0 ∨ d = 1 ∨ d = 2 ∨ d = 3 ∨ d = 4 ∨ d = 5 ∨ d = 6 ∨ d = 7 ∨ d = 8 ∨ d = 9 ∨
          d = 10 ∨ d = 11 ∨ d = 12 ∨ d = 13 ∨ d = 14 ∨ d = 15) as Hcase by lia.
  by destruct_or! Hcase; subst.
Qed.

(** What a digit reads as, and the separators it is not. *)
Lemma digit_reads d :
  0 ≤ d < 16 →
  digit_in 10 (digit d) = (if bool_decide (d < 10) then Some d else None) ∧
  Ascii.eqb (digit d) "." = false ∧ Ascii.eqb (digit d) "]" = false.
Proof. intros Hd. pattern d. by apply (digit_cases _ d Hd). Qed.

(** The value of a list of digits, most significant first. *)
Definition digits_value (acc : Z) (ds : list Z) : Z := foldl (λ a d, 10 * a + d) acc ds.

(** A reader of decimal numbers gets that value, or stops at the first character
    that is not a decimal digit. *)
Lemma read_digits acc ds rest :
  Forall (λ d, 0 ≤ d < 16) ds →
  read_dotted acc (string_of (digit <$> ds) +:+ rest) =
    if forallb (λ d, d <? 10) ds then read_dotted (digits_value acc ds) rest else None.
Proof.
  intros H. revert acc. induction H as [|d ds Hd _ IH]; intros acc; [done|].
  cbn [fmap list_fmap string_of digits_value foldl forallb].
  change (String (digit d) (string_of (digit <$> ds)) +:+ rest)
    with (String (digit d) (string_of (digit <$> ds) +:+ rest)).
  cbn [read_dotted]. destruct (digit_reads d) as (-> & -> & _); [lia|].
  destruct (Z.ltb_spec d 10); [rewrite bool_decide_true by lia; apply IH|by rewrite bool_decide_false by lia].
Qed.

Lemma digits_unbracket ds :
  Forall (λ d, 0 ≤ d < 16) ds → unbracketed (string_of (digit <$> ds)) = true.
Proof.
  induction 1 as [|d ds Hd _ IH]; [done|]. cbn [fmap list_fmap string_of unbracketed].
  destruct (digit_reads d Hd) as (_ & _ & ->). exact IH.
Qed.

(** The digits of [DEC(n)] and of [HEX(n)]. *)
Definition dec_digits (n : Z) : list Z :=
  (λ k, (n `div` k) `mod` 10) <$> [10000000; 1000000; 100000; 10000; 1000; 100; 10; 1].
Definition hex_digits (n : Z) : list Z :=
  (λ k, Z.land (Z.shiftr n k) 15) <$> [28; 24; 20; 16; 12; 8; 4; 0].

Lemma DEC_chars_digits n : 0 ≤ n → DEC_chars n = digit <$> dec_digits n.
Proof.
  intros Hn. unfold DEC_chars, dec_digits. cbn [fmap list_fmap].
  rewrite !Z.quot_div_nonneg by lia. rewrite Z.div_1_r.
  rewrite !Z.rem_mod_nonneg by (try apply Z.div_pos; lia). done.
Qed.

Lemma HEX_chars_digits n : HEX_chars n = digit <$> hex_digits n.
Proof. unfold HEX_chars, hex_digits. cbn [fmap list_fmap]. by rewrite Z.shiftr_0_r. Qed.

Lemma dec_digits_range n : Forall (λ d, 0 ≤ d < 10) (dec_digits n).
Proof.
  unfold dec_digits. apply Forall_fmap, Forall_forall. intros k _. cbn.
  apply Z.mod_pos_bound. lia.
Qed.

Lemma dec_digits_decimal n : forallb (λ d, d <? 10) (dec_digits n) = true.
Proof.
  apply forallb_forall. intros d Hd. apply Z.ltb_lt.
  apply (proj1 (Forall_forall _ _) (dec_digits_range n)). by apply list_elem_of_In.
Qed.

Lemma hex_digits_range n : Forall (λ d, 0 ≤ d < 16) (hex_digits n).
Proof.
  unfold hex_digits. apply Forall_fmap, Forall_forall. intros k _. cbn.
  change 15 with (Z.ones 4). rewrite Z.land_ones by lia. apply (Z.mod_pos_bound _ 16). lia.
Qed.

(** [DEC] prints the number up to eight digits. *)
Lemma dec_digits_value n acc :
  0 ≤ n → digits_value acc (dec_digits n) = 100000000 * acc + n `mod` 100000000.
Proof.
  intros Hn. unfold digits_value, dec_digits. cbn [fmap list_fmap foldl].
  Z.to_euclidean_division_equations. lia.
Qed.

(** What [HEX] prints, read as a decimal number, and when it can be. *)
Definition bcd (n : Z) : Z := digits_value 0 (hex_digits n).
Definition bcd_ok (n : Z) : bool := forallb (λ d, d <? 10) (hex_digits n).

End digits.

(** ** Well-formed tables

    The identification macros hold text without a closing bracket, the version
    macros hold a digit macro of a number that is not negative. *)

Definition is_text_name (n : name) : bool :=
  match n with
  | COMPILER_ID | SIMULATE_ID | PLATFORM_ID | ARCHITECTURE_ID | C_DIALECT => true
  | _ => false
  end.

Definition nonneg (e : option Z) : Prop := ∀ v, e = Some v → 0 ≤ v.

Definition slot_ok (n : name) (r : replacement) : Prop :=
  if is_text_name n then
    match r with Str s => unbracketed s = true | Blank => True | _ => False end
  else
    match r with DEC e | HEX e => nonneg e | _ => False end.

Definition typed (t : table) : Prop := ∀ n r, t n = Some r → slot_ok n r.

(** The number that a reader gets from a version macro: [DEC] shows the last
    eight decimal digits; [HEX] shows a decimal number only when every nibble is
    a decimal digit. *)
Definition component (r : replacement) : option Z :=
  match r with
  | DEC (Some n) => Some (n `mod` 100000000)
  | HEX (Some n) => if bcd_ok n then Some (bcd n) else None
  | _ => None
  end.

(** The components of a version up to the first macro that is not defined. *)
Fixpoint components (t : table) (ns : list name) : option (list Z) :=
  match ns with
  | [] => Some []
  | n :: ns =>
      match t n with Some r => x ← component r; cons x <$> components t ns | None => Some [] end
  end.

Definition version_names : list name :=
  [COMPILER_VERSION_MAJOR; COMPILER_VERSION_MINOR; COMPILER_VERSION_PATCH;
   COMPILER_VERSION_TWEAK].
Definition simulate_names : list name :=
  [SIMULATE_VERSION_MAJOR; SIMULATE_VERSION_MINOR; SIMULATE_VERSION_PATCH;
   SIMULATE_VERSION_TWEAK].

Section reading.
Context (t : table) (Ht : typed t).

Lemma is_def_Some n : is_def t n = true ↔ ∃ r, t n = Some r.
Proof using. unfold is_def. apply bool_decide_eq_true. Qed.

(** The eight characters of a component. *)
Lemma chars_read n r s :
  is_text_name n = false → t n = Some r → chars (t n) = Some s →
  unbracketed s = true ∧
  ∀ rest, read_dotted 0 (s +:+ rest) = component r ≫= λ x, read_dotted x rest.
Proof using Ht.
  intros Hn Hnr. pose proof (Ht n r Hnr) as Hs.
  unfold slot_ok in Hs. rewrite Hn in Hs. rewrite Hnr.
  destruct r as [| |[v|]|[v|]]; cbn [chars component mbind option_bind] in *;
    try done; intros Heq; apply (inj Some) in Heq; subst s.
  - pose proof (Hs v eq_refl) as Hv. rewrite (DEC_chars_digits v Hv).
    assert (Hd : Forall (λ d, 0 ≤ d < 16) (dec_digits v))
      by (eapply Forall_impl; [apply dec_digits_range|]; cbn; lia).
    split; [by apply digits_unbracket|]. intros rest.
    by rewrite (read_digits 0 _ rest Hd), dec_digits_decimal, (dec_digits_value v 0 Hv).
  - rewrite HEX_chars_digits. split; [apply digits_unbracket, hex_digits_range|].
    intros rest. rewrite (read_digits 0 _ rest (hex_digits_range v)). by unfold bcd_ok; destruct (forallb _ _).
Qed.

Lemma dotted_read ns s :
  forallb (λ n, negb (is_text_name n)) ns = true →
  foldr (dotted t) (Some "") ns = Some s →
  unbracketed s = true ∧ ∀ v, read_dotted v s = cons v <$> components t ns.
Proof using Ht.
  revert s. induction ns as [|n ns IH]; intros s; cbn [forallb foldr components].
  { intros _ [= <-]. done. }
  intros [Hn%negb_true_iff Hns]%andb_true_iff. unfold dotted at 1.
  destruct (is_def t n) eqn:Hd.
  - apply is_def_Some in Hd as [r Hnr].
    destruct (chars (t n)) as [c|] eqn:Hc; [|done]. cbn.
    destruct (foldr (dotted t) (Some "") ns) as [s'|] eqn:Hs'; [|done]. intros [= <-].
    destruct (chars_read n r c Hn Hnr Hc) as [Hu Hread].
    destruct (IH s' Hns eq_refl) as [Hu' Hread']. rewrite Hnr. split.
    + change (unbracketed (c +:+ s') = true). by rewrite unbracketed_app, Hu.
    + intros v. change ("." +:+ c +:+ s') with (String "." (c +:+ s')). cbn [read_dotted].
      change (Ascii.eqb "." ".") with true. cbn iota. rewrite Hread.
      destruct (component r) as [x|]; [|done]. cbn [mbind option_bind]. by rewrite Hread'.
  - intros [= <-]. destruct (t n) as [r|] eqn:Hnr; [|done].
    assert (is_def t n = true) by (apply is_def_Some; eauto). congruence.
Qed.

(** A version array: its first component, then the dotted ones. *)
Lemma array_read n ns c r :
  forallb (λ n, negb (is_text_name n)) (n :: ns) = true →
  is_def t n = true → chars (t n) = Some c → foldr (dotted t) (Some "") ns = Some r →
  until_bracket (c +:+ r +:+ "]") = Some (c +:+ r) ∧
  read_dotted 0 (c +:+ r) = components t (n :: ns).
Proof using Ht.
  cbn [forallb]. intros [Hn%negb_true_iff Hns]%andb_true_iff [rep Hnr]%is_def_Some Hc Hs.
  destruct (chars_read n rep c Hn Hnr Hc) as [Hu Hread].
  destruct (dotted_read ns r Hns Hs) as [Hu' Hread'].
  split.
  - rewrite <- string_app_assoc. apply until_bracket_app. by rewrite unbracketed_app, Hu.
  - rewrite Hread. cbn [components]. rewrite Hnr. destruct (component rep); [apply Hread'|done].
Qed.

Lemma version_read s :
  info_version t = Some (Some s) → read_version s = components t version_names.
Proof using Ht.
  unfold info_version, under_ifdef. destruct (is_def t _) eqn:Hd; [|done].
  destruct (chars _) as [c|] eqn:Hc; [|done]. cbn [mbind option_bind].
  destruct (dotted t _ _) as [r|] eqn:Hdot; [|done]. cbn. intros [= <-].
  destruct (array_read COMPILER_VERSION_MAJOR (tail version_names) c r eq_refl Hd Hc Hdot)
    as [Hb Hread].
  unfold read_version. change (between_brackets _) with (until_bracket (c +:+ r +:+ "]")).
  by rewrite Hb.
Qed.

Lemma simulate_version_read s :
  info_simulate_version t = Some (Some s) →
  read_version s = components t simulate_names.
Proof using Ht.
  unfold info_simulate_version, under_ifdef. destruct (is_def t _) eqn:Hd; [|done].
  destruct (chars _) as [c|] eqn:Hc; [|done]. cbn [mbind option_bind].
  destruct (dotted t _ _) as [r|] eqn:Hdot; [|done]. cbn. intros [= <-].
  destruct (array_read SIMULATE_VERSION_MAJOR (tail simulate_names) c r eq_refl Hd Hc Hdot)
    as [Hb Hread].
  unfold read_version. change (between_brackets _) with (until_bracket (c +:+ r +:+ "]")).
  by rewrite Hb.
Qed.

Lemma version_internal_read s :
  info_version_internal t = Some (Some s) →
  read_version s = components t [COMPILER_VERSION_INTERNAL].
Proof using Ht.
  unfold info_version_internal, under_ifdef. destruct (is_def t _) eqn:Hd; [|done].
  destruct (chars _) as [c|] eqn:Hc; [|done]. cbn. intros [= <-].
  destruct (array_read COMPILER_VERSION_INTERNAL [] c "" eq_refl Hd Hc eq_refl) as [Hb Hread].
  rewrite string_app_nil in *. unfold read_version.
  change (between_brackets _) with (until_bracket (c +:+ "]")).
  change ("" +:+ "]") with "]" in Hb. by rewrite Hb.
Qed.

End reading.

(** The text of an INFO string of literals. *)
Lemma between_app key s :
  forallb (λ c, negb (Ascii.eqb c "[")) (String.list_ascii_of_string key) = true →
  between_brackets (key +:+ String "[" s) = until_bracket s.
Proof.
  induction key as [|c key IH]; [done|]. cbn [String.list_ascii_of_string forallb].
  intros [Hc%negb_true_iff Hk]%andb_true_iff.
  change (String c key +:+ String "[" s) with (String c (key +:+ String "[" s)).
  cbn [between_brackets]. rewrite Hc. by apply IH.
Qed.

Lemma text_read (t : table) n key s :
  typed t → is_text_name n = true →
  forallb (λ c, negb (Ascii.eqb c "[")) (String.list_ascii_of_string key) = true →
  info_text key (t n) = Some s → ∃ id, text (t n) = Some id ∧ between_brackets s = Some id.
Proof.
  intros Ht Hn Hk. unfold info_text. destruct (text (t n)) as [id|] eqn:Hid; [|done].
  cbn. intros [= <-]. exists id. split; [done|].
  assert (unbracketed id = true) as Hu.
  { destruct (t n) as [r|] eqn:Hnr; [|done]. pose proof (Ht n r Hnr) as Hs.
    unfold slot_ok in Hs. rewrite Hn in Hs. destruct r; cbn in *; by simplify_eq. }
  change ("INFO" +:+ ":" +:+ key +:+ "[" +:+ id +:+ "]")
    with (("INFO:" +:+ key +:+ String "[" (id +:+ "]"))).
  change (between_brackets (key +:+ String "[" (id +:+ "]")) = Some id).
  rewrite (between_app key _ Hk). by apply until_bracket_app.
Qed.
