(* ===== verification/CompilerIdC.v ===== *)
(** * The C compiler identification program
    ([src/src/build/CMakeFiles/3.10.2/CompilerIdC/CMakeCCompilerId.c])

    One definition per group of the source's [#if] cascades, in the order of the
    source.  A group is its condition and its [#define]s; [m] holds the macros
    that the compiler predefines. *)

From Stdlib Require Import Ascii.
From S2P Require Import Prelude Preproc CompilerInfo.

Module CompilerIdC.
Section groups.
Context (m : macros).

#[local] Abbreviation defined := (defined m).
#[local] Abbreviation pp := (pp_value m).
#[local] Abbreviation val := (value m).

(** ** The compiler *)

(** [_MSC_VER = VVRR] of a compiler that simulates MSVC. *)
Definition simulate_MSVC_id : directive table :=
  pp_if (defined "_MSC_VER") [define SIMULATE_ID (Str "MSVC")].

Definition simulate_MSVC_version : directive table :=
  pp_if (defined "_MSC_VER")
    [ define SIMULATE_VERSION_MAJOR (DEC (val "_MSC_VER" / 100)%cexpr);
      define SIMULATE_VERSION_MINOR (DEC (val "_MSC_VER" % 100)%cexpr) ].

(** [__INTEL_COMPILER = VRP], the build date [YYYYMMDD] *)
Definition Intel : branch table :=
  ((defined "__INTEL_COMPILER" || defined "__ICC")%cond,
   [ define COMPILER_ID (Str "Intel");
     simulate_MSVC_id;
     define COMPILER_VERSION_MAJOR (DEC (val "__INTEL_COMPILER" / 100)%cexpr);
     define COMPILER_VERSION_MINOR (DEC (val "__INTEL_COMPILER" / 10 % 10)%cexpr);
     pp_if_else (defined "__INTEL_COMPILER_UPDATE")
       [define COMPILER_VERSION_PATCH (DEC (val "__INTEL_COMPILER_UPDATE"))]
       [define COMPILER_VERSION_PATCH (DEC (val "__INTEL_COMPILER" % 10)%cexpr)];
     pp_if (defined "__INTEL_COMPILER_BUILD_DATE")
       [define COMPILER_VERSION_TWEAK (DEC (val "__INTEL_COMPILER_BUILD_DATE"))];
     simulate_MSVC_version ]).

Definition PathScale : branch table :=
  (defined "__PATHCC__",
   [ define COMPILER_ID (Str "PathScale");
     define COMPILER_VERSION_MAJOR (DEC (val "__PATHCC__"));
     define COMPILER_VERSION_MINOR (DEC (val "__PATHCC_MINOR__"));
     pp_if (defined "__PATHCC_PATCHLEVEL__")
       [define COMPILER_VERSION_PATCH (DEC (val "__PATHCC_PATCHLEVEL__"))] ]).

Definition Embarcadero : branch table :=
  ((defined "__BORLANDC__" && defined "__CODEGEARC_VERSION__")%cond,
   [ define COMPILER_ID (Str "Embarcadero");
     define COMPILER_VERSION_MAJOR (HEX (val "__CODEGEARC_VERSION__" >> 24 & 0x00FF)%cexpr);
     define COMPILER_VERSION_MINOR (HEX (val "__CODEGEARC_VERSION__" >> 16 & 0x00FF)%cexpr);
     define COMPILER_VERSION_PATCH (DEC (val "__CODEGEARC_VERSION__" & 0xFFFF)%cexpr) ]).

(** [__BORLANDC__ = 0xVRR] *)
Definition Borland : branch table :=
  (defined "__BORLANDC__",
   [ define COMPILER_ID (Str "Borland");
     define COMPILER_VERSION_MAJOR (HEX (val "__BORLANDC__" >> 8)%cexpr);
     define COMPILER_VERSION_MINOR (HEX (val "__BORLANDC__" & 0xFF)%cexpr) ]).

(** [__WATCOMC__ = VVRR] *)
Definition Watcom : branch table :=
  ((defined "__WATCOMC__" && (pp "__WATCOMC__" < 1200))%cond,
   [ define COMPILER_ID (Str "Watcom");
     define COMPILER_VERSION_MAJOR (DEC (val "__WATCOMC__" / 100)%cexpr);
     define COMPILER_VERSION_MINOR (DEC (val "__WATCOMC__" / 10 % 10)%cexpr);
     pp_if ((pp "__WATCOMC__" % 10)%cexpr > 0)%cond
       [define COMPILER_VERSION_PATCH (DEC (val "__WATCOMC__" % 10)%cexpr)] ]).

(** [__WATCOMC__ = VVRP + 1100] *)
Definition OpenWatcom : branch table :=
  (defined "__WATCOMC__",
   [ define COMPILER_ID (Str "OpenWatcom");
     define COMPILER_VERSION_MAJOR (DEC ((val "__WATCOMC__" - 1100) / 100)%cexpr);
     define COMPILER_VERSION_MINOR (DEC (val "__WATCOMC__" / 10 % 10)%cexpr);
     pp_if ((pp "__WATCOMC__" % 10)%cexpr > 0)%cond
       [define COMPILER_VERSION_PATCH (DEC (val "__WATCOMC__" % 10)%cexpr)] ]).

(** [__SUNPRO_C = 0xVRRP] from 5.10 on, [0xVRP] before *)
Definition SunPro : branch table :=
  (defined "__SUNPRO_C",
   [ define COMPILER_ID (Str "SunPro");
     pp_if_else (pp "__SUNPRO_C" >= 0x5100)%cond
       [ define COMPILER_VERSION_MAJOR (HEX (val "__SUNPRO_C" >> 12)%cexpr);
         define COMPILER_VERSION_MINOR (HEX (val "__SUNPRO_C" >> 4 & 0xFF)%cexpr);
         define COMPILER_VERSION_PATCH (HEX (val "__SUNPRO_C" & 0xF)%cexpr) ]
       [ define COMPILER_VERSION_MAJOR (HEX (val "__SUNPRO_C" >> 8)%cexpr);
         define COMPILER_VERSION_MINOR (HEX (val "__SUNPRO_C" >> 4 & 0xF)%cexpr);
         define COMPILER_VERSION_PATCH (HEX (val "__SUNPRO_C" & 0xF)%cexpr) ] ]).

(** [__HP_cc = VVRRPP] *)
Definition HP : branch table :=
  (defined "__HP_cc",
   [ define COMPILER_ID (Str "HP");
     define COMPILER_VERSION_MAJOR (DEC (val "__HP_cc" / 10000)%cexpr);
     define COMPILER_VERSION_MINOR (DEC (val "__HP_cc" / 100 % 100)%cexpr);
     define COMPILER_VERSION_PATCH (DEC (val "__HP_cc" % 100)%cexpr) ]).

(** [__DECC_VER = VVRRTPPPP] *)
Definition Compaq : branch table :=
  (defined "__DECC",
   [ define COMPILER_ID (Str "Compaq");
     define COMPILER_VERSION_MAJOR (DEC (val "__DECC_VER" / 10000000)%cexpr);
     define COMPILER_VERSION_MINOR (DEC (val "__DECC_VER" / 100000 % 100)%cexpr);
     define COMPILER_VERSION_PATCH (DEC (val "__DECC_VER" % 10000)%cexpr) ]).

(** [__IBMC__ = VRP] *)
Definition zOS : branch table :=
  ((defined "__IBMC__" && defined "__COMPILER_VER__")%cond,
   [ define COMPILER_ID (Str "zOS");
     define COMPILER_VERSION_MAJOR (DEC (val "__IBMC__" / 100)%cexpr);
     define COMPILER_VERSION_MINOR (DEC (val "__IBMC__" / 10 % 10)%cexpr);
     define COMPILER_VERSION_PATCH (DEC (val "__IBMC__" % 10)%cexpr) ]).

Definition XL : branch table :=
  ((defined "__IBMC__" && ! defined "__COMPILER_VER__" && (pp "__IBMC__" >= 800))%cond,
   [ define COMPILER_ID (Str "XL");
     define COMPILER_VERSION_MAJOR (DEC (val "__IBMC__" / 100)%cexpr);
     define COMPILER_VERSION_MINOR (DEC (val "__IBMC__" / 10 % 10)%cexpr);
     define COMPILER_VERSION_PATCH (DEC (val "__IBMC__" % 10)%cexpr) ]).

Definition VisualAge : branch table :=
  ((defined "__IBMC__" && ! defined "__COMPILER_VER__" && (pp "__IBMC__" < 800))%cond,
   [ define COMPILER_ID (Str "VisualAge");
     define COMPILER_VERSION_MAJOR (DEC (val "__IBMC__" / 100)%cexpr);
     define COMPILER_VERSION_MINOR (DEC (val "__IBMC__" / 10 % 10)%cexpr);
     define COMPILER_VERSION_PATCH (DEC (val "__IBMC__" % 10)%cexpr) ]).

Definition PGI : branch table :=
  (defined "__PGI",
   [ define COMPILER_ID (Str "PGI");
     define COMPILER_VERSION_MAJOR (DEC (val "__PGIC__"));
     define COMPILER_VERSION_MINOR (DEC (val "__PGIC_MINOR__"));
     pp_if (defined "__PGIC_PATCHLEVEL__")
       [define COMPILER_VERSION_PATCH (DEC (val "__PGIC_PATCHLEVEL__"))] ]).

Definition Cray : branch table :=
  (defined "_CRAYC",
   [ define COMPILER_ID (Str "Cray");
     define COMPILER_VERSION_MAJOR (DEC (val "_RELEASE_MAJOR"));
     define COMPILER_VERSION_MINOR (DEC (val "_RELEASE_MINOR")) ]).

(** [__TI_COMPILER_VERSION__ = VVVRRRPPP] *)
Definition TI : branch table :=
  (defined "__TI_COMPILER_VERSION__",
   [ define COMPILER_ID (Str "TI");
     define COMPILER_VERSION_MAJOR (DEC (val "__TI_COMPILER_VERSION__" / 1000000)%cexpr);
     define COMPILER_VERSION_MINOR (DEC (val "__TI_COMPILER_VERSION__" / 1000 % 1000)%cexpr);
     define COMPILER_VERSION_PATCH (DEC (val "__TI_COMPILER_VERSION__" % 1000)%cexpr) ]).

Definition Fujitsu : branch table :=
  ((defined "__FUJITSU" || defined "__FCC_VERSION" || defined "__fcc_version")%cond,
   [ define COMPILER_ID (Str "Fujitsu") ]).

Definition TinyCC : branch table :=
  (defined "__TINYC__", [ define COMPILER_ID (Str "TinyCC") ]).

Definition Bruce : branch table :=
  (defined "__BCC__", [ define COMPILER_ID (Str "Bruce") ]).

Definition SCO : branch table :=
  (defined "__SCO_VERSION__", [ define COMPILER_ID (Str "SCO") ]).

Definition AppleClang : branch table :=
  ((defined "__clang__" && defined "__apple_build_version__")%cond,
   [ define COMPILER_ID (Str "AppleClang");
     simulate_MSVC_id;
     define COMPILER_VERSION_MAJOR (DEC (val "__clang_major__"));
     define COMPILER_VERSION_MINOR (DEC (val "__clang_minor__"));
     define COMPILER_VERSION_PATCH (DEC (val "__clang_patchlevel__"));
     simulate_MSVC_version;
     define COMPILER_VERSION_TWEAK (DEC (val "__apple_build_version__")) ]).

Definition Clang : branch table :=
  (defined "__clang__",
   [ define COMPILER_ID (Str "Clang");
     simulate_MSVC_id;
     define COMPILER_VERSION_MAJOR (DEC (val "__clang_major__"));
     define COMPILER_VERSION_MINOR (DEC (val "__clang_minor__"));
     define COMPILER_VERSION_PATCH (DEC (val "__clang_patchlevel__"));
     simulate_MSVC_version ]).

Definition GNU : branch table :=
  (defined "__GNUC__",
   [ define COMPILER_ID (Str "GNU");
     define COMPILER_VERSION_MAJOR (DEC (val "__GNUC__"));
     pp_if (defined "__GNUC_MINOR__")
       [define COMPILER_VERSION_MINOR (DEC (val "__GNUC_MINOR__"))];
     pp_if (defined "__GNUC_PATCHLEVEL__")
       [define COMPILER_VERSION_PATCH (DEC (val "__GNUC_PATCHLEVEL__"))] ]).

(** [_MSC_VER = VVRR], [_MSC_FULL_VER = VVRRPPPPP] from 1400 on, [VVRRPPPP]
    before *)
Definition MSVC : branch table :=
  (defined "_MSC_VER",
   [ define COMPILER_ID (Str "MSVC");
     define COMPILER_VERSION_MAJOR (DEC (val "_MSC_VER" / 100)%cexpr);
     define COMPILER_VERSION_MINOR (DEC (val "_MSC_VER" % 100)%cexpr);
     pp_if (defined "_MSC_FULL_VER")
       [ pp_if_else (pp "_MSC_VER" >= 1400)%cond
           [define COMPILER_VERSION_PATCH (DEC (val "_MSC_FULL_VER" % 100000)%cexpr)]
           [define COMPILER_VERSION_PATCH (DEC (val "_MSC_FULL_VER" % 10000)%cexpr)] ];
     pp_if (defined "_MSC_BUILD")
       [define COMPILER_VERSION_TWEAK (DEC (val "_MSC_BUILD"))] ]).

(** [__VISUALDSPVERSION__ = 0xVVRRPP00] *)
Definition ADSP : branch table :=
  ((defined "__VISUALDSPVERSION__" || defined "__ADSPBLACKFIN__" ||
    defined "__ADSPTS__" || defined "__ADSP21000__")%cond,
   [ define COMPILER_ID (Str "ADSP");
     pp_if (defined "__VISUALDSPVERSION__")
       [ define COMPILER_VERSION_MAJOR (HEX (val "__VISUALDSPVERSION__" >> 24)%cexpr);
         define COMPILER_VERSION_MINOR (HEX (val "__VISUALDSPVERSION__" >> 16 & 0xFF)%cexpr);
         define COMPILER_VERSION_PATCH
           (HEX (val "__VISUALDSPVERSION__" >> 8 & 0xFF)%cexpr) ] ]).

Definition IAR : branch table :=
  ((defined "__IAR_SYSTEMS_ICC__" || defined "__IAR_SYSTEMS_ICC")%cond,
   [ define COMPILER_ID (Str "IAR");
     pp_if (defined "__VER__")
       [ define COMPILER_VERSION_MAJOR (DEC (val "__VER__" / 1000000)%cexpr);
         define COMPILER_VERSION_MINOR (DEC (val "__VER__" / 1000 % 1000)%cexpr);
         define COMPILER_VERSION_PATCH (DEC (val "__VER__" % 1000)%cexpr);
         define COMPILER_VERSION_INTERNAL (DEC (val "__IAR_SYSTEMS_ICC__")) ] ]).

(** [__ARMCC_VERSION = VRRPPPP] from 1.00 on, [VRPPPP] before *)
Definition ARMCC : branch table :=
  (defined "__ARMCC_VERSION",
   [ define COMPILER_ID (Str "ARMCC");
     pp_if_else (pp "__ARMCC_VERSION" >= 1000000)%cond
       [ define COMPILER_VERSION_MAJOR (DEC (val "__ARMCC_VERSION" / 1000000)%cexpr);
         define COMPILER_VERSION_MINOR (DEC (val "__ARMCC_VERSION" / 10000 % 100)%cexpr);
         define COMPILER_VERSION_PATCH (DEC (val "__ARMCC_VERSION" % 10000)%cexpr) ]
       [ define COMPILER_VERSION_MAJOR (DEC (val "__ARMCC_VERSION" / 100000)%cexpr);
         define COMPILER_VERSION_MINOR (DEC (val "__ARMCC_VERSION" / 10000 % 10)%cexpr);
         define COMPILER_VERSION_PATCH (DEC (val "__ARMCC_VERSION" % 10000)%cexpr) ] ]).

(** [SDCC = VRP] *)
Definition SDCC : branch table :=
  ((defined "__SDCC_VERSION_MAJOR" || defined "SDCC")%cond,
   [ define COMPILER_ID (Str "SDCC");
     pp_if_else (defined "__SDCC_VERSION_MAJOR")
       [ define COMPILER_VERSION_MAJOR (DEC (val "__SDCC_VERSION_MAJOR"));
         define COMPILER_VERSION_MINOR (DEC (val "__SDCC_VERSION_MINOR"));
         define COMPILER_VERSION_PATCH (DEC (val "__SDCC_VERSION_PATCH")) ]
       [ define COMPILER_VERSION_MAJOR (DEC (val "SDCC" / 100)%cexpr);
         define COMPILER_VERSION_MINOR (DEC (val "SDCC" / 10 % 10)%cexpr);
         define COMPILER_VERSION_PATCH (DEC (val "SDCC" % 10)%cexpr) ] ]).

(** [_SGI_COMPILER_VERSION = VRP], [_COMPILER_VERSION = VRP] *)
Definition MIPSpro : branch table :=
  ((defined "_SGI_COMPILER_VERSION" || defined "_COMPILER_VERSION")%cond,
   [ define COMPILER_ID (Str "MIPSpro");
     pp_if_else (defined "_SGI_COMPILER_VERSION")
       [ define COMPILER_VERSION_MAJOR (DEC (val "_SGI_COMPILER_VERSION" / 100)%cexpr);
         define COMPILER_VERSION_MINOR (DEC (val "_SGI_COMPILER_VERSION" / 10 % 10)%cexpr);
         define COMPILER_VERSION_PATCH (DEC (val "_SGI_COMPILER_VERSION" % 10)%cexpr) ]
       [ define COMPILER_VERSION_MAJOR (DEC (val "_COMPILER_VERSION" / 100)%cexpr);
         define COMPILER_VERSION_MINOR (DEC (val "_COMPILER_VERSION" / 10 % 10)%cexpr);
         define COMPILER_VERSION_PATCH (DEC (val "_COMPILER_VERSION" % 10)%cexpr) ] ]).

(** Guesses from the platform, and the unknown compiler. *)
Definition guess_sgi : branch table :=
  (defined "__sgi", [ define COMPILER_ID (Str "MIPSpro") ]).
Definition guess_hpux : branch table :=
  ((defined "__hpux" || defined "__hpua")%cond, [ define COMPILER_ID (Str "HP") ]).
Definition unknown_compiler : list (directive table) :=
  [ define COMPILER_ID (Str "") ].

Definition compilers : list (branch table) :=
  [ Intel; PathScale; Embarcadero; Borland; Watcom; OpenWatcom; SunPro; HP; Compaq;
    zOS; XL; VisualAge; PGI; Cray; TI; Fujitsu; TinyCC; Bruce; SCO; AppleClang; Clang;
    GNU; MSVC; ADSP; IAR; ARMCC; SDCC; MIPSpro; guess_sgi; guess_hpux ].

Definition compiler : directive table := cascade compilers unknown_compiler.

(** ** The platform *)

Definition platform_group (c : condition) (id : string) : branch table :=
  (c, [define PLATFORM_ID (Str id)]).

Definition platforms : list (branch table) :=
  [ platform_group (defined "__linux" || defined "__linux__" || defined "linux")%cond "Linux";
    platform_group (defined "__CYGWIN__") "Cygwin";
    platform_group (defined "__MINGW32__") "MinGW";
    platform_group (defined "__APPLE__") "Darwin";
    platform_group (defined "_WIN32" || defined "__WIN32__" || defined "WIN32")%cond "Windows";
    platform_group (defined "__FreeBSD__" || defined "__FreeBSD")%cond "FreeBSD";
    platform_group (defined "__NetBSD__" || defined "__NetBSD")%cond "NetBSD";
    platform_group (defined "__OpenBSD__" || defined "__OPENBSD")%cond "OpenBSD";
    platform_group (defined "__sun" || defined "sun")%cond "SunOS";
    platform_group (defined "_AIX" || defined "__AIX" || defined "__AIX__" ||
                    defined "__aix" || defined "__aix__")%cond "AIX";
    platform_group (defined "__sgi" || defined "__sgi__" || defined "_SGI")%cond "IRIX";
    platform_group (defined "__hpux" || defined "__hpux__")%cond "HP-UX";
    platform_group (defined "__HAIKU__") "Haiku";
    platform_group (defined "__BeOS" || defined "__BEOS__" || defined "_BEOS")%cond "BeOS";
    platform_group (defined "__QNX__" || defined "__QNXNTO__")%cond "QNX";
    platform_group (defined "__tru64" || defined "_tru64" || defined "__TRU64__")%cond "Tru64";
    platform_group (defined "__riscos" || defined "__riscos__")%cond "RISCos";
    platform_group (defined "__sinix" || defined "__sinix__" || defined "__SINIX__")%cond
      "SINIX";
    platform_group (defined "__UNIX_SV__") "UNIX_SV";
    platform_group (defined "__bsdos__") "BSDOS";
    platform_group (defined "_MPRAS" || defined "MPRAS")%cond "MP-RAS";
    platform_group (defined "__osf" || defined "__osf__")%cond "OSF1";
    platform_group (defined "_SCO_SV" || defined "SCO_SV" || defined "sco_sv")%cond "SCO_SV";
    platform_group (defined "__ultrix" || defined "__ultrix__" || defined "_ULTRIX")%cond
      "ULTRIX";
    platform_group (defined "__XENIX__" || defined "_XENIX" || defined "XENIX")%cond "Xenix";
    (defined "__WATCOMC__",
     [ cascade
         [ platform_group (defined "__LINUX__") "Linux";
           platform_group (defined "__DOS__") "DOS";
           platform_group (defined "__OS2__") "OS2";
           platform_group (defined "__WINDOWS__") "Windows3x" ]
         [define PLATFORM_ID Blank] ]) ].

Definition platform : directive table := cascade platforms [define PLATFORM_ID Blank].

(** ** The architecture *)

Definition arch_group (c : condition) (id : string) : branch table :=
  (c, [define ARCHITECTURE_ID (Str id)]).

(** [_M_ARM]: the known versions, else the version spelled out. *)
Definition arm_version : directive table :=
  cascade
    [ arch_group (pp "_M_ARM" == 4)%cond "ARMV4I";
      arch_group (pp "_M_ARM" == 5)%cond "ARMV5I" ]
    [define ARCHITECTURE_ID (Str ("ARMV" +:+ STRINGIFY m "_M_ARM"))].

Definition windows_arch : branch table :=
  ((defined "_WIN32" && defined "_MSC_VER")%cond,
   [ cascade
       [ arch_group (defined "_M_IA64") "IA64";
         arch_group (defined "_M_X64" || defined "_M_AMD64")%cond "x64";
         arch_group (defined "_M_IX86") "X86";
         arch_group (defined "_M_ARM64") "ARM64";
         (defined "_M_ARM", [arm_version]);
         arch_group (defined "_M_MIPS") "MIPS";
         arch_group (defined "_M_SH") "SHx" ]
       [define ARCHITECTURE_ID (Str "")] ]).

Definition watcom_arch : branch table :=
  (defined "__WATCOMC__",
   [ cascade
       [ arch_group (defined "_M_I86") "I86";
         arch_group (defined "_M_IX86") "X86" ]
       [define ARCHITECTURE_ID (Str "")] ]).

Definition iar_arch : branch table :=
  ((defined "__IAR_SYSTEMS_ICC__" || defined "__IAR_SYSTEMS_ICC")%cond,
   [ cascade
       [ arch_group (defined "__ICCARM__") "ARM";
         arch_group (defined "__ICCAVR__") "AVR" ]
       [define ARCHITECTURE_ID (Str "")] ]).

Definition architecture : directive table :=
  cascade [windows_arch; watcom_arch; iar_arch] [define ARCHITECTURE_ID Blank].

(** ** The language dialect *)

Definition dialect : directive table :=
  cascade
    [ ((! defined "__STDC__")%cond,
       [ pp_if_else (defined "_MSC_VER" && ! defined "__clang__")%cond
           [define C_DIALECT (Str "90")] [define C_DIALECT Blank] ]);
      ((pp "__STDC_VERSION__" >= 201000)%cond, [define C_DIALECT (Str "11")]);
      ((pp "__STDC_VERSION__" >= 199901)%cond, [define C_DIALECT (Str "99")]) ]
    [define C_DIALECT (Str "90")].

(** ** The whole file *)

(** The macros of the program after its last directive; a C++ compiler is
    refused by [#error]. *)
Definition macro_table : option table :=
  if is_defined m "__cplusplus" then None
  else run [compiler; platform; architecture; dialect] no_macros.

(** The objects of the translation unit. *)
Definition compile : option program := t ← macro_table; objects m t.

(** [ID_VOID_MAIN], and the two definitions of [main]: [void main() {}] yields
    no exit status of its own. *)
Definition ID_VOID_MAIN : bool := is_defined m "__18CXX".

Definition int_main (p : program) (argc : Z) : M Z Z :=
  _ ← put_state 0;
  _ ← require_char (p_compiler p) argc;
  _ ← require_char (p_platform p) argc;
  _ ← require_char (p_arch p) argc;
  _ ← require_opt (p_version p) argc;
  _ ← require_opt (p_version_internal p) argc;
  _ ← require_opt (p_simulate p) argc;
  _ ← require_opt (p_simulate_version p) argc;
  _ ← require_opt (p_cray p) argc;
  _ ← require_char (p_dialect p) argc;
  get_state.

Definition main (p : program) (argc : Z) : M Z (option Z) :=
  if ID_VOID_MAIN then mret None else (r ← int_main p argc; mret (Some r)).

End groups.
End CompilerIdC.
