(* ===== verification/CompilerTyped.v ===== *)
(** * The macro tables of both identification programs are well-formed

    Whatever a compiler predefines, every macro that the programs define is of
    its kind: identification macros are texts without brackets, version macros
    are digit macros of numbers that are not negative.  The order of the cascade
    matters: [OpenWatcom] subtracts 1100, and is only reached from 1200 on. *)

From Stdlib Require Import Ascii.
From S2P Require Import Prelude Preproc CompilerInfo CompilerRead CompilerIdC CompilerIdCXX.

(** ** Expressions *)

Section nonneg.

Lemma nonneg_value m x : nonneg (value m x).
Proof. intros v Hv. apply value_range in Hv. lia. Qed.

Lemma nonneg_quot e k : nonneg e → 0 < k → nonneg (e / k)%cexpr.
Proof.
  intros He Hk v. rewrite fmap_Some. intros (u & Hu & ->).
  pose proof (He u Hu). apply Z.quot_pos; lia.
Qed.

Lemma nonneg_rem e k : nonneg e → 0 < k → nonneg ((λ v, Z.rem v k) <$> e).
Proof.
  intros He Hk v. rewrite fmap_Some. intros (u & Hu & ->).
  pose proof (He u Hu). apply Z.rem_nonneg; lia.
Qed.

Lemma nonneg_shr e k : nonneg e → nonneg (e >> k)%cexpr.
Proof.
  intros He v. rewrite fmap_Some. intros (u & Hu & ->). by apply Z.shiftr_nonneg, He.
Qed.

Lemma nonneg_and e k : nonneg e → nonneg (e & k)%cexpr.
Proof.
  intros He v. rewrite fmap_Some. intros (u & Hu & ->). apply Z.land_nonneg. left. by apply He.
Qed.

Lemma nonneg_sub m x k :
  (∀ v, pp_value m x = Some v → k ≤ v) → nonneg (value m x - k)%cexpr.
Proof.
  intros Hx v. rewrite fmap_Some. intros (u & Hu & ->).
  apply value_pp, Hx in Hu. lia.
Qed.

End nonneg.

#[export] Hint Resolve nonneg_value nonneg_quot nonneg_rem nonneg_shr nonneg_and : preproc.
#[export] Hint Extern 2 (0 < _) => lia : preproc.

(** ** Directives *)

Lemma typed_define n r : slot_ok n r → safe typed (define n r).
Proof.
  intros Hr t t' Ht [= <-] n' r'. destruct (decide (n' = n)) as [->|]; [|apply Ht].
  by intros [= <-].
Qed.

(** Where [OpenWatcom] and [arm_version] are reached, their macro is known. *)
Lemma reached_openwatcom m :
  lift2 andb (defined m "__WATCOMC__") (pp_value m "__WATCOMC__" < 1200)%cond = Some false →
  defined m "__WATCOMC__" = Some true →
  ∀ v, pp_value m "__WATCOMC__" = Some v → 1100 ≤ v.
Proof.
  intros (x & y & Hx & Hy & Hxy)%lift2_Some Hd v Hv. rewrite Hd in Hx. rewrite Hv in Hy.
  cbn in Hy. simplify_eq/=. lia.
Qed.

Lemma reached_arm m b :
  defined m "_M_ARM" = Some true →
  ((λ v, v =? 5) <$> pp_value m "_M_ARM") = Some b →
  unbracketed ("ARMV" +:+ STRINGIFY m "_M_ARM") = true.
Proof.
  intros [= Hd] Hb. apply fmap_Some in Hb as (v & Hv & _).
  rewrite unbracketed_app. unfold STRINGIFY. cbn [unbracketed].
  by rewrite (spelling_unbracketed m "_M_ARM" v).
Qed.

(** [preserve] walks a directive and settles the macros it defines. *)
Ltac define_step :=
  lazymatch goal with
  | |- safe typed (define _ Blank) => apply typed_define; exact I
  | |- safe typed (define _ (Str _)) => apply typed_define; hnf
  | |- safe typed (define _ (DEC ?e)) => apply typed_define; change (nonneg e)
  | |- safe typed (define _ (HEX ?e)) => apply typed_define; change (nonneg e)
  end.
Ltac preserve_watcom :=
  match goal with
  | |- nonneg _ =>
      apply nonneg_quot; [apply nonneg_sub, reached_openwatcom; assumption | lia]
  end.
Ltac preserve := walk; try define_step; first [reflexivity | preserve_watcom | eauto 8 with preproc].


Section CompilerIdC.
Context (m : macros).
Import CompilerIdC.

Lemma c_simulate_typed :
  safe typed (simulate_MSVC_id m) ∧ safe typed (simulate_MSVC_version m).
Proof. split; unfold simulate_MSVC_id, simulate_MSVC_version; preserve. Qed.

Lemma c_compiler_typed : safe typed (compiler m).
Proof.
  destruct c_simulate_typed as [Hid Hversion].
  unfold compiler, compilers, unknown_compiler. preserve.
Qed.

Lemma c_platform_typed : safe typed (platform m).
Proof. unfold platform, platforms, platform_group. preserve. Qed.

Lemma c_arm_typed : defined m "_M_ARM" = Some true → safe typed (arm_version m).
Proof.
  intros Hd. unfold arm_version, arch_group. walk; try define_step.
  1-2: reflexivity. by eapply reached_arm.
Qed.

Lemma c_architecture_typed : safe typed (architecture m).
Proof.
  unfold architecture, windows_arch, watcom_arch, iar_arch, arch_group.
  walk; try define_step; first [by apply c_arm_typed | reflexivity].
Qed.

Lemma c_dialect_typed : safe typed (dialect m).
Proof. unfold dialect. preserve. Qed.

Lemma c_table_typed t : macro_table m = Some t → typed t.
Proof.
  unfold macro_table. destruct (is_defined m "__cplusplus"); [done|].
  assert (safe typed (run [compiler m; platform m; architecture m; dialect m])) as H.
  { repeat apply safe_run_cons; auto using safe_run_nil, c_compiler_typed,
      c_platform_typed, c_architecture_typed, c_dialect_typed. }
  intros Ht. by apply (H no_macros t).
Qed.

End CompilerIdC.

Section CompilerIdCXX.
Context (m : macros).
Import CompilerIdCXX.

Lemma cxx_simulate_typed :
  safe typed (simulate_MSVC_id m) ∧ safe typed (simulate_MSVC_version m).
Proof. split; unfold simulate_MSVC_id, simulate_MSVC_version; preserve. Qed.

Lemma cxx_compiler_typed : safe typed (compiler m).
Proof.
  destruct cxx_simulate_typed as [Hid Hversion].
  unfold compiler, compilers, unknown_compiler. preserve.
Qed.

Lemma cxx_platform_typed : safe typed (platform m).
Proof. unfold platform, platforms, platform_group. preserve. Qed.

Lemma cxx_arm_typed : defined m "_M_ARM" = Some true → safe typed (arm_version m).
Proof.
  intros Hd. unfold arm_version, arch_group. walk; try define_step.
  1-2: reflexivity. by eapply reached_arm.
Qed.

Lemma cxx_architecture_typed : safe typed (architecture m).
Proof.
  unfold architecture, windows_arch, watcom_arch, iar_arch, arch_group.
  walk; try define_step; first [by apply cxx_arm_typed | reflexivity].
Qed.

Lemma cxx_dialect_typed : safe typed (dialect m).
Proof. unfold dialect. preserve. Qed.

Lemma cxx_table_typed t : macro_table m = Some t → typed t.
Proof.
  unfold macro_table. destruct (is_defined m "__cplusplus"); [|done].
  assert (safe typed (run [compiler m; platform m; architecture m; dialect m])) as H.
  { repeat apply safe_run_cons; auto using safe_run_nil, cxx_compiler_typed,
      cxx_platform_typed, cxx_architecture_typed, cxx_dialect_typed. }
  intros Ht. by apply (H no_macros t).
Qed.

End CompilerIdCXX.
