(* ===== verification/CompilerProps.v ===== *)
(** * What the compiler identification programs establish

    The reader of the object file gets back what the cascade chose; the cascade
    names one compiler, [GNU] only when no other vendor's macro is there; both
    programs agree; [main] stays inside its strings. *)

From Stdlib Require Import Ascii.
From S2P Require Import Prelude Preproc CompilerInfo CompilerRead CompilerIdC CompilerIdCXX CompilerTyped.

(** ** Inversion of the compilation *)

Lemma under_ifdef_inv b s o : under_ifdef b s = Some o → if b then s = o ∧ is_Some o else o = None.
Proof.
  unfold under_ifdef. destruct b; [|by intros [= <-]].
  destruct s; intros H; simplify_eq/=; eauto.
Qed.

Lemma objects_inv m t p :
  objects m t = Some p →
  info_compiler t = Some (p_compiler p) ∧ info_simulate t = Some (p_simulate p) ∧
  info_version t = Some (p_version p) ∧
  info_version_internal t = Some (p_version_internal p) ∧
  info_simulate_version t = Some (p_simulate_version p) ∧
  info_platform t = Some (p_platform p) ∧ info_arch t = Some (p_arch p) ∧
  info_language_dialect_default t = Some (p_dialect p) ∧
  p_qnxnto p = qnxnto m ∧ p_cray p = info_cray m.
Proof.
  unfold objects. intros H.
  repeat (apply bind_Some in H as (? & ? & H)). by injection H as <-.
Qed.

(** ** The information comes through *)

(** What a reader of the strings of [p] finds, against the macros [t]: a string
    under [#ifdef] is there exactly when its macro is defined. *)
Definition reads_under (o : option string) (t : table) (n : name) (found : string → Prop) : Prop :=
  (o = None ↔ t n = None) ∧ ∀ s, o = Some s → found s.

Definition reads_as (p : program) (t : table) : Prop :=
  between_brackets (p_compiler p) = text (t COMPILER_ID) ∧
  between_brackets (p_platform p) = text (t PLATFORM_ID) ∧
  between_brackets (p_arch p) = text (t ARCHITECTURE_ID) ∧
  between_brackets (p_dialect p) = text (t C_DIALECT) ∧
  reads_under (p_simulate p) t SIMULATE_ID (λ s, between_brackets s = text (t SIMULATE_ID)) ∧
  reads_under (p_version p) t COMPILER_VERSION_MAJOR (λ s, read_version s = components t version_names) ∧
  reads_under (p_simulate_version p) t SIMULATE_VERSION_MAJOR
    (λ s, read_version s = components t simulate_names) ∧
  reads_under (p_version_internal p) t COMPILER_VERSION_INTERNAL
    (λ s, read_version s = components t [COMPILER_VERSION_INTERNAL]).

Lemma under_ifdef_reads t n s o (found : string → Prop) :
  under_ifdef (is_def t n) s = Some o → (∀ x, o = Some x → found x) → reads_under o t n found.
Proof.
  intros H Hf. split; [|done]. unfold under_ifdef in H. destruct (is_def t n) eqn:Hd.
  - apply is_def_Some in Hd as [r ->]. destruct s; [|done]. by injection H as <-.
  - injection H as <-. split; [intros _|done]. destruct (t n) eqn:Hn; [|done].
    assert (is_def t n = true) by (apply is_def_Some; eauto). congruence.
Qed.

Lemma objects_read m t p : typed t → objects m t = Some p → reads_as p t.
Proof.
  intros Ht (Hc & Hs & Hv & Hvi & Hsv & Hp & Ha & Hd & _)%objects_inv.
  assert (∀ n key s, info_text key (t n) = Some s → is_text_name n = true →
    forallb (λ c, negb (Ascii.eqb c "[")) (String.list_ascii_of_string key) = true →
    between_brackets s = text (t n)) as Htext.
  { intros n key s H Hn Hk.
    destruct (text_read t n key s Ht Hn Hk H) as (id & -> & ->). done. }
  unfold reads_as.
  split; [exact (Htext _ _ _ Hc eq_refl eq_refl)|].
  split; [exact (Htext _ _ _ Hp eq_refl eq_refl)|].
  split; [exact (Htext _ _ _ Ha eq_refl eq_refl)|].
  split; [exact (Htext _ _ _ Hd eq_refl eq_refl)|].
  split_and!; (eapply under_ifdef_reads; [eassumption|]); intros s Hps.
  - rewrite Hps in Hs. apply under_ifdef_inv in Hs.
    destruct (is_def t SIMULATE_ID); [|done]. destruct Hs as [Hs _].
    exact (Htext _ _ _ Hs eq_refl eq_refl).
  - rewrite Hps in Hv. by apply version_read.
  - rewrite Hps in Hsv. by apply simulate_version_read.
  - rewrite Hps in Hvi. by apply version_internal_read.
Qed.

(** ** Which compiler is named *)

(** The name of the first group whose condition holds. *)
Fixpoint first_name (cs : list condition) (ids : list string) (other : string) :
    option string :=
  match cs, ids with
  | Some true :: _, id :: _ => Some id
  | Some false :: cs, _ :: ids => first_name cs ids other
  | None :: _, _ => None
  | _, _ => Some other
  end.

Definition names_it (id : string) (ds : list (directive table)) : Prop :=
  ∀ t t', run ds t = Some t' → t' COMPILER_ID = Some (Str id).

Lemma safe_define_other n n' x r :
  n ≠ n' → safe (λ t : table, t n' = x) (define n r).
Proof. intros Hn t t' Ht [= <-]. cbn. by rewrite decide_False. Qed.

Lemma names_it_intro id ds :
  safe (λ t, t COMPILER_ID = Some (Str id)) (run ds) →
  names_it id (define COMPILER_ID (Str id) :: ds).
Proof.
  intros Hs t t'. cbn. apply Hs. done.
Qed.

Lemma cascade_names bs ids els other t t' :
  length bs = length ids →
  Forall2 (λ b id, names_it id b.2) bs ids → names_it other els →
  cascade bs els t = Some t' →
  ∃ id, first_name (fst <$> bs) ids other = Some id ∧ t' COMPILER_ID = Some (Str id).
Proof.
  intros _ H. induction H as [|[[[]|] ds] id bs ids Hb _ IH]; intros Hels Hrun.
  - exists other. split; [done|]. by eapply Hels.
  - exists id. split; [done|]. by eapply Hb.
  - by apply IH.
  - done.
Qed.

Ltac other_define := walk; apply safe_define_other; discriminate.

Section c_names.
Context (m : macros).
Import CompilerIdC.

Definition c_ids : list string :=
  ["Intel"; "PathScale"; "Embarcadero"; "Borland"; "Watcom"; "OpenWatcom"; "SunPro"; "HP";
   "Compaq"; "zOS"; "XL"; "VisualAge"; "PGI"; "Cray"; "TI"; "Fujitsu"; "TinyCC"; "Bruce";
   "SCO"; "AppleClang"; "Clang"; "GNU"; "MSVC"; "ADSP"; "IAR"; "ARMCC"; "SDCC"; "MIPSpro";
   "MIPSpro"; "HP"].

Lemma c_groups_name : Forall2 (λ b id, names_it id b.2) (compilers m) c_ids.
Proof.
  unfold compilers, c_ids.
  repeat first [apply Forall2_nil_2 | apply Forall2_cons; split];
    cbn [snd]; apply names_it_intro; unfold simulate_MSVC_id, simulate_MSVC_version; other_define.
Qed.

Lemma c_others_keep_id x :
  safe (λ t, t COMPILER_ID = x) (run [platform m; architecture m; dialect m]).
Proof.
  unfold platform, platforms, platform_group, architecture, windows_arch, watcom_arch,
    iar_arch, arm_version, arch_group, dialect. other_define.
Qed.

Lemma c_table_name t :
  macro_table m = Some t →
  ∃ id, first_name (fst <$> compilers m) c_ids "" = Some id ∧ t COMPILER_ID = Some (Str id).
Proof.
  unfold macro_table. destruct (is_defined m "__cplusplus"); [done|].
  cbn [run]. intros (t1 & H1 & H2)%bind_Some.
  destruct (cascade_names (compilers m) c_ids unknown_compiler "" no_macros t1) as (id & Hf & Hid);
    [done|apply c_groups_name|by apply names_it_intro, safe_run_nil|exact H1|].
  exists id. split; [done|]. by apply (c_others_keep_id _ t1).
Qed.

(** The macros of the vendors that come before [GNU]: a compiler that predefines
    one of them is not named [GNU], whatever it says about [__GNUC__]. *)
Definition stronger_macros : list string :=
  ["__INTEL_COMPILER"; "__ICC"; "__PATHCC__"; "__BORLANDC__"; "__WATCOMC__"; "__SUNPRO_C";
   "__HP_cc"; "__DECC"; "__IBMC__"; "__PGI"; "_CRAYC"; "__TI_COMPILER_VERSION__";
   "__FUJITSU"; "__FCC_VERSION"; "__fcc_version"; "__TINYC__"; "__BCC__";
   "__SCO_VERSION__"; "__clang__"].

Lemma first_name_cons c cs id ids other r :
  first_name (c :: cs) (id :: ids) other = Some r →
  (c = Some true ∧ r = id) ∨ (c = Some false ∧ first_name cs ids other = Some r).
Proof. cbn. destruct c as [[]|]; [|by right|done]. intros [= <-]. by left. Qed.

(** The three groups for IBM exhaust the compilers that predefine [__IBMC__]. *)
Lemma ibm_exhaustive :
  lift2 andb (defined m "__IBMC__") (defined m "__COMPILER_VER__") = Some false →
  lift2 andb (lift2 andb (defined m "__IBMC__") (! defined m "__COMPILER_VER__")%cond)
    (pp_value m "__IBMC__" >= 800)%cond = Some false →
  lift2 andb (lift2 andb (defined m "__IBMC__") (! defined m "__COMPILER_VER__")%cond)
    (pp_value m "__IBMC__" < 800)%cond = Some false →
  is_defined m "__IBMC__" = false.
Proof.
  unfold defined. destruct (is_defined m "__IBMC__"); [|done].
  destruct (is_defined m "__COMPILER_VER__"); [done|].
  destruct (pp_value m "__IBMC__") as [v|]; [|done]. cbn.
  destruct (Z.leb_spec 800 v), (Z.ltb_spec v 800); try done; lia.
Qed.

(** Without the stronger macros, the conditions before [GNU] are all false. *)
Lemma nothing_stronger n :
  Forall (λ x, is_defined m x = false) stronger_macros →
  (n < 21)%nat → (fst <$> compilers m) !! n = Some (Some false).
Proof.
  unfold stronger_macros. rewrite !Forall_cons, Forall_nil. intros Hs Hn.
  destruct_and! Hs.
  assert (pp_value m "__WATCOMC__" = Some 0) as Hw by by apply undefined_is_zero.
  assert (pp_value m "__IBMC__" = Some 0) as Hi by by apply undefined_is_zero.
  do 21 (destruct n as [|n]; [cbn; unfold defined; rewrite ?Hw, ?Hi;
    repeat match goal with H : is_defined m _ = false |- _ => rewrite H end;
    by destruct (is_defined m "__COMPILER_VER__")|]). lia.
Qed.

Lemma first_name_skip cs ids other n :
  (∀ k, (k < n)%nat → cs !! k = Some (Some false)) → (n ≤ length ids)%nat →
  first_name cs ids other = first_name (drop n cs) (drop n ids) other.
Proof.
  revert cs ids. induction n as [|n IH]; intros cs ids Hk Hl; [done|].
  destruct cs as [|c cs], ids as [|id ids]; cbn in Hl; try lia.
  { by specialize (Hk 0%nat ltac:(lia)). }
  pose proof (Hk 0%nat ltac:(lia)) as H0. cbn in H0. injection H0 as ->. cbn [first_name drop].
  apply IH; [|lia]. intros k Hkn. by apply (Hk (S k)); lia.
Qed.
End c_names.

(** Inversion of the conditions that were false. *)
Lemma defined_false m x : defined m x = Some false → is_defined m x = false.
Proof. by intros [= ->]. Qed.

Lemma orb_defined_false m (a : condition) x :
  lift2 orb a (defined m x) = Some false → a = Some false ∧ is_defined m x = false.
Proof.
  intros (u & v & -> & [= <-] & H)%lift2_Some. by apply orb_false_iff in H as [-> ->].
Qed.

(** When the conditions before [GNU] are false, so are their macros. *)
Lemma prefix_false m :
  Forall (λ c, c = Some false) (take 21 (fst <$> CompilerIdC.compilers m)) →
  Forall (λ x, is_defined m x = false) stronger_macros.
Proof.
  unfold CompilerIdC.compilers. cbn [fmap list_fmap take]. rewrite !Forall_cons.
  intros H. destruct_and! H.
  repeat match goal with
  | H : (?b m).1 = Some false |- _ => unfold b in H; cbn [fst] in H
  | H : lift2 orb _ (defined _ _) = Some false |- _ => apply orb_defined_false in H as [? ?]
  | H : defined _ _ = Some false |- _ => apply defined_false in H
  end.
  unfold stronger_macros. repeat constructor; try done. by apply ibm_exhaustive.
Qed.

(** The C program says [GNU] exactly of the compilers that predefine
    [__GNUC__] and none of the macros of the vendors it asks first: the groups of
    the vendors that imitate GNU come before it, and the three IBM groups and the
    two Watcom groups leave no gap. *)
Theorem gnu_is_asked_last m t :
  CompilerIdC.macro_table m = Some t →
  t COMPILER_ID = Some (Str "GNU") ↔
  is_defined m "__GNUC__" = true ∧ Forall (λ x, is_defined m x = false) stronger_macros.
Proof.
  intros (id & Hf & Hid)%c_table_name. rewrite Hid. split.
  - intros [= ->]. unfold CompilerIdC.compilers, c_ids in Hf. cbn [fmap list_fmap fst] in Hf.
    do 21 (apply first_name_cons in Hf as [[_ ?]|[? Hf]]; [discriminate|]).
    apply first_name_cons in Hf as [[Hgnu _]|[_ Hf]].
    + injection Hgnu as ->. split; [done|]. apply prefix_false.
      unfold CompilerIdC.compilers. cbn [fmap list_fmap take]. by repeat constructor.
    + exfalso. do 8 (apply first_name_cons in Hf as [[_ ?]|[_ Hf]]; [discriminate|]).
      discriminate Hf.
  - intros [Hg Hs]. do 2 f_equal.
    erewrite (first_name_skip _ _ _ 21) in Hf; [|intros k Hk; by apply nothing_stronger|cbn; lia].
    change (first_name (Some (is_defined m "__GNUC__") :: drop 22 (fst <$> CompilerIdC.compilers m))
      (drop 21 c_ids) "" = Some id) in Hf.
    rewrite Hg in Hf. cbn in Hf. congruence.
Qed.

(** ** Both programs, as a whole *)

(** C37: every macro that either program defines is of its kind, whatever the
    compiler predefines: names are texts that cannot close their bracket, version
    macros are digit macros of numbers that are not negative, also where a group
    subtracts. *)
Theorem macro_tables_typed m t :
  CompilerIdC.macro_table m = Some t ∨ CompilerIdCXX.macro_table m = Some t → typed t.
Proof. intros [H|H]; [by eapply c_table_typed|by eapply cxx_table_typed]. Qed.

(** C34: whatever macros the compiler predefines, as long as the program
    compiles, what the build system reads out of it is what the program's macros
    say.  Every name is the text between the brackets.  A version is there
    exactly when its first macro is defined, and reads as the numbers of its
    macros up to the first that is not defined: the last eight decimal digits of
    the value of a [DEC] macro, the nibbles of a [HEX] macro as decimal digits;
    when one of these nibbles is above nine, which [HEX] prints as a character
    beyond [9], the version does not read as numbers. *)
Theorem program_reads_back m p :
  (CompilerIdC.compile m = Some p →
   ∃ t, CompilerIdC.macro_table m = Some t ∧ reads_as p t) ∧
  (CompilerIdCXX.compile m = Some p →
   ∃ t, CompilerIdCXX.macro_table m = Some t ∧ reads_as p t).
Proof.
  split; intros (t & Ht & Hp)%bind_Some; exists t; split; [done| |done|];
    eapply objects_read; try exact Hp; [by eapply c_table_typed|by eapply cxx_table_typed].
Qed.

Lemma c_others_keep_version x :
  ∀ m, safe (λ t, t COMPILER_VERSION_MAJOR = x)
         (run [CompilerIdC.platform m; CompilerIdC.architecture m; CompilerIdC.dialect m]).
Proof.
  intros m. unfold CompilerIdC.platform, CompilerIdC.platforms, CompilerIdC.platform_group,
    CompilerIdC.architecture, CompilerIdC.windows_arch, CompilerIdC.watcom_arch,
    CompilerIdC.iar_arch, CompilerIdC.arm_version, CompilerIdC.arch_group,
    CompilerIdC.dialect.
  other_define.
Qed.

(** A compiler known by [__ICC] alone passes the condition of the Intel group,
    which then names [__INTEL_COMPILER] in its version: it does not compile. *)
Theorem icc_alone_rejected m :
  is_defined m "__ICC" = true → m !! "__INTEL_COMPILER" = None →
  CompilerIdC.compile m = None.
Proof.
  intros Hicc Hnone. destruct (CompilerIdC.compile m) as [p|] eqn:E; [exfalso|done].
  apply bind_Some in E as (t & Ht & Hp). unfold CompilerIdC.macro_table in Ht.
  destruct (is_defined m "__cplusplus"); [done|].
  cbn [run] in Ht. apply bind_Some in Ht as (t1 & H1 & H2).
  assert (t1 COMPILER_VERSION_MAJOR = Some (DEC None)) as Hmajor.
  { unfold CompilerIdC.compiler, CompilerIdC.compilers in H1.
    rewrite (cascade_take (CompilerIdC.Intel m)) in H1
      by (unfold CompilerIdC.Intel, defined; cbn; by rewrite Hicc, orb_true_r).
    change (CompilerIdC.Intel m).2 with (take 3 (CompilerIdC.Intel m).2 ++ drop 3 (CompilerIdC.Intel m).2)
      in H1.
    rewrite run_app in H1. apply bind_Some in H1 as (u & Hu & H1).
    assert (safe (λ v : table, v COMPILER_VERSION_MAJOR = Some (DEC None))
      (run (drop 3 (CompilerIdC.Intel m).2))) as Hs.
    { unfold CompilerIdC.Intel, CompilerIdC.simulate_MSVC_version. cbn [snd drop]. other_define. }
    apply (Hs u); [|exact H1]. unfold CompilerIdC.Intel in Hu. cbn [snd take run] in Hu.
    apply bind_Some in Hu as (u1 & _ & Hu). apply bind_Some in Hu as (u2 & _ & Hu).
    unfold value in Hu. rewrite Hnone in Hu. by injection Hu as <-. }
  apply objects_inv in Hp as (_ & _ & Hv & _).
  apply (c_others_keep_version (Some (DEC None)) m t1) in H2; [|exact Hmajor].
  unfold info_version, is_def in Hv. rewrite H2 in Hv. discriminate Hv.
Qed.
