(* ===== verification/CompilerAgree.v ===== *)
(** * The C and the C++ identification programs agree

    The two programs are separate texts.  For the two faces of one compiler, the
    macros of which correspond, they build the same strings up to the language
    dialect. *)

From Stdlib Require Import Ascii.
From S2P Require Import Prelude Preproc CompilerInfo CompilerRead CompilerIdC CompilerIdCXX CompilerProps.

(** Names that one of the programs tests and the other does not. *)
Definition language_specific : list string :=
  ["__SUNPRO_C"; "__HP_cc"; "__DECC"; "__DECC_VER"; "__IBMC__"; "__TINYC__"; "__BCC__";
   "__SDCC_VERSION_MAJOR"; "SDCC"; "__STDC__"; "__STDC_VERSION__"; "__18CXX";
   "__SUNPRO_CC"; "__HP_aCC"; "__DECCXX"; "__DECCXX_VER"; "__IBMCPP__"; "__COMO__";
   "__COMO_VERSION__"; "__GNUG__"; "__cplusplus"; "_MSVC_LANG"].
Definition is_specific (x : string) : bool := existsb (String.eqb x) language_specific.

(** The C face [mc] and the C++ face [mx] of one compiler: the vendors' C and C++
    macros hold the same, the compilers of one language only are out, and a
    compiler with [__GNUG__] also has [__GNUC__]. *)
Record same_compiler (mc mx : macros) : Prop := {
  common_macro x : is_specific x = false → mc !! x = mx !! x;
  sunpro_macro : mc !! "__SUNPRO_C" = mx !! "__SUNPRO_CC";
  hp_macro : mc !! "__HP_cc" = mx !! "__HP_aCC";
  dec_macro : mc !! "__DECC" = mx !! "__DECCXX";
  dec_version : mc !! "__DECC_VER" = mx !! "__DECCXX_VER";
  ibm_macro : mc !! "__IBMC__" = mx !! "__IBMCPP__";
  no_tinyc : mc !! "__TINYC__" = None;
  no_bruce : mc !! "__BCC__" = None;
  no_sdcc : mc !! "SDCC" = None;
  no_sdcc_major : mc !! "__SDCC_VERSION_MAJOR" = None;
  no_comeau : mx !! "__COMO__" = None;
  gnug_gnuc : is_defined mx "__GNUG__" = true → is_defined mx "__GNUC__" = true
}.

Section agree.
Context (mc mx : macros) (Hsame : same_compiler mc mx).

Lemma defined_alike x y : mc !! x = mx !! y → defined mc x = defined mx y.
Proof using. unfold defined, is_defined. by intros ->. Qed.
Lemma value_alike x y : mc !! x = mx !! y → value mc x = value mx y.
Proof using. unfold value. by intros ->. Qed.
Lemma pp_value_alike x y : mc !! x = mx !! y → pp_value mc x = pp_value mx y.
Proof using. unfold pp_value. by intros ->. Qed.
Lemma undefined_macro m x : m !! x = None → defined m x = Some false.
Proof using. unfold defined, is_defined. by intros ->. Qed.

Lemma spelling_alike x : is_specific x = false → STRINGIFY mc x = STRINGIFY mx x.
Proof using Hsame.
  intros Hx. unfold STRINGIFY, spelling. by rewrite (common_macro _ _ Hsame x Hx).
Qed.

(** [alike] rewrites every use of a macro of [mc] into one of [mx]. *)
Ltac counterpart x :=
  lazymatch x with
  | "__SUNPRO_C" => constr:(sunpro_macro _ _ Hsame)
  | "__HP_cc" => constr:(hp_macro _ _ Hsame)
  | "__DECC" => constr:(dec_macro _ _ Hsame)
  | "__DECC_VER" => constr:(dec_version _ _ Hsame)
  | "__IBMC__" => constr:(ibm_macro _ _ Hsame)
  | _ => constr:(common_macro _ _ Hsame x eq_refl)
  end.
Ltac alike :=
  repeat match goal with
  | |- context [defined mc ?x] => let e := counterpart x in rewrite (defined_alike x _ e)
  | |- context [value mc ?x] => let e := counterpart x in rewrite (value_alike x _ e)
  | |- context [pp_value mc ?x] => let e := counterpart x in rewrite (pp_value_alike x _ e)
  | |- context [STRINGIFY mc ?x] => rewrite (spelling_alike x eq_refl)
  end.

Lemma platform_alike : CompilerIdC.platform mc = CompilerIdCXX.platform mx.
Proof using Hsame.
  unfold CompilerIdC.platform, CompilerIdC.platforms, CompilerIdC.platform_group.
  alike. reflexivity.
Qed.

Lemma architecture_alike : CompilerIdC.architecture mc = CompilerIdCXX.architecture mx.
Proof using Hsame.
  unfold CompilerIdC.architecture, CompilerIdC.windows_arch, CompilerIdC.watcom_arch,
    CompilerIdC.iar_arch, CompilerIdC.arm_version, CompilerIdC.arch_group.
  alike. reflexivity.
Qed.

(** The group of GNU is not the same text: C++ also accepts [__GNUG__]. *)
Lemma gnu_alike bs els t :
  cascade (CompilerIdC.GNU mc :: bs) els t = cascade (CompilerIdCXX.GNU mx :: bs) els t.
Proof using Hsame.
  unfold CompilerIdC.GNU, CompilerIdCXX.GNU. alike. pose proof (gnug_gnuc _ _ Hsame) as Hg.
  apply cascade_cons_ext; [|intros Hc|done].
  - unfold defined. destruct (is_defined mx "__GNUC__"); [done|].
    destruct (is_defined mx "__GNUG__"); [by discriminate Hg|done].
  - unfold pp_if_else. cbn [run cascade]. by rewrite Hc.
Qed.

Ltac same_group :=
  apply cascade_cons_ext;
    [ alike; reflexivity
    | intros _; unfold CompilerIdC.simulate_MSVC_id, CompilerIdC.simulate_MSVC_version;
      alike; reflexivity
    | intros _ ].

Lemma compiler_alike t : CompilerIdC.compiler mc t = CompilerIdCXX.compiler mx t.
Proof using Hsame.
  unfold CompilerIdC.compiler, CompilerIdC.compilers, CompilerIdCXX.compiler,
    CompilerIdCXX.compilers.
  rewrite (cascade_skip (CompilerIdCXX.Comeau mx)) by apply undefined_macro, (no_comeau _ _ Hsame).
  do 16 same_group.
  rewrite (cascade_skip (CompilerIdC.TinyCC mc)) by apply undefined_macro, (no_tinyc _ _ Hsame).
  rewrite (cascade_skip (CompilerIdC.Bruce mc)) by apply undefined_macro, (no_bruce _ _ Hsame).
  do 3 same_group. rewrite gnu_alike. apply cascade_cons_ext; [done..|intros _].
  do 4 same_group.
  rewrite (cascade_skip (CompilerIdC.SDCC mc)).
  2: { unfold CompilerIdC.SDCC. cbn [fst].
       by rewrite (undefined_macro mc "SDCC"), (undefined_macro mc "__SDCC_VERSION_MAJOR")
         by apply Hsame. }
  do 3 same_group. done.
Qed.

(** ** The whole programs *)

(** All the strings but the dialect. *)
Definition same_but_dialect (p q : program) : Prop :=
  p_compiler p = p_compiler q ∧ p_simulate p = p_simulate q ∧ p_qnxnto p = p_qnxnto q ∧
  p_cray p = p_cray q ∧ p_version p = p_version q ∧
  p_version_internal p = p_version_internal q ∧
  p_simulate_version p = p_simulate_version q ∧ p_platform p = p_platform q ∧
  p_arch p = p_arch q.

Lemma is_defined_alike x : is_specific x = false → is_defined mc x = is_defined mx x.
Proof using Hsame. intros Hx. unfold is_defined. by rewrite (common_macro _ _ Hsame x Hx). Qed.

(** The strings but the dialect depend on the other macros only. *)
Lemma infos_alike t u :
  (∀ n, n ≠ C_DIALECT → t n = u n) →
  info_compiler t = info_compiler u ∧ info_simulate t = info_simulate u ∧
  info_version t = info_version u ∧ info_version_internal t = info_version_internal u ∧
  info_simulate_version t = info_simulate_version u ∧ info_platform t = info_platform u ∧
  info_arch t = info_arch u.
Proof using.
  intros Htu.
  unfold info_compiler, info_simulate, info_version, info_version_internal,
    info_simulate_version, info_platform, info_arch, dotted, is_def.
  rewrite !Htu by discriminate. done.
Qed.

Lemma objects_alike t u p q :
  (∀ n, n ≠ C_DIALECT → t n = u n) →
  objects mc t = Some p → objects mx u = Some q → same_but_dialect p q.
Proof using Hsame.
  intros (E1 & E2 & E3 & E4 & E5 & E6 & E7)%infos_alike
    (H1 & H2 & H3 & H4 & H5 & H6 & H7 & _ & H9 & H10)%objects_inv
    (K1 & K2 & K3 & K4 & K5 & K6 & K7 & _ & K9 & K10)%objects_inv.
  unfold qnxnto, info_cray in *.
  rewrite (is_defined_alike "__QNXNTO__" eq_refl) in H9.
  rewrite (is_defined_alike "__CRAYXE" eq_refl), (is_defined_alike "__CRAYXC" eq_refl) in H10.
  unfold same_but_dialect. split_and!; congruence.
Qed.

Lemma c_dialect_only t t' :
  CompilerIdC.dialect mc t = Some t' → ∀ n, n ≠ C_DIALECT → t' n = t n.
Proof using.
  intros H n Hn.
  assert (safe (λ u : table, u n = t n) (CompilerIdC.dialect mc)) as Hs.
  { unfold CompilerIdC.dialect. walk; by apply safe_define_other. }
  by apply (Hs t t').
Qed.

Lemma cxx_dialect_only t t' :
  CompilerIdCXX.dialect mx t = Some t' → ∀ n, n ≠ C_DIALECT → t' n = t n.
Proof using.
  intros H n Hn.
  assert (safe (λ u : table, u n = t n) (CompilerIdCXX.dialect mx)) as Hs.
  { unfold CompilerIdCXX.dialect. walk; by apply safe_define_other. }
  by apply (Hs t t').
Qed.
End agree.

(** C35: the two faces of one compiler ([same_compiler]: the compilers that exist
    for one language only are out) are identified alike: whenever both programs
    compile, every string but the dialect is the same in both. *)
Theorem both_programs_agree mc mx p q :
  same_compiler mc mx →
  CompilerIdC.compile mc = Some p → CompilerIdCXX.compile mx = Some q →
  same_but_dialect p q.
Proof.
  intros Hsame (t & Ht & Hp)%bind_Some (u & Hu & Hq)%bind_Some.
  apply (objects_alike mc mx Hsame t u p q); [|done..].
  unfold CompilerIdC.macro_table in Ht. destruct (is_defined mc _); [done|].
  unfold CompilerIdCXX.macro_table in Hu. destruct (is_defined mx _); [|done].
  cbn [run] in Ht, Hu. rewrite (compiler_alike mc mx Hsame) in Ht.
  rewrite (platform_alike mc mx Hsame), (architecture_alike mc mx Hsame) in Ht.
  apply bind_Some in Ht as (t1 & H1 & Ht), Hu as (u1 & G1 & Hu).
  apply bind_Some in Ht as (t2 & H2 & Ht), Hu as (u2 & G2 & Hu).
  apply bind_Some in Ht as (t3 & H3 & Ht), Hu as (u3 & G3 & Hu).
  apply bind_Some in Ht as (t4 & H4 & [= <-]), Hu as (u4 & G4 & [= <-]).
  simplify_eq. intros n Hn.
  by rewrite (c_dialect_only mc _ _ H4 n Hn), (cxx_dialect_only mx _ _ G4 n Hn).
Qed.
