(* ===== verification/CompilerMain.v ===== *)
(** * [main] of the identification programs

    [main] adds up one character of each string, at the index [argc].  It has a
    defined result exactly when [argc] is an index of the shortest of them, its
    NUL included; the sum never overflows. *)

From Stdlib Require Import Ascii.
From S2P Require Import Prelude Preproc CompilerInfo CompilerRead CompilerIdC CompilerIdCXX CompilerProps.

(** ** One character *)

Abbreviation slen s := (Z.of_nat (String.length s)).

Lemma get_length n s : String.get n s = None ↔ (String.length s ≤ n)%nat.
Proof.
  revert n. induction s as [|c s IH]; intros n; cbn; [split; [lia|done]|].
  destruct n as [|n]; cbn; [split; [done|lia]|]. rewrite IH. lia.
Qed.

Lemma char_at_range s i : 0 ≤ i ≤ slen s → ∃ c, char_at s i = Some c ∧ -128 ≤ c ≤ 127.
Proof.
  intros Hi. unfold char_at. rewrite bool_decide_true by lia.
  destruct (String.get _ s) as [c|] eqn:E.
  - eexists. split; [done|].
    pose proof (swrap_range 8 eq_refl (Z.of_N (N_of_ascii c))) as H. cbn in H. lia.
  - apply get_length in E. rewrite bool_decide_true by lia. exists 0. split; [done|lia].
Qed.

Lemma char_at_outside s i : ¬ (0 ≤ i ≤ slen s) → char_at s i = None.
Proof.
  intros Hi. unfold char_at. case_bool_decide; [|done].
  rewrite (proj2 (get_length _ _)) by lia. by rewrite bool_decide_false by lia.
Qed.

(** ** The sum *)

(** [require += s[argc]] for every string of [ss], then [return require]. *)
Definition require_all (ss : list string) (argc : Z) : M Z Z :=
  foldr (λ s k, _ ← require_char s argc; k) get_state ss.

Definition in_bounds (ss : list string) (argc : Z) : Prop :=
  Forall (λ s, 0 ≤ argc ≤ slen s) ss.

#[global] Instance in_bounds_dec ss argc : Decision (in_bounds ss argc).
Proof. unfold in_bounds. apply _. Defined.

(** The sum of the characters at [argc]. *)
Definition sum_at (ss : list string) (argc : Z) : Z := foldr (λ s v, default 0 (char_at s argc) + v) 0 ss.

Section sum.
Context (argc : Z).

Lemma require_char_run s r :
  0 ≤ argc ≤ slen s → Z.abs r ≤ 2 ^ 30 →
  let c := default 0 (char_at s argc) in
  require_char s argc r = Ok (tt, r + c) ∧ Z.abs (r + c) ≤ Z.abs r + 128.
Proof.
  intros Hs Hr c. destruct (char_at_range s argc Hs) as (x & Hc & Hrange).
  unfold c, require_char. rewrite Hc. cbn [from_option id]. clear c. mrun. mrun.
  rewrite bool_decide_true by lia. split; [done|lia].
Qed.

Lemma require_all_run ss r :
  in_bounds ss argc → Z.abs r + 128 * lenZ ss ≤ 2 ^ 30 →
  require_all ss argc r = Ok (r + sum_at ss argc, r + sum_at ss argc) ∧
  Z.abs (r + sum_at ss argc) ≤ Z.abs r + 128 * lenZ ss.
Proof.
  intros H. revert r. induction H as [|s ss Hs _ IH]; intros r Hr; cbn [length] in Hr.
  { cbn. rewrite Z.add_0_r. split; [done|lia]. }
  destruct (require_char_run s r Hs) as (H1 & Hr1); [lia|].
  cbn [sum_at foldr length]. fold (sum_at ss argc). rewrite Z.add_assoc.
  destruct (IH (r + default 0 (char_at s argc))) as (H2 & Hr2); [lia|]. split; [|lia].
  cbn [require_all foldr]. mrun H1. exact H2.
Qed.

Lemma require_all_fault ss r :
  ¬ in_bounds ss argc → Z.abs r + 128 * lenZ ss ≤ 2 ^ 30 →
  require_all ss argc r = Fault OutOfBounds.
Proof.
  revert r. induction ss as [|s ss IH]; intros r Hn Hr; cbn [length] in Hr.
  { by destruct Hn; constructor. }
  cbn [require_all foldr]. destruct (decide (0 ≤ argc ≤ slen s)) as [Hs|Hs].
  - destruct (require_char_run s r Hs) as (H1 & Hr1); [lia|]. mrun H1.
    apply IH; [|lia]. intros Hss. apply Hn. by constructor.
  - apply bind_fault. unfold require_char. by rewrite (char_at_outside s argc Hs).
Qed.
End sum.

(** ** The strings that [main] reads *)

Definition c_main_strings (p : program) : list string :=
  [p_compiler p; p_platform p; p_arch p] ++ option_list (p_version p) ++
  option_list (p_version_internal p) ++ option_list (p_simulate p) ++
  option_list (p_simulate_version p) ++ option_list (p_cray p) ++ [p_dialect p].

Definition cxx_main_strings (p : program) : list string :=
  [p_compiler p; p_platform p] ++ option_list (p_version p) ++
  option_list (p_version_internal p) ++ option_list (p_simulate p) ++
  option_list (p_simulate_version p) ++ option_list (p_cray p) ++ [p_dialect p].

Lemma c_main_sum p argc r : CompilerIdC.int_main p argc r = require_all (c_main_strings p) argc 0.
Proof. by destruct p as [? [] ? [] [] [] [] ? ? ?]. Qed.

Lemma cxx_main_sum p argc r : CompilerIdCXX.main p argc r = require_all (cxx_main_strings p) argc 0.
Proof. by destruct p as [? [] ? [] [] [] [] ? ? ?]. Qed.

Lemma main_strings_count p :
  lenZ (c_main_strings p) ≤ 9 ∧ lenZ (cxx_main_strings p) ≤ 8.
Proof. by destruct p as [? [] ? [] [] [] [] ? ? ?]. Qed.

(** ** Their lengths *)

Lemma info_text_length key r s :
  info_text key r = Some s → (7 + String.length key ≤ String.length s)%nat.
Proof.
  unfold info_text. intros (id & _ & [= <-])%bind_Some.
  rewrite !string_app_length. cbn. lia.
Qed.

Lemma under_ifdef_length n b s o :
  under_ifdef b s = Some o → (∀ x, s = Some x → (n ≤ String.length x)%nat) →
  Forall (λ x, (n ≤ String.length x)%nat) (option_list o).
Proof.
  intros H Hs. apply under_ifdef_inv in H. destruct b; [|by subst].
  destruct H as [-> [x ->]]. apply Forall_singleton. by apply Hs.
Qed.

Lemma version_lengths t :
  (∀ o, info_version t = Some o → Forall (λ x, (15 ≤ String.length x)%nat) (option_list o)) ∧
  (∀ o, info_version_internal t = Some o →
     Forall (λ x, (15 ≤ String.length x)%nat) (option_list o)) ∧
  (∀ o, info_simulate_version t = Some o →
     Forall (λ x, (15 ≤ String.length x)%nat) (option_list o)).
Proof.
  split_and!; intros o Ho; eapply under_ifdef_length; try exact Ho; intros x.
  all: intros (v & _ & H)%bind_Some.
  1, 3: apply bind_Some in H as (r & _ & H).
  all: apply (inj Some) in H; subst x; rewrite !string_app_length; cbn [String.length]; lia.
Qed.

(** Every string that [main] reads has at least fifteen characters, [info_arch]
    eleven. *)
Lemma object_lengths m t p :
  objects m t = Some p →
  Forall (λ s, (15 ≤ String.length s)%nat) (cxx_main_strings p) ∧
  (11 ≤ String.length (p_arch p))%nat.
Proof.
  intros (H1 & H2 & H3 & H4 & H5 & H6 & H7 & H8 & _ & H10)%objects_inv.
  destruct (version_lengths t) as (L3 & L4 & L5).
  apply info_text_length in H1, H6, H7, H8. cbn in H1, H6, H7, H8.
  split; [|exact H7]. unfold cxx_main_strings. rewrite !Forall_app. split_and!; auto.
  - eapply under_ifdef_length; [exact H2|]. intros x Hx%info_text_length. cbn in Hx. lia.
  - rewrite H10. unfold info_cray. destruct (_ || _); [|constructor].
    apply Forall_singleton. by apply Nat.leb_le.
  - apply Forall_singleton. lia.
Qed.

(** C36: [main] of the C program with [argc] arguments.  Under [__18CXX] it is
    [void main() {}] and does nothing.  Otherwise it is defined exactly while
    [argc] is an index of the shortest of the strings it reads, its NUL included:
    then it returns the sum of their characters at that index, which does not
    overflow, and beyond it reads out of bounds.  Up to 11 arguments that is
    never so. *)
Theorem c_main_in_bounds m p argc r :
  CompilerIdC.compile m = Some p →
  (if CompilerIdC.ID_VOID_MAIN m then CompilerIdC.main m p argc r = Ok (None, r) else
   let v := sum_at (c_main_strings p) argc in
   if decide (in_bounds (c_main_strings p) argc)
   then CompilerIdC.main m p argc r = Ok (Some v, v) ∧ Z.abs v ≤ 128 * 9
   else CompilerIdC.main m p argc r = Fault OutOfBounds) ∧
  (0 ≤ argc ≤ 11 → in_bounds (c_main_strings p) argc).
Proof.
  intros (t & _ & Hp)%bind_Some. split.
  - unfold CompilerIdC.main. destruct (CompilerIdC.ID_VOID_MAIN m); [done|].
    destruct (main_strings_count p) as [Hcount _]. cbn zeta. case_decide as Hin.
    + destruct (require_all_run argc _ 0 Hin) as (Hv & Hb); [lia|].
      rewrite Z.add_0_l in *. split; [|lia]. erewrite bind_run; [|rewrite c_main_sum; exact Hv]. done.
    + apply bind_fault. rewrite c_main_sum. apply require_all_fault; [done|lia].
  - intros Ha. destruct (object_lengths m t p Hp) as [Hl Harch].
    unfold cxx_main_strings in Hl. unfold in_bounds, c_main_strings.
    rewrite !Forall_app, !Forall_cons in *. destruct_and! Hl.
    split_and!; try (eapply Forall_impl; [eassumption|]; cbn; intros); try constructor; lia.
Qed.

(** The C++ program's [main] likewise; it has no other definition and does not
    read [info_arch], so that up to 15 arguments are safe. *)
Theorem cxx_main_in_bounds m p argc r :
  CompilerIdCXX.compile m = Some p →
  (let v := sum_at (cxx_main_strings p) argc in
   if decide (in_bounds (cxx_main_strings p) argc)
   then CompilerIdCXX.main p argc r = Ok (v, v) ∧ Z.abs v ≤ 128 * 8
   else CompilerIdCXX.main p argc r = Fault OutOfBounds) ∧
  (0 ≤ argc ≤ 15 → in_bounds (cxx_main_strings p) argc).
Proof.
  intros (t & _ & Hp)%bind_Some. destruct (main_strings_count p) as [_ Hcount]. split.
  - cbn zeta. rewrite cxx_main_sum. case_decide as Hin.
    + destruct (require_all_run argc _ 0 Hin) as (Hv & Hb); [lia|].
      rewrite Z.add_0_l in *. split; [done|lia].
    + apply require_all_fault; [done|lia].
  - intros Ha. destruct (object_lengths m t p Hp) as [Hl _].
    eapply Forall_impl; [exact Hl|]. cbn. lia.
Qed.
