(* ===== verification/CompilerVersions.v ===== *)
(** * Packed version words come back as version, revision and patch

    Many compilers predefine one number that packs their version.  The groups of
    both programs take it apart again; the layouts are those of the comments in
    the source. *)

From Stdlib Require Import Ascii.
From S2P Require Import Prelude Preproc CompilerInfo CompilerRead CompilerIdC CompilerIdCXX CompilerProps.

(** The word that packs a version [v], a revision [r] and a patch [p]: the
    revision counts units of [wr], the version units of [wv]. *)
Definition pack (wv wr v r p : Z) : Z := v * wv + r * wr + p.

Definition fits (wv wr v r p : Z) : Prop :=
  0 ≤ v < 100000000 ∧ 0 ≤ r ∧ r * wr + wr ≤ wv ∧ 0 ≤ p < wr ∧ wv ≤ 100000000.

(** A group that unpacks the macro [g_macro] with the units [g_wv] and [g_wr]. *)
Record packed_group := Packed {
  g_group : branch table;
  g_macro : string;
  g_wv : Z;
  g_wr : Z
}.

Section versions.
Context (m : macros).

(** A group that packs in one of two macros, or only without an extra macro. *)
Definition unless (x : string) (g : packed_group) : list packed_group :=
  if is_defined m x then [] else [g].

Definition c_packed_groups : list packed_group :=
  [ Packed (CompilerIdC.HP m) "__HP_cc" 10000 100;
    Packed (CompilerIdC.zOS m) "__IBMC__" 100 10;
    Packed (CompilerIdC.XL m) "__IBMC__" 100 10;
    Packed (CompilerIdC.VisualAge m) "__IBMC__" 100 10;
    Packed (CompilerIdC.TI m) "__TI_COMPILER_VERSION__" 1000000 1000 ] ++
  unless "__SDCC_VERSION_MAJOR" (Packed (CompilerIdC.SDCC m) "SDCC" 100 10) ++
  unless "_SGI_COMPILER_VERSION" (Packed (CompilerIdC.MIPSpro m) "_COMPILER_VERSION" 100 10).

Definition cxx_packed_groups : list packed_group :=
  [ Packed (CompilerIdCXX.HP m) "__HP_aCC" 10000 100;
    Packed (CompilerIdCXX.zOS m) "__IBMCPP__" 100 10;
    Packed (CompilerIdCXX.XL m) "__IBMCPP__" 100 10;
    Packed (CompilerIdCXX.VisualAge m) "__IBMCPP__" 100 10;
    Packed (CompilerIdCXX.TI m) "__TI_COMPILER_VERSION__" 1000000 1000 ] ++
  unless "_SGI_COMPILER_VERSION" (Packed (CompilerIdCXX.MIPSpro m) "_COMPILER_VERSION" 100 10).

End versions.

(** ** Taking a word apart *)

Section unpack.
Context (wv wr v r p : Z) (Hwr : 0 < wr) (Hfits : fits wv wr v r p).

Lemma pack_nonneg : 0 ≤ pack wv wr v r p.
Proof using Hfits Hwr. unfold pack, fits in *. nia. Qed.

Lemma unpack_version : Z.quot (pack wv wr v r p) wv = v.
Proof using Hfits Hwr.
  pose proof pack_nonneg. unfold pack, fits in *.
  rewrite Z.quot_div_nonneg by nia. symmetry. apply (Z.div_unique _ _ _ (r * wr + p)); nia.
Qed.

Lemma unpack_patch : Z.divide wr wv → Z.rem (pack wv wr v r p) wr = p.
Proof using Hfits Hwr.
  intros [k Hk]. pose proof pack_nonneg. unfold pack, fits in *.
  rewrite Z.rem_mod_nonneg by nia. symmetry.
  apply (Z.mod_unique _ _ (v * k + r)); nia.
Qed.

Lemma unpack_revision n :
  0 < n → wv = n * wr → Z.rem (Z.quot (pack wv wr v r p) wr) n = r.
Proof using Hfits Hwr.
  intros Hn Hk. pose proof pack_nonneg. unfold pack, fits in *.
  assert (0 ≤ r < n) by nia.
  rewrite Z.quot_div_nonneg, Z.rem_mod_nonneg by (try apply Z.div_pos; nia).
  assert ((v * wv + r * wr + p) `div` wr = v * n + r) as ->.
  { symmetry. apply (Z.div_unique _ _ _ p); nia. }
  symmetry. apply (Z.mod_unique _ _ v); nia.
Qed.

End unpack.

(** ** The string of a three-part version *)

(** The macros that a version array depends on. *)
Definition version_part (t : table) : table :=
  λ n, match n with
       | COMPILER_VERSION_MAJOR | COMPILER_VERSION_MINOR | COMPILER_VERSION_PATCH
       | COMPILER_VERSION_TWEAK => t n
       | _ => None
       end.

Lemma info_version_part t : info_version (version_part t) = info_version t.
Proof. reflexivity. Qed.

Lemma three_parts_read t a b c :
  t COMPILER_VERSION_MAJOR = Some (DEC (Some a)) →
  t COMPILER_VERSION_MINOR = Some (DEC (Some b)) →
  t COMPILER_VERSION_PATCH = Some (DEC (Some c)) →
  t COMPILER_VERSION_TWEAK = None →
  0 ≤ a < 100000000 → 0 ≤ b < 100000000 → 0 ≤ c < 100000000 →
  ∃ s, info_version t = Some (Some s) ∧ read_version s = Some [a; b; c].
Proof.
  intros Ha Hb Hc Htweak Ra Rb Rc.
  assert (∃ s, info_version t = Some (Some s)) as [s Hs].
  { unfold info_version, dotted, is_def. rewrite Ha, Hb, Hc, Htweak. by eexists. }
  exists s. split; [done|]. rewrite <- info_version_part in Hs.
  assert (∀ n r, version_part t n = Some r → ∃ v, r = DEC (Some v) ∧ 0 ≤ v ∧ is_text_name n = false)
    as Hpart.
  { intros n r. unfold version_part. destruct n; cbn; try done; rewrite ?Ha, ?Hb, ?Hc, ?Htweak;
      intros [= <-]; eexists; (split_and!; [done|lia|done]). }
  rewrite (version_read (version_part t)) with (s := s).
  - cbn [components version_names version_part]. rewrite Ha, Hb, Hc, Htweak.
    cbn [component mbind option_bind]. by rewrite !Z.mod_small by lia.
  - intros n r (v & -> & Hv & Hn)%Hpart. unfold slot_ok. rewrite Hn. by intros ? [= <-].
  - done.
Qed.

(** ** Every packed word comes back *)

(** What the groups of the lists define. *)
Definition unpacks (g : packed_group) (m : macros) : Prop :=
  (g_wr g = 10 ∨ g_wr g = 100 ∨ g_wr g = 1000) ∧
  (∃ n, 0 < n ∧ g_wv g = n * g_wr g ∧
   ∀ w t, value m (g_macro g) = Some w → run (g_group g).2 no_macros = Some t →
     t COMPILER_VERSION_MAJOR = Some (DEC (Some (Z.quot w (g_wv g)))) ∧
     t COMPILER_VERSION_MINOR = Some (DEC (Some (Z.rem (Z.quot w (g_wr g)) n))) ∧
     t COMPILER_VERSION_PATCH = Some (DEC (Some (Z.rem w (g_wr g)))) ∧
     t COMPILER_VERSION_TWEAK = None).

Ltac unpacks_by n :=
  split; [cbn; lia|exists n; split; [lia|split; [reflexivity|]]];
  intros w t Hw; cbn [g_macro g_group g_wv g_wr] in Hw |- *;
  lazymatch goal with |- run (?b _).2 _ = _ → _ => unfold b end;
  unfold pp_if_else; cbn [snd run cascade]; unfold defined;
  repeat match goal with H : is_defined _ _ = false |- _ => rewrite H end;
  rewrite ?Hw; intros [= <-]; split_and!; reflexivity.

Ltac unpack_groups :=
  repeat (apply Forall_cons; split); try apply Forall_nil_2;
  first [unpacks_by constr:(10) | unpacks_by constr:(100) | unpacks_by constr:(1000)].

Lemma c_groups_unpack m : Forall (λ g, unpacks g m) (c_packed_groups m).
Proof.
  unfold c_packed_groups, unless. rewrite !Forall_app. split_and!.
  - unpack_groups.
  - destruct (is_defined m "__SDCC_VERSION_MAJOR") eqn:?; unpack_groups.
  - destruct (is_defined m "_SGI_COMPILER_VERSION") eqn:?; unpack_groups.
Qed.

Lemma cxx_groups_unpack m : Forall (λ g, unpacks g m) (cxx_packed_groups m).
Proof.
  unfold cxx_packed_groups, unless. rewrite !Forall_app. split_and!.
  - unpack_groups.
  - destruct (is_defined m "_SGI_COMPILER_VERSION") eqn:?; unpack_groups.
Qed.

(** A packed version word comes back: for every group of either program that
    takes one number apart, if the compiler packed version [v], revision [r] and
    patch [p] in it, the array [info_version] reads back as exactly [v], [r] and
    [p]. *)
Theorem packed_version_comes_back m g v r p t :
  g ∈ c_packed_groups m ++ cxx_packed_groups m →
  fits (g_wv g) (g_wr g) v r p →
  value m (g_macro g) = Some (pack (g_wv g) (g_wr g) v r p) →
  run (g_group g).2 no_macros = Some t →
  ∃ s, info_version t = Some (Some s) ∧ read_version s = Some [v; r; p].
Proof.
  intros Hg Hfits Hval Hrun.
  assert (unpacks g m) as (Hwr & n & Hn & Hwv & Hgroup).
  { apply elem_of_app in Hg as [Hg|Hg];
      [pose proof (c_groups_unpack m) as H|pose proof (cxx_groups_unpack m) as H];
      rewrite Forall_forall in H; by apply H. }
  destruct (Hgroup _ t Hval Hrun) as (Hmaj & Hmin & Hpat & Htweak).
  assert (0 < g_wr g) as Hpos by lia.
  rewrite (unpack_version _ _ _ _ _ Hpos Hfits) in Hmaj.
  rewrite (unpack_revision _ _ _ _ _ Hpos Hfits n Hn Hwv) in Hmin.
  rewrite (unpack_patch _ _ _ _ _ Hpos Hfits (ex_intro _ n Hwv)) in Hpat.
  unfold fits in Hfits. apply (three_parts_read t); auto; nia.
Qed.
