(* ===== verification/CompilerDemo.v ===== *)
(** * The identification programs on concrete compilers

    The macros of GCC 7.4 on Linux: the strings are those that the repository's
    [src/src/build/CMakeFiles/3.10.2/CompilerIdC/a.out] and [CompilerIdCXX/a.out]
    hold, and the name, version, platform and dialect those that
    [CMakeCCompiler.cmake] records. *)

From Stdlib Require Import Ascii.
From S2P Require Import Prelude Preproc CompilerInfo CompilerRead CompilerIdC CompilerIdCXX CompilerTyped CompilerProps CompilerAgree CompilerMain CompilerVersions.

Definition gcc7_c : macros :=
  list_to_map
    [("__GNUC__", "7"); ("__GNUC_MINOR__", "4"); ("__GNUC_PATCHLEVEL__", "0");
     ("__linux", "1"); ("__linux__", "1"); ("linux", "1"); ("__unix__", "1");
     ("__STDC__", "1"); ("__STDC_VERSION__", "201112L")].

Definition gcc7_cxx : macros :=
  list_to_map
    [("__GNUC__", "7"); ("__GNUC_MINOR__", "4"); ("__GNUC_PATCHLEVEL__", "0");
     ("__linux", "1"); ("__linux__", "1"); ("linux", "1"); ("__unix__", "1");
     ("__STDC__", "1"); ("__GNUG__", "7"); ("__cplusplus", "201402L")].

(** The IBM XL compiler 12.1 on AIX, in both languages, and IAR for ARM 8.20.1. *)
Definition xl_c : macros :=
  list_to_map [("__IBMC__", "1210"); ("_AIX", "1"); ("__STDC__", "1")].
Definition iar_c : macros :=
  list_to_map
    [("__IAR_SYSTEMS_ICC__", "9"); ("__VER__", "8020001"); ("__ICCARM__", "1");
     ("__STDC__", "1"); ("__STDC_VERSION__", "201112L")].

Example gcc7_c_strings :
  info_strings <$> CompilerIdC.compile gcc7_c =
  Some ["INFO:compiler[GNU]"; "INFO:compiler_version[00000007.00000004.00000000]";
        "INFO:platform[Linux]"; "INFO:arch[]"; "INFO:dialect_default[11]"].
Proof. vm_compute. reflexivity. Qed.

Example gcc7_cxx_strings :
  info_strings <$> CompilerIdCXX.compile gcc7_cxx =
  Some ["INFO:compiler[GNU]"; "INFO:compiler_version[00000007.00000004.00000000]";
        "INFO:platform[Linux]"; "INFO:arch[]"; "INFO:dialect_default[14]"].
Proof. vm_compute. reflexivity. Qed.

Example iar_c_strings :
  info_strings <$> CompilerIdC.compile iar_c =
  Some ["INFO:compiler[IAR]"; "INFO:compiler_version[00000008.00000020.00000001]";
        "INFO:compiler_version_internal[00000009]";
        "INFO:platform[]"; "INFO:arch[ARM]"; "INFO:dialect_default[11]"].
Proof. vm_compute. reflexivity. Qed.

(** Each program refuses the other language's compiler. *)
Example wrong_language :
  CompilerIdC.compile gcc7_cxx = None ∧ CompilerIdCXX.compile gcc7_c = None.
Proof. vm_compute. done. Qed.

(** A digit above nine of a hexadecimal version is not a decimal digit. *)
Example hex_beyond_bcd : chars (Some (HEX (Some 0x1B))) = Some "0000001;".
Proof. vm_compute. reflexivity. Qed.

Definition the {A} (d : A) (o : option A) : A := default d o.
Definition no_program : program :=
  Program "" None None None None None None "" "" "".
Definition gcc7_c_program : program := the no_program (CompilerIdC.compile gcc7_c).
Definition gcc7_cxx_program : program := the no_program (CompilerIdCXX.compile gcc7_cxx).

Lemma gcc7_c_compiles : CompilerIdC.compile gcc7_c = Some gcc7_c_program.
Proof. vm_compute. reflexivity. Qed.
Lemma gcc7_cxx_compiles : CompilerIdCXX.compile gcc7_cxx = Some gcc7_cxx_program.
Proof. vm_compute. reflexivity. Qed.

(** ** Witnesses *)

Lemma macro_tables_typed_witness :
  is_Some (CompilerIdC.macro_table gcc7_c) ∧
  ∀ t, CompilerIdC.macro_table gcc7_c = Some t → typed t.
Proof.
  split; [vm_compute; eauto|]. intros t Ht. exact (macro_tables_typed gcc7_c t (or_introl Ht)).
Defined.

Lemma program_reads_back_witness :
  (∃ t, CompilerIdC.macro_table gcc7_c = Some t ∧ reads_as gcc7_c_program t) ∧
  (∃ t, CompilerIdCXX.macro_table gcc7_cxx = Some t ∧ reads_as gcc7_cxx_program t).
Proof.
  split; [apply program_reads_back, gcc7_c_compiles|apply program_reads_back, gcc7_cxx_compiles].
Defined.

Lemma gnu_is_asked_last_witness :
  ∃ t, CompilerIdC.macro_table gcc7_c = Some t ∧ t COMPILER_ID = Some (Str "GNU").
Proof.
  destruct (CompilerIdC.macro_table gcc7_c) as [t|] eqn:E; [|vm_compute in E; discriminate].
  exists t. split; [done|]. apply (gnu_is_asked_last gcc7_c t E).
  split; [reflexivity|]. repeat constructor.
Defined.

Lemma both_programs_agree_witness : same_but_dialect gcc7_c_program gcc7_cxx_program.
Proof.
  apply (both_programs_agree gcc7_c gcc7_cxx);
    [|apply gcc7_c_compiles|apply gcc7_cxx_compiles].
  constructor; try reflexivity. intros x Hx. unfold gcc7_c, gcc7_cxx. cbn.
  rewrite !lookup_insert. unfold is_specific in Hx. cbn in Hx.
  repeat (case_decide; subst; [by try discriminate Hx|]). done.
Defined.

Lemma c_main_in_bounds_witness :
  CompilerIdC.main gcc7_c gcc7_c_program 1 0 = Ok (Some 390, 390) ∧
  CompilerIdC.main gcc7_c gcc7_c_program 12 0 = Fault OutOfBounds.
Proof.
  split.
  - destruct (c_main_in_bounds gcc7_c gcc7_c_program 1 0 gcc7_c_compiles) as [Hrun Hin].
    change (CompilerIdC.ID_VOID_MAIN gcc7_c) with false in Hrun. cbn beta iota zeta in Hrun.
    rewrite decide_True in Hrun by (apply Hin; lia). rewrite (proj1 Hrun). by vm_compute.
  - destruct (c_main_in_bounds gcc7_c gcc7_c_program 12 0 gcc7_c_compiles) as [Hrun _].
    change (CompilerIdC.ID_VOID_MAIN gcc7_c) with false in Hrun. cbn beta iota zeta in Hrun.
    rewrite decide_False in Hrun; [exact Hrun|]. intros Hin.
    apply Forall_inv_tail, Forall_inv_tail, Forall_inv in Hin. vm_compute in Hin. by destruct Hin.
Defined.

(** With twelve arguments the C program reads beyond [info_arch]; the C++ program,
    which does not read it, is still defined. *)
Example twelve_arguments :
  CompilerIdC.main gcc7_c gcc7_c_program 12 0 = Fault OutOfBounds ∧
  ∃ v, CompilerIdCXX.main gcc7_cxx_program 12 0 = Ok (v, v).
Proof. vm_compute. eauto. Qed.

Lemma packed_version_comes_back_witness :
  ∃ s t, run (CompilerIdC.XL xl_c).2 no_macros = Some t ∧
    info_version t = Some (Some s) ∧ read_version s = Some [12; 1; 0].
Proof.
  destruct (run (CompilerIdC.XL xl_c).2 no_macros) as [t|] eqn:E;
    [|vm_compute in E; discriminate].
  destruct (packed_version_comes_back xl_c (Packed (CompilerIdC.XL xl_c) "__IBMC__" 100 10)
    12 1 0 t) as (s & Hs & Hr).
  - apply elem_of_app. left. unfold c_packed_groups. apply elem_of_app. left.
    rewrite !elem_of_cons. auto.
  - unfold fits. cbn. lia.
  - reflexivity.
  - exact E.
  - by exists s, t.
Defined.
